(* ===== verification/_CoqProject ===== *)
-Q . S2P
Prelude.v
Types.v
World.v
Layout.v
FetchQueue.v
Stripe.v
Metadata.v
Flush.v
IoChannel.v
Submit.v
FetchProtocol.v
IoInv.v
Refine.v
System.v
Moves.v
Outcome.v
Idle.v
Work.v
SystemProps.v
Progress.v
Books.v
FlushData.v
Faults.v
Persist.v
Disk.v
Restart.v
Crash.v
Flaws.v
Lifecycle.v
Rpc.v
LifeSpec.v
Ownership.v
Channel.v
LifeProps.v
Creation.v
Registration.v
Vhost.v
