(* ===== verification/Prelude.v ===== *)
(** Verification of bdev_ubi, an SPDK virtual block device.

    * The program

    A ubi bdev presents a disk that starts with the contents of an image file
    and keeps changes on a base bdev.  The disk is divided into stripes; a
    stripe of the image is fetched, that is copied from the image to the base
    bdev, before it is written (and, with [copy_on_read], before it is read).
    The first [UBI_METADATA_SIZE] bytes of the base bdev hold the metadata,
    with one header per stripe that says whether it was fetched; data start
    behind them.  A flush request makes the data and then the metadata durable.

    SPDK calls the module on several threads, each with a channel of its own
    (a queue of requests, a queue of stripes to fetch, eight fetch slots, an
    io_uring for the image file).  A request is queued on its channel
    ([ubi_submit_request]); the poller of the channel ([ubi_io_poll]) handles
    the completions of the ring, starts fetches, and dispatches the queued
    requests in order, waiting while the stripe of the first one is in flight.
    The stripe statuses, the metadata and their counters are shared by the
    channels of a bdev.  RPC requests create and delete bdevs.

    * The files, and what of [src/] they model

    Foundations.
    - [Prelude]: C integers of a width as [Z] with their wrap-around; the
      state monad with undefined behaviour and loop fuel, its weakest
      preconditions and their tactics; facts on lists.
    - [Types]: structures and constants of [include/bdev_ubi_internal.h] and
      [include/bdev_ubi.h], field by field, and the [world] a handler runs on.
    - [World]: reads and writes of the state, and the calls to SPDK and
      liburing on the I/O path.

    The I/O path, function by function.
    - [Layout]: [ubi_init_layout_params] of [src/lib/bdev_ubi.c].
    - [Metadata]: [ubi_new_disk], [ubi_init_metadata], the version functions
      and the loading loop of [ubi_finish_read_metadata] ([src/lib/bdev_ubi.c]).
      The code serialises nothing, it passes the structure itself as a buffer:
      [metadata_of_bytes] says what its members are when its memory holds the
      bytes of a disk.
    - [FetchQueue], [Stripe]: [src/lib/bdev_ubi_stripe.c].
    - [Flush]: [src/lib/bdev_ubi_flush.c].
    - [IoChannel]: the poller and the reads and writes of
      [src/lib/bdev_ubi_io_channel.c].
    - [Submit]: [ubi_submit_request] and [ubi_io_type_supported] of
      [src/lib/bdev_ubi.c].

    The I/O path as a system.
    - [FetchProtocol]: an abstract transition system of the stripe fetches of
      all channels, with its invariant.
    - [IoInv]: the invariant that accounts for every request.
    - [Refine]: each handler keeps both invariants, is free of undefined
      behaviour, and takes steps of the protocol.
    - [System]: events in any order, among them the opening and closing of
      channels, and runs of them, the step theorem that composes the handlers,
      and a concrete system for the witnesses.
    - [Moves], [Outcome], [Idle], [Work], [Books]: what handlers leave alone,
      which requests an event completes and why with success, what a channel
      without requests has left, the work that is left, and the metadata books,
      each shown handler by handler.
    - [SystemProps], [Progress], [FlushData], [Faults], [Persist], [Disk],
      [Restart]: the properties of runs.
    - [Crash]: runs on a base bdev with a volatile write cache, in which writes
      and flushes, of the data and of the metadata, act on the blocks of their
      range only; crashes of it, and what a bdev created afterwards presents.
    - [Flaws]: runs in which an assumption of the theorems does not hold, and
      data are lost or a handler is undefined.

    The life cycle of bdevs and channels.
    - [Lifecycle]: creation, deletion, base bdev events ([src/lib/bdev_ubi.c]).
    - [Rpc]: [src/lib/bdev_ubi_rpc.c] and [ubi_write_config_json].
    - [LifeSpec]: the exact effect of each operation on every branch.
    - [Ownership]: an abstract machine of the bdevs that owns every resource,
      whose steps are labelled with the events and guarded, and the simulation
      of the module by it.
    - [Channel]: creation and destruction of a channel
      ([src/lib/bdev_ubi_io_channel.c]).
    - [LifeProps], [Creation]: the properties of the life cycle.
    - [Registration]: the module table, the function table and the RPC methods,
      and that the events are calls through them.
    - [Vhost]: [src/app/vhost_ubi.c].

    A C pointer is a key of a finite map (channels, I/O objects, bdevs,
    contexts), and a use of a pointer that is not a key is undefined; a C array
    is a function with an explicit check of the index; an assignment wraps
    around at the width of its target.  A callback is a value in the state (an
    outstanding request, a due message) that an event of the environment
    takes off and runs.

    * What the theorems show

    - The module is a disk: [Disk.disk_refinement] relates every run to an
      atomic disk whose first contents are the image.  What it relates are the
      submissions of the callers and the calls of [spdk_bdev_io_complete] they
      see, with the data of reads: a request that failed below must not be
      reported as a success.
    - Handlers are safe: in every reachable state a handler that can be called
      returns, without undefined behaviour and with the fuel it is given
      ([SystemProps.system_safe], in the environments of [env_ok] described
      below, and [LifeProps.lifecycle_safe]).  When submissions of stripe
      fetches fail, the poll is undefined in the end
      ([Flaws.failed_submissions_undefined]).
    - Requests are answered: exactly once ([io_exactly_once],
      [rpc_answered_once]; at most once also when the base bdev
      fails, [SystemProps.io_completed_once]), and eventually
      ([Progress.io_answered_eventually], [rpc_answered_eventually]); each
      liveness theorem gives a measure and shows that a state that is not
      finished can make a step that lowers it.
    - Stripe fetches do no harm: one owner per stripe in flight, statuses that
      only move forward, stripe writes that overlap no other request, requests
      inside the data area ([stripe_inflight_owner],
      [stripe_status_monotone], [fetch_write_disjoint],
      [requests_in_bounds]); and a channel whose requests are completed has
      nothing left to do for them ([channel_closable]).
    - Flushes make durable what they promise.  After a crash that loses any of
      the unflushed writes, a block written before a flush arrived that
      succeeded has one of the contents it had since
      ([Crash.flush_survives_crash]); the other blocks too, when no stripe
      write is completed while the flush waits
      ([exclusive_flush_consistent]), and not otherwise
      ([unflushed_stripe_recorded]).  A restart without a crash presents the
      same contents ([Restart.restart_keeps_contents]).  The steps are the
      flush of the range of the request ([FlushData.flush_covers_data]) and of
      the headers of the stripes fetched before it arrived
      ([Persist.flush_persists]).
    - Every resource is accounted for and nothing is shared: a run of the module
      is a run of the machine of owners, with the same answers, and what is
      allocated is what the machine holds ([lifecycle_refinement]); when the
      last bdev is gone, only channel references of creations whose metadata
      read was refused and strings of deletions that did not decode can be left
      ([nothing_leaks]).  See also [base_exclusive],
      [create_all_or_nothing], [channel_lifecycle].
    - What is written can be read again ([Metadata.metadata_recreate],
      [config_roundtrip]), and the ring buffer of the fetch queue is a FIFO list
      ([fetch_queue_fifo]).
    - Behaviour at the edges and under faults, including the places where the
      code does not do what it means to: [fetch_queue_overflow],
      [new_disk_keeps_stale_headers], [Metadata.load_metadata_rejects],
      [Metadata.metadata_stripe_size_truncated],
      [Creation.delete_decode_leak], [Vhost.main_refuses], the theorems of
      [Faults] and [Flaws], [Persist.overlapping_flushes_lose],
      [Progress.image_read_stuck].

    * What is assumed of the environment

    The calls to SPDK, liburing and the C library are parameters; a theorem
    quantifies over all of them, within these conditions:
    - [env_ok] ([Refine]): liburing has a free entry unless the submission
      queue is full; a submission takes every prepared entry or fails, which is
      documented behaviour; and it does not fail when a stripe fetch is
      prepared, which is not.  The code has an error path for such a failure,
      and in these environments it is dead; but it leaves the entry on the
      ring, so that a later fetch is completed by it
      ([Flaws.stale_fetch_entry]), and after 32 of them the ring has no entry
      left and [ubi_start_fetch_stripe] writes through a NULL pointer
      ([Flaws.failed_submissions_undefined]).  Every theorem on runs of the
      I/O path has this condition, also where its name does not show it:
      [any_step] and [lossless_step] include [env_ok].  Only [Flaws] goes
      without it.
    - [enabled] ([System]): SPDK checks the range of a request and splits it at
      stripe boundaries, as the bdev asks it to; an I/O object is not submitted
      again before it is completed; there is room in the fetch queue of the
      channel (which holds when the image has fewer stripes than the queue has
      entries, see [fetch_queue_room]).
    - [lossless_step]: the base bdev accepts requests and does not fail a data
      flush; only [io_exactly_once] and [io_answered_eventually] need it, and
      [failed_flush_hangs] and [refused_write_hangs] of [Faults] show what
      happens otherwise.
    - [responsive] ([Progress]): the ring reports a completion it has.
    - [mod_env_ok] ([LifeSpec]), [json_decoder_ok] ([Rpc]), [channel_env_ok]
      ([Channel]): fresh allocations, descriptors and file descriptors, an
      exclusive claim, and a JSON decoder that follows the tables it is given.
    - [fresh_channel] ([System]): a channel that is opened is as
      [ubi_create_channel_cb] leaves it; SPDK closes a channel when the caller
      has put it, which may not be before its requests are completed
      ([no_started]).
    - [Persist] assumes of the base bdev that a completed metadata write leaves
      each header as it was at some moment between its submission and its
      completion, and, with [Crash], that metadata writes of different flushes
      do not overlap ([serial_flushes]); [overlapping_flushes_lose] shows that
      this is needed.
    - [Crash] assumes of the base bdev that a block that is written is old or
      new, that a flush that succeeds makes durable, in its range, the writes
      completed before it was submitted, and nothing else: after a crash a
      block has any content that was written to it since, by a completed or by
      an outstanding request.  What the base bdev holds when the bdev is
      created is durable.
    - [Disk] assumes that image reads are complete, that stripe writes succeed
      ([faithful_step]) and that the image ends at a stripe boundary; the code
      does not check any of these.  [Flaws.unaligned_image_loses_write] shows
      that the last is needed, [Faults.failed_stripe_write_trusted] that the
      second is.  [fetch_write_disjoint] and the upper bound of stripe writes in
      [requests_in_bounds] need the last as well.
    - [created_bdev_initial] assumes that the device has at most
      [UBI_MAX_STRIPES] stripes, which the code does not check.

    Each assumption is met by a concrete environment in the witnesses.

    * Fuel and bounds

    [log2_loop] runs with 32 rounds of fuel for a 32-bit number.
    [process_ios] runs with one round more than the queue has requests, since
    every round removes one.  [load_stripes] counts [UBI_MAX_STRIPES] rounds, as
    the loop of the code does.  [system_safe] and [lifecycle_safe] include that
    no fuel runs out.

    * Not modelled

    Error messages and the test programs.  Statistics counters are modelled
    where a handler updates them.  The handlers of different threads are
    interleaved as wholes: the module does not lock the statuses and counters
    that channels share, and races inside two handlers that run at the same
    time are not considered.

    A completion is reported to the caller inside [spdk_bdev_io_complete]; a
    caller may submit its next request from its callback, on the channel that
    is being polled.  Such a request is modelled as one that arrives with the
    next event, after the handler that completed the first one has returned:
    a call of [ubi_submit_request] in the middle of a poll is not. *)
From stdpp Require Import base tactics list gmap option numbers.
From Stdlib Require Import ZArith Lia.

Local Open Scope Z_scope.

(** * Fixed-width C integers

    A C value of an unsigned w-bit type is a [Z] in [0, 2^w); every
    conversion of the source is written with the wrap-around function of
    the target type. *)

Definition u8 (z : Z) : Z := z `mod` 2 ^ 8.
Definition u16 (z : Z) : Z := z `mod` 2 ^ 16.
Definition u32 (z : Z) : Z := z `mod` 2 ^ 32.
Definition u64 (z : Z) : Z := z `mod` 2 ^ 64.

(** Conversion to a 32-bit two's complement [int]. *)
Definition i32 (z : Z) : Z := (z + 2 ^ 31) `mod` 2 ^ 32 - 2 ^ 31.

(** Truth value of a C integer in a condition. *)
Definition c_true (z : Z) : bool := negb (z =? 0).

(** * Effects: state, undefined behaviour and fuel

    A handler of the source is a computation over the state it works on.
    [Undef] is C undefined behaviour (an index outside an array, a NULL or
    dangling pointer that is dereferenced, a double free); [NoFuel] is the
    exhaustion of the fuel of a loop. *)

Inductive outcome (S A : Type) : Type :=
| Done (a : A) (s : S)
| Undef
| NoFuel.
Arguments Done {S A} a s.
Arguments Undef {S A}.
Arguments NoFuel {S A}.

Definition M (S A : Type) : Type := S → outcome S A.

#[export] Instance M_ret {S} : MRet (M S) := λ A a s, Done a s.
#[export] Instance M_bind {S} : MBind (M S) := λ A B f m s,
  match m s with
  | Done a s' => f a s'
  | Undef => Undef
  | NoFuel => NoFuel
  end.

Definition gets {S A} (f : S → A) : M S A := λ s, Done (f s) s.
Definition modify {S} (f : S → S) : M S unit := λ s, Done tt (f s).
Definition undef {S A} : M S A := λ _, Undef.
Definition nofuel {S A} : M S A := λ _, NoFuel.
Definition of_option {S A} (o : option A) : M S A :=
  match o with Some a => mret a | None => undef end.

(** [wp m s Q]: running [m] from [s] terminates, has no undefined behaviour,
    and ends with a result and a state that satisfy [Q]. *)
Definition wp {S A} (m : M S A) (s : S) (Q : A → S → Prop) : Prop :=
  match m s with Done a s' => Q a s' | _ => False end.

(** * Rules of [wp] *)

Section WP.
Context {S : Type}.

Lemma wp_ret {A} (a : A) (s : S) Q : Q a s → wp (mret a) s Q.
Proof. done. Qed.

Lemma wp_bind {A B} (m : M S A) (f : A → M S B) (s : S) Q :
  wp m s (λ a s', wp (f a) s' Q) → wp (mbind f m) s Q.
Proof. unfold wp, mbind, M_bind. by destruct (m s). Qed.

Lemma wp_mono {A} (m : M S A) (s : S) (P Q : A → S → Prop) :
  wp m s P → (∀ a s', P a s' → Q a s') → wp m s Q.
Proof. unfold wp. destruct (m s); [auto|done|done]. Qed.

Lemma wp_gets {A} (f : S → A) (s : S) Q : Q (f s) s → wp (gets f) s Q.
Proof. done. Qed.

Lemma wp_modify (f : S → S) (s : S) Q : Q tt (f s) → wp (modify f) s Q.
Proof. done. Qed.

Lemma wp_of_option {A} (o : option A) a (s : S) Q :
  o = Some a → Q a s → wp (of_option o) s Q.
Proof. by intros ->. Qed.

Lemma wp_done {A} (m : M S A) (s : S) Q :
  wp m s Q ↔ ∃ a s', m s = Done a s' ∧ Q a s'.
Proof.
  unfold wp. destruct (m s) as [a s'| |]; split; try done.
  - intros HQ. by exists a, s'.
  - by intros (? & ? & [= <- <-] & ?).
  - by intros (? & ? & ? & ?).
  - by intros (? & ? & ? & ?).
Qed.

Lemma wp_conj {A} (m : M S A) (s : S) (P Q : A → S → Prop) :
  wp m s P → wp m s Q → wp m s (λ a s', P a s' ∧ Q a s').
Proof. unfold wp. by destruct (m s). Qed.
End WP.

(** * Integer facts *)

Lemma u8_small z : 0 ≤ z < 2 ^ 8 → u8 z = z.
Proof. apply Z.mod_small. Qed.
Lemma u16_small z : 0 ≤ z < 2 ^ 16 → u16 z = z.
Proof. apply Z.mod_small. Qed.
Lemma u32_small z : 0 ≤ z < 2 ^ 32 → u32 z = z.
Proof. apply Z.mod_small. Qed.
Lemma u64_small z : 0 ≤ z < 2 ^ 64 → u64 z = z.
Proof. apply Z.mod_small. Qed.
Lemma i32_small z : - 2 ^ 31 ≤ z < 2 ^ 31 → i32 z = z.
Proof. intros H. unfold i32. rewrite Z.mod_small; lia. Qed.

Lemma u32_range z : 0 ≤ u32 z < 2 ^ 32.
Proof. apply Z.mod_pos_bound. lia. Qed.
Lemma u64_range z : 0 ≤ u64 z < 2 ^ 64.
Proof. apply Z.mod_pos_bound. lia. Qed.

(** Masking with [2^k - 1] is the remainder modulo [2^k]. *)
Lemma land_mask z k : 0 ≤ k → Z.land z (2 ^ k - 1) = z `mod` 2 ^ k.
Proof.
  intros Hk. rewrite <-Z.land_ones by done. f_equal.
  rewrite Z.ones_equiv. lia.
Qed.

Lemma shiftr_div z k : 0 ≤ k → Z.shiftr z k = z `div` 2 ^ k.
Proof. intros Hk. by apply Z.shiftr_div_pow2. Qed.

(** Bits below and above position [k] do not overlap. *)
Lemma lor_low_high a b k : 0 ≤ k → 0 ≤ a < 2 ^ k → Z.lor a (Z.shiftl b k) = a + b * 2 ^ k.
Proof.
  intros Hk Ha. rewrite <-Z.shiftl_mul_pow2 by done. rewrite <-Z.lxor_lor, Z.add_nocarry_lxor;
    [done|..].
  all: apply Z.bits_inj'; intros i Hi;
    rewrite Z.land_spec, Z.bits_0, Z.shiftl_spec by done;
    rewrite <-(Z.mod_small a (2 ^ k)) by done; destruct (decide (i < k)).
  all: first [rewrite (Z.testbit_neg_r _ (i - k)) by lia; by rewrite andb_false_r
             |rewrite Z.mod_pow2_bits_high by lia; done].
Qed.

(** * List facts *)

Lemma length_filter_iff {A} (P Q : A → Prop) `{!∀ x, Decision (P x)} `{!∀ x, Decision (Q x)}
    (l : list A) :
  (∀ x, x ∈ l → P x ↔ Q x) → length (filter P l) = length (filter Q l).
Proof.
  intros Hiff. induction l as [|x l IH]; [done|]. rewrite !filter_cons.
  assert (P x ↔ Q x) by (apply Hiff; left). repeat case_decide; try tauto; simpl;
    rewrite IH; auto; intros y Hy; apply Hiff; by right.
Qed.

(** Filters with a weaker condition keep more. *)
Lemma length_filter_le {A} (P Q : A → Prop) `{!∀ x, Decision (P x)} `{!∀ x, Decision (Q x)} (l : list A) :
  (∀ x, x ∈ l → P x → Q x) → (length (filter P l) ≤ length (filter Q l))%nat.
Proof.
  intros HPQ. induction l as [|x l IH]; [done|]. rewrite !filter_cons.
  assert (P x → Q x) by (apply HPQ; left).
  assert (length (filter P l) ≤ length (filter Q l))%nat by (apply IH; intros y ?; apply HPQ; by right).
  repeat case_decide; try tauto; simpl; lia.
Qed.

Lemma length_filter_lt {A} (P Q : A → Prop) `{!∀ x, Decision (P x)} `{!∀ x, Decision (Q x)} (l : list A) x :
  (∀ x, x ∈ l → P x → Q x) → x ∈ l → Q x → ¬ P x → (length (filter P l) < length (filter Q l))%nat.
Proof.
  intros HPQ (l1 & l2 & ->)%list_elem_of_split Hq Hp.
  rewrite !list.filter_app, !length_app, (filter_cons_False P), (filter_cons_True Q) by done. simpl.
  assert (length (filter P l1) ≤ length (filter Q l1))%nat.
  { apply length_filter_le. intros y ?. apply HPQ, elem_of_app. by left. }
  assert (length (filter P l2) ≤ length (filter Q l2))%nat; [|lia].
  apply length_filter_le. intros y ?. apply HPQ, elem_of_app. right. by right.
Qed.

(** One more element of a list without repetition passes. *)
Lemma length_filter_add {A} (P Q : A → Prop) `{!∀ x, Decision (P x)} `{!∀ x, Decision (Q x)} (l : list A) x :
  NoDup l → x ∈ l → ¬ P x → Q x → (∀ y, y ∈ l → y ≠ x → P y ↔ Q y) →
  length (filter Q l) = S (length (filter P l)).
Proof.
  intros Hnd (l1 & l2 & ->)%list_elem_of_split Hp Hq Hiff.
  apply list.NoDup_app in Hnd as (_ & Hd & Hnd). apply list.NoDup_cons in Hnd as [Hx _].
  rewrite !list.filter_app, !length_app, (filter_cons_False P), (filter_cons_True Q) by done. simpl.
  rewrite (length_filter_iff Q P l1), (length_filter_iff Q P l2); [lia|..].
  - intros y Hy. symmetry. apply Hiff; [apply elem_of_app; right; by right|]. by intros ->.
  - intros y Hy. symmetry. apply Hiff; [apply elem_of_app; by left|]. intros ->.
    apply (Hd x Hy). left.
Qed.

Lemma filter_all {A} (P : A → Prop) `{!∀ x, Decision (P x)} (l : list A) :
  (∀ x, x ∈ l → P x) → filter P l = l.
Proof.
  intros HP. induction l as [|x l IH]; [done|].
  rewrite filter_cons_True by (apply HP; left). f_equal. apply IH. intros y Hy. apply HP. by right.
Qed.

Lemma filter_none {A} (P : A → Prop) `{!∀ x, Decision (P x)} (l : list A) :
  (∀ x, x ∈ l → ¬ P x) → filter P l = [].
Proof.
  intros HP. induction l as [|x l IH]; [done|].
  rewrite filter_cons_False by (apply HP; left). apply IH. intros y Hy. apply HP. by right.
Qed.

(** A key that occurs at most once gives a list without repetition. *)
Lemma NoDup_fmap_filter {A B} `{EqDecision B} (f : A → B) (l : list A) :
  (∀ b, (length (filter (λ x, f x = b) l) ≤ 1)%nat) → NoDup (f <$> l).
Proof.
  induction l as [|x l IH]; intros H1; simpl; constructor.
  - intros (y & Hy & Hin)%list_elem_of_fmap. specialize (H1 (f x)).
    rewrite filter_cons_True in H1 by done. cbn [length] in H1.
    assert (Hin' : y ∈ filter (λ z, f z = f x) l) by by apply list_elem_of_filter.
    destruct (filter _ l); [by apply not_elem_of_nil in Hin'|cbn [length] in H1; lia].
  - apply IH. intros b. specialize (H1 b). rewrite filter_cons in H1.
    destruct (decide (f x = b)); cbn [length] in H1; lia.
Qed.

(** A key without repetition identifies an element. *)
Lemma NoDup_fmap_key {A B} (f : A → B) (l : list A) x y :
  NoDup (f <$> l) → x ∈ l → y ∈ l → f x = f y → x = y.
Proof.
  induction l as [|z l IH]; [by intros _ ?%not_elem_of_nil|].
  cbn. intros Hnd [->|Hx]%elem_of_cons [->|Hy]%elem_of_cons Heq; [done|..]; inversion Hnd as [|? ? Hz Hnd'];
    subst; [..|by apply IH].
  - exfalso. apply Hz. rewrite Heq. by apply list_elem_of_fmap_2.
  - exfalso. apply Hz. rewrite <-Heq. by apply list_elem_of_fmap_2.
Qed.

(** Hint database of the development. *)
Create HintDb ubi.
#[export] Hint Resolve u32_range u64_range : ubi.
