(* ===== verification/Types.v ===== *)
(** Data model of bdev_ubi: the constants, enumerations and structures of
    [include/bdev_ubi_internal.h] and [include/bdev_ubi.h], the SPDK and
    io_uring objects the I/O path uses, and the state a handler runs on.

    C arrays are total functions from an index ([Z → A]); the accessors of
    the components check the index against the declared size and are
    undefined outside it.  Pointers are keys: a channel is a key of
    [w_chs], an I/O (and the [ubi_bdev_io] in its [driver_ctx]) a key of
    [w_ios], a [stripe_fetch] a channel key with a slot number. *)
From stdpp Require Import base tactics list gmap option numbers functions strings.
From Stdlib Require Import ZArith Lia.
From S2P Require Import Prelude.

Local Open Scope Z_scope.

(** * Constants of [bdev_ubi_internal.h] *)

Definition UBI_METADATA_SIZE : Z := 8388608.
Definition UBI_MAX_STRIPES : Z := 2 * 1024 * 1024.
Definition UBI_STRIPE_SIZE_MIN : Z := 64.
Definition UBI_STRIPE_SIZE_MAX : Z := 1024.
Definition UBI_PATH_LEN : Z := 1024.
(** ["BDEV_UBI"] with its terminating NUL: the 9 bytes of [UBI_MAGIC_SIZE]. *)
Definition UBI_MAGIC : list Z := [66; 68; 69; 86; 95; 85; 66; 73; 0].
Definition UBI_MAGIC_SIZE : Z := 9.
Definition UBI_VERSION_MAJOR : Z := 0.
Definition UBI_VERSION_MINOR : Z := 1.
Definition UBI_MAX_ACTIVE_STRIPE_FETCHES : Z := 8.
Definition UBI_MAX_CONCURRENT_READS : Z := 24.
Definition UBI_FETCH_QUEUE_SIZE : Z := 32768.
Definition UBI_URING_QUEUE_SIZE : Z := 32.

(** Size of the padding member and of [struct ubi_metadata]: every member is
    a byte array, so the structure has no holes. *)
Definition UBI_PADDING_SIZE : Z :=
  UBI_METADATA_SIZE - UBI_MAGIC_SIZE - UBI_MAX_STRIPES * 2 - 5.
Definition SIZEOF_UBI_METADATA : Z :=
  UBI_MAGIC_SIZE + 2 + 2 + 1 + UBI_MAX_STRIPES * 2 + UBI_PADDING_SIZE.

(** Return values of a poller. *)
Definition SPDK_POLLER_IDLE : Z := 0.
Definition SPDK_POLLER_BUSY : Z := 1.

(** Negated errno values the code returns. *)
Definition EIO : Z := 5.
Definition EAGAIN : Z := 11.
Definition ENOMEM : Z := 12.
Definition ENODEV : Z := 19.
Definition EINVAL : Z := 22.

(** * Enumerations *)

Inductive stripe_status_t : Type :=
| STRIPE_NOT_FETCHED
| STRIPE_INFLIGHT
| STRIPE_FAILED
| STRIPE_FETCHED.

Inductive ubi_io_type : Type := UBI_BDEV_IO | UBI_STRIPE_FETCH.

(** The request types of SPDK that [bdev_ubi.c] names, and the others. *)
Inductive spdk_bdev_io_type : Type :=
| SPDK_BDEV_IO_TYPE_READ
| SPDK_BDEV_IO_TYPE_WRITE
| SPDK_BDEV_IO_TYPE_FLUSH
| SPDK_BDEV_IO_TYPE_WRITE_ZEROES
| SPDK_BDEV_IO_TYPE_RESET
| SPDK_BDEV_IO_TYPE_UNMAP
| SPDK_BDEV_IO_TYPE_OTHER (n : Z).

Inductive spdk_bdev_io_status : Type :=
| SPDK_BDEV_IO_STATUS_SUCCESS
| SPDK_BDEV_IO_STATUS_FAILED.

#[export] Instance stripe_status_eq_dec : EqDecision stripe_status_t.
Proof. solve_decision. Defined.
#[export] Instance ubi_io_type_eq_dec : EqDecision ubi_io_type.
Proof. solve_decision. Defined.
#[export] Instance spdk_bdev_io_type_eq_dec : EqDecision spdk_bdev_io_type.
Proof. solve_decision. Defined.
#[export] Instance spdk_bdev_io_status_eq_dec : EqDecision spdk_bdev_io_status.
Proof. solve_decision. Defined.

(** * Structures *)

(** On-disk metadata ([struct ubi_metadata]): byte arrays. *)
Record ubi_metadata : Type := mk_metadata {
  md_magic : list Z;
  md_versionMajor : list Z;
  md_versionMinor : list Z;
  md_stripe_size_kb : Z;
  md_stripe_headers : Z → Z * Z;
  md_padding : Z → Z
}.

(** The members of SPDK's [struct spdk_bdev] that the code reads or writes,
    with the address of the object, which is its identity; a NULL name is
    [None]. *)
Record spdk_bdev : Type := mk_bdev {
  bd_addr : Z;
  bd_name : option string;
  bd_blocklen : Z;
  bd_blockcnt : Z;
  bd_write_cache : bool;
  bd_product_name : string;
  bd_optimal_io_boundary : Z;
  bd_split_on_optimal_io_boundary : bool;
  bd_required_alignment : Z
}.

(** [struct ubi_base_bdev_info]: the base bdev and the descriptor through
    which it is open ([None] is NULL). *)
Record ubi_base_bdev_info : Type := mk_base_info {
  bi_bdev : option spdk_bdev;
  bi_desc : option Z
}.

Record ubi_bdev : Type := mk_ubi_bdev {
  ub_bdev : spdk_bdev;
  ub_base_bdev_info : ubi_base_bdev_info;
  ub_image_path : string;
  ub_stripe_size_kb : Z;
  ub_stripe_block_count : Z;
  ub_stripe_shift : Z;
  ub_data_offset_blocks : Z;
  ub_image_block_count : Z;
  ub_alignment_bytes : Z;
  ub_no_sync : bool;
  ub_copy_on_read : bool;
  ub_directio : bool;
  ub_stripe_status : Z → stripe_status_t;
  ub_metadata : ubi_metadata;
  ub_stripes_fetched : Z;
  ub_stripes_flushed : Z;
  ub_thread : Z
}.

(** [struct ubi_bdev_io]: the driver context of an I/O.  [uio_ch] is the
    pointer [ubi_ch]; [ubi_bdev] is the one bdev of the state. *)
Record ubi_bdev_io : Type := mk_ubi_io {
  uio_op : ubi_io_type;
  uio_ch : Z;
  uio_block_offset : Z;
  uio_block_count : Z;
  uio_stripes_fetched : Z
}.

(** The options of [struct spdk_bdev_ext_io_opts] the code fills in; the
    members are opaque pointers. *)
Record spdk_bdev_ext_io_opts : Type := mk_ext_opts {
  eo_memory_domain : Z;
  eo_memory_domain_ctx : Z;
  eo_metadata : Z
}.

(** A request the module received ([struct spdk_bdev_io]). *)
Record spdk_bdev_io : Type := mk_bdev_io {
  io_type : spdk_bdev_io_type;
  io_offset_blocks : Z;
  io_num_blocks : Z;
  io_memory_domain : Z;
  io_memory_domain_ctx : Z;
  io_md_buf : Z;
  io_driver_ctx : ubi_bdev_io
}.

(** [struct stripe_fetch]; [sf_buf] is the address of its buffer. *)
Record stripe_fetch : Type := mk_stripe_fetch {
  sf_op : ubi_io_type;
  sf_active : bool;
  sf_stripe_idx : Z;
  sf_buf : Z;
  sf_buf_aligned : Z
}.

(** The ring buffer [stripe_fetch_queue] of a channel. *)
Record stripe_fetch_queue : Type := mk_queue {
  q_entries : Z → Z;
  q_head : Z;
  q_tail : Z
}.

(** An entry prepared on an io_uring: a read of [nbytes] bytes of the image
    at byte [offset] into a stripe buffer, or a vectored read into the
    buffers of an I/O.  The first argument is the user data. *)
Inductive sqe : Type :=
| SqeRead (slot : nat) (nbytes offset : Z)
| SqeReadv (io : Z) (offset : Z).

(** What the caller of liburing knows of a ring: entries obtained and
    prepared but not submitted, entries submitted whose completion is
    outstanding, and completions that can be reaped with their result. *)
Record io_uring : Type := mk_ring {
  ring_sq : list sqe;
  ring_inflight : list sqe;
  ring_cq : list (sqe * Z)
}.

Record ubi_io_channel : Type := mk_channel {
  ch_blocks_read : Z;
  ch_blocks_written : Z;
  ch_stripes_fetched : Z;
  ch_active_reads : Z;
  ch_stripe_fetches : list stripe_fetch;
  ch_queue : stripe_fetch_queue;
  ch_image_file_fd : Z;
  ch_ring : io_uring;
  ch_has_reads : Z;
  ch_io : list Z
}.

(** * Requests to the base bdev

    A request carries what the code passes to SPDK: the block (or byte)
    range, the buffer owner, and through the constructor the completion
    callback with its argument. *)

Inductive base_req : Type :=
(** [spdk_bdev_write] of a stripe buffer, byte offset and length;
    callback [write_stripe_io_completion]. *)
| RqStripeWrite (ch : Z) (slot : nat) (offset nbytes : Z)
(** [spdk_bdev_readv_blocks_ext] and [spdk_bdev_writev_blocks_ext]; callback
    [ubi_io_completion_cb]. *)
| RqRead (io : Z) (start num : Z) (opts : spdk_bdev_ext_io_opts)
| RqWrite (io : Z) (start num : Z) (opts : spdk_bdev_ext_io_opts)
(** [spdk_bdev_flush_blocks]; callback [ubi_data_flush_completion]. *)
| RqDataFlush (io : Z) (start num : Z)
(** [spdk_bdev_write_blocks] of [&ubi_bdev->metadata]; callback
    [ubi_metadata_write_completion]. *)
| RqMetadataWrite (io : Z) (start num : Z)
(** [spdk_bdev_flush_blocks]; callback [ubi_metadata_flush_completion]. *)
| RqMetadataFlush (io : Z) (start num : Z).

#[export] Instance ext_opts_eq_dec : EqDecision spdk_bdev_ext_io_opts.
Proof. solve_decision. Defined.
#[export] Instance sqe_eq_dec : EqDecision sqe.
Proof. solve_decision. Defined.
#[export] Instance base_req_eq_dec : EqDecision base_req.
Proof. solve_decision. Defined.
