(* ===== verification/World.v ===== *)
(** The state of one running ubi bdev and its interface to SPDK and
    liburing.

    [world] holds the shared [ubi_bdev], the per-thread channels, the I/O
    objects, and a log of the requests handed to the two libraries that
    are still outstanding.  The libraries themselves are not modelled: the
    result of every call that returns one is given by an [ext_env], a
    parameter of every definition that makes such a call, and a completion
    callback runs when the environment chooses (see [System.v]). *)
From stdpp Require Import base tactics list gmap option numbers functions strings.
From Stdlib Require Import ZArith Lia.
From S2P Require Import Prelude Types.

Local Open Scope Z_scope.

(** * State *)

Record world : Type := mk_world {
  w_ub : ubi_bdev;
  w_chs : gmap Z ubi_io_channel;
  w_ios : gmap Z spdk_bdev_io;
  (** requests the base bdev accepted and has not completed *)
  w_pend : list base_req;
  (** requests that completed and whose [spdk_bdev_io] is not freed *)
  w_fin : list base_req;
  (** reads whose data buffer is still being allocated *)
  w_bufq : list Z;
  (** calls of [spdk_bdev_io_complete], the latest first *)
  w_done : list (Z * spdk_bdev_io_status);
  (** number of external calls made *)
  w_tick : nat
}.

(** Calls to SPDK and liburing that return a result. *)
Inductive call : Type :=
| CallGetSqe (ch : Z)
| CallUringSubmit (ch : Z)
| CallBase (r : base_req)
| CallGetBuf (io len : Z)
| CallPeekBatchCqe (ch : Z).

(** The environment: the result of a call in a state.  A pointer result is
    0 for NULL; [spdk_bdev_io_get_buf] answers 0 when the buffer comes
    later, 1 when the callback runs at once with [success = true], and
    anything else when it runs at once with [success = false]. *)
Class ext_env : Type := ext_result : world → call → Z.

(** * Field updates *)

Definition with_status (f : (Z → stripe_status_t) → Z → stripe_status_t)
    (u : ubi_bdev) : ubi_bdev :=
  mk_ubi_bdev (ub_bdev u) (ub_base_bdev_info u) (ub_image_path u)
    (ub_stripe_size_kb u) (ub_stripe_block_count u) (ub_stripe_shift u)
    (ub_data_offset_blocks u) (ub_image_block_count u) (ub_alignment_bytes u)
    (ub_no_sync u) (ub_copy_on_read u) (ub_directio u) (f (ub_stripe_status u))
    (ub_metadata u) (ub_stripes_fetched u) (ub_stripes_flushed u) (ub_thread u).
Definition with_metadata (f : ubi_metadata → ubi_metadata) (u : ubi_bdev) : ubi_bdev :=
  mk_ubi_bdev (ub_bdev u) (ub_base_bdev_info u) (ub_image_path u)
    (ub_stripe_size_kb u) (ub_stripe_block_count u) (ub_stripe_shift u)
    (ub_data_offset_blocks u) (ub_image_block_count u) (ub_alignment_bytes u)
    (ub_no_sync u) (ub_copy_on_read u) (ub_directio u) (ub_stripe_status u)
    (f (ub_metadata u)) (ub_stripes_fetched u) (ub_stripes_flushed u) (ub_thread u).
Definition with_stripes_fetched (n : Z) (u : ubi_bdev) : ubi_bdev :=
  mk_ubi_bdev (ub_bdev u) (ub_base_bdev_info u) (ub_image_path u)
    (ub_stripe_size_kb u) (ub_stripe_block_count u) (ub_stripe_shift u)
    (ub_data_offset_blocks u) (ub_image_block_count u) (ub_alignment_bytes u)
    (ub_no_sync u) (ub_copy_on_read u) (ub_directio u) (ub_stripe_status u)
    (ub_metadata u) n (ub_stripes_flushed u) (ub_thread u).
Definition with_stripes_flushed (n : Z) (u : ubi_bdev) : ubi_bdev :=
  mk_ubi_bdev (ub_bdev u) (ub_base_bdev_info u) (ub_image_path u)
    (ub_stripe_size_kb u) (ub_stripe_block_count u) (ub_stripe_shift u)
    (ub_data_offset_blocks u) (ub_image_block_count u) (ub_alignment_bytes u)
    (ub_no_sync u) (ub_copy_on_read u) (ub_directio u) (ub_stripe_status u)
    (ub_metadata u) (ub_stripes_fetched u) n (ub_thread u).

Definition with_stripe_headers (f : (Z → Z * Z) → Z → Z * Z) (m : ubi_metadata)
    : ubi_metadata :=
  mk_metadata (md_magic m) (md_versionMajor m) (md_versionMinor m)
    (md_stripe_size_kb m) (f (md_stripe_headers m)) (md_padding m).

Definition with_blocks_read (n : Z) (c : ubi_io_channel) : ubi_io_channel :=
  mk_channel n (ch_blocks_written c) (ch_stripes_fetched c) (ch_active_reads c)
    (ch_stripe_fetches c) (ch_queue c) (ch_image_file_fd c) (ch_ring c)
    (ch_has_reads c) (ch_io c).
Definition with_blocks_written (n : Z) (c : ubi_io_channel) : ubi_io_channel :=
  mk_channel (ch_blocks_read c) n (ch_stripes_fetched c) (ch_active_reads c)
    (ch_stripe_fetches c) (ch_queue c) (ch_image_file_fd c) (ch_ring c)
    (ch_has_reads c) (ch_io c).
Definition with_ch_stripes_fetched (n : Z) (c : ubi_io_channel) : ubi_io_channel :=
  mk_channel (ch_blocks_read c) (ch_blocks_written c) n (ch_active_reads c)
    (ch_stripe_fetches c) (ch_queue c) (ch_image_file_fd c) (ch_ring c)
    (ch_has_reads c) (ch_io c).
Definition with_active_reads (n : Z) (c : ubi_io_channel) : ubi_io_channel :=
  mk_channel (ch_blocks_read c) (ch_blocks_written c) (ch_stripes_fetched c) n
    (ch_stripe_fetches c) (ch_queue c) (ch_image_file_fd c) (ch_ring c)
    (ch_has_reads c) (ch_io c).
Definition with_stripe_fetches (l : list stripe_fetch) (c : ubi_io_channel)
    : ubi_io_channel :=
  mk_channel (ch_blocks_read c) (ch_blocks_written c) (ch_stripes_fetched c)
    (ch_active_reads c) l (ch_queue c) (ch_image_file_fd c) (ch_ring c)
    (ch_has_reads c) (ch_io c).
Definition with_queue (q : stripe_fetch_queue) (c : ubi_io_channel) : ubi_io_channel :=
  mk_channel (ch_blocks_read c) (ch_blocks_written c) (ch_stripes_fetched c)
    (ch_active_reads c) (ch_stripe_fetches c) q (ch_image_file_fd c) (ch_ring c)
    (ch_has_reads c) (ch_io c).
Definition with_ring (r : io_uring) (c : ubi_io_channel) : ubi_io_channel :=
  mk_channel (ch_blocks_read c) (ch_blocks_written c) (ch_stripes_fetched c)
    (ch_active_reads c) (ch_stripe_fetches c) (ch_queue c) (ch_image_file_fd c) r
    (ch_has_reads c) (ch_io c).
Definition with_has_reads (n : Z) (c : ubi_io_channel) : ubi_io_channel :=
  mk_channel (ch_blocks_read c) (ch_blocks_written c) (ch_stripes_fetched c)
    (ch_active_reads c) (ch_stripe_fetches c) (ch_queue c) (ch_image_file_fd c)
    (ch_ring c) n (ch_io c).
Definition with_io (l : list Z) (c : ubi_io_channel) : ubi_io_channel :=
  mk_channel (ch_blocks_read c) (ch_blocks_written c) (ch_stripes_fetched c)
    (ch_active_reads c) (ch_stripe_fetches c) (ch_queue c) (ch_image_file_fd c)
    (ch_ring c) (ch_has_reads c) l.

Definition with_ub (u : ubi_bdev) (w : world) : world :=
  mk_world u (w_chs w) (w_ios w) (w_pend w) (w_fin w) (w_bufq w) (w_done w) (w_tick w).
Definition with_chs (m : gmap Z ubi_io_channel) (w : world) : world :=
  mk_world (w_ub w) m (w_ios w) (w_pend w) (w_fin w) (w_bufq w) (w_done w) (w_tick w).
Definition with_ios (m : gmap Z spdk_bdev_io) (w : world) : world :=
  mk_world (w_ub w) (w_chs w) m (w_pend w) (w_fin w) (w_bufq w) (w_done w) (w_tick w).
Definition with_pend (l : list base_req) (w : world) : world :=
  mk_world (w_ub w) (w_chs w) (w_ios w) l (w_fin w) (w_bufq w) (w_done w) (w_tick w).
Definition with_fin (l : list base_req) (w : world) : world :=
  mk_world (w_ub w) (w_chs w) (w_ios w) (w_pend w) l (w_bufq w) (w_done w) (w_tick w).
Definition with_bufq (l : list Z) (w : world) : world :=
  mk_world (w_ub w) (w_chs w) (w_ios w) (w_pend w) (w_fin w) l (w_done w) (w_tick w).
Definition with_done (l : list (Z * spdk_bdev_io_status)) (w : world) : world :=
  mk_world (w_ub w) (w_chs w) (w_ios w) (w_pend w) (w_fin w) (w_bufq w) l (w_tick w).
Definition with_tick (n : nat) (w : world) : world :=
  mk_world (w_ub w) (w_chs w) (w_ios w) (w_pend w) (w_fin w) (w_bufq w) (w_done w) n.

Definition with_driver_ctx (u : ubi_bdev_io) (i : spdk_bdev_io) : spdk_bdev_io :=
  mk_bdev_io (io_type i) (io_offset_blocks i) (io_num_blocks i)
    (io_memory_domain i) (io_memory_domain_ctx i) (io_md_buf i) u.
Definition with_uio_stripes_fetched (n : Z) (u : ubi_bdev_io) : ubi_bdev_io :=
  mk_ubi_io (uio_op u) (uio_ch u) (uio_block_offset u) (uio_block_count u) n.

Definition with_sf_start (stripe_idx : Z) (s : stripe_fetch) : stripe_fetch :=
  mk_stripe_fetch UBI_STRIPE_FETCH true stripe_idx (sf_buf s) (sf_buf_aligned s).
Definition with_buf_aligned (a : Z) (s : stripe_fetch) : stripe_fetch :=
  mk_stripe_fetch (sf_op s) (sf_active s) (sf_stripe_idx s) (sf_buf s) a.
Definition with_active (b : bool) (s : stripe_fetch) : stripe_fetch :=
  mk_stripe_fetch (sf_op s) b (sf_stripe_idx s) (sf_buf s) (sf_buf_aligned s).

(** * Memory accesses *)

Definition get_ub : M world ubi_bdev := gets w_ub.
Definition put_ub (u : ubi_bdev) : M world unit := modify (with_ub u).
(** Dereference of a channel pointer. *)
Definition get_ch (ch : Z) : M world ubi_io_channel :=
  w ← gets id; of_option (w_chs w !! ch).
Definition put_ch (ch : Z) (c : ubi_io_channel) : M world unit :=
  modify (λ w, with_chs (<[ch := c]> (w_chs w)) w).
Definition upd_ch (ch : Z) (f : ubi_io_channel → ubi_io_channel) : M world unit :=
  c ← get_ch ch; put_ch ch (f c).
(** Dereference of an I/O pointer, and of the [ubi_bdev_io] it embeds. *)
Definition get_io (io : Z) : M world spdk_bdev_io :=
  w ← gets id; of_option (w_ios w !! io).
Definition put_io (io : Z) (i : spdk_bdev_io) : M world unit :=
  modify (λ w, with_ios (<[io := i]> (w_ios w)) w).
Definition get_uio (io : Z) : M world ubi_bdev_io := i ← get_io io; mret (io_driver_ctx i).
(** [&ch->stripe_fetches[slot]]. *)
Definition get_slot (ch : Z) (slot : nat) : M world stripe_fetch :=
  c ← get_ch ch; of_option (ch_stripe_fetches c !! slot).
Definition upd_slot (ch : Z) (slot : nat) (f : stripe_fetch → stripe_fetch) : M world unit :=
  c ← get_ch ch;
  s ← of_option (ch_stripe_fetches c !! slot);
  put_ch ch (with_stripe_fetches (<[slot := f s]> (ch_stripe_fetches c)) c).

(** * Calls to SPDK and liburing *)

Section Calls.
Context {E : ext_env}.

(** The result of a call; the state changes only in its call counter. *)
Definition ext (c : call) : M world Z :=
  r ← gets (λ w, ext_result w c);
  modify (λ w, with_tick (S (w_tick w)) w);; mret r.

(** Any of the calls that hand a request to the base bdev: on return code 0
    the request is accepted and its callback will run later. *)
Definition base_submit (r : base_req) : M world Z :=
  ret ← ext (CallBase r);
  if ret =? 0 then modify (λ w, with_pend (r :: w_pend w) w);; mret ret else mret ret.

(** [io_uring_get_sqe]: whether it returned an entry. *)
Definition io_uring_get_sqe (ch : Z) : M world bool :=
  r ← ext (CallGetSqe ch); mret (c_true r).

(** [io_uring_prep_read] or [io_uring_prep_readv] with
    [io_uring_sqe_set_data] on an entry from [io_uring_get_sqe]; on a NULL
    entry the write through the pointer is undefined. *)
Definition io_uring_prep (ch : Z) (have_sqe : bool) (e : sqe) : M world unit :=
  if have_sqe then
    upd_ch ch (λ c, with_ring (mk_ring (ring_sq (ch_ring c) ++ [e])
                                 (ring_inflight (ch_ring c)) (ring_cq (ch_ring c))) c)
  else undef.

(** [io_uring_submit]: a non-negative result is the number of prepared
    entries that were submitted. *)
Definition ring_submit (n : nat) (r : io_uring) : io_uring :=
  mk_ring (drop n (ring_sq r)) (ring_inflight r ++ take n (ring_sq r)) (ring_cq r).
Definition io_uring_submit (ch : Z) : M world Z :=
  ret ← ext (CallUringSubmit ch);
  if ret <? 0 then mret ret
  else upd_ch ch (λ c, with_ring (ring_submit (Z.to_nat ret) (ch_ring c)) c);; mret ret.

(** [io_uring_peek_batch_cqe] with room for [max] completions: a negative
    error, or the completions that can be reaped. *)
Definition io_uring_peek_batch_cqe (ch : Z) (max : nat) : M world (Z + list (sqe * Z)) :=
  n ← ext (CallPeekBatchCqe ch);
  c ← get_ch ch;
  mret (if n <? 0 then inl n
        else inr (take (Z.to_nat n `min` max) (ring_cq (ch_ring c)))).

(** [io_uring_cqe_seen] consumes the oldest completion. *)
Definition ring_seen (r : io_uring) : io_uring :=
  mk_ring (ring_sq r) (ring_inflight r) (drop 1 (ring_cq r)).
Definition io_uring_cqe_seen (ch : Z) : M world unit :=
  upd_ch ch (λ c, with_ring (ring_seen (ch_ring c)) c).

(** Only reported to the caller.  The callback of the caller runs inside this
    call; when it submits another request ([ubi_submit_request] on the channel
    that is being polled), the request arrives at this point in the code and
    here with the next event of the run. *)
Definition spdk_bdev_io_complete (io : Z) (st : spdk_bdev_io_status) : M world unit :=
  modify (λ w, with_done ((io, st) :: w_done w) w).

(** Removes one occurrence; freeing a request that is not a completed one
    is undefined. *)
Fixpoint remove_one {A} `{EqDecision A} (r : A) (l : list A) : option (list A) :=
  match l with
  | [] => None
  | x :: l' => if decide (x = r) then Some l' else (x ::.) <$> remove_one r l'
  end.
Definition spdk_bdev_free_io (r : base_req) : M world unit :=
  w ← gets id;
  l ← of_option (remove_one r (w_fin w));
  modify (with_fin l).
End Calls.

(** * Rules of the accesses and calls *)

Definition set_ch (ch : Z) (c : ubi_io_channel) (w : world) : world :=
  with_chs (<[ch := c]> (w_chs w)) w.
Definition set_io (io : Z) (i : spdk_bdev_io) (w : world) : world :=
  with_ios (<[io := i]> (w_ios w)) w.
Definition tick (w : world) : world := with_tick (S (w_tick w)) w.
Definition complete (io : Z) (st : spdk_bdev_io_status) (w : world) : world :=
  with_done ((io, st) :: w_done w) w.
Definition ring_prep (e : sqe) (r : io_uring) : io_uring :=
  mk_ring (ring_sq r ++ [e]) (ring_inflight r) (ring_cq r).

Section Rules.
Context {E : ext_env}.
Implicit Types (w : world) (c : ubi_io_channel).

Lemma wp_get_ub w Q : Q (w_ub w) w → wp get_ub w Q.
Proof. done. Qed.
Lemma wp_put_ub u w Q : Q () (with_ub u w) → wp (put_ub u) w Q.
Proof. done. Qed.
Lemma wp_get_ch ch c w Q : w_chs w !! ch = Some c → Q c w → wp (get_ch ch) w Q.
Proof. intros Hc HQ. apply wp_bind, wp_gets. by eapply wp_of_option. Qed.
Lemma wp_put_ch ch c w Q : Q () (set_ch ch c w) → wp (put_ch ch c) w Q.
Proof. done. Qed.
Lemma wp_upd_ch ch f c w Q :
  w_chs w !! ch = Some c → Q () (set_ch ch (f c) w) → wp (upd_ch ch f) w Q.
Proof. intros Hc HQ. apply wp_bind. by apply wp_get_ch with c. Qed.
Lemma wp_get_io io i w Q : w_ios w !! io = Some i → Q i w → wp (get_io io) w Q.
Proof. intros Hi HQ. apply wp_bind, wp_gets. by eapply wp_of_option. Qed.
Lemma wp_put_io io i w Q : Q () (set_io io i w) → wp (put_io io i) w Q.
Proof. done. Qed.
Lemma wp_get_uio io i w Q :
  w_ios w !! io = Some i → Q (io_driver_ctx i) w → wp (get_uio io) w Q.
Proof. intros Hi HQ. apply wp_bind. by apply wp_get_io with i. Qed.
Lemma wp_get_slot ch slot c s w Q :
  w_chs w !! ch = Some c → ch_stripe_fetches c !! slot = Some s → Q s w →
  wp (get_slot ch slot) w Q.
Proof. intros Hc Hs HQ. apply wp_bind, wp_get_ch with c; [done|]. by eapply wp_of_option. Qed.
Lemma wp_upd_slot ch slot f c s w Q :
  w_chs w !! ch = Some c → ch_stripe_fetches c !! slot = Some s →
  Q () (set_ch ch (with_stripe_fetches (<[slot := f s]> (ch_stripe_fetches c)) c) w) →
  wp (upd_slot ch slot f) w Q.
Proof.
  intros Hc Hs HQ. apply wp_bind, wp_get_ch with c; [done|].
  apply wp_bind. by eapply wp_of_option.
Qed.

Lemma wp_ext cl w (Q : Z → world → Prop) : Q (ext_result w cl) (tick w) → wp (ext cl) w Q.
Proof. done. Qed.

Lemma wp_base_submit r w (Q : Z → world → Prop) :
  (ext_result w (CallBase r) = 0 → Q 0 (with_pend (r :: w_pend w) (tick w))) →
  (ext_result w (CallBase r) ≠ 0 → Q (ext_result w (CallBase r)) (tick w)) →
  wp (base_submit r) w Q.
Proof.
  intros H0 H1. apply wp_bind, wp_ext. destruct (Z.eqb_spec (ext_result w (CallBase r)) 0) as [e|].
  - rewrite e. by apply wp_bind, wp_modify, wp_ret, H0.
  - by apply wp_ret, H1.
Qed.

Lemma wp_get_sqe ch w (Q : bool → world → Prop) :
  Q (c_true (ext_result w (CallGetSqe ch))) (tick w) → wp (io_uring_get_sqe ch) w Q.
Proof. intros HQ. by apply wp_bind, wp_ext, wp_ret. Qed.

Lemma wp_prep ch e c w Q :
  w_chs w !! ch = Some c →
  Q () (set_ch ch (with_ring (ring_prep e (ch_ring c)) c) w) →
  wp (io_uring_prep ch true e) w Q.
Proof. intros Hc HQ. by eapply wp_upd_ch. Qed.

Lemma wp_uring_submit ch c w (Q : Z → world → Prop) :
  w_chs w !! ch = Some c →
  (ext_result w (CallUringSubmit ch) < 0 →
   Q (ext_result w (CallUringSubmit ch)) (tick w)) →
  (0 ≤ ext_result w (CallUringSubmit ch) →
   Q (ext_result w (CallUringSubmit ch))
     (set_ch ch (with_ring (ring_submit (Z.to_nat (ext_result w (CallUringSubmit ch)))
                              (ch_ring c)) c) (tick w))) →
  wp (io_uring_submit ch) w Q.
Proof.
  intros Hc H0 H1. apply wp_bind, wp_ext. case (Z.ltb_spec (ext_result w (CallUringSubmit ch)) 0).
  - intros. by apply wp_ret, H0.
  - intros. apply wp_bind, wp_upd_ch with c; [done|]. by apply wp_ret, H1.
Qed.

Lemma wp_complete io st w Q : Q () (complete io st w) → wp (spdk_bdev_io_complete io st) w Q.
Proof. done. Qed.

Lemma remove_one_head {A} `{EqDecision A} (r : A) l : remove_one r (r :: l) = Some l.
Proof. simpl. by rewrite decide_True. Qed.

Lemma remove_one_perm {A} `{EqDecision A} (r : A) l : r ∈ l →
  ∃ l', remove_one r l = Some l' ∧ l ≡ₚ r :: l'.
Proof.
  induction l as [|x l IH]; [by intros ?%not_elem_of_nil|]. intros Hin. simpl.
  destruct (decide (x = r)) as [->|Hne]; [by exists l|].
  destruct IH as (l' & -> & Hp); [by apply elem_of_cons in Hin as [->|?]|].
  exists (x :: l'). split; [done|]. rewrite Hp. constructor.
Qed.

Lemma wp_free_io r l w Q :
  w_fin w = r :: l → Q () (with_fin l w) → wp (spdk_bdev_free_io r) w Q.
Proof.
  intros Hf HQ. apply wp_bind, wp_gets, wp_bind. simpl. rewrite Hf.
  apply wp_of_option with l; [apply remove_one_head|done].
Qed.

Lemma wp_seen ch c w Q :
  w_chs w !! ch = Some c → Q () (set_ch ch (with_ring (ring_seen (ch_ring c)) c) w) →
  wp (io_uring_cqe_seen ch) w Q.
Proof. intros Hc HQ. by eapply wp_upd_ch. Qed.
End Rules.

(** [wp_step] applies the rule of the first operation of a computation.  Side
    conditions on lookups are left to [wp_look], which evaluates the updates
    made so far. *)
Ltac wp_look :=
  simpl; rewrite ?lookup_insert_eq;
  first [eassumption | reflexivity | by simplify_map_eq | idtac].

Ltac wp_step :=
  lazymatch goal with
  | |- wp (mbind _ _) _ _ => apply wp_bind; wp_step
  | |- wp (mret _) _ _ => apply wp_ret
  | |- wp (gets _) _ _ => apply wp_gets
  | |- wp (modify _) _ _ => apply wp_modify
  | |- wp get_ub _ _ => apply wp_get_ub
  | |- wp (put_ub _) _ _ => apply wp_put_ub
  | |- wp (get_ch _) _ _ => eapply wp_get_ch; [wp_look|]
  | |- wp (put_ch _ _) _ _ => apply wp_put_ch
  | |- wp (upd_ch _ _) _ _ => eapply wp_upd_ch; [wp_look|]
  | |- wp (get_io _) _ _ => eapply wp_get_io; [wp_look|]
  | |- wp (put_io _ _) _ _ => apply wp_put_io
  | |- wp (get_uio _) _ _ => eapply wp_get_uio; [wp_look|]
  | |- wp (get_slot _ _) _ _ => eapply wp_get_slot; [wp_look|wp_look|]
  | |- wp (upd_slot _ _ _) _ _ => eapply wp_upd_slot; [wp_look|wp_look|]
  | |- wp (ext _) _ _ => apply wp_ext
  | |- wp (base_submit _) _ _ => apply wp_base_submit; intros ?
  | |- wp (io_uring_get_sqe _) _ _ => apply wp_get_sqe
  | |- wp (io_uring_prep _ true _) _ _ => eapply wp_prep; [wp_look|]
  | |- wp (io_uring_submit _) _ _ => eapply wp_uring_submit; [wp_look|intros ?..]
  | |- wp (spdk_bdev_io_complete _ _) _ _ => apply wp_complete
  | |- wp (spdk_bdev_free_io _) _ _ => eapply wp_free_io; [wp_look|]
  | |- wp (io_uring_cqe_seen _) _ _ => eapply wp_seen; [wp_look|]
  | |- wp (of_option _) _ _ => eapply wp_of_option; [wp_look|]
  end.
