(* ===== verification/Layout.v ===== *)
(** [ubi_init_layout_params] of [src/lib/bdev_ubi.c]: the checks on the image
    size, the stripe size and the block length of the base bdev, and the
    block counts and the stripe shift computed from them. *)
From stdpp Require Import base tactics list gmap option numbers functions strings.
From Stdlib Require Import ZArith Lia Zpow_facts Znumtheory.
From S2P Require Import Prelude Types.

Local Open Scope Z_scope.

(** * The function of the source *)

(** [while (r > 1) { r /= 2; log2_r++; }]; a 32-bit [r] leaves the loop within
    32 rounds. *)
Fixpoint log2_loop (fuel : nat) (r log2_r : Z) : option Z :=
  match fuel with
  | O => None
  | S fuel' => if 1 <? r then log2_loop fuel' (r `div` 2) (log2_r + 1) else Some log2_r
  end.

Definition with_layout (sbc shift doff img : Z) (u : ubi_bdev) : ubi_bdev :=
  mk_ubi_bdev (ub_bdev u) (ub_base_bdev_info u) (ub_image_path u)
    (ub_stripe_size_kb u) sbc shift doff img (ub_alignment_bytes u)
    (ub_no_sync u) (ub_copy_on_read u) (ub_directio u) (ub_stripe_status u)
    (ub_metadata u) (ub_stripes_fetched u) (ub_stripes_flushed u) (ub_thread u).

(** [stat_result] is the outcome of [stat] on the image path: the file size, or
    [None] when the call fails.  The result is the return code; a zero block
    length is a division by zero. *)
Definition ubi_init_layout_params (stat_result : option Z) : M ubi_bdev Z :=
  u ← gets id;
  match stat_result with
  | None => mret (- EINVAL)
  | Some st_size =>
      base ← of_option (bi_bdev (ub_base_bdev_info u));
      let blocklen := bd_blocklen base in
      let blockcnt := bd_blockcnt base in
      let kb := ub_stripe_size_kb u in
      if u64 (blockcnt * blocklen) <? u64 (u64 st_size + UBI_METADATA_SIZE)
      then mret (- EINVAL)
      else if (kb <? UBI_STRIPE_SIZE_MIN) || (UBI_STRIPE_SIZE_MAX <? kb)
      then mret (- EINVAL)
      else if c_true (Z.land kb (u32 (kb - 1))) then mret (- EINVAL)
      else
        let stripSizeBytes := u32 (kb * 1024) in
        if stripSizeBytes <? blocklen then mret (- EINVAL)
        else if blocklen =? 0 then undef
        else if c_true (UBI_METADATA_SIZE `mod` blocklen) then mret (- EINVAL)
        else
          let r := u32 (stripSizeBytes + blocklen - 1) `div` blocklen in
          match log2_loop 33 r 0 with
          | None => nofuel
          | Some log2_r =>
              if 2 ^ 63 <=? st_size + blocklen - 1 then undef
              else
                modify (with_layout (2 ^ log2_r) log2_r
                          (u32 (UBI_METADATA_SIZE `div` blocklen))
                          (u64 ((st_size + blocklen - 1) `div` blocklen)));;
                mret 0
          end
  end.

(** * Geometry *)

(** The relations between the layout parameters that the I/O path relies on. *)
Record geometry (blocklen kb sbc shift doff img : Z) : Prop := {
  geo_blocklen : 0 < blocklen;
  geo_kb : UBI_STRIPE_SIZE_MIN ≤ kb ≤ UBI_STRIPE_SIZE_MAX;
  geo_shift : 0 ≤ shift ≤ 20;
  geo_sbc : sbc = 2 ^ shift;
  geo_stripe_bytes : sbc * blocklen = kb * 1024;
  geo_data_offset : doff * blocklen = UBI_METADATA_SIZE;
  geo_image : 0 ≤ img
}.

(** * Lemmas *)

Lemma log2_loop_pow2 fuel k acc : 0 ≤ k < Z.of_nat fuel →
  log2_loop fuel (2 ^ k) acc = Some (acc + k).
Proof.
  revert k acc. induction fuel as [|fuel IH]; intros k acc Hk; [lia|]. simpl.
  destruct (Z.ltb_spec 1 (2 ^ k)) as [Hlt|Hge].
  - assert (0 < k) by (destruct (Z.eq_dec k 0) as [->|]; [simpl in Hlt; lia|lia]).
    assert (2 ^ k = 2 ^ (k - 1) * 2) as ->.
    { replace k with (Z.succ (k - 1)) at 1 by lia. rewrite Z.pow_succ_r by lia. lia. }
    rewrite Z.div_mul by lia. rewrite IH by lia. f_equal; lia.
  - assert (k = 0) as ->; [|f_equal; lia].
    destruct (Z.eq_dec k 0); [done|].
    assert (2 ^ 1 ≤ 2 ^ k) by (apply Z.pow_le_mono_r; lia). lia.
Qed.

(** Divisors of [UBI_METADATA_SIZE] are powers of two. *)
Lemma metadata_divisor_pow2 d : 0 < d → UBI_METADATA_SIZE `mod` d = 0 →
  ∃ b, 0 ≤ b ≤ 23 ∧ d = 2 ^ b.
Proof.
  intros Hd Hmod. apply Z.mod_divide in Hmod; [|lia].
  destruct (Zdivide_power_2 d 2 23) as [b Hb]; [lia|lia|apply (proj1 (prime_alt 2) Z.prime_2)|done|].
  destruct (decide (b < 0)) as [Hneg|Hpos].
  { rewrite Z.pow_neg_r in Hb by done. lia. }
  exists b. split; [|done]. split; [lia|].
  apply Z.divide_pos_le in Hmod; [|unfold UBI_METADATA_SIZE; lia].
  apply (Z.pow_le_mono_r_iff 2); [lia..|]. rewrite <-Hb. done.
Qed.

(** The accepted stripe sizes are the powers of two from 64 to 1024. *)
Lemma stripe_size_pow2 kb : UBI_STRIPE_SIZE_MIN ≤ kb ≤ UBI_STRIPE_SIZE_MAX →
  Z.land kb (u32 (kb - 1)) = 0 → ∃ a, 6 ≤ a ≤ 10 ∧ kb = 2 ^ a.
Proof.
  unfold UBI_STRIPE_SIZE_MIN, UBI_STRIPE_SIZE_MAX. intros Hkb Hland.
  assert (Hall : forallb (λ n, implb (Z.land (Z.of_nat n + 64) (u32 (Z.of_nat n + 63)) =? 0)
            (existsb (λ a, Z.of_nat n + 64 =? 2 ^ a) [6; 7; 8; 9; 10]))
            (seq 0 961) = true) by (vm_compute; done).
  rewrite forallb_forall in Hall. specialize (Hall (Z.to_nat (kb - 64))).
  rewrite in_seq in Hall. specialize (Hall ltac:(lia)).
  replace (Z.of_nat (Z.to_nat (kb - 64)) + 64) with kb in Hall by lia.
  replace (Z.of_nat (Z.to_nat (kb - 64)) + 63) with (kb - 1) in Hall by lia.
  rewrite Hland in Hall. simpl in Hall.
  repeat (apply orb_prop in Hall as [Hall|Hall]);
    first [done | apply Z.eqb_eq in Hall; eexists; split; [|exact Hall]; lia].
Qed.

Lemma ceil_div_exact a b : 0 < b → (a * b + b - 1) `div` b = a.
Proof. intros Hb. symmetry. apply Z.div_unique with (b - 1); lia. Qed.

Section Checks.
Context (blocklen kb : Z) (a b : Z).
Hypothesis Ha : 6 ≤ a ≤ 10.
Hypothesis Hkb : kb = 2 ^ a.
Hypothesis Hb : 0 ≤ b ≤ 23.
Hypothesis Hbl : blocklen = 2 ^ b.
Hypothesis Hle : blocklen ≤ kb * 1024.

Lemma strip_bytes : kb * 1024 = 2 ^ (a + 10).
Proof. rewrite Hkb, Z.pow_add_r by lia. done. Qed.

Lemma strip_exp : 0 ≤ a + 10 - b ≤ 20.
Proof.
  rewrite strip_bytes, Hbl in Hle. split; [|lia].
  apply Z.pow_le_mono_r_iff in Hle; lia.
Qed.

Lemma strip_factor : kb * 1024 = 2 ^ (a + 10 - b) * blocklen.
Proof.
  pose proof strip_exp. rewrite strip_bytes, Hbl, <-Z.pow_add_r by lia. f_equal; lia.
Qed.

Lemma strip_u32 : u32 (kb * 1024) = kb * 1024.
Proof.
  apply u32_small. rewrite strip_bytes. split; [lia|].
  apply Z.pow_lt_mono_r; lia.
Qed.

Lemma strip_blocks : u32 (kb * 1024 + blocklen - 1) `div` blocklen = 2 ^ (a + 10 - b).
Proof.
  assert (0 < blocklen) by (rewrite Hbl; lia).
  assert (kb * 1024 ≤ 2 ^ 20).
  { rewrite strip_bytes. apply Z.pow_le_mono_r; lia. }
  rewrite u32_small by lia. rewrite strip_factor. by apply ceil_div_exact.
Qed.
End Checks.

(** A check that fails: the accepting condition is false and nothing changed. *)
Ltac reject :=
  apply wp_ret; cbv beta;
  lazymatch goal with |- if ?b then _ else _ => replace b with false; [done|] end;
  symmetry; rewrite ?andb_false_iff, ?Z.leb_gt, ?Z.eqb_neq; tauto.

Ltac accept :=
  cbv beta;
  lazymatch goal with |- if ?b then _ else _ => replace b with true end;
  [|symmetry; rewrite ?andb_true_iff, ?Z.leb_le, ?Z.eqb_eq; tauto].

(** The outcome of the function, by cases. *)
Section Outcome.
Context (u : ubi_bdev) (base : spdk_bdev) (st_size : Z).
Let blocklen := bd_blocklen base.
Let blockcnt := bd_blockcnt base.
Let kb := ub_stripe_size_kb u.
Hypothesis Hbase : bi_bdev (ub_base_bdev_info u) = Some base.
Hypothesis Hblocklen : 0 < blocklen < 2 ^ 32.
Hypothesis Hblockcnt : 0 ≤ blockcnt.
Hypothesis Hsize : blockcnt * blocklen < 2 ^ 63.
Hypothesis Hst : 0 ≤ st_size < 2 ^ 62.
Hypothesis Hkb32 : 0 ≤ kb < 2 ^ 32.

(** The condition the checks decide. *)
Definition layout_accepts : bool :=
  (st_size + UBI_METADATA_SIZE <=? blockcnt * blocklen) &&
  (UBI_STRIPE_SIZE_MIN <=? kb) && (kb <=? UBI_STRIPE_SIZE_MAX) &&
  (Z.land kb (u32 (kb - 1)) =? 0) && (blocklen <=? kb * 1024) &&
  (UBI_METADATA_SIZE `mod` blocklen =? 0).

Lemma layout_outcome :
  wp (ubi_init_layout_params (Some st_size)) u (λ rc u',
    if layout_accepts then
      rc = 0 ∧ ∃ shift,
        u' = with_layout (2 ^ shift) shift (UBI_METADATA_SIZE `div` blocklen)
               ((st_size + blocklen - 1) `div` blocklen) u ∧
        geometry blocklen kb (2 ^ shift) shift (UBI_METADATA_SIZE `div` blocklen)
          ((st_size + blocklen - 1) `div` blocklen)
    else rc = - EINVAL ∧ u' = u).
Proof.
  unfold ubi_init_layout_params. apply wp_bind, wp_gets, wp_bind.
  unfold id. apply wp_of_option with base; [done|]. cbv zeta. fold blocklen blockcnt kb.
  rewrite (u64_small st_size), (u64_small (blockcnt * blocklen)),
    (u64_small (st_size + _)) by (unfold UBI_METADATA_SIZE; nia).
  assert (Hs : UBI_STRIPE_SIZE_MIN ≤ kb ≤ UBI_STRIPE_SIZE_MAX → u32 (kb * 1024) = kb * 1024).
  { intros. apply u32_small. unfold UBI_STRIPE_SIZE_MAX, UBI_STRIPE_SIZE_MIN in *. lia. }
  unfold layout_accepts, c_true.
  destruct (Z.ltb_spec (blockcnt * blocklen) (st_size + UBI_METADATA_SIZE));
    [reject|].
  destruct (Z.ltb_spec kb UBI_STRIPE_SIZE_MIN); cbn [orb negb]; [reject|].
  destruct (Z.ltb_spec UBI_STRIPE_SIZE_MAX kb); cbn [orb negb]; [reject|].
  destruct (Z.eqb_spec (Z.land kb (u32 (kb - 1))) 0) as [H4|?]; cbn [orb negb]; [|reject].
  rewrite Hs by done.
  destruct (Z.ltb_spec (kb * 1024) blocklen) as [?|H5]; cbn [orb negb]; [reject|].
  destruct (Z.eqb_spec blocklen 0); [lia|].
  destruct (Z.eqb_spec (UBI_METADATA_SIZE `mod` blocklen) 0) as [H6|?]; cbn [orb negb]; [|reject].
  destruct (stripe_size_pow2 kb) as (a & Ha & Hka); [done..|].
  destruct (metadata_divisor_pow2 blocklen) as (b & Hb & Hbl); [lia|done|].
  rewrite (strip_blocks blocklen kb a b) by done.
  pose proof (strip_exp blocklen kb a b Ha Hka Hb Hbl H5) as Hexp.
  change 33%nat with (Z.to_nat 33). rewrite log2_loop_pow2 by lia. rewrite Z.add_0_l.
  rewrite (proj2 (Z.leb_gt _ _)) by lia.
  apply wp_bind, wp_modify, wp_ret. accept. split; [done|]. exists (a + 10 - b).
  assert (Hdm := Z.div_mod UBI_METADATA_SIZE blocklen ltac:(lia)).
  assert (0 ≤ UBI_METADATA_SIZE `div` blocklen ≤ UBI_METADATA_SIZE) as Hd.
  { split; [apply Z.div_pos; unfold UBI_METADATA_SIZE; lia|].
    apply Z.div_le_upper_bound; unfold UBI_METADATA_SIZE; nia. }
  assert (0 ≤ (st_size + blocklen - 1) `div` blocklen ≤ st_size + blocklen) as Hi.
  { split; [apply Z.div_pos; lia|]. apply Z.div_le_upper_bound; nia. }
  split.
  - rewrite u32_small by (unfold UBI_METADATA_SIZE in *; lia). by rewrite u64_small by lia.
  - split; [lia|done|done|done| | |lia].
    + symmetry. by apply strip_factor.
    + lia.
Qed.
End Outcome.

(** The geometry of a bdev after [ubi_init_layout_params]. *)
Definition ub_geometry (u : ubi_bdev) (blocklen : Z) : Prop :=
  geometry blocklen (ub_stripe_size_kb u) (ub_stripe_block_count u) (ub_stripe_shift u)
    (ub_data_offset_blocks u) (ub_image_block_count u).

(** [img] blocks are the least number that covers a file. *)
Lemma ceil_div_bounds st_size blocklen : 0 ≤ st_size → 0 < blocklen →
  let img := (st_size + blocklen - 1) `div` blocklen in
  st_size ≤ img * blocklen < st_size + blocklen.
Proof.
  intros Hst Hb img. pose proof (Z.div_mod (st_size + blocklen - 1) blocklen ltac:(lia)).
  pose proof (Z.mod_pos_bound (st_size + blocklen - 1) blocklen Hb). subst img. nia.
Qed.

(** An accepted base bdev holds the metadata and the image. *)
Lemma layout_params_size (u : ubi_bdev) (base : spdk_bdev) (st_size doff img : Z) :
  0 < bd_blocklen base → 0 ≤ st_size →
  doff * bd_blocklen base = UBI_METADATA_SIZE → img = (st_size + bd_blocklen base - 1) `div` bd_blocklen base →
  layout_accepts u base st_size = true → doff + img ≤ bd_blockcnt base.
Proof.
  intros Hbl Hst Hdoff -> Hacc.
  pose proof (ceil_div_bounds st_size (bd_blocklen base) ltac:(lia) ltac:(lia)) as Hc.
  unfold layout_accepts in Hacc. rewrite !andb_true_iff, !Z.leb_le in Hacc. simpl in Hc. nia.
Qed.

(** * Properties *)

(** C36. [ubi_init_layout_params] decides exactly the documented conditions and
    never runs out of its loop: for a base bdev of [blocklen]-byte blocks it
    returns 0 if and only if the base bdev holds the image and the metadata,
    the stripe size is a power of two from 64 to 1024 KiB that is at least
    one block, and the block length divides the metadata size; otherwise it
    returns [-EINVAL] and changes nothing.  On success a stripe of
    [stripe_block_count = 2^stripe_shift] blocks has exactly
    [stripe_size_kb] KiB, the data area starts right after the 8 MiB of
    metadata, [image_block_count] is the least number of blocks that covers
    the image, and the data area holds that many blocks. *)
Theorem layout_params_correct (u : ubi_bdev) (base : spdk_bdev) (st_size : Z) :
  bi_bdev (ub_base_bdev_info u) = Some base →
  0 < bd_blocklen base < 2 ^ 32 → 0 ≤ bd_blockcnt base →
  bd_blockcnt base * bd_blocklen base < 2 ^ 63 → 0 ≤ st_size < 2 ^ 62 →
  0 ≤ ub_stripe_size_kb u < 2 ^ 32 →
  wp (ubi_init_layout_params (Some st_size)) u (λ rc u',
    if layout_accepts u base st_size then
      rc = 0 ∧ ub_geometry u' (bd_blocklen base) ∧
      st_size ≤ ub_image_block_count u' * bd_blocklen base < st_size + bd_blocklen base ∧
      ub_data_offset_blocks u' + ub_image_block_count u' ≤ bd_blockcnt base
    else rc = - EINVAL ∧ u' = u).
Proof.
  intros Hbase Hbl Hcnt Hsz Hst Hkb.
  eapply wp_mono; [by apply layout_outcome with (base := base)|].
  intros rc u'. destruct (layout_accepts u base st_size) eqn:Hacc; [|done].
  intros (-> & shift & -> & Hgeo). split_and!; [done|done|simpl; by apply ceil_div_bounds; lia..|].
  apply (layout_params_size u base st_size); [lia|lia|exact (geo_data_offset _ _ _ _ _ _ Hgeo)|reflexivity|done].
Qed.

(** A base bdev of 100 MiB with 512-byte blocks, and a zeroed [ubi_bdev]. *)
Definition base_100M : spdk_bdev := mk_bdev 2 (Some "aio0") 512 204800 true "AIO disk" 0 false 0.
Definition metadata_zero : ubi_metadata :=
  mk_metadata (replicate 9 0) [0; 0] [0; 0] 0 (λ _, (0, 0)) (λ _, 0).
Definition ubi_bdev_zero (base : spdk_bdev) (kb : Z) : ubi_bdev :=
  mk_ubi_bdev (mk_bdev 1 (Some "ubi0") 0 0 false "" 0 false 0) (mk_base_info (Some base) (Some 1))
    "image.raw" kb 0 0 0 0 0 false true true (λ _, STRIPE_NOT_FETCHED) metadata_zero 0 0 0.

Lemma layout_params_correct_witness :
  wp (ubi_init_layout_params (Some 41943040)) (ubi_bdev_zero base_100M 1024) (λ rc u',
    rc = 0 ∧ ub_geometry u' 512 ∧
    41943040 ≤ ub_image_block_count u' * 512 < 41943040 + 512 ∧
    ub_data_offset_blocks u' + ub_image_block_count u' ≤ 204800).
Proof.
  apply (layout_params_correct (ubi_bdev_zero base_100M 1024) base_100M 41943040);
    simpl; solve [reflexivity | lia].
Defined.
