(* ===== verification/FetchQueue.v ===== *)
(** The stripe fetch queue of a channel: [enqueue_stripe], [dequeue_stripe]
    and [stripe_queue_empty] of [src/lib/bdev_ubi_stripe.c], a ring buffer of
    [UBI_FETCH_QUEUE_SIZE] 32-bit entries with a masked head and tail, and
    its refinement of a bounded FIFO list. *)
From stdpp Require Import base tactics list gmap option numbers functions strings.
From Stdlib Require Import ZArith Lia.
From S2P Require Import Prelude Types World.

Local Open Scope Z_scope.

(** * The operations of the source *)

(** The masked successor of an index. *)
Definition queue_next (i : Z) : Z := Z.land (u32 (i + 1)) (UBI_FETCH_QUEUE_SIZE - 1).

Definition queue_push (q : stripe_fetch_queue) (stripe_idx : Z) : stripe_fetch_queue :=
  mk_queue (<[q_tail q := u32 stripe_idx]> (q_entries q)) (q_head q) (queue_next (q_tail q)).

Definition queue_pop (q : stripe_fetch_queue) : Z * stripe_fetch_queue :=
  (i32 (q_entries q (q_head q)),
   mk_queue (q_entries q) (queue_next (q_head q)) (q_tail q)).

(** An index into [entries]. *)
Definition queue_index_ok (i : Z) : bool := (0 <=? i) && (i <? UBI_FETCH_QUEUE_SIZE).

Definition enqueue_stripe (ch : Z) (stripe_idx : Z) : M world unit :=
  c ← get_ch ch;
  if queue_index_ok (q_tail (ch_queue c))
  then put_ch ch (with_queue (queue_push (ch_queue c) (i32 stripe_idx)) c)
  else undef.

Definition dequeue_stripe (ch : Z) : M world Z :=
  c ← get_ch ch;
  if queue_index_ok (q_head (ch_queue c)) then
    let '(stripe_idx, q) := queue_pop (ch_queue c) in
    put_ch ch (with_queue q c);; mret stripe_idx
  else undef.

Definition queue_empty (q : stripe_fetch_queue) : bool := q_head q =? q_tail q.

Definition stripe_queue_empty (ch : Z) : M world bool :=
  c ← get_ch ch; mret (queue_empty (ch_queue c)).

(** * The abstract queue *)

Definition queue_wf (q : stripe_fetch_queue) : Prop :=
  0 ≤ q_head q < UBI_FETCH_QUEUE_SIZE ∧ 0 ≤ q_tail q < UBI_FETCH_QUEUE_SIZE.

Definition queue_length (q : stripe_fetch_queue) : Z :=
  (q_tail q - q_head q) `mod` UBI_FETCH_QUEUE_SIZE.

(** The entries from head to tail, oldest first. *)
Definition queue_list (q : stripe_fetch_queue) : list Z :=
  (λ i, q_entries q ((q_head q + i) `mod` UBI_FETCH_QUEUE_SIZE)) <$>
    seqZ 0 (queue_length q).

(** What a bounded FIFO of stripe numbers promises to the code that uses it:
    a view as a list, under an invariant that every operation keeps. *)
Class BoundedFifo (Q : Type) : Type := {
  fifo_inv : Q → Prop;
  fifo_view : Q → list Z;
  fifo_push : Q → Z → Q;
  fifo_pop : Q → Z * Q;
  fifo_is_empty : Q → bool;
  fifo_capacity : nat;
  fifo_push_spec q x : fifo_inv q → 0 ≤ x < 2 ^ 31 →
    (length (fifo_view q) < fifo_capacity)%nat →
    fifo_inv (fifo_push q x) ∧ fifo_view (fifo_push q x) = fifo_view q ++ [x];
  fifo_pop_spec q x l : fifo_inv q → fifo_view q = x :: l →
    0 ≤ x < 2 ^ 31 →
    (fifo_pop q).1 = x ∧ fifo_inv (fifo_pop q).2 ∧ fifo_view (fifo_pop q).2 = l;
  fifo_empty_spec q : fifo_inv q → fifo_is_empty q = true ↔ fifo_view q = []
}.

(** * Lemmas *)

Lemma queue_next_mod i : 0 ≤ i < UBI_FETCH_QUEUE_SIZE →
  queue_next i = (i + 1) `mod` UBI_FETCH_QUEUE_SIZE.
Proof.
  unfold queue_next, UBI_FETCH_QUEUE_SIZE. intros Hi.
  rewrite u32_small by lia. change 32768 with (2 ^ 15). by rewrite land_mask by lia.
Qed.

Lemma queue_next_range i : 0 ≤ i < UBI_FETCH_QUEUE_SIZE →
  0 ≤ queue_next i < UBI_FETCH_QUEUE_SIZE.
Proof.
  intros Hi. rewrite queue_next_mod by done. apply Z.mod_pos_bound.
  unfold UBI_FETCH_QUEUE_SIZE; lia.
Qed.

Lemma queue_index_ok_spec i : queue_index_ok i = true ↔ 0 ≤ i < UBI_FETCH_QUEUE_SIZE.
Proof. unfold queue_index_ok. lia. Qed.

Lemma queue_length_range q : 0 ≤ queue_length q < UBI_FETCH_QUEUE_SIZE.
Proof. apply Z.mod_pos_bound. unfold UBI_FETCH_QUEUE_SIZE; lia. Qed.

Lemma queue_list_length q : length (queue_list q) = Z.to_nat (queue_length q).
Proof. unfold queue_list. by rewrite length_fmap, length_seqZ. Qed.

Lemma queue_push_wf q x : queue_wf q → queue_wf (queue_push q x).
Proof. intros [??]; split; [done|]. by apply queue_next_range. Qed.

Lemma queue_pop_wf q : queue_wf q → queue_wf (queue_pop q).2.
Proof. intros [??]; split; [|done]. by apply queue_next_range. Qed.

Lemma queue_push_length q x : queue_wf q →
  queue_length (queue_push q x) = (queue_length q + 1) `mod` UBI_FETCH_QUEUE_SIZE.
Proof.
  intros [Hh Ht]. unfold queue_length; simpl. rewrite queue_next_mod by done.
  rewrite Zminus_mod_idemp_l, Zplus_mod_idemp_l. f_equal. lia.
Qed.

Lemma queue_push_list q x : queue_wf q →
  queue_length q + 1 < UBI_FETCH_QUEUE_SIZE →
  queue_list (queue_push q x) = queue_list q ++ [u32 x].
Proof.
  intros Hwf Hlen. pose proof (queue_length_range q) as Hr. unfold queue_list.
  rewrite queue_push_length, Z.mod_small by (done || lia).
  rewrite seqZ_app, fmap_app, Z.add_0_l by lia. simpl. f_equal.
  - apply list_fmap_ext. intros k i [Hi ?]%lookup_seqZ. simpl.
    rewrite fn_lookup_insert_ne; [done|]. intros Heq.
    destruct Hwf as [? ?]. unfold queue_length, UBI_FETCH_QUEUE_SIZE in *.
    assert (i = (q_tail q - q_head q) `mod` 32768); [|lia].
    rewrite Heq, Zminus_mod_idemp_l.
    replace (q_head q + i - q_head q) with i by lia. rewrite Z.mod_small; lia.
  - f_equal. change (Z.of_nat 0) with 0. rewrite Z.add_0_l.
    replace ((q_head q + queue_length q) `mod` UBI_FETCH_QUEUE_SIZE) with (q_tail q).
    { by rewrite fn_lookup_insert. }
    unfold queue_length. rewrite Zplus_mod_idemp_r.
    replace (q_head q + (q_tail q - q_head q)) with (q_tail q) by lia.
    destruct Hwf. symmetry. by apply Z.mod_small.
Qed.

Lemma queue_pop_list q x l : queue_wf q → queue_list q = x :: l →
  (queue_pop q).1 = i32 x ∧ queue_list (queue_pop q).2 = l.
Proof.
  intros [Hh Ht] Hq. pose proof (queue_length_range q) as Hr.
  assert (Hpos : 0 < queue_length q).
  { assert (length (queue_list q) = S (length l)) by by rewrite Hq.
    rewrite queue_list_length in H. lia. }
  assert (Hlen : queue_length (queue_pop q).2 = queue_length q - 1).
  { unfold queue_length at 1; simpl. rewrite queue_next_mod by done.
    rewrite Zminus_mod_idemp_r.
    replace (q_tail q - (q_head q + 1)) with ((q_tail q - q_head q) - 1) by lia.
    rewrite <-Zminus_mod_idemp_l. fold (queue_length q). by rewrite Z.mod_small by lia. }
  unfold queue_list in Hq. rewrite seqZ_cons in Hq by done. simpl in Hq.
  injection Hq as Hx Hl. rewrite Z.add_0_r, Z.mod_small in Hx by done.
  split; [simpl; by rewrite Hx|].
  rewrite <-Hl. unfold queue_list. rewrite Hlen. simpl.
  replace (Z.succ 0) with (1 + 0) by lia.
  rewrite <-(fmap_add_seqZ 1 0), <-list_fmap_compose. fold (Z.pred (queue_length q)).
  replace (queue_length q - 1) with (Z.pred (queue_length q)) by lia.
  apply list_fmap_ext. intros k i _. simpl. f_equal.
  rewrite queue_next_mod, Zplus_mod_idemp_l by done. f_equal. lia.
Qed.

Lemma queue_empty_list q : queue_wf q → queue_empty q = true ↔ queue_list q = [].
Proof.
  intros [Hh Ht]. unfold queue_empty.
  rewrite <-length_zero_iff_nil, queue_list_length, Z.eqb_eq.
  pose proof (queue_length_range q). unfold queue_length, UBI_FETCH_QUEUE_SIZE in *.
  split; intros.
  - replace (q_tail q - q_head q) with 0 by lia. done.
  - assert (Hm : (q_tail q - q_head q) `mod` 32768 = 0) by lia.
    apply Z.mod_divide in Hm as [k Hk]; lia.
Qed.

(** The ring buffer is a bounded FIFO: one slot stays unused, so it holds
    one entry less than its size. *)
Lemma queue_push_view q x : queue_wf q → 0 ≤ x < 2 ^ 31 →
  (length (queue_list q) < Z.to_nat (UBI_FETCH_QUEUE_SIZE - 1))%nat →
  queue_wf (queue_push q x) ∧ queue_list (queue_push q x) = queue_list q ++ [x].
Proof.
  intros Hwf Hx Hlen. rewrite queue_list_length in Hlen.
  pose proof (queue_length_range q). split; [by apply queue_push_wf|].
  rewrite queue_push_list by (done || lia). f_equal. by rewrite u32_small by lia.
Qed.

Lemma queue_pop_view q x l : queue_wf q → queue_list q = x :: l → 0 ≤ x < 2 ^ 31 →
  (queue_pop q).1 = x ∧ queue_wf (queue_pop q).2 ∧ queue_list (queue_pop q).2 = l.
Proof.
  intros Hwf Hq Hx. destruct (queue_pop_list q x l Hwf Hq) as [-> ?].
  split_and!; [by rewrite i32_small by lia|by apply queue_pop_wf|done].
Qed.

#[export] Instance ring_fifo : BoundedFifo stripe_fetch_queue := {|
  fifo_inv := queue_wf;
  fifo_view := queue_list;
  fifo_push := queue_push;
  fifo_pop := queue_pop;
  fifo_is_empty := queue_empty;
  fifo_capacity := Z.to_nat (UBI_FETCH_QUEUE_SIZE - 1);
  fifo_push_spec := queue_push_view;
  fifo_pop_spec := queue_pop_view;
  fifo_empty_spec := queue_empty_list
|}.

(** ** The handlers on a channel *)

Lemma enqueue_stripe_wp ch k c w Q :
  w_chs w !! ch = Some c → queue_wf (ch_queue c) →
  Q tt (with_chs (<[ch := with_queue (queue_push (ch_queue c) (i32 k)) c]> (w_chs w)) w) →
  wp (enqueue_stripe ch k) w Q.
Proof.
  intros Hc [_ Ht] HQ. unfold enqueue_stripe, get_ch.
  apply wp_bind, wp_bind, wp_gets. eapply wp_of_option; [done|].
  rewrite (proj2 (queue_index_ok_spec _) Ht). by apply wp_modify.
Qed.

Lemma dequeue_stripe_wp ch c w (Q : Z → world → Prop) :
  w_chs w !! ch = Some c → queue_wf (ch_queue c) →
  Q (queue_pop (ch_queue c)).1
    (with_chs (<[ch := with_queue (queue_pop (ch_queue c)).2 c]> (w_chs w)) w) →
  wp (dequeue_stripe ch) w Q.
Proof.
  intros Hc [Hh _] HQ. unfold dequeue_stripe, get_ch.
  apply wp_bind, wp_bind, wp_gets. eapply wp_of_option; [done|].
  by rewrite (proj2 (queue_index_ok_spec _) Hh).
Qed.

(** * Runs of a queue, for any implementation of the interface *)

Section Runs.
Context {Q : Type} {F : BoundedFifo Q}.

Fixpoint push_all (q : Q) (l : list Z) : Q :=
  match l with [] => q | x :: l' => push_all (fifo_push q x) l' end.

Fixpoint pop_n (n : nat) (q : Q) : list Z * Q :=
  match n with
  | O => ([], q)
  | S n' => let '(x, q1) := fifo_pop q in
            let '(l, q2) := pop_n n' q1 in (x :: l, q2)
  end.

Lemma push_all_view (q : Q) (l : list Z) :
  fifo_inv q → Forall (λ x, 0 ≤ x < 2 ^ 31) l →
  (length (fifo_view q) + length l ≤ fifo_capacity)%nat →
  fifo_inv (push_all q l) ∧ fifo_view (push_all q l) = fifo_view q ++ l.
Proof.
  revert q. induction l as [|x l IH]; intros q Hwf Hall Hlen; simpl in *.
  { by rewrite app_nil_r. }
  apply Forall_cons in Hall as [Hx Hl].
  destruct (fifo_push_spec q x Hwf Hx) as [Hwf' Hv]; [lia|].
  destruct (IH (fifo_push q x)) as [? Heq]; [done..| |].
  - rewrite Hv, length_app. simpl. lia.
  - rewrite Heq, Hv, <-app_assoc. done.
Qed.

Lemma pop_n_view (q : Q) (l l' : list Z) :
  fifo_inv q → Forall (λ x, 0 ≤ x < 2 ^ 31) l → fifo_view q = l ++ l' →
  (pop_n (length l) q).1 = l ∧ fifo_view (pop_n (length l) q).2 = l' ∧
  fifo_inv (pop_n (length l) q).2.
Proof.
  revert q. induction l as [|x l IH]; intros q Hwf Hall Hq; simpl in *; [done|].
  apply Forall_cons in Hall as [Hx Hl].
  destruct (fifo_pop_spec q x (l ++ l') Hwf Hq Hx) as (H1 & H2 & H3).
  destruct (IH _ H2 Hl H3) as (? & ? & ?).
  destruct (fifo_pop q) as [y q1]. simpl in *. subst y.
  destruct (pop_n (length l) q1) as [l2 q2]. simpl in *. by subst.
Qed.

Lemma fifo_run (q : Q) (l : list Z) :
  fifo_inv q → Forall (λ x, 0 ≤ x < 2 ^ 31) (fifo_view q ++ l) →
  (length (fifo_view q ++ l) ≤ fifo_capacity)%nat →
  let r := pop_n (length (fifo_view q ++ l)) (push_all q l) in
  r.1 = fifo_view q ++ l ∧ fifo_is_empty r.2 = true.
Proof.
  intros Hwf Hall Hlen. pose proof Hall as [_ Hl]%Forall_app. rewrite length_app in Hlen.
  destruct (push_all_view q l) as [Hwf' Hv]; [done..|].
  destruct (pop_n_view (push_all q l) (fifo_view q ++ l) []) as (H1 & H2 & H3); [done..| |].
  { by rewrite app_nil_r. }
  split; [done|]. by apply fifo_empty_spec.
Qed.
End Runs.

(** * Properties *)

(** C38. The ring buffer of [enqueue_stripe] and [dequeue_stripe] is a FIFO: on
    any well-formed queue, stripes that fit are appended to the pending ones,
    and dequeuing as many times as there are entries returns the pending
    entries and then the new ones, in the order they were enqueued, and
    leaves the queue empty. *)
Theorem fetch_queue_fifo (q : stripe_fetch_queue) (l : list Z) :
  queue_wf q → Forall (λ x, 0 ≤ x < 2 ^ 31) (queue_list q ++ l) →
  (length (queue_list q ++ l) < Z.to_nat UBI_FETCH_QUEUE_SIZE)%nat →
  let r := pop_n (length (queue_list q ++ l)) (push_all q l) in
  r.1 = queue_list q ++ l ∧ queue_empty r.2 = true.
Proof.
  intros Hwf Hall Hlen. apply (fifo_run (F:=ring_fifo) q l); [done..|].
  simpl. unfold UBI_FETCH_QUEUE_SIZE in *. lia.
Qed.

Definition queue_zero : stripe_fetch_queue := mk_queue (λ _, 0) 32766 32766.
Lemma fetch_queue_fifo_witness :
  let r := pop_n 3 (push_all queue_zero [7; 0; 2097151]) in
  r.1 = [7; 0; 2097151] ∧ queue_empty r.2 = true.
Proof.
  apply (fetch_queue_fifo queue_zero [7; 0; 2097151]).
  - split; unfold queue_zero, UBI_FETCH_QUEUE_SIZE; simpl; lia.
  - change (queue_list queue_zero ++ [7; 0; 2097151]) with [7; 0; 2097151].
    repeat constructor; lia.
  - change (length (queue_list queue_zero ++ [7; 0; 2097151])) with 3%nat.
    unfold UBI_FETCH_QUEUE_SIZE. lia.
Defined.

(** C39. The queue has no overflow check: when it holds
    [UBI_FETCH_QUEUE_SIZE - 1] entries, one more [enqueue_stripe] makes the
    head meet the tail, and every pending fetch request is lost. *)
Theorem fetch_queue_overflow (q : stripe_fetch_queue) (x : Z) :
  queue_wf q → queue_length q = UBI_FETCH_QUEUE_SIZE - 1 →
  queue_empty (queue_push q x) = true ∧ queue_list (queue_push q x) = [].
Proof.
  intros Hwf Hlen. pose proof (queue_push_wf q x Hwf) as Hwf'.
  assert (Hnil : queue_list (queue_push q x) = []).
  { apply length_zero_iff_nil. rewrite queue_list_length, queue_push_length, Hlen by done.
    done. }
  split; [|done]. by apply queue_empty_list.
Qed.

Lemma fetch_queue_overflow_witness :
  queue_empty (queue_push (mk_queue (λ i, i) 0 32767) 5) = true ∧
  queue_list (queue_push (mk_queue (λ i, i) 0 32767) 5) = [].
Proof.
  apply (fetch_queue_overflow (mk_queue (λ i, i) 0 32767) 5).
  - split; unfold UBI_FETCH_QUEUE_SIZE; simpl; lia.
  - reflexivity.
Defined.
