(* ===== verification/Stripe.v ===== *)
(** Stripe fetches, [src/lib/bdev_ubi_stripe.c]: the status array, starting
    the read of a stripe from the image, writing it to the base bdev when
    the read completes, and marking the stripe fetched or failed.

    A [struct stripe_fetch *] is a channel key and a slot number. *)
From stdpp Require Import base tactics list gmap option numbers functions strings.
From Stdlib Require Import ZArith Lia.
From S2P Require Import Prelude Types World.

Local Open Scope Z_scope.

(** * The status array *)

(** An index into [stripe_status] or [stripe_headers]. *)
Definition stripe_index_ok (i : Z) : bool := (0 <=? i) && (i <? UBI_MAX_STRIPES).

(** The parameter is an [int]: the argument is converted first. *)
Definition ubi_get_stripe_status (index : Z) : M world stripe_status_t :=
  u ← get_ub;
  if stripe_index_ok (i32 index) then mret (ub_stripe_status u (i32 index)) else undef.

(** The two stores of [ubi_set_stripe_status] on the bdev. *)
Definition set_status (i : Z) (st : stripe_status_t) (u : ubi_bdev) : ubi_bdev :=
  let u := with_status (<[i := st]>) u in
  match st with
  | STRIPE_FETCHED =>
      with_metadata (with_stripe_headers (λ h, <[i := (1, (h i).2)]> h)) u
  | _ => u
  end.

Definition ubi_set_stripe_status (index : Z) (st : stripe_status_t) : M world unit :=
  u ← get_ub;
  if stripe_index_ok (i32 index) then put_ub (set_status (i32 index) st u) else undef.

(** * Fetching a stripe *)

Definition ubi_fail_stripe_fetch (ch : Z) (slot : nat) : M world unit :=
  s ← get_slot ch slot;
  ubi_set_stripe_status (sf_stripe_idx s) STRIPE_FAILED;;
  upd_slot ch slot (with_active false).

(** Byte offset of a stripe in the image, [stripe_size_kb * 1024L * stripe_idx]
    in [long] arithmetic: signed overflow is undefined. *)
Definition stripe_offset (u : ubi_bdev) (stripe_idx : Z) : option Z :=
  let z := ub_stripe_size_kb u * 1024 * stripe_idx in
  if z <? 2 ^ 63 then Some (u64 z) else None.
Definition stripe_nbytes (u : ubi_bdev) : Z := u32 (ub_stripe_size_kb u * 1024).

(** Start of the aligned part of a buffer at address [buf]. *)
Definition aligned_buf (alignment buf : Z) : Z :=
  let remainder := Z.land buf (u32 (alignment - 1)) in
  let alignment_offset := if c_true remainder then u32 (alignment - remainder) else 0 in
  buf + alignment_offset.

Section Fetch.
Context {E : ext_env}.

Definition ubi_start_fetch_stripe (ch : Z) (slot : nat) : M world unit :=
  u ← get_ub;
  have_sqe ← io_uring_get_sqe ch;
  s ← get_slot ch slot;
  offset ← of_option (stripe_offset u (sf_stripe_idx s));
  upd_slot ch slot (with_buf_aligned (aligned_buf (ub_alignment_bytes u) (sf_buf s)));;
  io_uring_prep ch have_sqe (SqeRead slot (stripe_nbytes u) offset);;
  ret ← io_uring_submit ch;
  if ret <? 0 then ubi_fail_stripe_fetch ch slot else mret ().

Definition ubi_complete_fetch_stripe (ch : Z) (slot : nat) (res : Z) : M world Z :=
  u ← get_ub;
  s ← get_slot ch slot;
  offset ← of_option (stripe_offset u (sf_stripe_idx s));
  if res <? 0 then
    ubi_fail_stripe_fetch ch slot;; mret (-1)
  else
    ret ← base_submit
            (RqStripeWrite ch slot (u64 (offset + UBI_METADATA_SIZE)) (stripe_nbytes u));
    if negb (ret =? 0) then
      ubi_fail_stripe_fetch ch slot;; mret (-1)
    else mret 1.

(** The callback of the base bdev write; [bdev_io] is the completed request.
    The code does not look at [success]. *)
Definition write_stripe_io_completion (bdev_io : base_req) (success : bool)
    (ch : Z) (slot : nat) : M world unit :=
  spdk_bdev_free_io bdev_io;;
  s ← get_slot ch slot;
  ubi_set_stripe_status (sf_stripe_idx s) STRIPE_FETCHED;;
  u ← get_ub;
  put_ub (with_stripes_fetched (u64 (ub_stripes_fetched u + 1)) u);;
  upd_slot ch slot (with_active false).
End Fetch.
