(* ===== verification/Metadata.v ===== *)
(** On-disk metadata: the members of [struct ubi_metadata]
    ([include/bdev_ubi_internal.h]) and the functions of
    [src/lib/bdev_ubi.c] that initialise, version and load it. *)
From stdpp Require Import base tactics list gmap option numbers functions strings.
From Stdlib Require Import ZArith Lia.
From S2P Require Import Prelude Types World Layout Stripe.

Local Open Scope Z_scope.

(** * The functions of the source *)

Definition store_littleendian_shortint (n : Z) : list Z :=
  [u8 (Z.land n 255); u8 (Z.shiftr n 8)].

Definition load_littleendian_shortint (mem : list Z) : option Z :=
  match mem with
  | [b0; b1] => Some (u16 (Z.lor b0 (Z.shiftl b1 8)))
  | _ => None
  end.

Definition ubi_set_version (m : ubi_metadata) (major minor : Z) : ubi_metadata :=
  mk_metadata (md_magic m) (store_littleendian_shortint major)
    (store_littleendian_shortint minor) (md_stripe_size_kb m)
    (md_stripe_headers m) (md_padding m).

Definition ubi_get_version (m : ubi_metadata) : option (Z * Z) :=
  major ← load_littleendian_shortint (md_versionMajor m);
  minor ← load_littleendian_shortint (md_versionMinor m);
  Some (major, minor).

(** [for (i = 0; i < UBI_MAGIC_SIZE; i++) if (magic[i] != 0) return false;] *)
Definition ubi_new_disk (magic : list Z) : bool := forallb (λ b, b =? 0) magic.

Definition ubi_init_metadata (u : ubi_bdev) : ubi_bdev :=
  let u := with_metadata (λ m, mk_metadata UBI_MAGIC (md_versionMajor m) (md_versionMinor m)
                                 (md_stripe_size_kb m) (md_stripe_headers m) (md_padding m)) u in
  let u := with_metadata (λ m, ubi_set_version m UBI_VERSION_MAJOR UBI_VERSION_MINOR) u in
  with_metadata (λ m, mk_metadata (md_magic m) (md_versionMajor m) (md_versionMinor m)
                        (u8 (ub_stripe_size_kb u)) (md_stripe_headers m) (md_padding m)) u.

(** One round of the loop over the stripe headers, and the loop. *)
Definition load_stripe (i : Z) (u : ubi_bdev) : ubi_bdev :=
  let fetched := c_true ((md_stripe_headers (ub_metadata u) i).1) in
  let u := with_status (<[i := if fetched then STRIPE_FETCHED else STRIPE_NOT_FETCHED]>) u in
  if fetched then
    with_stripes_flushed (u64 (ub_stripes_flushed u + 1))
      (with_stripes_fetched (u64 (ub_stripes_fetched u + 1)) u)
  else u.

Fixpoint load_stripes (n : nat) (i : Z) (u : ubi_bdev) : ubi_bdev :=
  match n with
  | O => u
  | S n' => load_stripes n' (i + 1) (load_stripe i u)
  end.

(** What [ubi_finish_read_metadata] does with metadata that was read
    successfully: the status passed to [ubi_finish_create] and the bdev. *)
Definition ubi_load_metadata (u : ubi_bdev) : option (Z * ubi_bdev) :=
  let m := ub_metadata u in
  if ubi_new_disk (md_magic m) then Some (0, ubi_init_metadata u)
  else if negb (bool_decide (md_magic m = UBI_MAGIC)) then Some (- EINVAL, u)
  else
    '(major, minor) ← ubi_get_version m;
    if negb (major =? UBI_VERSION_MAJOR) || negb (minor =? UBI_VERSION_MINOR)
    then Some (- EINVAL, u)
    else Some (0, load_stripes (Z.to_nat UBI_MAX_STRIPES) 0 u).

(** * Byte layout of the structure *)

Definition OFF_versionMajor : Z := UBI_MAGIC_SIZE.
Definition OFF_versionMinor : Z := OFF_versionMajor + 2.
Definition OFF_stripe_size_kb : Z := OFF_versionMinor + 2.
Definition OFF_stripe_headers : Z := OFF_stripe_size_kb + 1.
Definition OFF_padding : Z := OFF_stripe_headers + UBI_MAX_STRIPES * 2.

(** What the members of the packed structure hold when its memory holds the
    bytes [d]. The code serialises nothing: it passes the address of
    [ubi_bdev->metadata] as the buffer of the base bdev's read and writes
    ([ubi_start_read_metadata], [ubi_start_write_metadata]), so a read fills the
    members with the bytes of the disk and a write stores the members. *)
Definition metadata_of_bytes (d : Z → Z) : ubi_metadata :=
  mk_metadata (d <$> seqZ 0 UBI_MAGIC_SIZE) (d <$> seqZ OFF_versionMajor 2)
    (d <$> seqZ OFF_versionMinor 2) (d OFF_stripe_size_kb)
    (λ i, (d (OFF_stripe_headers + 2 * i), d (OFF_stripe_headers + 2 * i + 1)))
    (λ i, d (OFF_padding + i)).

(** Two structures with the same bytes, the array members compared at the
    indices they have. *)
Record metadata_equiv (m1 m2 : ubi_metadata) : Prop := {
  me_magic : md_magic m1 = md_magic m2;
  me_major : md_versionMajor m1 = md_versionMajor m2;
  me_minor : md_versionMinor m1 = md_versionMinor m2;
  me_stripe : md_stripe_size_kb m1 = md_stripe_size_kb m2;
  me_headers i : 0 ≤ i < UBI_MAX_STRIPES → md_stripe_headers m1 i = md_stripe_headers m2 i;
  me_padding i : 0 ≤ i < UBI_PADDING_SIZE → md_padding m1 i = md_padding m2 i
}.
#[export] Instance metadata_equiv_equiv : Equiv ubi_metadata := metadata_equiv.
#[export] Instance metadata_equivalence : Equivalence (≡@{ubi_metadata}).
Proof.
  split.
  - by intros m; split.
  - intros m1 m2 [? ? ? ? Hh Hp]; split; [done..| |]; intros i Hi; symmetry; auto.
  - intros m1 m2 m3 [? ? ? ? Hh Hp] [? ? ? ? Hh' Hp']; split; [congruence..| |];
      intros i Hi; [rewrite Hh by done; auto|rewrite Hp by done; auto].
Qed.

(** Lengths of the fixed-size arrays. *)
Definition metadata_wf (m : ubi_metadata) : Prop :=
  length (md_magic m) = 9%nat ∧ length (md_versionMajor m) = 2%nat ∧
  length (md_versionMinor m) = 2%nat.

(** * Lemmas *)

(** A 16-bit value survives a store and a load. *)
Lemma littleendian_roundtrip n : 0 ≤ n < 2 ^ 16 →
  load_littleendian_shortint (store_littleendian_shortint n) = Some n.
Proof.
  intros Hn. unfold store_littleendian_shortint, load_littleendian_shortint. f_equal.
  change 255 with (2 ^ 8 - 1). rewrite land_mask, shiftr_div by lia. unfold u8.
  pose proof (Z.mod_pos_bound n (2 ^ 8) ltac:(lia)).
  assert (0 ≤ n `div` 2 ^ 8 < 2 ^ 8).
  { split; [apply Z.div_pos; lia|apply Z.div_lt_upper_bound; lia]. }
  rewrite !Z.mod_mod, (Z.mod_small (n `div` 2 ^ 8)), lor_low_high by lia.
  rewrite (Z.mul_comm _ (2 ^ 8)), Z.add_comm, <-Z.div_mod by lia. by apply u16_small.
Qed.

Lemma set_get_version m major minor : 0 ≤ major < 2 ^ 16 → 0 ≤ minor < 2 ^ 16 →
  ubi_get_version (ubi_set_version m major minor) = Some (major, minor).
Proof.
  intros. unfold ubi_get_version, ubi_set_version. cbn [md_versionMajor md_versionMinor].
  by rewrite !littleendian_roundtrip.
Qed.

Lemma list_2 {A} (l : list A) : length l = 2%nat → ∃ x y, l = [x; y].
Proof. destruct l as [|x [|y [|??]]]; simpl; naive_solver. Qed.

(** ** The loop over the stripe headers *)

Lemma load_stripe_metadata i u : ub_metadata (load_stripe i u) = ub_metadata u.
Proof. unfold load_stripe. by case_match. Qed.

Lemma load_stripe_status i u k :
  ub_stripe_status (load_stripe i u) k =
  if decide (k = i) then
    if c_true ((md_stripe_headers (ub_metadata u) i).1) then STRIPE_FETCHED
    else STRIPE_NOT_FETCHED
  else ub_stripe_status u k.
Proof.
  unfold load_stripe. destruct (c_true _) eqn:Hh; simpl; case_decide as Hk; subst;
    by rewrite ?fn_lookup_insert, ?fn_lookup_insert_ne by done.
Qed.

Lemma load_stripes_metadata n i u : ub_metadata (load_stripes n i u) = ub_metadata u.
Proof.
  revert i u. induction n as [|n IH]; intros i u; simpl; [done|].
  by rewrite IH, load_stripe_metadata.
Qed.

Lemma load_stripes_status n i u k :
  ub_stripe_status (load_stripes n i u) k =
  if decide (i ≤ k < i + Z.of_nat n) then
    if c_true ((md_stripe_headers (ub_metadata u) k).1) then STRIPE_FETCHED
    else STRIPE_NOT_FETCHED
  else ub_stripe_status u k.
Proof.
  revert i u. induction n as [|n IH]; intros i u; cbn [load_stripes].
  { by rewrite decide_False by lia. }
  rewrite IH, load_stripe_metadata, load_stripe_status.
  repeat case_decide; subst; try lia; done.
Qed.

(** The number of stripes below [n] whose header says they are fetched. *)
Definition header_count (m : ubi_metadata) (i : Z) (n : nat) : nat :=
  length (filter (λ k, c_true ((md_stripe_headers m k).1) = true) (seqZ i (Z.of_nat n))).

Lemma header_count_S m i n :
  header_count m i (S n) =
  ((if c_true ((md_stripe_headers m i).1) then 1 else 0) + header_count m (i + 1) n)%nat.
Proof.
  unfold header_count. rewrite seqZ_cons, filter_cons by lia.
  replace (Z.pred (Z.of_nat (S n))) with (Z.of_nat n) by lia.
  fold (Z.succ i). destruct (c_true _) eqn:Hc.
  - by rewrite decide_True by done.
  - by rewrite decide_False by congruence.
Qed.

Lemma load_stripes_counts n i u :
  0 ≤ ub_stripes_fetched u → ub_stripes_fetched u + Z.of_nat n < 2 ^ 64 →
  0 ≤ ub_stripes_flushed u → ub_stripes_flushed u + Z.of_nat n < 2 ^ 64 →
  ub_stripes_fetched (load_stripes n i u) =
    ub_stripes_fetched u + Z.of_nat (header_count (ub_metadata u) i n) ∧
  ub_stripes_flushed (load_stripes n i u) =
    ub_stripes_flushed u + Z.of_nat (header_count (ub_metadata u) i n).
Proof.
  revert i u. induction n as [|n IH]; intros i u H1 H2 H3 H4; cbn [load_stripes].
  { unfold header_count. simpl. lia. }
  rewrite header_count_S. rewrite <-(load_stripe_metadata i u) at 2 4.
  unfold load_stripe in *. destruct (c_true _) eqn:Hc.
  - destruct (IH (i + 1) (load_stripe i u)) as [E1 E2];
      unfold load_stripe in *; rewrite Hc in *; simpl in *;
      rewrite ?u64_small in * by lia; lia.
  - destruct (IH (i + 1) (load_stripe i u)) as [E1 E2];
      unfold load_stripe in *; rewrite Hc in *; simpl in *; lia.
Qed.

(** ** Headers and statuses *)

(** The persistent headers agree with the statuses in memory. *)
Definition headers_sync (u : ubi_bdev) : Prop := ∀ k, 0 ≤ k < UBI_MAX_STRIPES →
  c_true ((md_stripe_headers (ub_metadata u) k).1) =
  bool_decide (ub_stripe_status u k = STRIPE_FETCHED).

(** The metadata of an initialised disk. *)
Definition metadata_current (m : ubi_metadata) : Prop :=
  metadata_wf m ∧ md_magic m = UBI_MAGIC ∧
  ubi_get_version m = Some (UBI_VERSION_MAJOR, UBI_VERSION_MINOR).

Lemma metadata_current_proper m1 m2 :
  m1 ≡ m2 → metadata_current m1 → metadata_current m2.
Proof.
  intros [Hm Hj Hn _ _ _] ((? & ? & ?) & ? & Hv).
  unfold metadata_current, metadata_wf, ubi_get_version in *.
  by rewrite <-Hm, <-Hj, <-Hn.
Qed.

(** A bdev as [bdev_ubi_create] allocates it, with the metadata [m] read. *)
Record freshly_read (u : ubi_bdev) (m : ubi_metadata) : Prop := {
  fr_metadata : ub_metadata u ≡ m;
  fr_status k : ub_stripe_status u k = STRIPE_NOT_FETCHED;
  fr_fetched : ub_stripes_fetched u = 0;
  fr_flushed : ub_stripes_flushed u = 0
}.

Lemma load_metadata_current u m : freshly_read u m → metadata_current m →
  ubi_load_metadata u = Some (0, load_stripes (Z.to_nat UBI_MAX_STRIPES) 0 u).
Proof.
  intros [Heq _ _ _] Hcur. symmetry in Heq.
  destruct (metadata_current_proper _ _ Heq Hcur) as (_ & Hmag & Hver).
  unfold ubi_load_metadata. rewrite Hmag, Hver.
  generalize (load_stripes (Z.to_nat UBI_MAX_STRIPES) 0 u). done.
Qed.

Lemma load_metadata_status u m k : freshly_read u m → 0 ≤ k < UBI_MAX_STRIPES →
  ub_stripe_status (load_stripes (Z.to_nat UBI_MAX_STRIPES) 0 u) k =
  if c_true ((md_stripe_headers m k).1) then STRIPE_FETCHED else STRIPE_NOT_FETCHED.
Proof.
  intros [Heq Hst _ _] Hk. rewrite load_stripes_status.
  rewrite decide_True by (unfold UBI_MAX_STRIPES in *; lia).
  by rewrite (me_headers _ _ Heq) by done.
Qed.

Lemma header_count_ext m1 m2 i n :
  (∀ k, i ≤ k < i + Z.of_nat n →
    c_true ((md_stripe_headers m1 k).1) = c_true ((md_stripe_headers m2 k).1)) →
  header_count m1 i n = header_count m2 i n.
Proof.
  revert i. induction n as [|n IH]; intros i Hext; [done|]. rewrite !header_count_S.
  rewrite Hext by lia. f_equal. apply IH. intros k Hk. apply Hext. lia.
Qed.

(** The number of stripes with status fetched. *)
Definition fetched_count (u : ubi_bdev) : nat :=
  length (filter (λ k, ub_stripe_status u k = STRIPE_FETCHED) (seqZ 0 UBI_MAX_STRIPES)).

Lemma header_count_fetched u : headers_sync u →
  header_count (ub_metadata u) 0 (Z.to_nat UBI_MAX_STRIPES) = fetched_count u.
Proof.
  intros Hsync. unfold header_count, fetched_count.
  rewrite Z2Nat.id by (unfold UBI_MAX_STRIPES; lia).
  apply length_filter_iff. intros k Hk%elem_of_seqZ.
  rewrite Hsync by lia. by rewrite bool_decide_eq_true.
Qed.

(** What loading the metadata leaves alone. *)
Definition parameters (u : ubi_bdev) :=
  (ub_bdev u, ub_base_bdev_info u, ub_image_path u, ub_stripe_size_kb u,
   (ub_stripe_block_count u, ub_stripe_shift u, ub_data_offset_blocks u, ub_image_block_count u),
   ub_alignment_bytes u, (ub_no_sync u, ub_copy_on_read u, ub_directio u), ub_thread u).

Lemma parameters_fields u u' : parameters u' = parameters u →
  ub_bdev u' = ub_bdev u ∧ ub_base_bdev_info u' = ub_base_bdev_info u ∧ ub_thread u' = ub_thread u.
Proof. intros H. injection H. intros. by split_and!. Qed.

Lemma load_stripe_parameters i u : parameters (load_stripe i u) = parameters u.
Proof. unfold load_stripe. by destruct (c_true _). Qed.

Lemma load_stripes_parameters n i u : parameters (load_stripes n i u) = parameters u.
Proof.
  revert i u. induction n as [|n IH]; intros i u; [done|]. cbn [load_stripes].
  by rewrite IH, load_stripe_parameters.
Qed.

Lemma load_metadata_parameters u st u' :
  ubi_load_metadata u = Some (st, u') → parameters u' = parameters u.
Proof.
  unfold ubi_load_metadata.
  generalize (load_stripes_parameters (Z.to_nat UBI_MAX_STRIPES) 0 u).
  generalize (load_stripes (Z.to_nat UBI_MAX_STRIPES) 0 u). intros v Hv.
  destruct (ubi_new_disk _); [by intros [= <- <-]|].
  destruct (negb (bool_decide _)); [by intros [= <- <-]|].
  destruct (ubi_get_version _) as [[major minor]|]; [|done]. simpl.
  destruct (_ || _); by intros [= <- <-].
Qed.

(** * Properties *)

(** A bdev of 1 MiB stripes whose stripe 3 was fetched. *)
Definition ub_fetched_3 : ubi_bdev :=
  set_status 3 STRIPE_FETCHED (ubi_init_metadata (ubi_bdev_zero base_100M 1024)).

(** Persistence of the fetched stripes: when the metadata of a running bdev
    whose headers agree with its statuses is written to the base bdev, and a
    new bdev is created from those bytes, loading succeeds, a stripe is
    fetched in the new bdev exactly when it was fetched in the old one, every
    other stripe (a failed one too) is not fetched, and both counters are the
    number of fetched stripes. *)
Theorem metadata_recreate (u u0 : ubi_bdev) :
  metadata_current (ub_metadata u) → headers_sync u →
  freshly_read u0 (ub_metadata u) →
  ∃ u1, ubi_load_metadata u0 = Some (0, u1) ∧
    (∀ k, 0 ≤ k < UBI_MAX_STRIPES →
      ub_stripe_status u1 k = if bool_decide (ub_stripe_status u k = STRIPE_FETCHED)
                              then STRIPE_FETCHED else STRIPE_NOT_FETCHED) ∧
    ub_stripes_fetched u1 = Z.of_nat (fetched_count u) ∧
    ub_stripes_flushed u1 = Z.of_nat (fetched_count u).
Proof.
  intros Hcur Hsync Hfr.
  eexists. split; [by eapply load_metadata_current|]. split.
  - intros k Hk. erewrite load_metadata_status by done. by rewrite Hsync.
  - destruct Hfr as [Heq _ Hf Hl].
    destruct (load_stripes_counts (Z.to_nat UBI_MAX_STRIPES) 0 u0) as [-> ->];
      [unfold UBI_MAX_STRIPES; lia..|].
    rewrite Hf, Hl, (header_count_ext _ (ub_metadata u)), header_count_fetched; [done|done|].
    intros k Hk. rewrite (me_headers _ _ Heq); [done|]. unfold UBI_MAX_STRIPES in *. lia.
Qed.

Definition fresh_from (m : ubi_metadata) (kb : Z) : ubi_bdev :=
  with_metadata (λ _, m) (ubi_bdev_zero base_100M kb).
Lemma fresh_from_read m kb : freshly_read (fresh_from m kb) m.
Proof. by split. Qed.

Lemma metadata_recreate_witness :
  ∃ u1, ubi_load_metadata (fresh_from (ub_metadata ub_fetched_3) 1024)
          = Some (0, u1) ∧ ub_stripe_status u1 3 = STRIPE_FETCHED ∧
        ub_stripe_status u1 4 = STRIPE_NOT_FETCHED.
Proof.
  destruct (metadata_recreate ub_fetched_3
              (fresh_from (ub_metadata ub_fetched_3) 1024))
    as (u1 & H1 & H2 & _).
  - repeat split.
  - intros k Hk. unfold ub_fetched_3, set_status; simpl. unfold insert, fn_insert.
    by destruct (decide (3 = k)).
  - apply fresh_from_read.
  - exists u1. split; [exact H1|]. clear H1.
    split; rewrite H2 by (unfold UBI_MAX_STRIPES; lia); reflexivity.
Defined.

(** Loading rejects foreign metadata: when the magic is neither all zero nor
    ["BDEV_UBI"], or the version is not 0.1, the status is [-EINVAL] and the
    bdev is unchanged. *)
Theorem load_metadata_rejects (u : ubi_bdev) :
  metadata_wf (ub_metadata u) → ubi_new_disk (md_magic (ub_metadata u)) = false →
  ¬ metadata_current (ub_metadata u) → ubi_load_metadata u = Some (- EINVAL, u).
Proof.
  intros Hwf Hnew Hcur. unfold ubi_load_metadata. rewrite Hnew.
  destruct (decide (md_magic (ub_metadata u) = UBI_MAGIC)) as [Hm|Hm].
  2: { by rewrite bool_decide_eq_false_2. }
  rewrite bool_decide_eq_true_2 by done. cbn [negb].
  destruct Hwf as (H1 & H2 & H3).
  destruct (list_2 _ H2) as (a & b & Hab), (list_2 _ H3) as (c & d & Hcd).
  destruct (ubi_get_version (ub_metadata u)) as [[major minor]|] eqn:Hv.
  2: { unfold ubi_get_version in Hv. by rewrite Hab, Hcd in Hv. }
  generalize (load_stripes (Z.to_nat UBI_MAX_STRIPES) 0 u). intros v. simpl.
  destruct (Z.eqb_spec major UBI_VERSION_MAJOR) as [->|]; [|done].
  destruct (Z.eqb_spec minor UBI_VERSION_MINOR) as [->|]; [|done].
  exfalso. apply Hcur. split_and!; done.
Qed.

Lemma load_metadata_rejects_witness :
  ubi_load_metadata (fresh_from (ubi_set_version (ub_metadata ub_fetched_3) 1 0) 1024) =
  Some (- EINVAL, fresh_from (ubi_set_version (ub_metadata ub_fetched_3) 1 0) 1024).
Proof.
  apply (load_metadata_rejects (fresh_from (ubi_set_version (ub_metadata ub_fetched_3) 1 0) 1024)).
  - repeat split.
  - reflexivity.
  - intros (_ & _ & Hv). discriminate Hv.
Defined.

(** C40. A disk is taken for new when its magic bytes are zero, and initialising
    its metadata keeps the stripe headers it was read with: a header byte that
    was not zeroed becomes a fetched stripe as soon as the metadata is written
    and the bdev is created again, although this bdev never fetched it. *)
Theorem new_disk_keeps_stale_headers (u u0 : ubi_bdev) (k : Z) :
  freshly_read u (ub_metadata u) → metadata_wf (ub_metadata u) →
  ubi_new_disk (md_magic (ub_metadata u)) = true →
  0 ≤ k < UBI_MAX_STRIPES → (md_stripe_headers (ub_metadata u) k).1 ≠ 0 →
  freshly_read u0 (ub_metadata (ubi_init_metadata u)) →
  ubi_load_metadata u = Some (0, ubi_init_metadata u) ∧
  ub_stripe_status (ubi_init_metadata u) k = STRIPE_NOT_FETCHED ∧
  ∃ u1, ubi_load_metadata u0 = Some (0, u1) ∧ ub_stripe_status u1 k = STRIPE_FETCHED.
Proof.
  intros Hu Hwf Hnew Hk Hh Hu0. unfold ubi_load_metadata at 1. rewrite Hnew.
  split; [done|]. split; [apply (fr_status _ _ Hu)|].
  assert (Hcur : metadata_current (ub_metadata (ubi_init_metadata u))) by (repeat split).
  eexists. split; [by eapply load_metadata_current|].
  erewrite load_metadata_status by done. simpl.
  unfold c_true. by rewrite (proj2 (Z.eqb_neq _ _)).
Qed.

(** Only the first 512 bytes were zeroed: headers from stripe 249 on are old. *)
Definition stale_disk : ubi_bdev :=
  fresh_from (metadata_of_bytes (λ off, if off <? 512 then 0 else 1)) 1024.
Lemma new_disk_keeps_stale_headers_witness :
  ubi_load_metadata stale_disk = Some (0, ubi_init_metadata stale_disk) ∧
  ub_stripe_status (ubi_init_metadata stale_disk) 300 = STRIPE_NOT_FETCHED ∧
  ∃ u1, ubi_load_metadata (fresh_from (ub_metadata (ubi_init_metadata stale_disk)) 1024) = Some (0, u1) ∧
        ub_stripe_status u1 300 = STRIPE_FETCHED.
Proof.
  apply (new_disk_keeps_stale_headers stale_disk _ 300).
  - apply fresh_from_read.
  - repeat split.
  - reflexivity.
  - unfold UBI_MAX_STRIPES. lia.
  - discriminate.
  - apply fresh_from_read.
Defined.

(** The stripe size is recorded in one byte: of the stripe sizes that the
    layout accepts, [ubi_init_metadata] records 64 and 128 KiB, and stores 0
    for 256, 512 and 1024 KiB. *)
Theorem metadata_stripe_size_truncated (u : ubi_bdev) (base : spdk_bdev) (st_size : Z) :
  layout_accepts u base st_size = true →
  md_stripe_size_kb (ub_metadata (ubi_init_metadata u)) =
  if ub_stripe_size_kb u <=? 128 then ub_stripe_size_kb u else 0.
Proof.
  unfold layout_accepts. rewrite !andb_true_iff, !Z.leb_le, !Z.eqb_eq.
  intros (((((_ & Hmin) & Hmax) & Hland) & _) & _). simpl.
  destruct (stripe_size_pow2 _ (conj Hmin Hmax) Hland) as (a & Ha & ->).
  by assert (a = 6 ∨ a = 7 ∨ a = 8 ∨ a = 9 ∨ a = 10) as [->|[->|[->|[->| ->]]]] by lia.
Qed.

Lemma metadata_stripe_size_truncated_witness :
  md_stripe_size_kb (ub_metadata (ubi_init_metadata (ubi_bdev_zero base_100M 1024))) = 0.
Proof.
  exact (metadata_stripe_size_truncated (ubi_bdev_zero base_100M 1024) base_100M 41943040
           eq_refl).
Defined.
