(* ===== verification/Flush.v ===== *)
(** Flush requests, [src/lib/bdev_ubi_flush.c]: flush the data range, and
    when stripes were fetched since the last metadata flush, write the
    metadata and flush it. *)
From stdpp Require Import base tactics list gmap option numbers functions strings.
From Stdlib Require Import ZArith Lia.
From S2P Require Import Prelude Types World.

Local Open Scope Z_scope.

Section Flush.
Context {E : ext_env}.

Definition ubi_submit_flush_request (io : Z) : M world unit :=
  uio ← get_uio io;
  u ← get_ub;
  if ub_no_sync u then spdk_bdev_io_complete io SPDK_BDEV_IO_STATUS_SUCCESS
  else
    let start_block := u64 (uio_block_offset uio + ub_data_offset_blocks u) in
    let num_blocks := uio_block_count uio in
    ret ← base_submit (RqDataFlush io start_block num_blocks);
    if c_true ret then spdk_bdev_io_complete io SPDK_BDEV_IO_STATUS_FAILED
    else mret ().

(** [UBI_METADATA_SIZE / blocklen] or [sizeof(metadata) / blocklen] as a
    [uint32_t]; division by zero is undefined. *)
Definition metadata_blocks (size : Z) (u : ubi_bdev) : option Z :=
  if bd_blocklen (ub_bdev u) =? 0 then None
  else Some (u32 (size `div` bd_blocklen (ub_bdev u))).

Definition ubi_data_flush_completion (bdev_io : base_req) (success : bool) (io : Z)
    : M world unit :=
  spdk_bdev_free_io bdev_io;;
  if negb success then mret ()
  else
    u ← get_ub;
    if ub_stripes_fetched u =? ub_stripes_flushed u
    then spdk_bdev_io_complete io SPDK_BDEV_IO_STATUS_SUCCESS
    else
      num_blocks ← of_option (metadata_blocks UBI_METADATA_SIZE u);
      i ← get_io io;
      put_io io (with_driver_ctx
                   (with_uio_stripes_fetched (ub_stripes_fetched u) (io_driver_ctx i)) i);;
      ret ← base_submit (RqMetadataWrite io 0 num_blocks);
      if c_true ret then spdk_bdev_io_complete io SPDK_BDEV_IO_STATUS_FAILED
      else mret ().

Definition ubi_metadata_write_completion (bdev_io : base_req) (success : bool) (io : Z)
    : M world unit :=
  spdk_bdev_free_io bdev_io;;
  if negb success then spdk_bdev_io_complete io SPDK_BDEV_IO_STATUS_FAILED
  else
    u ← get_ub;
    num_blocks ← of_option (metadata_blocks SIZEOF_UBI_METADATA u);
    ret ← base_submit (RqMetadataFlush io 0 num_blocks);
    if c_true ret then spdk_bdev_io_complete io SPDK_BDEV_IO_STATUS_FAILED
    else mret ().

Definition ubi_metadata_flush_completion (bdev_io : base_req) (success : bool) (io : Z)
    : M world unit :=
  spdk_bdev_free_io bdev_io;;
  if negb success then spdk_bdev_io_complete io SPDK_BDEV_IO_STATUS_FAILED
  else
    uio ← get_uio io;
    u ← get_ub;
    (if ub_stripes_flushed u <? uio_stripes_fetched uio
     then put_ub (with_stripes_flushed (uio_stripes_fetched uio) u)
     else mret ());;
    spdk_bdev_io_complete io SPDK_BDEV_IO_STATUS_SUCCESS.
End Flush.
