(* ===== verification/IoChannel.v ===== *)
(** The I/O path of a channel, [src/lib/bdev_ubi_io_channel.c]: the poller
    [ubi_io_poll] with the completion of image reads, the dispatch of
    queued requests, and the completion callbacks. *)
From stdpp Require Import base tactics list gmap option numbers functions strings.
From Stdlib Require Import ZArith Lia.
From S2P Require Import Prelude Types World FetchQueue Stripe Flush.

Local Open Scope Z_scope.

(** * Completion of a request of the module *)

Definition ubi_complete_io (io : Z) (success : bool) : M world unit :=
  i ← get_io io;
  (if decide (io_type i = SPDK_BDEV_IO_TYPE_READ) then
     upd_ch (uio_ch (io_driver_ctx i))
       (λ c, with_active_reads (u64 (ch_active_reads c - 1)) c)
   else mret ());;
  spdk_bdev_io_complete io
    (if success then SPDK_BDEV_IO_STATUS_SUCCESS else SPDK_BDEV_IO_STATUS_FAILED).

(** Callback of a read or write of the base bdev. *)
Definition ubi_io_completion_cb (bdev_io : base_req) (success : bool) (io : Z)
    : M world unit :=
  spdk_bdev_free_io bdev_io;; ubi_complete_io io success.

Definition ubi_complete_read_from_image (io : Z) (res : Z) : M world Z :=
  if res <? 0 then ubi_complete_io io false;; mret (-1)
  else ubi_complete_io io true;; mret 1.

Definition ubi_init_ext_io_opts (i : spdk_bdev_io) : spdk_bdev_ext_io_opts :=
  mk_ext_opts (io_memory_domain i) (io_memory_domain_ctx i) (io_md_buf i).

(** The stripe of a block. *)
Definition stripe_of (u : ubi_bdev) (block : Z) : Z := Z.shiftr block (ub_stripe_shift u).

Section Channel.
Context {E : ext_env}.

(** * Reads and writes of the base bdev *)

Definition ubi_submit_read_request (io : Z) : M world Z :=
  i ← get_io io;
  u ← get_ub;
  base_submit (RqRead io (u64 (io_offset_blocks i + ub_data_offset_blocks u))
                 (io_num_blocks i) (ubi_init_ext_io_opts i)).

Definition ubi_submit_write_request (io : Z) : M world Z :=
  i ← get_io io;
  u ← get_ub;
  base_submit (RqWrite io (u64 (io_offset_blocks i + ub_data_offset_blocks u))
                 (io_num_blocks i) (ubi_init_ext_io_opts i)).

(** Runs when the read [io] has its data buffer. *)
Definition get_buf_for_read_cb (io : Z) (success : bool) : M world unit :=
  if negb success then ubi_complete_io io false
  else
    i ← get_io io;
    u ← get_ub;
    let start_block := io_offset_blocks i in
    stripe_status ← ubi_get_stripe_status (stripe_of u start_block);
    if bool_decide (stripe_status = STRIPE_FETCHED) || (ub_image_block_count u <=? start_block)
    then
      ret ← ubi_submit_read_request io;
      if negb (ret =? 0) then ubi_complete_io io false else mret ()
    else
      let ch := uio_ch (io_driver_ctx i) in
      have_sqe ← io_uring_get_sqe ch;
      if negb have_sqe then ubi_complete_io io false
      else
        let offset := u64 (start_block * bd_blocklen (ub_bdev u)) in
        io_uring_prep ch have_sqe (SqeReadv io offset);;
        upd_ch ch (λ c, with_has_reads (i32 (ch_has_reads c + 1)) c).

Definition spdk_bdev_io_get_buf (io len : Z) : M world unit :=
  r ← ext (CallGetBuf io len);
  if r =? 0 then modify (λ w, with_bufq (io :: w_bufq w) w)
  else get_buf_for_read_cb io (r =? 1).

(** * Completions of the image file *)

(** One completion: [op->type] is read through the user data; a completion
    whose tag does not match the object would be a wrong cast. *)
Definition handle_cqe (ch : Z) (e : sqe) (res : Z) : M world Z :=
  match e with
  | SqeRead slot _ _ =>
      s ← get_slot ch slot;
      match sf_op s with
      | UBI_STRIPE_FETCH => ubi_complete_fetch_stripe ch slot res
      | UBI_BDEV_IO => undef
      end
  | SqeReadv io _ =>
      uio ← get_uio io;
      match uio_op uio with
      | UBI_BDEV_IO => ubi_complete_read_from_image io res
      | UBI_STRIPE_FETCH => undef
      end
  end.

Fixpoint handle_cqes (ch : Z) (l : list (sqe * Z)) (ret : Z) : M world Z :=
  match l with
  | [] => mret ret
  | (e, res) :: l' =>
      ret ← handle_cqe ch e res;
      io_uring_cqe_seen ch;;
      handle_cqes ch l' ret
  end.

Definition ubi_complete_image_io (ch : Z) : M world Z :=
  batch ← io_uring_peek_batch_cqe ch 64;
  match batch with
  | inl err => if err =? - EAGAIN then mret 0 else mret (-1)
  | inr cqes => handle_cqes ch cqes 0
  end.

(** * The poller *)

(** Slots of [stripe_fetches] that are not active, in increasing order. *)
Fixpoint free_stripe_fetches (i : nat) (l : list stripe_fetch) : list nat :=
  match l with
  | [] => []
  | s :: l' => if sf_active s then free_stripe_fetches (S i) l'
               else i :: free_stripe_fetches (S i) l'
  end.

(** Dequeue and start stripe fetches while there is a free slot. *)
Fixpoint start_fetches (ch : Z) (free : list nat) : M world unit :=
  match free with
  | [] => mret ()
  | slot :: free' =>
      empty ← stripe_queue_empty ch;
      if (empty : bool) then mret ()
      else
        stripe_idx ← dequeue_stripe ch;
        upd_slot ch slot (with_sf_start (u32 stripe_idx));;
        ubi_start_fetch_stripe ch slot;;
        upd_ch ch (λ c, with_ch_stripes_fetched (u64 (ch_stripes_fetched c + 1)) c);;
        start_fetches ch free'
  end.

(** What the loop over the queued requests does with the first one. *)
Inductive verdict : Type :=
| VFail    (** remove it and complete it as failed *)
| VWait    (** leave it and everything behind it in the queue *)
| VServe.  (** remove it and service it *)

Definition io_verdict (c : ubi_io_channel) (i : spdk_bdev_io) : M world verdict :=
  u ← get_ub;
  let is_read := bool_decide (io_type i = SPDK_BDEV_IO_TYPE_READ) in
  if is_read && (UBI_MAX_CONCURRENT_READS <=? ch_active_reads c) then mret VWait
  else
    let start_block := io_offset_blocks i in
    if negb (bool_decide (io_type i = SPDK_BDEV_IO_TYPE_FLUSH)) &&
       (start_block <? ub_image_block_count u)
    then
      stripe_status ← ubi_get_stripe_status (stripe_of u start_block);
      match stripe_status with
      | STRIPE_FAILED => mret VFail
      | STRIPE_INFLIGHT => mret VWait
      | STRIPE_NOT_FETCHED =>
          if negb is_read || ub_copy_on_read u then mret VFail else mret VServe
      | STRIPE_FETCHED => mret VServe
      end
    else mret VServe.

(** The driver context the poller writes before it services a request. *)
Definition init_driver_ctx (ch : Z) (i : spdk_bdev_io) : spdk_bdev_io :=
  with_driver_ctx
    (mk_ubi_io UBI_BDEV_IO ch (io_offset_blocks i) (io_num_blocks i)
       (uio_stripes_fetched (io_driver_ctx i))) i.

Definition service_io (ch io : Z) : M world unit :=
  i ← get_io io;
  put_io io (init_driver_ctx ch i);;
  match io_type i with
  | SPDK_BDEV_IO_TYPE_READ =>
      upd_ch ch (λ c, with_active_reads (u64 (ch_active_reads c + 1)) c);;
      upd_ch ch (λ c, with_blocks_read (u64 (ch_blocks_read c + io_num_blocks i)) c);;
      u ← get_ub;
      spdk_bdev_io_get_buf io (u64 (io_num_blocks i * bd_blocklen (ub_bdev u)))
  | SPDK_BDEV_IO_TYPE_WRITE =>
      upd_ch ch (λ c, with_blocks_written (u64 (ch_blocks_written c + io_num_blocks i)) c);;
      ubi_submit_write_request io;; mret ()
  | SPDK_BDEV_IO_TYPE_FLUSH => ubi_submit_flush_request io
  | _ => spdk_bdev_io_complete io SPDK_BDEV_IO_STATUS_FAILED
  end.

(** [while (!TAILQ_EMPTY(&ch->io))]. *)
Fixpoint process_ios (fuel : nat) (ch : Z) : M world unit :=
  match fuel with
  | O => nofuel
  | S fuel' =>
      c ← get_ch ch;
      match ch_io c with
      | [] => mret ()
      | io :: rest =>
          i ← get_io io;
          v ← io_verdict c i;
          match v with
          | VWait => mret ()
          | VFail =>
              upd_ch ch (with_io rest);;
              spdk_bdev_io_complete io SPDK_BDEV_IO_STATUS_FAILED;;
              process_ios fuel' ch
          | VServe =>
              upd_ch ch (with_io rest);;
              service_io ch io;;
              process_ios fuel' ch
          end
      end
  end.

(** [if (ch->has_reads)]: submit the image reads prepared in this round. *)
Definition submit_image_reads (ch : Z) : M world unit :=
  c ← get_ch ch;
  if c_true (ch_has_reads c) then
    ret ← io_uring_submit ch;
    if ret <? 0 then mret () else upd_ch ch (with_has_reads 0)
  else mret ().

(** The loop takes one request off the queue in every round, so the length of
    the queue plus one is enough fuel. *)
Definition ubi_io_poll (ch : Z) : M world Z :=
  c ← get_ch ch;
  let queues_empty := bool_decide (ch_io c = []) && queue_empty (ch_queue c) in
  image_ios_completed ← ubi_complete_image_io ch;
  if queues_empty && (image_ios_completed <? 1) then mret SPDK_POLLER_IDLE
  else if (queues_empty : bool) then mret SPDK_POLLER_BUSY
  else
    c ← get_ch ch;
    start_fetches ch (free_stripe_fetches 0 (ch_stripe_fetches c));;
    c ← get_ch ch;
    process_ios (S (length (ch_io c))) ch;;
    submit_image_reads ch;;
    mret SPDK_POLLER_BUSY.
End Channel.
