(* ===== verification/Submit.v ===== *)
(** Arrival of requests, [src/lib/bdev_ubi.c]: [ubi_submit_request], which
    enqueues a stripe fetch when one is needed and queues the request for
    the poller, and [ubi_io_type_supported]. *)
From stdpp Require Import base tactics list gmap option numbers functions strings.
From Stdlib Require Import ZArith Lia.
From S2P Require Import Prelude Types World FetchQueue Stripe Flush IoChannel.

Local Open Scope Z_scope.

Definition ubi_io_type_supported (t : spdk_bdev_io_type) : bool :=
  match t with
  | SPDK_BDEV_IO_TYPE_READ | SPDK_BDEV_IO_TYPE_WRITE | SPDK_BDEV_IO_TYPE_FLUSH => true
  | _ => false
  end.

(** The requests that make the poller need the stripe on the base bdev. *)
Definition needs_stripe (u : ubi_bdev) (t : spdk_bdev_io_type) : bool :=
  match t with
  | SPDK_BDEV_IO_TYPE_WRITE => true
  | SPDK_BDEV_IO_TYPE_READ => ub_copy_on_read u
  | _ => false
  end.

Definition ubi_submit_request (ch io : Z) : M world unit :=
  i ← get_io io;
  u ← get_ub;
  let enqueue_io := upd_ch ch (λ c, with_io (ch_io c ++ [io]) c) in
  if needs_stripe u (io_type i) then
    let start_block := io_offset_blocks i in
    let end_block := u64 (start_block + io_num_blocks i - 1) in
    let start_stripe := stripe_of u start_block in
    let end_stripe := stripe_of u end_block in
    if negb (start_stripe =? end_stripe) then
      spdk_bdev_io_complete io SPDK_BDEV_IO_STATUS_FAILED
    else if start_block <? ub_image_block_count u then
      st ← ubi_get_stripe_status start_stripe;
      (if bool_decide (st = STRIPE_NOT_FETCHED) then
         enqueue_stripe ch start_stripe;;
         ubi_set_stripe_status start_stripe STRIPE_INFLIGHT
       else mret ());;
      enqueue_io
    else enqueue_io
  else enqueue_io.
