(* ===== verification/FetchProtocol.v ===== *)
(** The stripe fetch protocol: an abstract transition system over what the
    fetch machinery of all channels can observe (statuses, fetch queues,
    fetch slots, outstanding image reads and stripe writes), and the
    invariant that makes it safe: a stripe that is being fetched is held by
    exactly one queue entry or slot of one channel, and an active slot has
    exactly one outstanding operation. *)
From stdpp Require Import base tactics list gmap option numbers functions strings relations.
From Stdlib Require Import ZArith Lia.
From S2P Require Import Prelude Types World Layout FetchQueue Stripe.

Local Open Scope Z_scope.

(** * Observations *)

(** An outstanding read of the image into a slot: slot, length, offset. *)
Definition fetch_of (e : sqe) : option (nat * Z * Z) :=
  match e with SqeRead slot n o => Some (slot, n, o) | SqeReadv _ _ => None end.

(** An outstanding write of a stripe buffer: channel, slot, offset, length. *)
Definition swrite_of (r : base_req) : option (Z * nat * Z * Z) :=
  match r with RqStripeWrite ch slot o n => Some (ch, slot, o, n) | _ => None end.

(** Every entry of a ring that is not consumed yet. *)
Definition ring_all (r : io_uring) : list sqe :=
  (ring_cq r).*1 ++ ring_inflight r ++ ring_sq r.

Record fchan : Type := mk_fchan {
  fc_queue : stripe_fetch_queue;
  fc_slots : list stripe_fetch;
  fc_ring : list (nat * Z * Z)
}.

Definition fchan_of (c : ubi_io_channel) : fchan :=
  mk_fchan (ch_queue c) (ch_stripe_fetches c) (omap fetch_of (ring_all (ch_ring c))).

(** The layout parameters, which no handler changes. *)
Record layout : Type := mk_layout {
  l_blocklen : Z; l_kb : Z; l_sbc : Z; l_shift : Z; l_doff : Z; l_img : Z; l_blockcnt : Z
}.
Definition layout_of (u : ubi_bdev) : layout :=
  mk_layout (bd_blocklen (ub_bdev u)) (ub_stripe_size_kb u) (ub_stripe_block_count u)
    (ub_stripe_shift u) (ub_data_offset_blocks u) (ub_image_block_count u)
    (bd_blockcnt (ub_bdev u)).

Record fview : Type := mk_fview {
  fv_layout : layout;
  fv_status : Z → stripe_status_t;
  fv_chs : gmap Z fchan;
  fv_writes : list (Z * nat * Z * Z)
}.

Definition fview_of (w : world) : fview :=
  mk_fview (layout_of (w_ub w)) (ub_stripe_status (w_ub w)) (fchan_of <$> w_chs w)
    (omap swrite_of (w_fin w ++ w_pend w)).

(** * The protocol *)

(** A layout that [ubi_init_layout_params] produced and whose stripes all have
    an entry in the status array. *)
Definition layout_ok (l : layout) : Prop :=
  geometry (l_blocklen l) (l_kb l) (l_sbc l) (l_shift l) (l_doff l) (l_img l) ∧
  l_img l ≤ l_blockcnt l ∧ l_blockcnt l ≤ UBI_MAX_STRIPES * l_sbc l ∧
  (l_doff l + l_blockcnt l) * l_blocklen l < 2 ^ 63.

(** A stripe with a block of the image. *)
Definition image_stripe (l : layout) (k : Z) : Prop := 0 ≤ k ∧ k * l_sbc l < l_img l.

Definition active_stripes (slots : list stripe_fetch) : list Z :=
  sf_stripe_idx <$> filter (λ s, sf_active s = true) slots.

(** The stripes a channel is responsible for. *)
Definition held (f : fchan) : list Z := queue_list (fc_queue f) ++ active_stripes (fc_slots f).

Definition put_fch (ch : Z) (f : fchan) (v : fview) : fview :=
  mk_fview (fv_layout v) (fv_status v) (<[ch := f]> (fv_chs v)) (fv_writes v).
Definition put_fstatus (k : Z) (st : stripe_status_t) (v : fview) : fview :=
  mk_fview (fv_layout v) (<[k := st]> (fv_status v)) (fv_chs v) (fv_writes v).
Definition put_fwrites (l : list (Z * nat * Z * Z)) (v : fview) : fview :=
  mk_fview (fv_layout v) (fv_status v) (fv_chs v) l.

Definition drop_fch (ch : Z) (v : fview) : fview :=
  mk_fview (fv_layout v) (fv_status v) (delete ch (fv_chs v)) (fv_writes v).

(** A channel that fetches nothing. *)
Record idle_fchan (f : fchan) : Prop := {
  if_wf : queue_wf (fc_queue f);
  if_queue : queue_list (fc_queue f) = [];
  if_slots : length (fc_slots f) = 8%nat;
  if_idle slot s : fc_slots f !! slot = Some s → sf_active s = false;
  if_ring : fc_ring f = []
}.

Definition fetch_bytes (l : layout) : Z := l_kb l * 1024.
Definition fetch_offset (l : layout) (k : Z) : Z := l_kb l * 1024 * k.

Inductive fstep : fview → fview → Prop :=
(** A request needs a stripe that nobody fetched or is fetching. *)
| fs_enqueue v ch f k :
    fv_chs v !! ch = Some f → fv_status v k = STRIPE_NOT_FETCHED →
    image_stripe (fv_layout v) k →
    queue_length (fc_queue f) + 1 < UBI_FETCH_QUEUE_SIZE →
    fstep v (put_fstatus k STRIPE_INFLIGHT
               (put_fch ch (mk_fchan (queue_push (fc_queue f) k) (fc_slots f) (fc_ring f)) v))
(** The poller gives the oldest queued stripe to an idle slot and reads it. *)
| fs_start v ch f slot s s' k l :
    fv_chs v !! ch = Some f → queue_list (fc_queue f) = k :: l →
    fc_slots f !! slot = Some s → sf_active s = false →
    sf_op s' = UBI_STRIPE_FETCH → sf_active s' = true → sf_stripe_idx s' = k →
    fstep v (put_fch ch (mk_fchan (queue_pop (fc_queue f)).2 (<[slot := s']> (fc_slots f))
               (fc_ring f ++ [(slot, fetch_bytes (fv_layout v), fetch_offset (fv_layout v) k)])) v)
(** The image read completed; the stripe is written to the base bdev. *)
| fs_read_ok v ch f slot s n o rf :
    fv_chs v !! ch = Some f → fc_slots f !! slot = Some s →
    fc_ring f ≡ₚ (slot, n, o) :: rf →
    fstep v (put_fwrites ((ch, slot, fetch_offset (fv_layout v) (sf_stripe_idx s) + UBI_METADATA_SIZE,
                           fetch_bytes (fv_layout v)) :: fv_writes v)
               (put_fch ch (mk_fchan (fc_queue f) (fc_slots f) rf) v))
(** The image read failed, or the write was not accepted. *)
| fs_read_fail v ch f slot s n o rf :
    fv_chs v !! ch = Some f → fc_slots f !! slot = Some s →
    fc_ring f ≡ₚ (slot, n, o) :: rf →
    fstep v (put_fstatus (sf_stripe_idx s) STRIPE_FAILED
               (put_fch ch (mk_fchan (fc_queue f) (<[slot := with_active false s]> (fc_slots f)) rf) v))
(** The write to the base bdev completed. *)
| fs_write_done v ch f slot s o n ws :
    fv_chs v !! ch = Some f → fc_slots f !! slot = Some s →
    fv_writes v ≡ₚ (ch, slot, o, n) :: ws →
    fstep v (put_fwrites ws (put_fstatus (sf_stripe_idx s) STRIPE_FETCHED
               (put_fch ch (mk_fchan (fc_queue f) (<[slot := with_active false s]> (fc_slots f))
                              (fc_ring f)) v)))
(** The kernel completes reads in any order. *)
| fs_reorder v ch f rf :
    fv_chs v !! ch = Some f → fc_ring f ≡ₚ rf →
    fstep v (put_fch ch (mk_fchan (fc_queue f) (fc_slots f) rf) v)
| fs_reorder_writes v ws : fv_writes v ≡ₚ ws → fstep v (put_fwrites ws v)
(** Channels come and go while they are idle. *)
| fs_open v ch f : fv_chs v !! ch = None → idle_fchan f → fstep v (put_fch ch f v)
| fs_close v ch f : fv_chs v !! ch = Some f → idle_fchan f → fstep v (drop_fch ch v).

(** * The invariant *)

(** Outstanding operations of a slot. *)
Definition outstanding (ch : Z) (slot : nat) (rf : list (nat * Z * Z))
    (ws : list (Z * nat * Z * Z)) : nat :=
  length (filter (λ x, x.1.1 = slot) rf) +
  length (filter (λ x, x.1.1.1 = ch ∧ x.1.1.2 = slot) ws).

Record chan_ok (v : fview) (ch : Z) (f : fchan) : Prop := {
  co_queue : queue_wf (fc_queue f);
  co_slots : length (fc_slots f) = 8%nat;
  co_nodup : NoDup (held f);
  co_held k : k ∈ held f →
    image_stripe (fv_layout v) k ∧ fv_status v k = STRIPE_INFLIGHT;
  co_outstanding slot s : fc_slots f !! slot = Some s →
    outstanding ch slot (fc_ring f) (fv_writes v) = if sf_active s then 1%nat else 0%nat;
  co_op slot s : fc_slots f !! slot = Some s → sf_active s = true → sf_op s = UBI_STRIPE_FETCH;
  co_ring slot n o : (slot, n, o) ∈ fc_ring f → ∃ s, fc_slots f !! slot = Some s ∧
    n = fetch_bytes (fv_layout v) ∧ o = fetch_offset (fv_layout v) (sf_stripe_idx s)
}.

Record finv (v : fview) : Prop := {
  fi_layout : layout_ok (fv_layout v);
  fi_chan ch f : fv_chs v !! ch = Some f → chan_ok v ch f;
  fi_disjoint ch ch' f f' : fv_chs v !! ch = Some f → fv_chs v !! ch' = Some f' →
    ch ≠ ch' → ∀ k, k ∈ held f → k ∈ held f' → False;
  fi_writes ch slot o n : (ch, slot, o, n) ∈ fv_writes v → ∃ f s,
    fv_chs v !! ch = Some f ∧ fc_slots f !! slot = Some s ∧
    o = fetch_offset (fv_layout v) (sf_stripe_idx s) + UBI_METADATA_SIZE ∧
    n = fetch_bytes (fv_layout v)
}.

(** * Preservation *)

Lemma active_insert_on slots slot s s' :
  slots !! slot = Some s → sf_active s = false → sf_active s' = true →
  active_stripes (<[slot := s']> slots) ≡ₚ sf_stripe_idx s' :: active_stripes slots.
Proof.
  intros Hs Ha Ha'. unfold active_stripes.
  rewrite insert_take_drop by eauto using lookup_lt_Some.
  rewrite <-(take_drop_middle slots slot s Hs) at 3.
  rewrite !filter_app, !filter_cons, Ha, Ha', !fmap_app. simpl.
  by rewrite Permutation_middle.
Qed.

Lemma active_insert_off slots slot s s' :
  slots !! slot = Some s → sf_active s = true → sf_active s' = false →
  active_stripes slots ≡ₚ sf_stripe_idx s :: active_stripes (<[slot := s']> slots).
Proof.
  intros Hs Ha Ha'. unfold active_stripes.
  rewrite insert_take_drop by eauto using lookup_lt_Some.
  rewrite <-(take_drop_middle slots slot s Hs) at 1.
  rewrite !filter_app, !filter_cons, Ha, Ha', !fmap_app. simpl.
  by rewrite Permutation_middle.
Qed.

Lemma active_elem slots slot s :
  slots !! slot = Some s → sf_active s = true → sf_stripe_idx s ∈ active_stripes slots.
Proof.
  intros Hs Ha. apply list_elem_of_fmap. exists s. split; [done|].
  apply list_elem_of_filter. split; [done|]. by eapply list_elem_of_lookup_2.
Qed.

Lemma held_active f slot s :
  fc_slots f !! slot = Some s → sf_active s = true → sf_stripe_idx s ∈ held f.
Proof. intros. apply elem_of_app. right. by eapply active_elem. Qed.

(** Replacing the view of one channel, with new statuses and writes. *)
Lemma finv_update v ch f f' st' ws' :
  finv v → fv_chs v !! ch = Some f →
  let v' := mk_fview (fv_layout v) st' (<[ch := f']> (fv_chs v)) ws' in
  chan_ok v' ch f' →
  (∀ k, k ∈ held f' → k ∈ held f ∨ fv_status v k ≠ STRIPE_INFLIGHT) →
  (∀ k, k ∉ held f → fv_status v k = STRIPE_INFLIGHT → st' k = STRIPE_INFLIGHT) →
  (∀ ch' slot, ch' ≠ ch →
    length (filter (λ x : Z * nat * Z * Z, x.1.1.1 = ch' ∧ x.1.1.2 = slot) ws') =
    length (filter (λ x : Z * nat * Z * Z, x.1.1.1 = ch' ∧ x.1.1.2 = slot) (fv_writes v))) →
  (∀ ch' slot o n, (ch', slot, o, n) ∈ ws' →
    (ch' ≠ ch ∧ (ch', slot, o, n) ∈ fv_writes v) ∨
    (ch' = ch ∧ ∃ s, fc_slots f' !! slot = Some s ∧
      o = fetch_offset (fv_layout v) (sf_stripe_idx s) + UBI_METADATA_SIZE ∧
      n = fetch_bytes (fv_layout v))) →
  finv v'.
Proof.
  intros [Hl Hc Hd Hw] Hf v' Hok Hnew Hst Hcnt Hws. split; simpl.
  - done.
  - intros ch0 f0. rewrite lookup_insert. case_decide as Hne; [intros [= ->]; by subst|].
    intros Hf0. destruct (Hc _ _ Hf0) as [? ? ? Hheld Hout ? ?]. split; simpl; try done.
    + intros k Hk. destruct (Hheld k Hk) as [? Hin]. split; [done|].
      apply Hst; [|done]. intros Hk'. by eapply (Hd ch ch0 f f0).
    + intros slot s Hs. rewrite <-(Hout slot s Hs). unfold outstanding. f_equal. by apply Hcnt.
  - intros ch1 ch2 f1 f2. rewrite !lookup_insert.
    assert (Hother : ∀ ch0 f0, ch0 ≠ ch → fv_chs v !! ch0 = Some f0 →
              ∀ k, k ∈ held f' → k ∈ held f0 → False).
    { intros ch0 f0 Hne Hf0 k Hk Hk0. destruct (Hnew k Hk) as [?|Hni].
      - by eapply (Hd ch ch0 f f0).
      - apply Hni. by destruct (co_held _ _ _ (Hc _ _ Hf0) k Hk0). }
    repeat case_decide; subst; intros H1 H2 Hne k Hk1 Hk2; simplify_eq.
    + by eapply Hother.
    + by eapply Hother.
    + by eapply (Hd ch1 ch2 f1 f2).
  - intros ch' slot o n Hin. destruct (Hws _ _ _ _ Hin) as [[Hne Hin']|[-> (s & ? & ? & ?)]].
    + destruct (Hw _ _ _ _ Hin') as (f0 & s & ? & ? & ? & ?). exists f0, s.
      rewrite lookup_insert_ne by done. done.
    + exists f', s. by rewrite lookup_insert_eq.
Qed.

Lemma image_stripe_range l k : layout_ok l → image_stripe l k → 0 ≤ k < UBI_MAX_STRIPES.
Proof.
  intros ([? ? ? Hsbc ? ? ?] & ? & ? & _) [? ?]. split; [done|].
  assert (0 < l_sbc l) by (rewrite Hsbc; lia). nia.
Qed.

Lemma filter_perm_length {A} (P : A → Prop) `{!∀ x, Decision (P x)} (l1 l2 : list A) :
  l1 ≡ₚ l2 → length (filter P l1) = length (filter P l2).
Proof. by intros ->. Qed.

Lemma fstep_enqueue v ch f k : finv v →
  fv_chs v !! ch = Some f → fv_status v k = STRIPE_NOT_FETCHED →
  image_stripe (fv_layout v) k → queue_length (fc_queue f) + 1 < UBI_FETCH_QUEUE_SIZE →
  finv (put_fstatus k STRIPE_INFLIGHT
    (put_fch ch (mk_fchan (queue_push (fc_queue f) k) (fc_slots f) (fc_ring f)) v)).
Proof.
  intros Hv Hf Hk Himg Hroom. pose proof (fi_chan _ Hv _ _ Hf) as [Hq Hlen Hnd Hheld Hout Hop Hring].
  pose proof (image_stripe_range _ _ (fi_layout _ Hv) Himg) as Hr. unfold UBI_MAX_STRIPES in Hr.
  assert (Hview : queue_list (queue_push (fc_queue f) k) = queue_list (fc_queue f) ++ [k]).
  { rewrite queue_push_list by done. by rewrite u32_small by lia. }
  assert (Hperm : held (mk_fchan (queue_push (fc_queue f) k) (fc_slots f) (fc_ring f))
                  ≡ₚ k :: held f).
  { unfold held; simpl. rewrite Hview, <-app_assoc. simpl. by rewrite Permutation_middle. }
  assert (Hnot : k ∉ held f) by (intros [_ ?]%Hheld; congruence).
  apply (finv_update v ch f); simpl; try done.
  - split; simpl; try done.
    + by apply queue_push_wf.
    + rewrite Hperm. by constructor.
    + intros j. rewrite Hperm, elem_of_cons. intros [->|Hj].
      * by rewrite fn_lookup_insert.
      * destruct (Hheld j Hj). rewrite fn_lookup_insert_ne; [done|]. by intros ->.
  - intros j. rewrite Hperm, elem_of_cons. intros [->|?]; [right; congruence|by left].
  - intros j Hj Hin. rewrite fn_lookup_insert_ne; [done|]. intros ->. congruence.
  - intros ch' slot o n Hin. destruct (decide (ch' = ch)) as [->|?]; [right|by left].
    destruct (fi_writes _ Hv _ _ _ _ Hin) as (f0 & s & Hf0 & ? & ? & ?). simplify_eq.
    split; [done|]. by exists s.
Qed.

(** The writes of a view, seen from one channel. *)
Lemma finv_writes_split v ch f ch' slot o n : finv v → fv_chs v !! ch = Some f →
  (ch', slot, o, n) ∈ fv_writes v →
  (ch' ≠ ch ∧ (ch', slot, o, n) ∈ fv_writes v) ∨
  (ch' = ch ∧ ∃ s, fc_slots f !! slot = Some s ∧
    o = fetch_offset (fv_layout v) (sf_stripe_idx s) + UBI_METADATA_SIZE ∧
    n = fetch_bytes (fv_layout v)).
Proof.
  intros Hv Hf Hin. destruct (decide (ch' = ch)) as [->|?]; [right|by left].
  destruct (fi_writes _ Hv _ _ _ _ Hin) as (f0 & s & Hf0 & ? & ? & ?). simplify_eq.
  split; [done|]. by exists s.
Qed.

Lemma outstanding_pos_ring ch slot n o rf ws :
  (slot, n, o) ∈ rf → (0 < outstanding ch slot rf ws)%nat.
Proof.
  intros Hin. unfold outstanding.
  assert ((slot, n, o) ∈ filter (λ x : nat * Z * Z, x.1.1 = slot) rf) as Hf
    by by apply list_elem_of_filter.
  destruct (filter _ rf); [by apply not_elem_of_nil in Hf|simpl; lia].
Qed.

Lemma outstanding_pos_writes ch slot n o rf ws :
  (ch, slot, o, n) ∈ ws → (0 < outstanding ch slot rf ws)%nat.
Proof.
  intros Hin. unfold outstanding.
  assert ((ch, slot, o, n) ∈ filter (λ x : Z * nat * Z * Z, x.1.1.1 = ch ∧ x.1.1.2 = slot) ws)
    as Hf by by apply list_elem_of_filter.
  destruct (filter _ ws) as [|? l'] eqn:Heq; [by apply not_elem_of_nil in Hf|simpl; lia].
Qed.

(** A slot with an outstanding operation is active. *)
Lemma outstanding_active v ch f slot s : chan_ok v ch f → fc_slots f !! slot = Some s →
  (0 < outstanding ch slot (fc_ring f) (fv_writes v))%nat → sf_active s = true.
Proof.
  intros Hok Hs Hpos. rewrite (co_outstanding _ _ _ Hok _ _ Hs) in Hpos.
  destruct (sf_active s); [done|lia].
Qed.

Lemma fstep_start v ch f slot s s' k l : finv v →
  fv_chs v !! ch = Some f → queue_list (fc_queue f) = k :: l →
  fc_slots f !! slot = Some s → sf_active s = false →
  sf_op s' = UBI_STRIPE_FETCH → sf_active s' = true → sf_stripe_idx s' = k →
  finv (put_fch ch (mk_fchan (queue_pop (fc_queue f)).2 (<[slot := s']> (fc_slots f))
    (fc_ring f ++ [(slot, fetch_bytes (fv_layout v), fetch_offset (fv_layout v) k)])) v).
Proof.
  intros Hv Hf Hq Hs Ha Hop' Ha' Hk.
  pose proof (fi_chan _ Hv _ _ Hf) as Hok. pose proof Hok as [Hwf Hlen Hnd Hheld Hout Hop Hring].
  destruct (queue_pop_list _ _ _ Hwf Hq) as [_ Hl].
  assert (Hperm : held (mk_fchan (queue_pop (fc_queue f)).2 (<[slot := s']> (fc_slots f))
            (fc_ring f ++ [(slot, fetch_bytes (fv_layout v), fetch_offset (fv_layout v) k)]))
            ≡ₚ held f).
  { unfold held. cbn [fc_queue fc_slots]. rewrite Hl, Hq, (active_insert_on _ _ s) by done.
    rewrite Hk. simpl. by rewrite Permutation_middle. }
  assert (Hz := Hout _ _ Hs). rewrite Ha in Hz.
  apply (finv_update v ch f); try done.
  - split; cbn [fc_queue fc_slots fc_ring fv_layout fv_status fv_writes].
    + by apply queue_pop_wf.
    + by rewrite length_insert.
    + by rewrite Hperm.
    + intros j. rewrite Hperm. apply Hheld.
    + intros slot0 s0. unfold outstanding in *. rewrite filter_app, length_app, filter_cons.
      simpl. destruct (decide (slot = slot0)) as [->|Hne].
      * rewrite list_lookup_insert_eq by eauto using lookup_lt_Some.
        intros [= <-]. rewrite Ha'. simpl. lia.
      * rewrite list_lookup_insert_ne by done. intros Hs0. rewrite <-(Hout _ _ Hs0). simpl. lia.
    + intros slot0 s0. destruct (decide (slot = slot0)) as [->|Hne].
      * rewrite list_lookup_insert_eq by eauto using lookup_lt_Some. by intros [= <-].
      * rewrite list_lookup_insert_ne by done. apply Hop.
    + intros slot0 n o. rewrite elem_of_app, list_elem_of_singleton. intros [Hin|Hin].
      * destruct (Hring _ _ _ Hin) as (s0 & Hs0 & ? & ?).
        destruct (decide (slot = slot0)) as [<-|Hne].
        { pose proof (outstanding_pos_ring ch _ _ _ _ (fv_writes v) Hin). lia. }
        exists s0. by rewrite list_lookup_insert_ne.
      * simplify_eq. exists s'. by rewrite list_lookup_insert_eq by eauto using lookup_lt_Some.
  - intros j. rewrite Hperm. by left.
  - intros ch' slot' o n Hin. cbn [fc_slots].
    destruct (finv_writes_split _ _ _ _ _ _ _ Hv Hf Hin) as [?|(-> & s0 & Hs0 & ?)]; [by left|].
    right. split; [done|]. destruct (decide (slot = slot')) as [<-|Hne].
    + pose proof (outstanding_pos_writes _ _ _ _ (fc_ring f) _ Hin). lia.
    + exists s0. by rewrite list_lookup_insert_ne.
Qed.

Lemma fstep_reorder v ch f rf : finv v → fv_chs v !! ch = Some f → fc_ring f ≡ₚ rf →
  finv (put_fch ch (mk_fchan (fc_queue f) (fc_slots f) rf) v).
Proof.
  intros Hv Hf Hrf. pose proof (fi_chan _ Hv _ _ Hf) as [Hwf Hlen Hnd Hheld Hout Hop Hring].
  apply (finv_update v ch f); try done.
  - split; simpl; try done.
    + intros slot s Hs. rewrite <-(Hout _ _ Hs). unfold outstanding. by rewrite Hrf.
    + intros slot n o. rewrite <-Hrf. apply Hring.
  - intros k Hk. by left.
  - intros ch' slot o n Hin. by apply (finv_writes_split v ch f).
Qed.

Lemma fstep_read_ok v ch f slot s n o rf : finv v →
  fv_chs v !! ch = Some f → fc_slots f !! slot = Some s → fc_ring f ≡ₚ (slot, n, o) :: rf →
  finv (put_fwrites ((ch, slot, fetch_offset (fv_layout v) (sf_stripe_idx s) + UBI_METADATA_SIZE,
                      fetch_bytes (fv_layout v)) :: fv_writes v)
          (put_fch ch (mk_fchan (fc_queue f) (fc_slots f) rf) v)).
Proof.
  intros Hv Hf Hs Hrf. pose proof (fi_chan _ Hv _ _ Hf) as [Hwf Hlen Hnd Hheld Hout Hop Hring].
  apply (finv_update v ch f); try done.
  - split; simpl; try done.
    + intros slot0 s0 Hs0. rewrite <-(Hout _ _ Hs0). unfold outstanding.
      rewrite Hrf, !filter_cons. simpl.
      destruct (decide (slot = slot0)) as [->|]; repeat case_decide; naive_solver lia.
    + intros slot0 n0 o0 Hin. apply Hring. rewrite Hrf. by right.
  - intros k Hk. by left.
  - intros ch' slot' Hne. rewrite filter_cons. simpl. case_decide; naive_solver.
  - intros ch' slot' o' n'. rewrite elem_of_cons. intros [Heq|Hin].
    + simplify_eq. right. split; [done|]. by exists s.
    + by apply (finv_writes_split v ch f).
Qed.

Lemma fstep_reorder_writes v ws : finv v → fv_writes v ≡ₚ ws → finv (put_fwrites ws v).
Proof.
  intros [Hl Hc Hd Hw] Hws. split; simpl; try done.
  - intros ch f Hf. destruct (Hc _ _ Hf) as [? ? ? ? Hout ? ?]. split; simpl; try done.
    intros slot s Hs. rewrite <-(Hout _ _ Hs). unfold outstanding. by rewrite Hws.
  - intros ch slot o n. rewrite <-Hws. apply Hw.
Qed.

(** Ending the fetch of an active slot: the slot becomes idle and its stripe
    leaves the inflight state. *)
Lemma finv_release v ch f slot s st rf ws : finv v →
  fv_chs v !! ch = Some f → fc_slots f !! slot = Some s → sf_active s = true →
  (∀ slot' : nat, length (filter (λ x : nat * Z * Z, x.1.1 = slot') rf) +
     length (filter (λ x : Z * nat * Z * Z, x.1.1.1 = ch ∧ x.1.1.2 = slot') ws) +
     (if decide (slot = slot') then 1 else 0) =
     outstanding ch slot' (fc_ring f) (fv_writes v))%nat →
  (∀ x, x ∈ rf → x ∈ fc_ring f) → (∀ x, x ∈ ws → x ∈ fv_writes v) →
  (∀ ch' slot', ch' ≠ ch →
    length (filter (λ x : Z * nat * Z * Z, x.1.1.1 = ch' ∧ x.1.1.2 = slot') ws) =
    length (filter (λ x : Z * nat * Z * Z, x.1.1.1 = ch' ∧ x.1.1.2 = slot') (fv_writes v))) →
  finv (put_fwrites ws (put_fstatus (sf_stripe_idx s) st
          (put_fch ch (mk_fchan (fc_queue f) (<[slot := with_active false s]> (fc_slots f)) rf) v))).
Proof.
  intros Hv Hf Hs Ha Hcount Hrf Hws Hother.
  pose proof (fi_chan _ Hv _ _ Hf) as [Hwf Hlen Hnd Hheld Hout Hop Hring].
  set (f' := mk_fchan (fc_queue f) (<[slot := with_active false s]> (fc_slots f)) rf).
  assert (Hperm : held f ≡ₚ sf_stripe_idx s :: held f').
  { unfold held, f'; simpl. rewrite (active_insert_off _ slot s (with_active false s)) by done.
    by rewrite Permutation_middle. }
  assert (Hnot : sf_stripe_idx s ∉ held f').
  { rewrite Hperm in Hnd. by inversion Hnd. }
  assert (Hsub : ∀ k, k ∈ held f' → k ∈ held f).
  { intros k Hk. rewrite Hperm. by right. }
  assert (Hslot : ∀ slot' s', <[slot := with_active false s]> (fc_slots f) !! slot' = Some s' →
    slot' = slot ∧ s' = with_active false s ∨ slot ≠ slot' ∧ fc_slots f !! slot' = Some s').
  { intros slot' s'. destruct (decide (slot = slot')) as [->|].
    - rewrite list_lookup_insert_eq by eauto using lookup_lt_Some. intros [= <-]. by left.
    - rewrite list_lookup_insert_ne by done. by right. }
  assert (Hkeep : ∀ slot' s0, fc_slots f !! slot' = Some s0 → ∃ s1,
    <[slot := with_active false s]> (fc_slots f) !! slot' = Some s1 ∧
    sf_stripe_idx s1 = sf_stripe_idx s0).
  { intros slot' s0 Hs0. destruct (decide (slot = slot')) as [<-|].
    - exists (with_active false s). rewrite list_lookup_insert_eq by eauto using lookup_lt_Some.
      by simplify_eq.
    - exists s0. by rewrite list_lookup_insert_ne. }
  apply (finv_update v ch f f'); try done.
  - split; simpl; try done.
    + by rewrite length_insert.
    + rewrite Hperm in Hnd. by inversion Hnd.
    + intros k Hk. destruct (Hheld k (Hsub k Hk)). split; [done|].
      rewrite fn_lookup_insert_ne; [done|]. by intros <-.
    + intros slot' s' [[-> ->]|[Hne Hs']]%Hslot.
      * specialize (Hcount slot). rewrite (Hout _ _ Hs), Ha, decide_True in Hcount by done.
        unfold outstanding; simpl. lia.
      * specialize (Hcount slot'). rewrite (Hout _ _ Hs'), decide_False in Hcount by done.
        unfold outstanding. lia.
    + intros slot' s' [[-> ->]|[Hne Hs']]%Hslot; [done|]. by apply (Hop slot').
    + intros slot' n o Hin%Hrf. destruct (Hring _ _ _ Hin) as (s0 & Hs0 & ? & ->).
      destruct (Hkeep _ _ Hs0) as (s1 & ? & Hidx). exists s1. by rewrite Hidx.
  - intros k Hk. left. by apply Hsub.
  - intros k Hk Hin. simpl. rewrite fn_lookup_insert_ne; [done|].
    intros <-. apply Hk. by eapply held_active.
  - intros ch' slot' o n Hin%Hws.
    destruct (finv_writes_split _ _ _ _ _ _ _ Hv Hf Hin) as [?|(-> & s0 & Hs0 & -> & ?)]; [by left|].
    right. split; [done|]. destruct (Hkeep _ _ Hs0) as (s1 & ? & Hidx). exists s1. by rewrite Hidx.
Qed.

Lemma fstep_read_fail v ch f slot s n o rf : finv v →
  fv_chs v !! ch = Some f → fc_slots f !! slot = Some s → fc_ring f ≡ₚ (slot, n, o) :: rf →
  finv (put_fstatus (sf_stripe_idx s) STRIPE_FAILED
    (put_fch ch (mk_fchan (fc_queue f) (<[slot := with_active false s]> (fc_slots f)) rf) v)).
Proof.
  intros Hv Hf Hs Hrf. pose proof (fi_chan _ Hv _ _ Hf) as Hok.
  assert (Hin : (slot, n, o) ∈ fc_ring f) by (rewrite Hrf; left).
  apply (finv_release v ch f slot s STRIPE_FAILED rf (fv_writes v)); try done.
  - eapply outstanding_active; [done..|]. by eapply outstanding_pos_ring.
  - intros slot'. unfold outstanding. rewrite Hrf, filter_cons. simpl.
    repeat case_decide; simpl; naive_solver lia.
  - intros x Hx. rewrite Hrf. by right.
Qed.

Lemma fstep_write_done v ch f slot s o n ws : finv v →
  fv_chs v !! ch = Some f → fc_slots f !! slot = Some s →
  fv_writes v ≡ₚ (ch, slot, o, n) :: ws →
  finv (put_fwrites ws (put_fstatus (sf_stripe_idx s) STRIPE_FETCHED
    (put_fch ch (mk_fchan (fc_queue f) (<[slot := with_active false s]> (fc_slots f))
                   (fc_ring f)) v))).
Proof.
  intros Hv Hf Hs Hws. pose proof (fi_chan _ Hv _ _ Hf) as Hok.
  assert (Hin : (ch, slot, o, n) ∈ fv_writes v) by (rewrite Hws; left).
  apply (finv_release v ch f); try done.
  - eapply outstanding_active; [done..|]. by eapply outstanding_pos_writes.
  - intros slot'. unfold outstanding. rewrite Hws, filter_cons. simpl.
    repeat case_decide; simpl; naive_solver lia.
  - intros x Hx. rewrite Hws. by right.
  - intros ch' slot' Hne. rewrite Hws, filter_cons. simpl. case_decide; naive_solver.
Qed.

Lemma idle_held f : idle_fchan f → held f = [].
Proof.
  intros [_ Hq _ Hidle _]. unfold held, active_stripes. rewrite Hq, filter_none; [done|].
  intros s [slot Hs]%list_elem_of_lookup_1. by rewrite (Hidle slot s Hs).
Qed.

(** An idle channel has no write outstanding. *)
Lemma idle_no_writes v ch f slot o n : finv v → fv_chs v !! ch = Some f → idle_fchan f → (ch, slot, o, n) ∉ fv_writes v.
Proof.
  intros Hv Hf Hi Hin. destruct (fi_writes _ Hv _ _ _ _ Hin) as (f0 & s & Hf0 & Hs & _).
  assert (f0 = f) as -> by congruence.
  pose proof (outstanding_active v ch f slot s (fi_chan _ Hv _ _ Hf) Hs (outstanding_pos_writes ch slot n o _ _ Hin)) as Ha.
  by rewrite (if_idle _ Hi slot s Hs) in Ha.
Qed.

Lemma fstep_open v ch f : finv v → fv_chs v !! ch = None → idle_fchan f → finv (put_fch ch f v).
Proof.
  intros [Hl Hc Hd Hw] Hn Hi. pose proof (idle_held f Hi) as Hh. pose proof Hi as [Hwf Hq Hlen Hidle Hr].
  assert (Hno : ∀ slot o n, (ch, slot, o, n) ∉ fv_writes v).
  { intros slot o n Hin. destruct (Hw _ _ _ _ Hin) as (f0 & s & Hf0 & _). congruence. }
  assert (Hcase : ∀ ch0 f0, <[ch := f]> (fv_chs v) !! ch0 = Some f0 → ch0 = ch ∧ f0 = f ∨ fv_chs v !! ch0 = Some f0).
  { intros ch0 f0 [[-> ->]|[_ ?]]%lookup_insert_Some; auto. }
  split; cbn [put_fch fv_layout fv_status fv_chs fv_writes].
  - done.
  - intros ch0 f0 [[-> ->]|Hf0]%Hcase; [|by destruct (Hc _ _ Hf0)]. split; try done.
    + rewrite Hh. constructor.
    + intros k. rewrite Hh. by intros ?%not_elem_of_nil.
    + intros slot s Hs. rewrite (Hidle slot s Hs). unfold outstanding. rewrite Hr. cbn. rewrite filter_none; [done|].
      intros [[[c sl] o] n] Hin [E1 E2]. cbn in E1, E2. subst. by apply Hno in Hin.
    + intros slot s Hs. by rewrite (Hidle slot s Hs).
    + intros slot n o. rewrite Hr. by intros ?%not_elem_of_nil.
  - intros ch1 ch2 f1 f2 [[-> ->]|H1]%Hcase [[-> ->]|H2]%Hcase Hne k; rewrite ?Hh; try (by intros ?%not_elem_of_nil).
    + by intros _ ?%not_elem_of_nil.
    + by apply (Hd ch1 ch2).
  - intros ch0 slot o n Hin. destruct (Hw _ _ _ _ Hin) as (f0 & s & Hf0 & Hrest). exists f0, s. split; [|done].
    rewrite lookup_insert_ne; [done|]. intros ->. by apply Hno in Hin.
Qed.

Lemma fstep_close v ch f : finv v → fv_chs v !! ch = Some f → idle_fchan f → finv (drop_fch ch v).
Proof.
  intros Hv Hf Hi. pose proof Hv as [Hl Hc Hd Hw].
  split; cbn [drop_fch fv_layout fv_status fv_chs fv_writes].
  - done.
  - intros ch0 f0 [_ Hf0]%lookup_delete_Some. by destruct (Hc _ _ Hf0).
  - intros ch1 ch2 f1 f2 [_ H1]%lookup_delete_Some [_ H2]%lookup_delete_Some. by apply (Hd ch1 ch2).
  - intros ch0 slot o n Hin. destruct (Hw _ _ _ _ Hin) as (f0 & s & Hf0 & Hrest). exists f0, s. split; [|done].
    rewrite lookup_delete_ne; [done|]. intros ->. by apply (idle_no_writes v ch0 f slot o n Hv Hf Hi).
Qed.

(** Every protocol step keeps the invariant. *)
Lemma fstep_finv v v' : fstep v v' → finv v → finv v'.
Proof.
  intros Hstep Hv. inversion Hstep; subst;
    eauto using fstep_enqueue, fstep_start, fstep_read_ok, fstep_read_fail, fstep_write_done,
      fstep_reorder, fstep_reorder_writes, fstep_open, fstep_close.
Qed.

Lemma fsteps_finv v v' : rtc fstep v v' → finv v → finv v'.
Proof. induction 1; eauto using fstep_finv. Qed.

(** Steps keep the layout, and a stripe that is fetched stays fetched. *)
Lemma fstep_layout v v' : fstep v v' → fv_layout v' = fv_layout v.
Proof. by inversion 1. Qed.

Lemma fsteps_layout v v' : rtc fstep v v' → fv_layout v' = fv_layout v.
Proof. induction 1 as [|v1 v2 v3 Hs _ IH]; [done|]. by rewrite IH, (fstep_layout _ _ Hs). Qed.

(** ** The life of a stripe *)

(** The transitions of a status. *)
Inductive status_step : stripe_status_t → stripe_status_t → Prop :=
| ss_enqueue : status_step STRIPE_NOT_FETCHED STRIPE_INFLIGHT
| ss_fail : status_step STRIPE_INFLIGHT STRIPE_FAILED
| ss_fetched : status_step STRIPE_INFLIGHT STRIPE_FETCHED.

Lemma slot_inflight v ch f slot s : finv v → fv_chs v !! ch = Some f →
  fc_slots f !! slot = Some s → (0 < outstanding ch slot (fc_ring f) (fv_writes v))%nat →
  fv_status v (sf_stripe_idx s) = STRIPE_INFLIGHT.
Proof.
  intros Hv Hf Hs Hpos. pose proof (fi_chan _ Hv _ _ Hf) as Hok.
  apply (co_held _ _ _ Hok), held_active with slot; [done|]. by eapply outstanding_active.
Qed.

Lemma fstep_status v v' k : finv v → fstep v v' →
  fv_status v' k = fv_status v k ∨ status_step (fv_status v k) (fv_status v' k).
Proof.
  intros Hv Hstep. inversion Hstep as
    [? ch f j Hf Hj Hi Hr|? ch f slot s s' j l|? ch f slot s n o rf|? ch f slot s n o rf Hf Hs Hrf
    |? ch f slot s o n ws Hf Hs Hws|? ch f rf|? ws|? ch f|? ch f]; subst; simpl; try (by left).
  - destruct (decide (j = k)) as [->|]; [|left; by rewrite fn_lookup_insert_ne].
    right. rewrite fn_lookup_insert, Hj. constructor.
  - destruct (decide (sf_stripe_idx s = k)) as [<-|]; [|left; by rewrite fn_lookup_insert_ne].
    right. rewrite fn_lookup_insert, (slot_inflight v ch f slot); try done; [constructor|].
    apply outstanding_pos_ring with n o. rewrite Hrf. left.
  - destruct (decide (sf_stripe_idx s = k)) as [<-|]; [|left; by rewrite fn_lookup_insert_ne].
    right. rewrite fn_lookup_insert, (slot_inflight v ch f slot); try done; [constructor|].
    apply outstanding_pos_writes with n o. rewrite Hws. left.
Qed.

(** A status only moves forward along [status_step]. *)
Lemma fsteps_status v v' k : finv v → rtc fstep v v' →
  rtc status_step (fv_status v k) (fv_status v' k).
Proof.
  intros Hv Hsteps. revert Hv. induction Hsteps as [|v1 v2 v3 Hs _ IH]; intros Hv; [done|].
  etransitivity; [|apply IH; by eapply fstep_finv].
  destruct (fstep_status _ _ k Hv Hs) as [->|?]; [done|by apply rtc_once].
Qed.

Lemma status_fetched_final st : rtc status_step STRIPE_FETCHED st → st = STRIPE_FETCHED.
Proof. intros H. apply rtc_inv in H as [->|(y & H & _)]; [done|inversion H]. Qed.

Lemma status_not_unfetched st st' : rtc status_step st st' →
  st ≠ STRIPE_NOT_FETCHED → st' ≠ STRIPE_NOT_FETCHED.
Proof. induction 1 as [|st1 st2 st3 H _ IH]; [done|]. intros _. apply IH. by inversion H. Qed.

(** A stripe that left the flight does not come back to it. *)
Lemma status_not_back st : status_step STRIPE_INFLIGHT st → ¬ rtc status_step st STRIPE_INFLIGHT.
Proof.
  intros H Hr. inversion H; subst; apply rtc_inv in Hr as [?|(y & Hy & _)]; (done || inversion Hy).
Qed.

(** ** Every stripe in flight has an owner *)

Definition owned (v : fview) : Prop := ∀ k, fv_status v k = STRIPE_INFLIGHT →
  ∃ ch f, fv_chs v !! ch = Some f ∧ k ∈ held f.

(** Replacing one channel keeps owners when the stripes it gives up leave the
    inflight state and the new ones are its own. *)
Lemma owned_update v ch f f' st' ws' : owned v → fv_chs v !! ch = Some f →
  (∀ k, st' k = STRIPE_INFLIGHT → (fv_status v k = STRIPE_INFLIGHT ∧ (k ∈ held f → k ∈ held f')) ∨
     k ∈ held f') →
  owned (mk_fview (fv_layout v) st' (<[ch := f']> (fv_chs v)) ws').
Proof.
  intros Ho Hf Hst k Hk. simpl in *. destruct (Hst k Hk) as [[Hin Hkeep]|Hnew].
  2: { exists ch, f'. by rewrite lookup_insert_eq. }
  destruct (Ho k Hin) as (ch0 & f0 & Hf0 & Hh). destruct (decide (ch = ch0)) as [<-|Hne].
  - simplify_eq. exists ch, f'. rewrite lookup_insert_eq. auto.
  - exists ch0, f0. by rewrite lookup_insert_ne.
Qed.

Lemma owned_release v ch f slot s st rf ws : owned v → fv_chs v !! ch = Some f →
  fc_slots f !! slot = Some s → sf_active s = true → st ≠ STRIPE_INFLIGHT →
  owned (put_fwrites ws (put_fstatus (sf_stripe_idx s) st
          (put_fch ch (mk_fchan (fc_queue f) (<[slot := with_active false s]> (fc_slots f)) rf) v))).
Proof.
  intros Ho Hf Hs Ha Hst. apply (owned_update v ch f); [done..|]. intros k. simpl.
  destruct (decide (sf_stripe_idx s = k)) as [<-|Hne]; [by rewrite fn_lookup_insert|].
  rewrite fn_lookup_insert_ne by done. intros Hk. left. split; [done|].
  unfold held. cbn [fc_queue fc_slots].
  rewrite (active_insert_off _ slot s (with_active false s)) by done.
  rewrite !elem_of_app, elem_of_cons. intros [?|[?|?]]; [by left|by subst|by right].
Qed.

Lemma fstep_owned v v' : finv v → fstep v v' → owned v → owned v'.
Proof.
  intros Hv Hstep Ho. inversion Hstep as
    [? ch f j Hf Hj Hi Hr|? ch f slot s s' j l Hf Hq Hs Ha Hop' Ha' Hidx
    |? ch f slot s n o rf Hf Hs Hrf|? ch f slot s n o rf Hf Hs Hrf
    |? ch f slot s o n ws Hf Hs Hws|? ch f rf Hf Hrf|? ws|? ch f Hf Hi|? ch f Hf Hi]; subst.
  - apply (owned_update v ch f); [done..|]. intros k. simpl.
    pose proof (fi_chan _ Hv _ _ Hf) as Hok.
    pose proof (image_stripe_range _ _ (fi_layout _ Hv) Hi) as Hrg. unfold UBI_MAX_STRIPES in Hrg.
    assert (Hl : queue_list (queue_push (fc_queue f) j) = queue_list (fc_queue f) ++ [j]).
    { rewrite queue_push_list by (done || apply Hok). by rewrite u32_small by lia. }
    unfold held. cbn [fc_queue fc_slots]. rewrite Hl, !elem_of_app, list_elem_of_singleton.
    destruct (decide (j = k)) as [->|]; [tauto|]. rewrite fn_lookup_insert_ne by done. tauto.
  - apply (owned_update v ch f); [done..|]. intros k Hk. left. split; [done|].
    destruct (queue_pop_list _ _ _ (co_queue _ _ _ (fi_chan _ Hv _ _ Hf)) Hq) as [_ Hl].
    unfold held. cbn [fc_queue fc_slots]. rewrite Hl, Hq, (active_insert_on _ _ s) by done.
    rewrite !elem_of_app, !elem_of_cons. tauto.
  - apply (owned_update v ch f); [done..|]. intros k Hk. by left.
  - apply (owned_release v ch f slot s STRIPE_FAILED rf (fv_writes v)); try done.
    eapply outstanding_active; [by eapply (fi_chan _ Hv)|done|].
    apply outstanding_pos_ring with n o. rewrite Hrf. left.
  - apply owned_release; try done. eapply outstanding_active; [by eapply (fi_chan _ Hv)|done|].
    apply outstanding_pos_writes with n o. rewrite Hws. left.
  - apply (owned_update v ch f); [done..|]. intros k Hk. by left.
  - done.
  - intros k Hk. destruct (Ho k Hk) as (ch0 & f0 & Hf0 & Hh). exists ch0, f0. split; [|done].
    cbn. rewrite lookup_insert_ne; [done|]. intros ->. congruence.
  - intros k Hk. destruct (Ho k Hk) as (ch0 & f0 & Hf0 & Hh). exists ch0, f0. split; [|done].
    cbn. rewrite lookup_delete_ne; [done|]. intros ->. assert (f0 = f) as -> by congruence.
    rewrite (idle_held f Hi) in Hh. by apply not_elem_of_nil in Hh.
Qed.

Lemma fsteps_owned v v' : rtc fstep v v' → finv v → owned v → owned v'.
Proof. induction 1; eauto using fstep_owned, fstep_finv. Qed.

(** A stripe in flight stays with the channel that holds it. *)
Lemma fstep_holder v v' k ch f' : finv v → fstep v v' → fv_status v k = STRIPE_INFLIGHT →
  fv_chs v' !! ch = Some f' → k ∈ held f' → ∃ f, fv_chs v !! ch = Some f ∧ k ∈ held f.
Proof.
  intros Hv Hstep Hk Hf' Hin.
  assert (Hins : ∀ ch0 f0 f1, fv_chs v !! ch0 = Some f0 → (k ∈ held f1 → k ∈ held f0) →
    <[ch0 := f1]> (fv_chs v) !! ch = Some f' → ∃ f, fv_chs v !! ch = Some f ∧ k ∈ held f).
  { intros ch0 f0 f1 Hf0 Hsub [[-> ->]|[_ ?]]%lookup_insert_Some; [exists f0; auto|by exists f']. }
  assert (Hrel : ∀ f slot s rf, fc_slots f !! slot = Some s →
    k ∈ held (mk_fchan (fc_queue f) (<[slot := with_active false s]> (fc_slots f)) rf) → k ∈ held f).
  { intros f slot s rf Hs. unfold held. cbn [fc_queue fc_slots]. rewrite !elem_of_app. intros [?|Ha]; [by left|right].
    destruct (sf_active s) eqn:Hact.
    - rewrite (active_insert_off _ slot s (with_active false s)) by done. by right.
    - replace (with_active false s) with s in Ha by (destruct s; cbn in *; by subst). by rewrite list_insert_id in Ha. }
  inversion Hstep as
    [? ch0 f j Hf Hj Hi Hr|? ch0 f slot s s' j l Hf Hq Hs Ha Hop' Ha' Hidx
    |? ch0 f slot s n o rf Hf Hs Hrf|? ch0 f slot s n o rf Hf Hs Hrf
    |? ch0 f slot s o n ws Hf Hs Hws|? ch0 f rf Hf Hrf|? ws|? ch0 f Hf Hi|? ch0 f Hf Hi]; subst;
    cbn [put_fch put_fstatus put_fwrites drop_fch fv_chs] in Hf'.
  - eapply Hins; [done| |done].
    pose proof (image_stripe_range _ _ (fi_layout _ Hv) Hi) as Hrg. unfold UBI_MAX_STRIPES in Hrg.
    assert (Hl : queue_list (queue_push (fc_queue f) j) = queue_list (fc_queue f) ++ [j]).
    { rewrite queue_push_list by (done || apply (fi_chan _ Hv _ _ Hf)). by rewrite u32_small by lia. }
    unfold held. cbn [fc_queue fc_slots]. rewrite Hl, !elem_of_app, list_elem_of_singleton.
    intros [[?| ->]|?]; [by left|congruence|by right].
  - eapply Hins; [done| |done].
    destruct (queue_pop_list _ _ _ (co_queue _ _ _ (fi_chan _ Hv _ _ Hf)) Hq) as [_ Hl].
    unfold held. cbn [fc_queue fc_slots]. rewrite Hl, Hq, (active_insert_on _ _ s) by done.
    rewrite !elem_of_app, !elem_of_cons. tauto.
  - eapply Hins; [done| |done]. exact id.
  - eapply Hins; [done|by apply Hrel|done].
  - eapply Hins; [done|by apply Hrel|done].
  - eapply Hins; [done| |done]. exact id.
  - by exists f'.
  - apply lookup_insert_Some in Hf' as [[-> ->]|[_ ?]]; [|by exists f'].
    rewrite (idle_held _ Hi) in Hin. by apply not_elem_of_nil in Hin.
  - apply lookup_delete_Some in Hf' as [_ ?]. by exists f'.
Qed.

Lemma fsteps_holder v v' k ch f' : finv v → rtc fstep v v' → fv_status v k = STRIPE_INFLIGHT →
  fv_status v' k = STRIPE_INFLIGHT → fv_chs v' !! ch = Some f' → k ∈ held f' →
  ∃ f, fv_chs v !! ch = Some f ∧ k ∈ held f.
Proof.
  intros Hv Hsteps. revert Hv f'. induction Hsteps as [|v1 v2 v3 Hs Hr IH]; intros Hv f' H1 H3 Hf Hin; [by exists f'|].
  assert (H2 : fv_status v2 k = STRIPE_INFLIGHT).
  { destruct (fstep_status v1 v2 k Hv Hs) as [->|Hss]; [done|]. rewrite H1 in Hss.
    pose proof (fsteps_status v2 v3 k (fstep_finv _ _ Hs Hv) Hr) as H23. rewrite H3 in H23.
    by destruct (status_not_back _ Hss). }
  destruct (IH (fstep_finv _ _ Hs Hv) f' H2 H3 Hf Hin) as (f2 & Hf2 & Hin2). by eapply fstep_holder.
Qed.

(** Room for one more stripe in a queue, when the image has few stripes. *)
Lemma queue_room v ch f k N : finv v → fv_chs v !! ch = Some f →
  image_stripe (fv_layout v) k → fv_status v k = STRIPE_NOT_FETCHED →
  l_img (fv_layout v) ≤ N * l_sbc (fv_layout v) → queue_length (fc_queue f) + 1 ≤ N.
Proof.
  intros Hv Hf Hk Hnf HN. pose proof (fi_chan _ Hv _ _ Hf) as Hok.
  pose proof (fi_layout _ Hv) as ([_ _ Hsh Hsbc _ _ _] & _).
  assert (Hpos : 0 < l_sbc (fv_layout v)) by (rewrite Hsbc; apply Z.pow_pos_nonneg; lia).
  assert (Hin : ∀ j, j ∈ k :: queue_list (fc_queue f) → image_stripe (fv_layout v) j).
  { intros j. rewrite elem_of_cons. intros [->|Hj]; [done|].
    apply (co_held _ _ _ Hok). apply elem_of_app. by left. }
  assert (Hnd : NoDup (k :: queue_list (fc_queue f))).
  { constructor.
    - intros Hj. destruct (co_held _ _ _ Hok k) as [_ ?]; [apply elem_of_app; by left|congruence].
    - pose proof (co_nodup _ _ _ Hok) as Hnd. by apply NoDup_app in Hnd as [? _]. }
  assert (Hsub : k :: queue_list (fc_queue f) ⊆+ seqZ 0 N).
  { apply NoDup_submseteq; [done|]. intros j [Hj0 Hj1]%Hin. apply elem_of_seqZ. nia. }
  apply submseteq_length in Hsub. cbn [length] in Hsub.
  rewrite queue_list_length, length_seqZ in Hsub. pose proof (queue_length_range (fc_queue f)). lia.
Qed.

(** At most one read of the image per slot. *)
Lemma fetch_ring_bound v ch f : chan_ok v ch f → (length (fc_ring f) ≤ 8)%nat.
Proof.
  intros Hok. set (slots := (λ x : nat * Z * Z, x.1.1) <$> fc_ring f).
  assert (Hrange : ∀ slot, slot ∈ slots → (slot < 8)%nat).
  { intros slot ([[slot' n] o] & -> & Hin)%list_elem_of_fmap.
    destruct (co_ring _ _ _ Hok _ _ _ Hin) as (s & Hs & _). simpl.
    rewrite <-(co_slots _ _ _ Hok). by eapply lookup_lt_Some. }
  assert (Hnd : NoDup slots).
  { apply NoDup_fmap_filter. intros slot.
    destruct (fc_slots f !! slot) as [s|] eqn:Hs.
    - pose proof (co_outstanding _ _ _ Hok slot s Hs) as Ho. unfold outstanding in Ho.
      destruct (sf_active s); lia.
    - rewrite filter_none; [simpl; lia|]. intros [[slot' n] o] Hin Heq. simpl in Heq. subst.
      destruct (co_ring _ _ _ Hok _ _ _ Hin) as (s & ? & _). congruence. }
  assert (Hsub : slots ⊆+ seq 0 8).
  { apply NoDup_submseteq; [done|]. intros slot Hin. apply elem_of_seq.
    specialize (Hrange _ Hin). lia. }
  apply submseteq_length in Hsub. unfold slots in Hsub. rewrite length_fmap, length_seq in Hsub. lia.
Qed.
