(* ===== verification/IoInv.v ===== *)
(** Accounting of the requests of the module: where every submitted I/O is
    (a channel queue, the buffer wait list, an image read, a request to the
    base bdev, or completed), and the invariant that no I/O is in two places,
    that the read counter of a channel is exact and bounded, and that a
    request reaches the base bdev only for a fetched stripe.

    [fl] lists I/Os a handler holds in its hands: taken from one place and
    not yet put in the next one. *)
From stdpp Require Import base tactics list gmap option numbers functions strings relations.
From Stdlib Require Import ZArith Lia.
From S2P Require Import Prelude Types World Layout FetchQueue Stripe Flush IoChannel Submit FetchProtocol.

Local Open Scope Z_scope.

(** * Places *)

Definition readv_of (e : sqe) : option Z :=
  match e with SqeReadv io _ => Some io | SqeRead _ _ _ => None end.

(** The I/O a request to the base bdev belongs to. *)
Definition req_io (r : base_req) : option Z :=
  match r with
  | RqStripeWrite _ _ _ _ => None
  | RqRead io _ _ _ | RqWrite io _ _ _ => Some io
  | RqDataFlush io _ _ | RqMetadataWrite io _ _ | RqMetadataFlush io _ _ => Some io
  end.

(** The block size of the bdev and of its base bdev. *)
Definition blen (w : world) : Z := bd_blocklen (ub_bdev (w_ub w)).

Definition reqs (w : world) : list base_req := w_fin w ++ w_pend w.
Definition ring_ios (r : io_uring) : list Z := omap readv_of (ring_all r).

(** The elements that the channels of a map contribute. *)
Definition over_chs {C A} (f : C → list A) (m : gmap Z C) : list A :=
  concat (f <$> (map_to_list m).*2).

(** What the accounting sees of a channel: queued I/Os and the read counter. *)
Definition core (c : ubi_io_channel) : list Z * Z := (ch_io c, ch_active_reads c).
Definition cores (w : world) : gmap Z (list Z * Z) := core <$> w_chs w.

(** I/Os waiting in a queue, started I/Os, and completed ones. *)
Definition queued_ids (w : world) : list Z := over_chs fst (cores w).
Definition started_ids (fl : list Z) (w : world) : list Z :=
  fl ++ over_chs (ring_ios ∘ ch_ring) (w_chs w) ++ w_bufq w ++ omap req_io (reqs w).
Definition ids (fl : list Z) (w : world) : list Z :=
  queued_ids w ++ started_ids fl w ++ (w_done w).*1.

(** A read that a channel has started. *)
Definition read_on (ios : gmap Z spdk_bdev_io) (ch io : Z) : bool :=
  match ios !! io with
  | Some i => bool_decide (io_type i = SPDK_BDEV_IO_TYPE_READ) && (uio_ch (io_driver_ctx i) =? ch)
  | None => false
  end.
Definition reads_of (ios : gmap Z spdk_bdev_io) (ch : Z) (l : list Z) : list Z :=
  filter (λ io, read_on ios ch io = true) l.

(** * Well-formed requests *)

(** What SPDK guarantees of a request: the module supports its type, the range
    is inside the bdev, and a read
    or write does not cross a stripe boundary ([split_on_optimal_io_boundary]
    with [optimal_io_boundary = stripe_block_count]). *)
Record io_ok (l : layout) (i : spdk_bdev_io) : Prop := {
  iok_type : ubi_io_type_supported (io_type i) = true;
  iok_offset : 0 ≤ io_offset_blocks i;
  iok_num : 0 < io_num_blocks i;
  iok_end : io_offset_blocks i + io_num_blocks i ≤ l_blockcnt l;
  iok_split : io_type i = SPDK_BDEV_IO_TYPE_READ ∨ io_type i = SPDK_BDEV_IO_TYPE_WRITE →
    io_offset_blocks i `div` l_sbc l = (io_offset_blocks i + io_num_blocks i - 1) `div` l_sbc l
}.

(** Status of the stripe of a block. *)
Definition block_status (u : ubi_bdev) (b : Z) : stripe_status_t :=
  ub_stripe_status u (stripe_of u b).

(** The stripe of a request that needs it is on the base bdev. *)
Definition io_ready (u : ubi_bdev) (i : spdk_bdev_io) : Prop :=
  needs_stripe u (io_type i) = true → io_offset_blocks i < ub_image_block_count u →
  block_status u (io_offset_blocks i) = STRIPE_FETCHED.

(** An I/O the poller has started. *)
Definition started_ok (u : ubi_bdev) (i : spdk_bdev_io) : Prop :=
  uio_op (io_driver_ctx i) = UBI_BDEV_IO ∧ io_ready u i.
Definition started (w : world) (io : Z) : Prop := ∃ i c,
  w_ios w !! io = Some i ∧ io_ok (layout_of (w_ub w)) i ∧ started_ok (w_ub w) i ∧
  w_chs w !! uio_ch (io_driver_ctx i) = Some c.

(** A read or write of the base bdev for [i]. *)
Definition base_rw_ok (u : ubi_bdev) (i : spdk_bdev_io) (start num : Z) : Prop :=
  start = io_offset_blocks i + ub_data_offset_blocks u ∧ num = io_num_blocks i ∧
  (io_offset_blocks i < ub_image_block_count u →
   block_status u (io_offset_blocks i) = STRIPE_FETCHED).

Definition req_ok (u : ubi_bdev) (ios : gmap Z spdk_bdev_io) (r : base_req) : Prop :=
  match r with
  | RqStripeWrite _ _ _ _ => True
  | RqRead io start num _ => ∃ i, ios !! io = Some i ∧ io_type i = SPDK_BDEV_IO_TYPE_READ ∧
      base_rw_ok u i start num
  | RqWrite io start num _ => ∃ i, ios !! io = Some i ∧ io_type i = SPDK_BDEV_IO_TYPE_WRITE ∧
      base_rw_ok u i start num
  | RqDataFlush io start num => ∃ i, ios !! io = Some i ∧ io_type i = SPDK_BDEV_IO_TYPE_FLUSH ∧
      start = io_offset_blocks i + ub_data_offset_blocks u ∧ num = io_num_blocks i
  | RqMetadataWrite io start num | RqMetadataFlush io start num =>
      ∃ i, ios !! io = Some i ∧ io_type i = SPDK_BDEV_IO_TYPE_FLUSH ∧
        start = 0 ∧ num = ub_data_offset_blocks u
  end.

Definition readv_ok (u : ubi_bdev) (ios : gmap Z spdk_bdev_io) (ch io o : Z) : Prop :=
  ∃ i, ios !! io = Some i ∧ io_type i = SPDK_BDEV_IO_TYPE_READ ∧
    uio_ch (io_driver_ctx i) = ch ∧
    (io_offset_blocks i < ub_image_block_count u ∧ ub_copy_on_read u = false) ∧
    o = io_offset_blocks i * bd_blocklen (ub_bdev u).

(** A queued request that needs its stripe: the fetch was at least enqueued. *)
Definition queued_ok (u : ubi_bdev) (i : spdk_bdev_io) : Prop :=
  io_ok (layout_of u) i ∧
  (needs_stripe u (io_type i) = true → io_offset_blocks i < ub_image_block_count u →
   block_status u (io_offset_blocks i) ≠ STRIPE_NOT_FETCHED).

(** * The invariant *)

(** Every started I/O is where the code may put it. *)
Record places_ok (w : world) : Prop := {
  po_bufq io : io ∈ w_bufq w → ∃ i, w_ios w !! io = Some i ∧ io_type i = SPDK_BDEV_IO_TYPE_READ;
  po_readv ch c io o : w_chs w !! ch = Some c → SqeReadv io o ∈ ring_all (ch_ring c) →
    readv_ok (w_ub w) (w_ios w) ch io o;
  po_req r : r ∈ reqs w → req_ok (w_ub w) (w_ios w) r
}.

Record iinv (fl : list Z) (w : world) : Prop := {
  ii_nodup : NoDup (ids fl w);
  ii_queued ch c io : w_chs w !! ch = Some c → io ∈ ch_io c →
    ∃ i, w_ios w !! io = Some i ∧ queued_ok (w_ub w) i;
  ii_started io : io ∈ started_ids fl w → started w io;
  ii_reads ch c : w_chs w !! ch = Some c →
    ch_active_reads c = Z.of_nat (length (reads_of (w_ios w) ch (started_ids fl w))) ∧
    ch_active_reads c ≤ UBI_MAX_CONCURRENT_READS;
  ii_places : places_ok w
}.

(** Only image reads wait on a ring for submission: a stripe fetch is submitted
    at once. *)
Definition sq_readv (w : world) : Prop := ∀ ch c e,
  w_chs w !! ch = Some c → e ∈ ring_sq (ch_ring c) → is_Some (readv_of e).

(** * Lemmas on places *)

Section OverChs.
Context {C A : Type}.
Implicit Types (f : C → list A) (m : gmap Z C).

Lemma over_chs_insert_new f m ch c : m !! ch = None →
  over_chs f (<[ch := c]> m) ≡ₚ f c ++ over_chs f m.
Proof. intros Hn. unfold over_chs. by rewrite map_to_list_insert. Qed.

Lemma over_chs_split f m ch c : m !! ch = Some c →
  ∃ rest, over_chs f m ≡ₚ f c ++ rest ∧
          ∀ c', over_chs f (<[ch := c']> m) ≡ₚ f c' ++ rest.
Proof.
  intros Hc. exists (over_chs f (delete ch m)).
  assert (H : ∀ c', over_chs f (<[ch := c']> m) ≡ₚ f c' ++ over_chs f (delete ch m)).
  { intros c'. rewrite <-insert_delete_eq. apply over_chs_insert_new, lookup_delete_eq. }
  split; [|done]. rewrite <-(insert_id m ch c) at 1 by done. apply H.
Qed.

Lemma over_chs_same f m ch c c' : m !! ch = Some c → f c' ≡ₚ f c →
  over_chs f (<[ch := c']> m) ≡ₚ over_chs f m.
Proof.
  intros Hc Heq. destruct (over_chs_split f m ch c Hc) as (rest & -> & ->). by rewrite Heq.
Qed.

Lemma elem_over_chs f m ch c x : m !! ch = Some c → x ∈ f c → x ∈ over_chs f m.
Proof.
  intros Hc Hx. destruct (over_chs_split f m ch c Hc) as (rest & -> & _).
  apply elem_of_app. by left.
Qed.
End OverChs.

Lemma elem_ring_ios r io o : SqeReadv io o ∈ ring_all r → io ∈ ring_ios r.
Proof. intros H. apply list_elem_of_omap. by exists (SqeReadv io o). Qed.

Lemma ring_all_submit n r : ring_all (ring_submit n r) = ring_all r.
Proof. unfold ring_all, ring_submit; simpl. by rewrite <-app_assoc, take_drop. Qed.

Lemma ring_all_prep e r : ring_all (ring_prep e r) = ring_all r ++ [e].
Proof. unfold ring_all, ring_prep; simpl. by rewrite !app_assoc. Qed.

Lemma ring_all_seen r e res cq : ring_cq r = (e, res) :: cq → ring_all r = e :: ring_all (ring_seen r).
Proof. intros H. unfold ring_all, ring_seen; simpl. by rewrite H. Qed.

Lemma stripe_of_div u b : layout_ok (layout_of u) → stripe_of u b = b `div` ub_stripe_block_count u.
Proof.
  intros ([? ? Hsh Hsbc ? ? ?] & _). unfold stripe_of. simpl in *.
  rewrite Hsbc. apply shiftr_div. lia.
Qed.

Lemma started_ids_perm w fl fl' : fl ≡ₚ fl' → started_ids fl w ≡ₚ started_ids fl' w.
Proof. intros H. unfold started_ids. by rewrite H. Qed.

Lemma reads_of_perm ios ch l l' : l ≡ₚ l' → length (reads_of ios ch l) = length (reads_of ios ch l').
Proof. intros H. unfold reads_of. by rewrite H. Qed.

Lemma reads_of_cons ios ch io l :
  length (reads_of ios ch (io :: l)) =
  ((if read_on ios ch io then 1 else 0) + length (reads_of ios ch l))%nat.
Proof.
  unfold reads_of. rewrite filter_cons. destruct (read_on ios ch io) eqn:H.
  - by rewrite decide_True.
  - by rewrite decide_False by congruence.
Qed.

Lemma reads_of_ext ios ios' ch l :
  (∀ io, io ∈ l → read_on ios ch io = read_on ios' ch io) →
  length (reads_of ios ch l) = length (reads_of ios' ch l).
Proof. intros H. apply length_filter_iff. intros x Hx. by rewrite H. Qed.

(** Where an I/O can be. *)
Lemma req_in_ids fl w r io : r ∈ w_pend w → req_io r = Some io → io ∈ ids fl w.
Proof.
  intros Hr Hio. unfold ids, started_ids, reqs. rewrite !elem_of_app. right. left. do 3 right.
  apply list_elem_of_omap. exists r. split; [|done]. apply elem_of_app. by right.
Qed.

Lemma ring_in_ids fl w ch c io : w_chs w !! ch = Some c → io ∈ ring_ios (ch_ring c) → io ∈ ids fl w.
Proof.
  intros Hc Hio. unfold ids, started_ids. rewrite !elem_of_app. right. left. right. left.
  by apply (elem_over_chs (ring_ios ∘ ch_ring) (w_chs w) ch c io).
Qed.

Lemma done_in_ids fl w io : io ∈ (w_done w).*1 → io ∈ ids fl w.
Proof. intros H. unfold ids. rewrite !elem_of_app. by do 2 right. Qed.

(** The channels of two states with the same cores. *)
Lemma cores_lookup w w' ch c : cores w' = cores w → w_chs w' !! ch = Some c →
  ∃ c0, w_chs w !! ch = Some c0 ∧ ch_io c = ch_io c0 ∧ ch_active_reads c = ch_active_reads c0.
Proof.
  intros Heq Hc. assert (H : cores w' !! ch = Some (core c)) by (unfold cores; by rewrite lookup_fmap, Hc).
  rewrite Heq in H. unfold cores in H. rewrite lookup_fmap in H.
  destruct (w_chs w !! ch) as [c0|]; [|done]. simpl in H. unfold core in H. simplify_eq. by exists c0.
Qed.

Lemma started_chs w w' io : w_ub w' = w_ub w → w_ios w' = w_ios w → cores w' = cores w →
  started w io → started w' io.
Proof.
  intros Hu Hi Hc (i & c & ? & ? & ? & Hch). rewrite <-Hu, <-Hi in *.
  symmetry in Hc. destruct (cores_lookup _ _ _ _ Hc Hch) as (c' & ? & _). by exists i, c'.
Qed.

(** ** Moves *)

(** Started I/Os change places, nothing else. *)
Lemma iinv_perm fl fl' w w' :
  iinv fl w → w_ub w' = w_ub w → w_ios w' = w_ios w → w_done w' = w_done w →
  cores w' = cores w → started_ids fl' w' ≡ₚ started_ids fl w → places_ok w' → iinv fl' w'.
Proof.
  intros [Hnd Hq Hs Hr Hp] Hu Hi Hd Hc Hperm Hp'. split; [| | | |done].
  - unfold ids, queued_ids in *. by rewrite Hc, Hd, Hperm.
  - intros ch c io Hch Hio. destruct (cores_lookup _ _ _ _ Hc Hch) as (c0 & Hc0 & Hio' & _).
    rewrite Hi, Hu. rewrite Hio' in Hio. by eapply Hq.
  - intros io. rewrite Hperm. intros Hio. by eapply started_chs, Hs.
  - intros ch c Hch. destruct (cores_lookup _ _ _ _ Hc Hch) as (c0 & Hc0 & _ & ->).
    rewrite Hi, (reads_of_perm _ _ _ _ Hperm). by eapply Hr.
Qed.

(** [places_ok] looks only at the objects of started I/Os. *)
Lemma places_ok_ios fl w w' :
  places_ok w → w_ub w' = w_ub w → w_bufq w' = w_bufq w → reqs w' = reqs w →
  (∀ ch c, w_chs w' !! ch = Some c → ∃ c0, w_chs w !! ch = Some c0 ∧ ch_ring c = ch_ring c0) →
  (∀ io, io ∈ started_ids fl w → w_ios w' !! io = w_ios w !! io) → places_ok w'.
Proof.
  intros [Hb Hv Hr] Hu Hbq Hrq Hchs Hios. split.
  - rewrite Hbq. intros io Hio. rewrite Hios; [by apply Hb|].
    unfold started_ids. rewrite !elem_of_app. tauto.
  - intros ch c io o Hc Hin. destruct (Hchs _ _ Hc) as (c0 & Hc0 & Heq). rewrite Heq in Hin.
    pose proof (Hv _ _ _ _ Hc0 Hin) as Hok. unfold readv_ok in *. rewrite Hu, Hios; [done|].
    unfold started_ids. rewrite !elem_of_app. right. left.
    eapply elem_over_chs; [done|]. by eapply elem_ring_ios.
  - rewrite Hrq, Hu. intros r Hin. pose proof (Hr _ Hin) as Hok.
    assert (Hio : ∀ io, req_io r = Some io → w_ios w' !! io = w_ios w !! io).
    { intros io Hio. apply Hios. unfold started_ids. rewrite !elem_of_app. do 3 right.
      apply list_elem_of_omap. by exists r. }
    destruct r; simpl in *; rewrite ?Hio by done; done.
Qed.

Lemma cores_set_ch w ch c c' : w_chs w !! ch = Some c → core c' = core c →
  cores (set_ch ch c' w) = cores w.
Proof.
  intros Hc Heq. unfold cores; simpl. rewrite fmap_insert, Heq. apply insert_id.
  by rewrite lookup_fmap, Hc.
Qed.

Lemma NoDup_perm_sub {A} (l l' r : list A) : NoDup l → l ≡ₚ r ++ l' → NoDup l'.
Proof. intros Hnd Hp. rewrite Hp in Hnd. by apply NoDup_app in Hnd as (_ & _ & ?). Qed.

(** An I/O in hand is completed; a read gives its place back. *)
Lemma iinv_complete_other fl w io st i :
  iinv (io :: fl) w → w_ios w !! io = Some i → io_type i ≠ SPDK_BDEV_IO_TYPE_READ →
  iinv fl (complete io st w) ∧ ids fl (complete io st w) ≡ₚ ids (io :: fl) w.
Proof.
  intros [Hnd Hq Hs Hr Hp] Hi Ht.
  assert (Hperm : ids fl (complete io st w) ≡ₚ ids (io :: fl) w).
  { change (queued_ids w ++ started_ids fl w ++ io :: (w_done w).*1 ≡ₚ
      queued_ids w ++ (io :: started_ids fl w) ++ (w_done w).*1).
    apply Permutation_app_head. simpl. by rewrite Permutation_middle. }
  split; [|done]. split; try done.
  - by rewrite Hperm.
  - intros io0 Hio0. apply Hs. by right.
  - intros ch c Hc. simpl in Hc. destruct (Hr ch c Hc) as [-> ?]. split; [|done].
    unfold started_ids; simpl. rewrite reads_of_cons.
    unfold read_on at 1. rewrite Hi. by rewrite bool_decide_eq_false_2.
  - by destruct Hp.
Qed.

Lemma iinv_complete_read fl w io st i c :
  iinv (io :: fl) w → w_ios w !! io = Some i → io_type i = SPDK_BDEV_IO_TYPE_READ →
  w_chs w !! uio_ch (io_driver_ctx i) = Some c →
  let w' := complete io st (set_ch (uio_ch (io_driver_ctx i))
              (with_active_reads (u64 (ch_active_reads c - 1)) c) w) in
  iinv fl w' ∧ ids fl w' ≡ₚ ids (io :: fl) w.
Proof.
  intros [Hnd Hq Hs Hr Hp] Hi Ht Hc. set (ch := uio_ch (io_driver_ctx i)) in *.
  set (w' := complete io st (set_ch ch (with_active_reads (u64 (ch_active_reads c - 1)) c) w)).
  assert (Hstarted : started_ids (io :: fl) w ≡ₚ io :: started_ids fl w').
  { unfold started_ids, w'; simpl. constructor.
    apply Permutation_app_head, Permutation_app_tail.
    symmetry. by apply over_chs_same with c. }
  assert (Hqueued : queued_ids w' ≡ₚ queued_ids w).
  { unfold queued_ids, cores, w'; simpl. rewrite fmap_insert.
    apply over_chs_same with (core c); [by rewrite lookup_fmap, Hc|done]. }
  assert (Hperm : ids fl w' ≡ₚ ids (io :: fl) w).
  { unfold ids. rewrite Hqueued, Hstarted. simpl.
    apply Permutation_app_head. by rewrite Permutation_middle. }
  assert (Hch : ∀ ch0 c0, w_chs w' !! ch0 = Some c0 →
    ∃ c1, w_chs w !! ch0 = Some c1 ∧ ch_io c0 = ch_io c1 ∧ ch_ring c0 = ch_ring c1 ∧
      ch_active_reads c0 = if decide (ch0 = ch) then u64 (ch_active_reads c1 - 1) else ch_active_reads c1).
  { intros ch0 c0. simpl. rewrite lookup_insert. case_decide; subst.
    - intros [= <-]. exists c. by rewrite decide_True.
    - intros ?. exists c0. by rewrite decide_False. }
  split; [|done]. split.
  - by rewrite Hperm.
  - intros ch0 c0 io0 H0 Hio0. destruct (Hch _ _ H0) as (c1 & ? & Heq & _). rewrite Heq in Hio0.
    by eapply Hq.
  - intros io0 Hio0. destruct (Hs io0) as (i0 & c0 & ? & ? & ? & Hc0).
    { rewrite Hstarted. by right. }
    exists i0. simpl. rewrite lookup_insert. case_decide; [|by exists c0].
    eexists. by split_and!.
  - intros ch0 c0 H0. destruct (Hch _ _ H0) as (c1 & Hc1 & _ & _ & ->).
    destruct (Hr _ _ Hc1) as [Ha Hle]. rewrite (reads_of_perm _ _ _ _ Hstarted), reads_of_cons in Ha.
    assert (Hro : read_on (w_ios w) ch0 io = bool_decide (ch0 = ch)).
    { unfold read_on. rewrite Hi, bool_decide_eq_true_2 by done. fold ch.
      destruct (Z.eqb_spec ch ch0); [by rewrite bool_decide_eq_true_2|by rewrite bool_decide_eq_false_2]. }
    rewrite Hro in Ha. unfold UBI_MAX_CONCURRENT_READS in *. simpl.
    case_decide; subst; rewrite ?bool_decide_eq_true_2, ?bool_decide_eq_false_2 in Ha by done.
    + rewrite u64_small by lia. simpl in *. lia.
    + simpl in *. lia.
  - eapply (places_ok_ios (io :: fl) w); try done.
    intros ch0 c0 H0. destruct (Hch _ _ H0) as (c1 & ? & _ & ? & _). by exists c1.
Qed.

(** An I/O in hand that is not a read is dropped. *)
Lemma iinv_lose fl w io i :
  iinv (io :: fl) w → w_ios w !! io = Some i → io_type i ≠ SPDK_BDEV_IO_TYPE_READ →
  iinv fl w ∧ io :: ids fl w ≡ₚ ids (io :: fl) w.
Proof.
  intros [Hnd Hq Hs Hr Hp] Hi Ht.
  assert (Hperm : io :: ids fl w ≡ₚ ids (io :: fl) w).
  { unfold ids. change (started_ids (io :: fl) w) with (io :: started_ids fl w).
    simpl. by rewrite Permutation_middle. }
  split; [|done]. split; try done.
  - rewrite <-Hperm in Hnd. by inversion Hnd.
  - intros io0 Hio0. apply Hs. by right.
  - intros ch c Hc. destruct (Hr ch c Hc) as [-> ?]. split; [|done].
    unfold started_ids; simpl. rewrite reads_of_cons.
    unfold read_on at 1. rewrite Hi. by rewrite bool_decide_eq_false_2.
Qed.

(** The head of a queue is failed. *)
Lemma iinv_queue_fail fl w ch c io rest st :
  iinv fl w → w_chs w !! ch = Some c → ch_io c = io :: rest →
  let w' := complete io st (set_ch ch (with_io rest c) w) in
  iinv fl w' ∧ ids fl w' ≡ₚ ids fl w.
Proof.
  intros [Hnd Hq Hs Hr Hp] Hc Hio. set (w' := complete io st (set_ch ch (with_io rest c) w)).
  assert (Hst : started_ids fl w' ≡ₚ started_ids fl w).
  { unfold started_ids, w'; simpl. apply Permutation_app_head, Permutation_app_tail.
    by apply over_chs_same with c. }
  assert (Hqueued : io :: queued_ids w' ≡ₚ queued_ids w).
  { unfold queued_ids, cores, w'; simpl. rewrite fmap_insert.
    destruct (over_chs_split fst (core <$> w_chs w) ch (core c)) as (r & -> & ->);
      [by rewrite lookup_fmap, Hc|]. simpl. by rewrite Hio. }
  assert (Hperm : ids fl w' ≡ₚ ids fl w).
  { unfold ids. rewrite Hst, <-Hqueued. simpl. by rewrite app_assoc, <-Permutation_middle, app_assoc. }
  assert (Hch : ∀ ch0 c0, w_chs w' !! ch0 = Some c0 → ∃ c1, w_chs w !! ch0 = Some c1 ∧
    (∀ x, x ∈ ch_io c0 → x ∈ ch_io c1) ∧ ch_ring c0 = ch_ring c1 ∧
    ch_active_reads c0 = ch_active_reads c1).
  { intros ch0 c0. simpl. rewrite lookup_insert. case_decide; subst; [|by exists c0].
    intros [= <-]. exists c. split_and!; [done| |done..]. rewrite Hio. simpl. by right. }
  split; [|done]. split.
  - by rewrite Hperm.
  - intros ch0 c0 io0 H0 Hio0. destruct (Hch _ _ H0) as (c1 & ? & Hsub & _).
    eapply Hq; [done|]. by apply Hsub.
  - intros io0. rewrite Hst. intros Hio0. destruct (Hs io0 Hio0) as (i0 & c0 & ? & ? & ? & ?).
    exists i0. simpl. rewrite lookup_insert. case_decide; [|by exists c0]. eexists. by split_and!.
  - intros ch0 c0 H0. destruct (Hch _ _ H0) as (c1 & Hc1 & _ & _ & ->).
    rewrite (reads_of_perm _ _ _ _ Hst). by apply Hr.
  - eapply (places_ok_ios fl w); try done.
    intros ch0 c0 H0. destruct (Hch _ _ H0) as (c1 & ? & _ & ? & _). by exists c1.
Qed.

(** The head of a queue becomes a started I/O. *)
Lemma queue_start_ids fl w w' ch c c' io rest :
  w_chs w !! ch = Some c → ch_io c = io :: rest → w_bufq w' = w_bufq w → reqs w' = reqs w → w_done w' = w_done w →
  w_chs w' = <[ch := c']> (w_chs w) → ch_io c' = rest → ch_ring c' = ch_ring c →
  started_ids (io :: fl) w' ≡ₚ io :: started_ids fl w ∧ io :: queued_ids w' ≡ₚ queued_ids w ∧
  ids (io :: fl) w' ≡ₚ ids fl w.
Proof.
  intros Hc Hio Hb Hrq Hd Hchs Hio' Hring.
  assert (Hst : started_ids (io :: fl) w' ≡ₚ io :: started_ids fl w).
  { unfold started_ids; simpl. rewrite Hb, Hrq, Hchs. constructor.
    apply Permutation_app_head, Permutation_app_tail. apply over_chs_same with c; [done|].
    simpl. by rewrite Hring. }
  assert (Hqueued : io :: queued_ids w' ≡ₚ queued_ids w).
  { unfold queued_ids, cores. rewrite Hchs, fmap_insert.
    destruct (over_chs_split fst (core <$> w_chs w) ch (core c)) as (r & -> & ->);
      [by rewrite lookup_fmap, Hc|]. simpl. by rewrite Hio, Hio'. }
  assert (Hperm : ids (io :: fl) w' ≡ₚ ids fl w).
  { unfold ids. rewrite Hst, <-Hqueued, Hd. simpl. symmetry. apply Permutation_middle. }
  done.
Qed.

(** A read that starts takes a place in the counter of its channel. *)
Lemma reads_start (ios ios' : gmap Z spdk_bdev_io) (l : list Z) (ch ch0 io : Z) (i : spdk_bdev_io) :
  (∀ io0, io0 ∈ l → ios' !! io0 = ios !! io0) → ios' !! io = Some (init_driver_ctx ch i) →
  Z.of_nat (length (reads_of ios' ch0 (io :: l))) = Z.of_nat (length (reads_of ios ch0 l)) +
    (if decide (io_type i = SPDK_BDEV_IO_TYPE_READ ∧ ch = ch0) then 1 else 0).
Proof.
  intros Hother Hio. rewrite reads_of_cons, (reads_of_ext ios' ios).
  2: { intros io0 Hin. unfold read_on. by rewrite Hother. }
  assert (Hro : read_on ios' ch0 io = bool_decide (io_type i = SPDK_BDEV_IO_TYPE_READ) && (ch =? ch0)).
  { unfold read_on. by rewrite Hio. }
  rewrite Hro. destruct (Z.eqb_spec ch ch0) as [|Hne]; [|rewrite andb_false_r, decide_False by naive_solver; lia].
  rewrite andb_true_r. case_bool_decide; [rewrite decide_True by done|rewrite decide_False by naive_solver]; lia.
Qed.

(** The head of a queue is taken into service: its driver context is written,
    and a read takes a place in the read counter. *)
Lemma iinv_queue_start fl w w' ch c c' io rest i :
  iinv fl w → w_chs w !! ch = Some c → ch_io c = io :: rest → w_ios w !! io = Some i →
  w_ub w' = w_ub w → w_bufq w' = w_bufq w → reqs w' = reqs w → w_done w' = w_done w →
  w_ios w' = <[io := init_driver_ctx ch i]> (w_ios w) →
  w_chs w' = <[ch := c']> (w_chs w) → ch_io c' = rest → ch_ring c' = ch_ring c →
  io_ready (w_ub w) i →
  ch_active_reads c' = ch_active_reads c +
    (if decide (io_type i = SPDK_BDEV_IO_TYPE_READ) then 1 else 0) →
  ch_active_reads c' ≤ UBI_MAX_CONCURRENT_READS →
  iinv (io :: fl) w' ∧ ids (io :: fl) w' ≡ₚ ids fl w.
Proof.
  intros [Hnd Hq Hs Hr Hp] Hc Hio Hi Hu Hb Hrq Hd Hios Hchs Hio' Hring Hready Hact Hle.
  destruct (queue_start_ids fl w w' ch c c' io rest) as (Hst & Hqueued & Hperm); [done..|].
  assert (Hnew : io ∉ started_ids fl w).
  { rewrite <-Hperm in Hnd. unfold ids in Hnd. rewrite Hst in Hnd.
    apply NoDup_app in Hnd as (_ & _ & Hnd). simpl in Hnd. apply NoDup_cons in Hnd as [Hn _].
    intros Hin. apply Hn, elem_of_app. by left. }
  assert (Hother : ∀ io0, io0 ∈ started_ids fl w → w_ios w' !! io0 = w_ios w !! io0).
  { intros io0 Hin. rewrite Hios, lookup_insert_ne; [done|]. by intros ->. }
  assert (Hch : ∀ ch0 c0, w_chs w' !! ch0 = Some c0 →
    ch0 = ch ∧ c0 = c' ∨ ch0 ≠ ch ∧ w_chs w !! ch0 = Some c0).
  { intros ch0 c0. rewrite Hchs. destruct (decide (ch = ch0)) as [<-|].
    - rewrite lookup_insert_eq. intros [= <-]. by left.
    - rewrite lookup_insert_ne by done. by right. }
  assert (Hq' : ∀ ch0 c0 io0, w_chs w !! ch0 = Some c0 → io0 ∈ ch_io c0 → io0 ∈ queued_ids w).
  { intros ch0 c0 io0 H0 Hin. eapply elem_over_chs with (c := core c0); [|done].
    unfold cores. by rewrite lookup_fmap, H0. }
  split; [|done]. split.
  - by rewrite Hperm.
  - intros ch0 c0 io0 H0 Hin.
    assert (Hq0 : ∃ c1, w_chs w !! ch0 = Some c1 ∧ io0 ∈ ch_io c1).
    { destruct (Hch _ _ H0) as [[-> ->]|[? ?]]; [|by exists c0].
      exists c. split; [done|]. rewrite Hio, <-Hio'. by right. }
    destruct Hq0 as (c1 & Hc1 & Hin1).
    assert (io0 ≠ io).
    { intros ->. assert (Hin' : io ∈ queued_ids w').
      { eapply elem_over_chs with (c := core c0); [|done].
        unfold cores. by rewrite lookup_fmap, H0. }
      unfold ids in Hnd. rewrite <-Hqueued in Hnd. simpl in Hnd.
      apply NoDup_cons in Hnd as [Hn _]. apply Hn, elem_of_app. by left. }
    rewrite Hios, lookup_insert_ne, Hu by done. by eapply Hq.
  - intros io0. rewrite Hst, elem_of_cons. intros [->|Hin].
    + destruct (Hq ch c io Hc) as (i0 & Hi0 & [? _]); [rewrite Hio; left|]. simplify_eq.
      exists (init_driver_ctx ch i), c'. rewrite Hios, Hchs, lookup_insert_eq, Hu.
      split_and!; [done| |by split|by rewrite lookup_insert_eq].
      destruct H as [? ? ? ?]. by split.
    + destruct (Hs io0 Hin) as (i0 & c0 & ? & ? & ? & ?). exists i0.
      rewrite Hother, Hu, Hchs by done. destruct (decide (ch = uio_ch (io_driver_ctx i0))) as [<-|].
      * exists c'. by rewrite lookup_insert_eq.
      * exists c0. by rewrite lookup_insert_ne.
  - intros ch0 c0 H0. rewrite (reads_of_perm _ _ _ _ Hst).
    rewrite (reads_start (w_ios w) (w_ios w') _ ch ch0 io i Hother) by (by rewrite Hios, lookup_insert_eq).
    destruct (Hch _ _ H0) as [[-> ->]|[Hne Hc0]].
    + destruct (Hr _ _ Hc) as [Ha _]. split; [|done]. rewrite Hact, Ha. repeat case_decide; try tauto; lia.
    + rewrite decide_False by naive_solver. rewrite Z.add_0_r. by apply Hr.
  - eapply (places_ok_ios fl w); try done.
    intros ch0 c0 H0. destruct (Hch _ _ H0) as [[-> ->]|[? ?]]; [by exists c|by exists c0].
Qed.

(** ** Steps of the fetch machinery *)

(** The parameters of a bdev that no handler changes. *)
Definition statics (u : ubi_bdev) : layout * bool * bool :=
  (layout_of u, ub_copy_on_read u, ub_no_sync u).

(** What the accounting sees of a channel, with its image reads. *)
Definition readv_pair (e : sqe) : option (Z * Z) :=
  match e with SqeReadv io o => Some (io, o) | SqeRead _ _ _ => None end.
Definition cview (c : ubi_io_channel) : list Z * Z * list (Z * Z) :=
  (ch_io c, ch_active_reads c, omap readv_pair (ring_all (ch_ring c))).

Lemma readv_pair_elem io o (l : list sqe) : SqeReadv io o ∈ l ↔ (io, o) ∈ omap readv_pair l.
Proof.
  rewrite list_elem_of_omap. split.
  - intros Hin. by exists (SqeReadv io o).
  - intros ([?|io' o'] & Hin & Heq); simpl in Heq; by simplify_eq.
Qed.

Lemma readv_of_pair (l : list sqe) : omap readv_of l = (omap readv_pair l).*1.
Proof. induction l as [|[? ? ?|? ?] l IH]; [done|exact IH|]. simpl. f_equal. exact IH. Qed.

Lemma over_chs_fmap {C D A} (f : D → list A) (g : C → D) (m : gmap Z C) :
  over_chs f (g <$> m) = over_chs (f ∘ g) m.
Proof. unfold over_chs. rewrite map_to_list_fmap, <-!list_fmap_compose. done. Qed.

Lemma over_chs_ext {C A} (f g : C → list A) (m : gmap Z C) :
  (∀ c, f c = g c) → over_chs f m = over_chs g m.
Proof. intros H. unfold over_chs. f_equal. apply list_fmap_ext. intros. apply H. Qed.

Lemma cview_ring_ids w : over_chs (ring_ios ∘ ch_ring) (w_chs w) =
  over_chs (λ x : list Z * Z * list (Z * Z), x.2.*1) (cview <$> w_chs w).
Proof.
  rewrite over_chs_fmap. apply over_chs_ext. intros c. unfold ring_ios; simpl. apply readv_of_pair.
Qed.

Lemma cview_cores w : cores w = fst <$> (cview <$> w_chs w).
Proof. unfold cores. rewrite <-map_fmap_compose. done. Qed.

Lemma cview_lookup w w' ch c : cview <$> w_chs w' = cview <$> w_chs w → w_chs w' !! ch = Some c →
  ∃ c0, w_chs w !! ch = Some c0 ∧ cview c = cview c0.
Proof.
  intros Heq Hc. assert (H : (cview <$> w_chs w') !! ch = Some (cview c)) by by rewrite lookup_fmap, Hc.
  rewrite Heq, lookup_fmap in H. destruct (w_chs w !! ch) as [c0|]; [|done]. simpl in H.
  exists c0. split; [done|]. by apply (inj Some) in H.
Qed.

Lemma statics_fields u u' : statics u' = statics u →
  layout_of u' = layout_of u ∧ ub_copy_on_read u' = ub_copy_on_read u ∧
  ub_no_sync u' = ub_no_sync u ∧ ub_stripe_shift u' = ub_stripe_shift u ∧
  ub_data_offset_blocks u' = ub_data_offset_blocks u ∧
  ub_image_block_count u' = ub_image_block_count u ∧
  bd_blocklen (ub_bdev u') = bd_blocklen (ub_bdev u).
Proof. intros Hs. injection Hs. intros. split_and!; try done. unfold layout_of. congruence. Qed.

Lemma stripe_of_statics u u' b : statics u' = statics u → stripe_of u' b = stripe_of u b.
Proof. intros (_ & _ & _ & H & _)%statics_fields. unfold stripe_of. by rewrite H. Qed.

Section Statics.
Context (u u' : ubi_bdev).
Hypothesis Hs : statics u' = statics u.
Hypothesis Hst : ∀ k, rtc status_step (ub_stripe_status u k) (ub_stripe_status u' k).

Lemma block_fetched_mono b : block_status u b = STRIPE_FETCHED → block_status u' b = STRIPE_FETCHED.
Proof.
  unfold block_status. rewrite (stripe_of_statics u u') by done. intros Hf.
  apply status_fetched_final. rewrite <-Hf at 1. apply Hst.
Qed.

Lemma io_ready_mono i : io_ready u i → io_ready u' i.
Proof.
  destruct (statics_fields _ _ Hs) as (_ & Hc & _ & _ & _ & Hi & _).
  unfold io_ready, needs_stripe. rewrite Hc, Hi. intros H H1 H2. by apply block_fetched_mono, H.
Qed.

Lemma req_ok_mono ios r : req_ok u ios r → req_ok u' ios r.
Proof.
  destruct (statics_fields _ _ Hs) as (_ & _ & _ & _ & Hd & Hi & _).
  assert (H : ∀ i start num, base_rw_ok u i start num → base_rw_ok u' i start num).
  { intros i start num (? & ? & Hf). unfold base_rw_ok. rewrite Hd, Hi. split_and!; [done..|].
    intros Hlt. apply block_fetched_mono. by apply Hf. }
  destruct r; simpl; rewrite ?Hd; try done; intros (i & ? & ? & ?); exists i; auto.
Qed.

Lemma queued_ok_mono i : queued_ok u i → queued_ok u' i.
Proof.
  destruct (statics_fields _ _ Hs) as (Hl & Hc & _ & _ & _ & Hi & _).
  intros [Hok Hn]. split; [by rewrite Hl|]. unfold needs_stripe in *. rewrite Hc, Hi.
  intros H1 H2. unfold block_status. rewrite (stripe_of_statics u u') by done.
  eapply status_not_unfetched; [apply Hst|]. by apply Hn.
Qed.
End Statics.

(** The fetch machinery moves: the accounting is untouched, statuses advance. *)
Lemma iinv_fetch fl w w' :
  iinv fl w → statics (w_ub w') = statics (w_ub w) →
  (∀ k, rtc status_step (ub_stripe_status (w_ub w) k) (ub_stripe_status (w_ub w') k)) →
  w_ios w' = w_ios w → w_bufq w' = w_bufq w → w_done w' = w_done w →
  cview <$> w_chs w' = cview <$> w_chs w →
  omap req_io (reqs w') = omap req_io (reqs w) →
  (∀ r, r ∈ reqs w' → r ∈ reqs w ∨ req_io r = None) →
  iinv fl w' ∧ ids fl w' = ids fl w.
Proof.
  intros [Hnd Hq Hs Hr Hp] Hu Hst Hi Hb Hd Hc Hrq Hreq.
  destruct (statics_fields _ _ Hu) as (Hl & Hcor & _ & _ & _ & Himg & Hlen).
  assert (Hids : started_ids fl w' = started_ids fl w).
  { unfold started_ids. by rewrite !cview_ring_ids, Hc, Hb, Hrq. }
  assert (Heq : ids fl w' = ids fl w).
  { unfold ids, queued_ids. by rewrite Hids, Hd, !cview_cores, Hc. }
  split; [|done]. split.
  - by rewrite Heq.
  - intros ch c io H0 Hin. destruct (cview_lookup _ _ _ _ Hc H0) as (c0 & Hc0 & [= Hv _ _]).
    rewrite Hv in Hin. destruct (Hq ch c0 io Hc0 Hin) as (i & ? & ?).
    exists i. rewrite Hi. split; [done|]. by apply (queued_ok_mono (w_ub w)).
  - intros io. rewrite Hids. intros Hin. destruct (Hs io Hin) as (i & c & ? & ? & ? & Hch).
    symmetry in Hc. destruct (cview_lookup _ _ _ _ Hc Hch) as (c' & ? & _). exists i, c'.
    rewrite Hi, Hl. split_and!; [done..| |done]. split; [by firstorder|].
    apply (io_ready_mono (w_ub w)); firstorder.
  - intros ch c H0. destruct (cview_lookup _ _ _ _ Hc H0) as (c0 & Hc0 & [= _ Hv _]).
    rewrite Hids, Hi, Hv. by apply Hr.
  - destruct Hp as [Hbq Hv Hrs]. split.
    + rewrite Hb, Hi. done.
    + intros ch c io o H0 Hin. destruct (cview_lookup _ _ _ _ Hc H0) as (c0 & Hc0 & [= _ _ Hcv]).
      rewrite readv_pair_elem, Hcv, <-readv_pair_elem in Hin.
      destruct (Hv ch c0 io o Hc0 Hin) as (i & ? & ? & ? & [? ?] & ?).
      exists i. rewrite Hi, Himg, Hlen, Hcor. by split_and!.
    + intros r Hin. rewrite Hi. destruct (Hreq r Hin) as [Hin'|Hnone].
      * by apply (req_ok_mono (w_ub w)), Hrs.
      * by destruct r.
Qed.

(** ** New objects, updates of an object, arrival of a request *)

(** What the accounting reads of an I/O object. *)
Definition io_key (i : spdk_bdev_io) : spdk_bdev_io_type * Z * Z * ubi_io_type * Z :=
  (io_type i, io_offset_blocks i, io_num_blocks i, uio_op (io_driver_ctx i),
   uio_ch (io_driver_ctx i)).

Lemma io_key_ok l i i' : io_key i' = io_key i → io_ok l i → io_ok l i'.
Proof. intros [= Ht Ho Hn _ _] [? ? ? ? ?]. split; by rewrite ?Ht, ?Ho, ?Hn. Qed.

Lemma io_key_started u i i' : io_key i' = io_key i → started_ok u i → started_ok u i'.
Proof. intros [= Ht Ho _ Hop _] [? ?]. split; [congruence|]. unfold io_ready in *. by rewrite Ht, Ho. Qed.

Lemma iinv_ios fl w ios' :
  iinv fl w → (∀ io i, io ∈ ids fl w → w_ios w !! io = Some i →
    ∃ i', ios' !! io = Some i' ∧ io_key i' = io_key i) →
  iinv fl (with_ios ios' w).
Proof.
  intros [Hnd Hq Hs Hr Hp] Hios.
  assert (Hst : ∀ io i, io ∈ started_ids fl w → w_ios w !! io = Some i →
    ∃ i', ios' !! io = Some i' ∧ io_key i' = io_key i).
  { intros io i Hin. apply Hios. unfold ids. rewrite !elem_of_app. tauto. }
  split.
  - done.
  - intros ch c io Hc Hin. simpl in Hc. destruct (Hq ch c io Hc Hin) as (i & Hi & [Hok Hn]).
    destruct (Hios io i) as (i' & ? & Hk); [|done|].
    { unfold ids. rewrite elem_of_app. left. eapply elem_over_chs with (c := core c); [|done].
      unfold cores. by rewrite lookup_fmap, Hc. }
    exists i'. split; [done|]. split; [by eapply io_key_ok|].
    injection Hk as Ht Ho _ _ _. simpl. by rewrite Ht, Ho.
  - intros io Hin. destruct (Hs io Hin) as (i & c & Hi & Hok & Hop & Hc).
    destruct (Hst io i Hin Hi) as (i' & ? & Hk). exists i', c. pose proof Hk as [= Ht Ho Hn Hop' Hch].
    split_and!; [done|by eapply io_key_ok|by eapply io_key_started|by rewrite Hch].
  - intros ch c Hc. destruct (Hr ch c Hc) as [Ha ?]. split; [|done]. rewrite Ha. f_equal.
    apply reads_of_ext. intros io Hin. unfold read_on; simpl.
    destruct (Hs io Hin) as (i & c' & Hi & _). destruct (Hst io i Hin Hi) as (i' & -> & [= -> _ _ _ ->]).
    by rewrite Hi.
  - destruct Hp as [Hb Hv Hrs]. split; simpl.
    + intros io Hin. destruct (Hb io Hin) as (i & Hi & Ht).
      destruct (Hst io i) as (i' & ? & [= Ht' _ _ _ _]); [|done|exists i'; split; congruence].
      unfold started_ids. rewrite !elem_of_app. tauto.
    + intros ch c io o Hc Hin. destruct (Hv ch c io o Hc Hin) as (i & Hi & ? & ? & [? ?] & ->).
      destruct (Hst io i) as (i' & ? & [= Ht Ho _ _ Hch]); [|done|].
      { unfold started_ids. rewrite !elem_of_app. right. left.
        eapply elem_over_chs; [done|]. by eapply elem_ring_ios. }
      exists i'. rewrite Ht, Ho, Hch. by split_and!.
    + intros r Hin. pose proof (Hrs r Hin) as Hok.
      assert (Hio : ∀ io i, req_io r = Some io → w_ios w !! io = Some i →
        ∃ i', ios' !! io = Some i' ∧ io_key i' = io_key i).
      { intros io i Heq. apply Hst. unfold started_ids. rewrite !elem_of_app. do 3 right.
        apply list_elem_of_omap. by exists r. }
      destruct r; simpl in *; try done;
        destruct Hok as (i & Hi & Hok); destruct (Hio _ i eq_refl Hi) as (i' & ? & [= Ht Ho Hn _ _]);
        exists i'; unfold base_rw_ok in *; rewrite Ht, ?Ho, ?Hn; done.
Qed.

(** The driver context of an I/O gets a new [stripes_fetched]. *)
Lemma iinv_touch fl w io i n : iinv fl w → w_ios w !! io = Some i →
  iinv fl (set_io io (with_driver_ctx (with_uio_stripes_fetched n (io_driver_ctx i)) i) w).
Proof.
  intros Hinv Hi. apply iinv_ios; [done|]. intros io0 i0 _ Hi0.
  destruct (decide (io = io0)) as [<-|]; [|exists i0; by rewrite lookup_insert_ne].
  simplify_eq. eexists. by rewrite lookup_insert_eq.
Qed.

(** A fresh object appears. *)
Lemma iinv_new fl w io i : iinv fl w → io ∉ ids fl w → iinv fl (set_io io i w).
Proof.
  intros Hinv Hn. apply iinv_ios; [done|]. intros io0 i0 Hin Hi0.
  exists i0. rewrite lookup_insert_ne; [done|]. by intros ->.
Qed.

(** A request joins the queue of a channel. *)
Lemma iinv_submit fl w ch c io i :
  iinv fl w → io ∉ ids fl w → w_chs w !! ch = Some c → w_ios w !! io = Some i →
  queued_ok (w_ub w) i →
  let w' := set_ch ch (with_io (ch_io c ++ [io]) c) w in
  iinv fl w' ∧ ids fl w' ≡ₚ io :: ids fl w.
Proof.
  intros [Hnd Hq Hs Hr Hp] Hnew Hc Hi Hok.
  set (w' := set_ch ch (with_io (ch_io c ++ [io]) c) w).
  assert (Hst : started_ids fl w' ≡ₚ started_ids fl w).
  { unfold started_ids, w'; simpl. apply Permutation_app_head, Permutation_app_tail.
    by apply over_chs_same with c. }
  assert (Hqueued : queued_ids w' ≡ₚ io :: queued_ids w).
  { unfold queued_ids, cores, w'; simpl. rewrite fmap_insert.
    destruct (over_chs_split fst (core <$> w_chs w) ch (core c)) as (r & -> & ->);
      [by rewrite lookup_fmap, Hc|]. simpl. rewrite <-app_assoc. simpl. by rewrite Permutation_middle. }
  assert (Hperm : ids fl w' ≡ₚ io :: ids fl w) by (unfold ids; by rewrite Hst, Hqueued).
  assert (Hch : ∀ ch0 c0, w_chs w' !! ch0 = Some c0 → ∃ c1, w_chs w !! ch0 = Some c1 ∧
    (∀ x, x ∈ ch_io c0 → x ∈ ch_io c1 ∨ x = io) ∧ ch_ring c0 = ch_ring c1 ∧
    ch_active_reads c0 = ch_active_reads c1).
  { intros ch0 c0. simpl. rewrite lookup_insert. case_decide; subst.
    - intros [= <-]. exists c. split_and!; [done| |done..]. simpl. intros x.
      by rewrite elem_of_app, list_elem_of_singleton.
    - intros ?. exists c0. split_and!; auto. }
  split; [|done]. split.
  - rewrite Hperm. by constructor.
  - intros ch0 c0 io0 H0 Hin. destruct (Hch _ _ H0) as (c1 & ? & Hsub & _).
    destruct (Hsub _ Hin) as [?| ->]; [by eapply Hq|]. by exists i.
  - intros io0. rewrite Hst. intros Hin. destruct (Hs io0 Hin) as (i0 & c0 & ? & ? & ? & ?).
    exists i0. simpl. rewrite lookup_insert. case_decide; [|by exists c0]. eexists. by split_and!.
  - intros ch0 c0 H0. destruct (Hch _ _ H0) as (c1 & Hc1 & _ & _ & ->).
    rewrite (reads_of_perm _ _ _ _ Hst). by apply Hr.
  - eapply (places_ok_ios fl w); try done.
    intros ch0 c0 H0. destruct (Hch _ _ H0) as (c1 & ? & _ & ? & _). by exists c1.
Qed.

(** The image reads on a ring are reads the channel counts. *)
Lemma ring_ios_bound fl w ch c : iinv fl w → w_chs w !! ch = Some c →
  Z.of_nat (length (ring_ios (ch_ring c))) ≤ ch_active_reads c.
Proof.
  intros [Hnd Hq Hs Hr Hp] Hc. destruct (Hr ch c Hc) as [Ha Hle].
  destruct (over_chs_split (ring_ios ∘ ch_ring) (w_chs w) ch c Hc) as (rest & Hsplit & _).
  assert (Hall : reads_of (w_ios w) ch (ring_ios (ch_ring c)) = ring_ios (ch_ring c)).
  { apply filter_all. intros io Hin%list_elem_of_omap.
    destruct Hin as ([|io' o] & Hin & [= ->]).
    destruct (po_readv _ Hp ch c io o Hc Hin) as (i & Hi & Ht & Hch & _).
    unfold read_on. rewrite Hi, Hch, Z.eqb_refl, bool_decide_eq_true_2 by done. done. }
  rewrite Ha. apply Nat2Z.inj_le.
  unfold started_ids. rewrite (reads_of_perm _ _ _ (fl ++ (ring_ios (ch_ring c) ++ rest) ++
    w_bufq w ++ omap req_io (reqs w))) by by rewrite Hsplit.
  rewrite <-Hall at 1. unfold reads_of. rewrite !filter_app, !length_app. lia.
Qed.

(** So are the entries prepared and not submitted. *)
Lemma sq_bound fl w ch c : iinv fl w → sq_readv w → w_chs w !! ch = Some c →
  Z.of_nat (length (ring_sq (ch_ring c))) ≤ UBI_MAX_CONCURRENT_READS.
Proof.
  intros Hi Hsq Hc. pose proof (ring_ios_bound _ _ _ _ Hi Hc) as Hb.
  destruct (ii_reads _ _ Hi ch c Hc) as [_ Hle].
  assert (Hlen : length (omap readv_of (ring_sq (ch_ring c))) = length (ring_sq (ch_ring c))).
  { specialize (Hsq ch c). revert Hsq. generalize (ring_sq (ch_ring c)). intros l.
    induction l as [|e l IH]; [done|]. intros Hsq. simpl.
    destruct (Hsq e Hc) as [io ->]; [by left|]. simpl. f_equal. apply IH.
    intros e' Hc' Hin. apply Hsq; [done|]. by right. }
  assert (length (omap readv_of (ring_sq (ch_ring c))) ≤ length (ring_ios (ch_ring c)))%nat.
  { unfold ring_ios, ring_all. rewrite !omap_app, !length_app. lia. }
  lia.
Qed.

Lemma ring_length (l : list sqe) :
  length l = (length (omap fetch_of l) + length (omap readv_of l))%nat.
Proof.
  induction l as [|[? ? ?|? ?] l IH]; [done|..]; cbn [length omap list_omap fetch_of readv_of];
    change (list_omap _ _ fetch_of l) with (omap fetch_of l);
    change (list_omap _ _ readv_of l) with (omap readv_of l); cbn [length]; lia.
Qed.
