(* ===== verification/Refine.v ===== *)
(** Every handler of the module keeps the invariants of [FetchProtocol] and
    [IoInv], runs without undefined behaviour, and refines the stripe fetch
    protocol: what it does to the statuses, fetch queues, fetch slots,
    image reads and stripe writes is a sequence of protocol steps.

    The theorems are proved against [env_ok], what the code relies on of
    liburing. *)
From stdpp Require Import base tactics list gmap option numbers functions strings relations.
From Stdlib Require Import ZArith Lia.
From S2P Require Import Prelude Types World Layout FetchQueue Stripe Flush IoChannel Submit.
From S2P Require Import FetchProtocol IoInv.

Local Open Scope Z_scope.

(** * What the handlers rely on *)

(** [io_uring_get_sqe] fails only on a full submission queue;
    [io_uring_submit] submits every prepared entry or fails, and does not fail
    when a stripe fetch is among them.  The last is not promised by liburing,
    and [ubi_start_fetch_stripe] has an error path for it; but that path leaves
    the entry on the ring, and [Flaws] shows what follows. *)
Class env_ok (E : ext_env) : Prop := {
  env_get_sqe w ch c : w_chs w !! ch = Some c →
    Z.of_nat (length (ring_sq (ch_ring c))) < UBI_URING_QUEUE_SIZE →
    ext_result w (CallGetSqe ch) ≠ 0;
  env_submit w ch c : w_chs w !! ch = Some c →
    0 ≤ ext_result w (CallUringSubmit ch) →
    ext_result w (CallUringSubmit ch) = Z.of_nat (length (ring_sq (ch_ring c)));
  env_submit_fetch w ch c slot n o : w_chs w !! ch = Some c →
    SqeRead slot n o ∈ ring_sq (ch_ring c) → 0 ≤ ext_result w (CallUringSubmit ch)
}.

(** The base bdev accepts every request. *)
Definition accepts {E : ext_env} : Prop := ∀ w r, ext_result w (CallBase r) = 0.

(** * Invariant and postcondition of a handler *)

Record inv (fl : list Z) (w : world) : Prop := {
  inv_fetch : finv (fview_of w);
  inv_io : iinv fl w;
  inv_sq : sq_readv w
}.

(** Every image read on a ring of [w'] was there in [w], or its stripe is not
    fetched. *)
Definition readv_new (w w' : world) : Prop := ∀ ch c' io o,
  w_chs w' !! ch = Some c' → SqeReadv io o ∈ ring_all (ch_ring c') →
  (∃ c, w_chs w !! ch = Some c ∧ SqeReadv io o ∈ ring_all (ch_ring c)) ∨
  block_status (w_ub w') (o `div` bd_blocklen (ub_bdev (w_ub w'))) ≠ STRIPE_FETCHED.

(** Every stripe write of [w'] was there in [w], or comes from a successful
    read of the stripe that was complete in [w]. *)
Definition swrites_new (w w' : world) : Prop := ∀ ch slot o n,
  RqStripeWrite ch slot o n ∈ reqs w' → RqStripeWrite ch slot o n ∈ reqs w ∨
  ∃ c n' o' res, w_chs w !! ch = Some c ∧ (SqeRead slot n' o', res) ∈ ring_cq (ch_ring c) ∧
    0 ≤ res ∧ o = o' + UBI_METADATA_SIZE.

(** No stripe write waits for its callback. *)
Definition no_swrite (w : world) : Prop := omap swrite_of (w_fin w) = [].

(** What a handler may do to the data: it makes no stripe fetched unless it is
    the callback of a stripe write, it prepares image reads only of stripes
    that are not fetched, and it writes a stripe only after it was read. *)
Record calm (w w' : world) : Prop := {
  cm_fin : w_fin w' `suffix_of` w_fin w;
  cm_fetched k : no_swrite w → ub_stripe_status (w_ub w') k = STRIPE_FETCHED →
    ub_stripe_status (w_ub w) k = STRIPE_FETCHED;
  cm_readv : no_swrite w → readv_new w w';
  cm_swrite : swrites_new w w';
  cm_cq ch c' : w_chs w' !! ch = Some c' →
    ∃ c, w_chs w !! ch = Some c ∧ ring_cq (ch_ring c') ⊆ ring_cq (ch_ring c)
}.

(** It takes requests from the front of the queues only. *)
Record tame (w w' : world) : Prop := {
  tm_chs ch c : w_chs w !! ch = Some c →
    ∃ c', w_chs w' !! ch = Some c' ∧ ch_io c' `suffix_of` ch_io c;
  tm_calm : calm w w'
}.

(** How a handler may change the state: by protocol steps, without touching
    the parameters. *)
Record evolves (w w' : world) : Prop := {
  ev_fetch : rtc fstep (fview_of w) (fview_of w');
  ev_statics : statics (w_ub w') = statics (w_ub w);
  ev_tame : tame w w'
}.

Lemma ev_chs w w' : evolves w w' → ∀ ch c, w_chs w !! ch = Some c →
  ∃ c', w_chs w' !! ch = Some c' ∧ ch_io c' `suffix_of` ch_io c.
Proof. intros Hev. apply (ev_tame _ _ Hev). Qed.

Record hpost {E : ext_env} (fl fl' : list Z) (w w' : world) : Prop := {
  hp_inv : inv fl' w';
  hp_evolves : evolves w w';
  hp_ids : ∃ lost, lost ++ ids fl' w' ≡ₚ ids fl w ∧ (accepts → lost = [])
}.

(** ** Tame changes *)

Lemma no_swrite_suffix w w' : w_fin w' `suffix_of` w_fin w → no_swrite w → no_swrite w'.
Proof.
  unfold no_swrite. intros [l ->]. rewrite omap_app. intros [_ ?]%app_nil. done.
Qed.

Lemma tame_reqs w w' : w_chs w' = w_chs w →
  ub_stripe_status (w_ub w') = ub_stripe_status (w_ub w) → w_fin w' `suffix_of` w_fin w →
  (∀ r, r ∈ reqs w' → r ∈ reqs w ∨ req_io r ≠ None) → tame w w'.
Proof.
  intros Hc Hst Hf Hr. split; [|split; [done|by intros k _; rewrite Hst| | |]].
  - intros ch c Hch. exists c. by rewrite Hc.
  - intros _ ch c' io o. rewrite Hc. intros Hch Hin. left. by exists c'.
  - intros ch slot o n [?|?]%Hr; [by left|done].
  - intros ch c'. rewrite Hc. intros Hch. by exists c'.
Qed.

Lemma tame_same w w' : w_chs w' = w_chs w →
  ub_stripe_status (w_ub w') = ub_stripe_status (w_ub w) →
  w_fin w' = w_fin w → w_pend w' = w_pend w → tame w w'.
Proof.
  intros Hc Hst Hf Hp. apply tame_reqs; [done|done|by rewrite Hf|].
  unfold reqs. rewrite Hf, Hp. by left.
Qed.

Lemma calm_insert w w' ch c c' : w_chs w !! ch = Some c → w_chs w' = <[ch := c']> (w_chs w) →
  ub_stripe_status (w_ub w') = ub_stripe_status (w_ub w) →
  w_fin w' = w_fin w → w_pend w' = w_pend w → ring_cq (ch_ring c') ⊆ ring_cq (ch_ring c) →
  (∀ io o, SqeReadv io o ∈ ring_all (ch_ring c') → SqeReadv io o ∈ ring_all (ch_ring c) ∨
    block_status (w_ub w') (o `div` bd_blocklen (ub_bdev (w_ub w'))) ≠ STRIPE_FETCHED) →
  calm w w'.
Proof.
  intros Hc Hchs Hst Hf Hp Hcq Hring. split; [by rewrite Hf|by intros k _; rewrite Hst| | |].
  - intros _ ch0 c0 io o. rewrite Hchs. destruct (decide (ch = ch0)) as [<-|].
    + rewrite lookup_insert_eq. intros [= <-] [Hin|Hn]%Hring; [left; by exists c|by right].
    + rewrite lookup_insert_ne by done. intros Hc0 Hin. left. by exists c0.
  - unfold swrites_new, reqs. rewrite Hf, Hp. by left.
  - intros ch0 c0. rewrite Hchs. destruct (decide (ch = ch0)) as [<-|].
    + rewrite lookup_insert_eq. intros [= <-]. by exists c.
    + rewrite lookup_insert_ne by done. by exists c0.
Qed.

Lemma tame_insert w w' ch c c' : w_chs w !! ch = Some c → w_chs w' = <[ch := c']> (w_chs w) →
  ub_stripe_status (w_ub w') = ub_stripe_status (w_ub w) →
  w_fin w' = w_fin w → w_pend w' = w_pend w → ch_io c' `suffix_of` ch_io c →
  ring_cq (ch_ring c') ⊆ ring_cq (ch_ring c) →
  (∀ io o, SqeReadv io o ∈ ring_all (ch_ring c') → SqeReadv io o ∈ ring_all (ch_ring c) ∨
    block_status (w_ub w') (o `div` bd_blocklen (ub_bdev (w_ub w'))) ≠ STRIPE_FETCHED) →
  tame w w'.
Proof.
  intros Hc Hchs Hst Hf Hp Hio Hcq Hring. split; [|by apply calm_insert with ch c c'].
  intros ch0 c0 Hc0. rewrite Hchs. destruct (decide (ch = ch0)) as [<-|].
  - simplify_eq. exists c'. by rewrite lookup_insert_eq.
  - exists c0. by rewrite lookup_insert_ne.
Qed.

Lemma tame_ring w w' ch c c' : w_chs w !! ch = Some c → w_chs w' = <[ch := c']> (w_chs w) →
  ub_stripe_status (w_ub w') = ub_stripe_status (w_ub w) →
  w_fin w' = w_fin w → w_pend w' = w_pend w → ch_io c' `suffix_of` ch_io c →
  ch_ring c' = ch_ring c → tame w w'.
Proof.
  intros Hc Hchs Hst Hf Hp Hs Hring. apply tame_insert with ch c c'; [done..|by rewrite Hring|].
  intros io o. rewrite Hring. by left.
Qed.

Lemma block_status_statics u u' b : statics u' = statics u →
  (∀ k, ub_stripe_status u' k = STRIPE_FETCHED → ub_stripe_status u k = STRIPE_FETCHED) →
  block_status u b ≠ STRIPE_FETCHED → block_status u' b ≠ STRIPE_FETCHED.
Proof.
  intros Hs Hst Hb. unfold block_status in *. rewrite (stripe_of_statics u u') by done. auto.
Qed.

Lemma calm_trans w1 w2 w3 : statics (w_ub w3) = statics (w_ub w2) →
  calm w1 w2 → calm w2 w3 → calm w1 w3.
Proof.
  intros S2 [N1 K1 R1 W1 Q1] [N2 K2 R2 W2 Q2].
  pose proof (no_swrite_suffix _ _ N1) as Hfin. split; [by etransitivity|auto| | |].
  - intros H1 ch c3 io o Hc3 Hin. pose proof (Hfin H1) as H2.
    destruct (R2 H2 ch c3 io o Hc3 Hin) as [(c2 & Hc2 & Hin2)|Hst]; [|by right].
    destruct (R1 H1 ch c2 io o Hc2 Hin2) as [?|Hst]; [by left|right].
    destruct (statics_fields _ _ S2) as (_ & _ & _ & _ & _ & _ & ->).
    apply (block_status_statics (w_ub w2)); auto.
  - intros ch slot o n Hin. destruct (W2 _ _ _ _ Hin) as [Hin2|(c & n' & o' & res & Hc & Hq & ? & ?)].
    + by apply W1.
    + right. destruct (Q1 ch c Hc) as (c1 & Hc1 & Hsub). exists c1, n', o', res.
      split_and!; [done|by apply Hsub|done|done].
  - intros ch c3 Hc3. destruct (Q2 ch c3 Hc3) as (c2 & Hc2 & H2).
    destruct (Q1 ch c2 Hc2) as (c1 & Hc1 & H1). exists c1. split; [done|]. by etransitivity.
Qed.

#[export] Instance evolves_preorder : PreOrder evolves.
Proof.
  split.
  - intros w. split; [done|done|by apply tame_same].
  - intros w1 w2 w3 [F1 S1 [C1 T1]] [F2 S2 [C2 T2]].
    split; [by etransitivity|congruence|split; [|by eapply calm_trans]].
    intros ch c Hc. destruct (C1 ch c Hc) as (c' & Hc' & Hsuf).
    destruct (C2 ch c' Hc') as (c'' & Hc'' & Hsuf'). exists c''. split; [done|]. by etransitivity.
Qed.

Section Post.
Context {E : ext_env}.

Lemma hpost_refl fl w : inv fl w → hpost fl fl w w.
Proof. intros H. split; [done|done|]. by exists []. Qed.

Lemma hpost_trans fl1 fl2 fl3 w1 w2 w3 :
  hpost fl1 fl2 w1 w2 → hpost fl2 fl3 w2 w3 → hpost fl1 fl3 w1 w3.
Proof.
  intros [_ E1 (l1 & P1 & A1)] [I2 E2 (l2 & P2 & A2)]. split; [done|by etransitivity|].
  exists (l1 ++ l2). rewrite <-app_assoc, P2. split; [done|]. intros Ha. by rewrite A1, A2.
Qed.

(** Sequencing of two handlers. *)
Lemma wp_hpost {A B} (m : M world A) (f : A → M world B) fl1 fl2 fl3 w :
  wp m w (λ _, hpost fl1 fl2 w) →
  (∀ a w', inv fl2 w' → evolves w w' → wp (f a) w' (λ _, hpost fl2 fl3 w')) →
  wp (mbind f m) w (λ _, hpost fl1 fl3 w).
Proof.
  intros Hm Hf. apply wp_bind. eapply wp_mono; [exact Hm|]. simpl. intros a w' Hp.
  eapply wp_mono; [apply Hf; apply Hp|]. simpl. intros b w'' Hp'. by eapply hpost_trans.
Qed.

Lemma wp_post {A} (m : M world A) fl1 fl2 fl3 w w' :
  hpost fl1 fl2 w w' → wp m w' (λ _, hpost fl2 fl3 w') → wp m w' (λ _, hpost fl1 fl3 w).
Proof.
  intros Hp Hm. eapply wp_mono; [exact Hm|]. simpl. intros a w'' Hp'. by eapply hpost_trans.
Qed.

(** A change that the fetch machinery does not see. *)
Lemma hpost_quiet fl fl' w w' :
  inv fl w → iinv fl' w' → sq_readv w' → fview_of w' = fview_of w →
  statics (w_ub w') = statics (w_ub w) →
  tame w w' → ids fl' w' ≡ₚ ids fl w → hpost fl fl' w w'.
Proof.
  intros [Hf _ _] Hi Hsq Hv Hs Hch Hids. split.
  - split; [by rewrite Hv|done|done].
  - split; [by rewrite Hv|done|done].
  - by exists [].
Qed.
End Post.

(** ** Views of updated states *)

Lemma fview_set_ch w ch c c' : w_chs w !! ch = Some c → fchan_of c' = fchan_of c →
  fview_of (set_ch ch c' w) = fview_of w.
Proof.
  intros Hc Heq. unfold fview_of; simpl. f_equal. rewrite fmap_insert, Heq.
  apply insert_id. by rewrite lookup_fmap, Hc.
Qed.

Lemma fview_insert w ch c : fchan_of <$> (<[ch := c]> (w_chs w)) = <[ch := fchan_of c]> (fchan_of <$> w_chs w).
Proof. apply fmap_insert. Qed.

Lemma fview_lookup w ch c : w_chs w !! ch = Some c → fv_chs (fview_of w) !! ch = Some (fchan_of c).
Proof. intros Hc. simpl. by rewrite lookup_fmap, Hc. Qed.

Lemma sq_set_ch w ch c' : sq_readv w → (∀ e, e ∈ ring_sq (ch_ring c') → is_Some (readv_of e)) →
  sq_readv (set_ch ch c' w).
Proof.
  intros Hsq Hc' ch0 c0 e. simpl. rewrite lookup_insert. case_decide; [|by apply Hsq].
  intros [= <-]. apply Hc'.
Qed.

Lemma inv_tick fl w : inv fl w → inv fl (tick w).
Proof. by intros [? [? ? ? ? [? ? ?]] ?]. Qed.

Lemma hpost_tick {E : ext_env} fl w : inv fl w → hpost fl fl w (tick w).
Proof.
  intros Hinv. pose proof (inv_tick _ _ Hinv) as [? ? ?]. apply hpost_quiet; try done.
  by apply tame_same.
Qed.

(** ** Ranges *)

Section Ranges.
Context (u : ubi_bdev).
Hypothesis Hl : layout_ok (layout_of u).

Lemma stripe_of_block i : io_ok (layout_of u) i → ∀ b,
  io_offset_blocks i ≤ b < io_offset_blocks i + io_num_blocks i →
  0 ≤ stripe_of u b < UBI_MAX_STRIPES ∧ i32 (stripe_of u b) = stripe_of u b ∧
  stripe_index_ok (stripe_of u b) = true.
Proof.
  intros [_ Ho Hn He _] b Hb. rewrite (stripe_of_div u b Hl).
  destruct Hl as ([_ _ Hsh Hsbc _ _ _] & _ & Hmax & _). simpl in *.
  assert (Hpos : 0 < ub_stripe_block_count u) by (rewrite Hsbc; apply Z.pow_pos_nonneg; lia).
  assert (0 ≤ b `div` ub_stripe_block_count u < UBI_MAX_STRIPES).
  { split; [apply Z.div_pos; lia|]. apply Z.div_lt_upper_bound; [done|]. nia. }
  split_and!; try lia.
  - apply i32_small. unfold UBI_MAX_STRIPES in *. lia.
  - unfold stripe_index_ok. by apply andb_true_intro; split; [apply Z.leb_le|apply Z.ltb_lt]; lia.
Qed.

Lemma block_ranges i : io_ok (layout_of u) i →
  0 ≤ io_offset_blocks i + ub_data_offset_blocks u < 2 ^ 64 ∧
  0 ≤ io_offset_blocks i * bd_blocklen (ub_bdev u) < 2 ^ 64 ∧
  u64 (io_offset_blocks i + io_num_blocks i - 1) = io_offset_blocks i + io_num_blocks i - 1.
Proof.
  intros [_ Ho Hn He _]. destruct Hl as ([Hb _ _ _ _ Hd _] & _ & _ & Htot). simpl in *.
  unfold UBI_METADATA_SIZE in *.
  assert (0 < ub_data_offset_blocks u) by nia.
  assert (0 ≤ io_offset_blocks i * bd_blocklen (ub_bdev u) < 2 ^ 63) by nia.
  assert (0 ≤ io_offset_blocks i + ub_data_offset_blocks u < 2 ^ 63) by nia.
  assert (0 ≤ io_offset_blocks i + io_num_blocks i < 2 ^ 63) by nia.
  split_and!; try lia. apply u64_small. lia.
Qed.
End Ranges.

Lemma wp_stripe_status w b i (Q : stripe_status_t → world → Prop) :
  layout_ok (layout_of (w_ub w)) → io_ok (layout_of (w_ub w)) i →
  io_offset_blocks i ≤ b < io_offset_blocks i + io_num_blocks i →
  Q (block_status (w_ub w) b) w → wp (ubi_get_stripe_status (stripe_of (w_ub w) b)) w Q.
Proof.
  intros Hl Hi Hb HQ. destruct (stripe_of_block _ Hl _ Hi b Hb) as (_ & H32 & Hok).
  unfold ubi_get_stripe_status. wp_step. rewrite H32, Hok. by wp_step.
Qed.

(** * Completion and requests to the base bdev *)

Section Handlers.
Context {E : ext_env}.

Lemma inv_layout fl w : inv fl w → layout_ok (layout_of (w_ub w)).
Proof. intros [Hf _ _]. exact (fi_layout _ Hf). Qed.

Lemma inv_started fl w io : inv fl w → io ∈ fl → started w io.
Proof.
  intros [_ Hi _] Hin. apply (ii_started _ _ Hi). unfold started_ids. apply elem_of_app. by left.
Qed.

(** [spdk_bdev_io_complete] of an I/O in hand that is not a read. *)
Lemma complete_other_spec fl w io st i :
  inv (io :: fl) w → w_ios w !! io = Some i → io_type i ≠ SPDK_BDEV_IO_TYPE_READ →
  hpost (io :: fl) fl w (complete io st w).
Proof.
  intros Hinv Hi Ht. destruct (iinv_complete_other fl w io st i) as [Hi' Hids]; [apply Hinv|done..|].
  apply hpost_quiet; try done; [apply Hinv|]. by apply tame_same.
Qed.

(** A read in hand gives its place back when it is completed. *)
Lemma complete_read_spec fl w io st i c :
  let ch := uio_ch (io_driver_ctx i) in
  inv (io :: fl) w → w_ios w !! io = Some i → io_type i = SPDK_BDEV_IO_TYPE_READ →
  w_chs w !! ch = Some c →
  hpost (io :: fl) fl w
    (complete io st (set_ch ch (with_active_reads (u64 (ch_active_reads c - 1)) c) w)).
Proof.
  intros ch Hinv Hi Ht Hc.
  destruct (iinv_complete_read fl w io st i c) as [Hi' Hids]; [apply Hinv|done..|].
  apply hpost_quiet; try done.
  - eapply sq_set_ch; [apply Hinv|]. intros e. by apply (inv_sq _ _ Hinv _ _ _ Hc).
  - by apply (fview_set_ch w _ c).
  - by eapply (tame_ring w _ _ c).
Qed.

Lemma complete_io_spec fl w io b : inv (io :: fl) w →
  wp (ubi_complete_io io b) w (λ _, hpost (io :: fl) fl w).
Proof.
  intros Hinv. destruct (inv_started _ _ io Hinv) as (i & c & Hi & _ & _ & Hc); [left|].
  unfold ubi_complete_io. wp_step. case_decide as Ht.
  - repeat wp_step. by apply complete_read_spec.
  - repeat wp_step. by apply complete_other_spec with i.
Qed.

(** An accepted request of an I/O in hand. *)
Lemma pend_spec fl w io r : inv (io :: fl) w → req_io r = Some io →
  req_ok (w_ub w) (w_ios w) r →
  hpost (io :: fl) fl w (with_pend (r :: w_pend w) (tick w)).
Proof.
  intros Hinv Hr Hok. set (w' := with_pend (r :: w_pend w) (tick w)).
  assert (Hst : started_ids fl w' ≡ₚ started_ids (io :: fl) w).
  { unfold started_ids, reqs, w'; simpl. rewrite omap_app. simpl. rewrite Hr, omap_app.
    by rewrite !app_assoc, <-Permutation_middle. }
  destruct Hinv as [Hf Hi Hsq]. apply hpost_quiet; try done.
  - eapply iinv_perm; try done. destruct (ii_places _ _ Hi) as [Hb Hv Hrs]. split; try done.
    intros r'. unfold reqs, w'; simpl. rewrite elem_of_app, elem_of_cons.
    intros [?|[->|?]]; [|done|]; apply Hrs; apply elem_of_app; tauto.
  - unfold fview_of, w'; simpl. f_equal. rewrite !omap_app. f_equal. simpl. by destruct r.
  - apply tame_reqs; [done..|]. intros r'. unfold reqs, w'; simpl.
    rewrite !elem_of_app, elem_of_cons. intros [?|[->|?]]; [tauto|right; by rewrite Hr|tauto].
  - unfold ids. rewrite Hst. done.
Qed.

Lemma base_submit_spec fl w io r : inv (io :: fl) w → req_io r = Some io →
  req_ok (w_ub w) (w_ios w) r →
  wp (base_submit r) w (λ ret w',
    (ret = 0 ∧ hpost (io :: fl) fl w w') ∨
    (ret ≠ 0 ∧ w' = tick w ∧ ¬ accepts)).
Proof.
  intros Hinv Hr Hok. wp_step.
  - left. split; [done|]. by apply pend_spec.
  - right. split; [done|]. split; [done|]. intros Ha. by rewrite Ha in *.
Qed.

Lemma read_request_spec fl w io i : inv (io :: fl) w → w_ios w !! io = Some i →
  io_type i = SPDK_BDEV_IO_TYPE_READ →
  (io_offset_blocks i < ub_image_block_count (w_ub w) →
   block_status (w_ub w) (io_offset_blocks i) = STRIPE_FETCHED) →
  wp (ubi_submit_read_request io) w (λ ret w',
    (ret = 0 ∧ hpost (io :: fl) fl w w') ∨
    (ret ≠ 0 ∧ w' = tick w ∧ ¬ accepts)).
Proof.
  intros Hinv Hi Ht Hst. unfold ubi_submit_read_request. do 2 wp_step.
  destruct (inv_started _ _ io Hinv) as (i' & c & Hi' & Hok & _); [left|]. simplify_eq.
  destruct (block_ranges _ (inv_layout _ _ Hinv) _ Hok) as (? & _).
  apply base_submit_spec; try done. exists i. rewrite u64_small by done. by split_and!.
Qed.

Lemma write_request_spec fl w io i : inv (io :: fl) w → w_ios w !! io = Some i →
  io_type i = SPDK_BDEV_IO_TYPE_WRITE →
  (io_offset_blocks i < ub_image_block_count (w_ub w) →
   block_status (w_ub w) (io_offset_blocks i) = STRIPE_FETCHED) →
  wp (ubi_submit_write_request io) w (λ ret w',
    (ret = 0 ∧ hpost (io :: fl) fl w w') ∨
    (ret ≠ 0 ∧ w' = tick w ∧ ¬ accepts)).
Proof.
  intros Hinv Hi Ht Hst. unfold ubi_submit_write_request. do 2 wp_step.
  destruct (inv_started _ _ io Hinv) as (i' & c & Hi' & Hok & _); [left|]. simplify_eq.
  destruct (block_ranges _ (inv_layout _ _ Hinv) _ Hok) as (? & _).
  apply base_submit_spec; try done. exists i. rewrite u64_small by done. by split_and!.
Qed.

(** A write that the base bdev refuses is dropped. *)
Lemma lose_spec fl w io i : inv (io :: fl) w → w_ios w !! io = Some i →
  io_type i ≠ SPDK_BDEV_IO_TYPE_READ →
  inv fl w ∧ io :: ids fl w ≡ₚ ids (io :: fl) w.
Proof.
  intros [Hf Hi Hsq] Hio Ht. destruct (iinv_lose fl w io i Hi Hio Ht) as [? ?]. by split_and!.
Qed.

(** * Reads *)

(** An image read is prepared on the ring of the channel. *)
Lemma prep_readv_spec fl w io i c :
  let ch := uio_ch (io_driver_ctx i) in
  inv (io :: fl) w → w_ios w !! io = Some i → io_type i = SPDK_BDEV_IO_TYPE_READ →
  w_chs w !! ch = Some c → io_offset_blocks i < ub_image_block_count (w_ub w) →
  block_status (w_ub w) (io_offset_blocks i) ≠ STRIPE_FETCHED →
  ∀ c', ch_ring c' = ring_prep (SqeReadv io (io_offset_blocks i * bd_blocklen (ub_bdev (w_ub w)))) (ch_ring c) →
  core c' = core c → ch_queue c' = ch_queue c → ch_stripe_fetches c' = ch_stripe_fetches c →
  hpost (io :: fl) fl w (set_ch ch c' w).
Proof.
  intros ch Hinv Hi Ht Hc Himg Hnf c' Hring Hcore Hq Hsf.
  assert (Hcor : ub_copy_on_read (w_ub w) = false).
  { destruct (inv_started _ _ io Hinv) as (i' & ? & ? & _ & [_ Hready] & _); [left|]. simplify_eq.
    unfold io_ready, needs_stripe in Hready. rewrite Ht in Hready.
    destruct (ub_copy_on_read _); [by destruct Hnf; apply Hready|done]. }
  pose proof (inv_fetch _ _ Hinv) as [([Hbl _ _ _ _ _ _] & _) _ _ _]. simpl in Hbl.
  assert (Hrio : ring_ios (ch_ring c') ≡ₚ io :: ring_ios (ch_ring c)).
  { unfold ring_ios. rewrite Hring, ring_all_prep, omap_app. simpl.
    by rewrite <-Permutation_cons_append. }
  assert (Hst : started_ids fl (set_ch ch c' w) ≡ₚ started_ids (io :: fl) w).
  { unfold started_ids; simpl.
    destruct (over_chs_split (ring_ios ∘ ch_ring) (w_chs w) ch c Hc) as (r & -> & ->).
    simpl. rewrite Hrio. simpl. by rewrite <-Permutation_middle. }
  destruct Hinv as [Hf Hii Hsq]. apply hpost_quiet; try done.
  - eapply iinv_perm; try done; [by eapply cores_set_ch|].
    destruct (ii_places _ _ Hii) as [Hb Hv Hrs]. split; try done.
    intros ch0 c0 io0 o. simpl. rewrite lookup_insert. case_decide as Hd; [|by apply Hv].
    intros [= <-]. rewrite Hring, ring_all_prep, elem_of_app, list_elem_of_singleton.
    intros [Hin|[= -> ->]]; [rewrite <-Hd; by eapply Hv|]. exists i. by split_and!.
  - apply sq_set_ch; [done|]. intros e. rewrite Hring. simpl.
    rewrite elem_of_app, list_elem_of_singleton. intros [?| ->]; [by eapply Hsq|done].
  - apply fview_set_ch with c; [done|]. unfold fchan_of. rewrite Hq, Hsf, Hring, ring_all_prep, omap_app.
    simpl. by rewrite app_nil_r.
  - apply (tame_insert w _ ch c c'); [done..|by injection Hcore as -> _|by rewrite Hring|].
    intros io0 o. rewrite Hring, ring_all_prep, elem_of_app, list_elem_of_singleton.
    intros [?|[= -> ->]]; [by left|right]. simpl. rewrite Z.div_mul by lia. done.
  - unfold ids. rewrite Hst. unfold queued_ids. by rewrite (cores_set_ch w ch c c').
Qed.

Lemma get_buf_spec fl w io i success : inv (io :: fl) w → w_ios w !! io = Some i →
  io_type i = SPDK_BDEV_IO_TYPE_READ →
  wp (get_buf_for_read_cb io success) w (λ _, hpost (io :: fl) fl w).
Proof.
  intros Hinv Hi Ht. destruct (inv_started _ _ io Hinv) as (i' & c & Hi' & Hok & _ & Hc); [left|].
  simplify_eq. pose proof (inv_layout _ _ Hinv) as Hl. unfold get_buf_for_read_cb.
  destruct success; simpl; [|by apply complete_io_spec].
  do 2 wp_step. apply wp_bind. apply (wp_stripe_status _ _ i); [done..|destruct Hok; lia|].
  destruct (bool_decide _ || _) eqn:Hcond.
  - apply wp_bind. eapply wp_mono; [apply (read_request_spec fl w io i); try done|].
    { intros Himg. apply orb_true_iff in Hcond as [Hd%bool_decide_eq_true|Hle%Z.leb_le]; [done|lia]. }
    simpl. intros ret w' [[-> Hp]|(Hne & -> & Hna)]; [by apply wp_ret|].
    rewrite (proj2 (Z.eqb_neq ret 0)) by done. simpl. eapply wp_post; [by apply hpost_tick|].
    by apply complete_io_spec, inv_tick.
  - apply orb_false_iff in Hcond as [Hnf%bool_decide_eq_false Hlt%Z.leb_gt]. wp_step.
    destruct (c_true _); simpl.
    + repeat wp_step. destruct (block_ranges _ Hl _ Hok) as (_ & ? & _).
      set (c' := with_has_reads _ _).
      replace (set_ch _ c' _) with (set_ch (uio_ch (io_driver_ctx i)) c' (tick w)).
      2: { unfold set_ch, with_chs; simpl. by rewrite insert_insert_eq. }
      eapply hpost_trans; [by apply hpost_tick|].
      pose proof (inv_tick _ _ Hinv) as Ht'.
      apply (prep_readv_spec fl (tick w) io i c); try done. simpl. by rewrite u64_small.
    + eapply wp_post; [by apply hpost_tick|]. by apply complete_io_spec, inv_tick.
Qed.

Lemma io_get_buf_spec fl w io i len : inv (io :: fl) w → w_ios w !! io = Some i →
  io_type i = SPDK_BDEV_IO_TYPE_READ →
  wp (spdk_bdev_io_get_buf io len) w (λ _, hpost (io :: fl) fl w).
Proof.
  intros Hinv Hi Ht. pose proof (inv_tick _ _ Hinv) as Ht'. unfold spdk_bdev_io_get_buf. wp_step.
  case_match.
  - wp_step. simpl. set (w' := with_bufq _ _).
    assert (Hst : started_ids fl w' ≡ₚ started_ids (io :: fl) w).
    { unfold started_ids, w'; simpl. rewrite <-!Permutation_middle. done. }
    destruct Hinv as [Hf Hii Hsq]. apply hpost_quiet; try done.
    + eapply iinv_perm; try done. destruct (ii_places _ _ Hii) as [Hb Hv Hrs]. split; try done.
      intros io0. unfold w'; simpl. rewrite elem_of_cons. intros [->|?]; [by exists i|by apply Hb].
    + by apply tame_same.
    + unfold ids. by rewrite Hst.
  - eapply wp_post; [by apply hpost_tick|]. by apply get_buf_spec with i.
Qed.

(** * Flushes *)

(** Complete the I/O as failed when the base bdev refuses a request for it. *)
Lemma submit_or_fail_spec fl w io i r : inv (io :: fl) w → w_ios w !! io = Some i →
  io_type i ≠ SPDK_BDEV_IO_TYPE_READ → req_io r = Some io → req_ok (w_ub w) (w_ios w) r →
  wp (ret ← base_submit r;
      if c_true ret then spdk_bdev_io_complete io SPDK_BDEV_IO_STATUS_FAILED else mret ()) w
    (λ _, hpost (io :: fl) fl w).
Proof.
  intros Hinv Hi Ht Hr Hok. apply wp_bind. eapply wp_mono; [by apply (base_submit_spec fl w io)|].
  simpl. intros ret w' [[-> Hp]|(Hne & -> & Hna)]; [by apply wp_ret|].
  unfold c_true. rewrite (proj2 (Z.eqb_neq ret 0)) by done. simpl. wp_step.
  eapply hpost_trans; [by apply hpost_tick|].
  by apply complete_other_spec with i; [apply inv_tick|..].
Qed.

Lemma flush_request_spec fl w io i : inv (io :: fl) w → w_ios w !! io = Some i →
  io_type i = SPDK_BDEV_IO_TYPE_FLUSH →
  uio_block_offset (io_driver_ctx i) = io_offset_blocks i → uio_block_count (io_driver_ctx i) = io_num_blocks i →
  wp (ubi_submit_flush_request io) w (λ _, hpost (io :: fl) fl w).
Proof.
  intros Hinv Hi Ht Ho Hn. unfold ubi_submit_flush_request. do 2 wp_step.
  destruct (ub_no_sync _).
  - wp_step. apply complete_other_spec with i; [done..|by rewrite Ht].
  - destruct (ii_started _ _ (inv_io _ _ Hinv) io ltac:(left)) as (i' & _ & Hi' & Hok & _).
    assert (i' = i) as -> by congruence. destruct (block_ranges _ (inv_layout _ _ Hinv) _ Hok) as (? & _ & _).
    apply submit_or_fail_spec with i; [done|done|by rewrite Ht|done|]. exists i. rewrite Ho, Hn.
    by rewrite u64_small.
Qed.

Lemma free_started fl w r l io : w_fin w = r :: l → req_io r = Some io →
  started_ids (io :: fl) (with_fin l w) ≡ₚ started_ids fl w.
Proof.
  intros Hfin Hr. unfold started_ids, reqs; simpl. rewrite Hfin. simpl. rewrite Hr.
  by rewrite !app_assoc, <-Permutation_middle.
Qed.

(** A completed request is freed: its I/O is in the hands of the callback. *)
Lemma free_spec fl w r l io : inv fl w → w_fin w = r :: l → req_io r = Some io →
  hpost fl (io :: fl) w (with_fin l w).
Proof.
  intros Hinv Hfin Hr. set (w' := with_fin l w).
  pose proof (free_started fl w r l io Hfin Hr) as Hst. fold w' in Hst.
  destruct Hinv as [Hf Hi Hsq]. apply hpost_quiet; try done.
  - eapply iinv_perm; try done. destruct (ii_places _ _ Hi) as [Hb Hv Hrs]. split; try done.
    intros r' Hin. apply Hrs. unfold reqs in *. rewrite Hfin. by right.
  - unfold fview_of, w'; simpl. f_equal. rewrite Hfin. simpl. by destruct r.
  - apply tame_reqs; [done|done|rewrite Hfin; by apply suffix_cons_r|].
    unfold reqs. rewrite Hfin. intros r' Hin. left. by right.
  - unfold ids. by rewrite Hst.
Qed.

(** Changes of the bdev that leave statuses and parameters alone. *)
Lemma put_ub_spec fl w u : inv fl w → statics u = statics (w_ub w) →
  ub_stripe_status u = ub_stripe_status (w_ub w) → hpost fl fl w (with_ub u w).
Proof.
  intros Hinv Hs Hst. destruct Hinv as [Hf Hi Hsq].
  destruct (iinv_fetch fl w (with_ub u w)) as [Hi' Hids]; try done.
  { intros k. simpl. by rewrite Hst. }
  { by left. }
  apply hpost_quiet; try done.
  - unfold fview_of; simpl. rewrite Hst. f_equal. apply (statics_fields _ _ Hs).
  - by apply tame_same.
Qed.

(** The metadata fills the blocks below the data. *)
Lemma metadata_blocks_offset fl w : inv fl w →
  metadata_blocks UBI_METADATA_SIZE (w_ub w) = Some (ub_data_offset_blocks (w_ub w)).
Proof.
  intros Hinv. pose proof (inv_layout _ _ Hinv) as ([Hb _ _ _ _ Hd _] & _). simpl in *.
  unfold metadata_blocks. rewrite (proj2 (Z.eqb_neq _ 0)) by lia. f_equal.
  rewrite <-Hd, Z.div_mul by lia. apply u32_small. unfold UBI_METADATA_SIZE in Hd. nia.
Qed.

(** The flush callbacks; [r] is the request of a flush I/O. *)
Lemma flush_req fl w r l io : inv fl w → w_fin w = r :: l →
  match r with
  | RqDataFlush io' _ _ | RqMetadataWrite io' _ _ | RqMetadataFlush io' _ _ => io' = io
  | _ => False end →
  hpost fl (io :: fl) w (with_fin l w) ∧
  ∃ i, w_ios w !! io = Some i ∧ io_type i = SPDK_BDEV_IO_TYPE_FLUSH.
Proof.
  intros Hinv Hfin Hr. split; [apply free_spec with r; [done..|by destruct r; simplify_eq/=]|].
  destruct (ii_places _ _ (inv_io _ _ Hinv)) as [_ _ Hrs].
  assert (Hok : req_ok (w_ub w) (w_ios w) r) by (apply Hrs; unfold reqs; rewrite Hfin; left).
  destruct r; simplify_eq/=; try done; destruct Hok as (i & ? & ? & _); by exists i.
Qed.

Lemma data_flush_spec fl w io s n l : inv fl w → w_fin w = RqDataFlush io s n :: l →
  wp (ubi_data_flush_completion (RqDataFlush io s n) true io) w (λ _, hpost fl fl w).
Proof.
  intros Hinv Hfin. destruct (flush_req fl w _ l io Hinv Hfin eq_refl) as (Hp & i & Hi & Ht).
  unfold ubi_data_flush_completion. wp_step. eapply wp_post; [exact Hp|].
  pose proof (hp_inv _ _ _ _ Hp) as Hinv'. simpl. wp_step. case_match.
  - wp_step. apply complete_other_spec with i; [done..|by rewrite Ht].
  - pose proof (metadata_blocks_offset _ _ Hinv') as Hnb. do 3 wp_step.
    set (i' := with_driver_ctx _ _). set (w2 := set_io io i' _).
    assert (Hinv2 : inv (io :: fl) w2).
    { destruct Hinv' as [Hf Hii Hsq]. split; [done| |done]. by apply iinv_touch. }
    apply (wp_post _ (io :: fl) (io :: fl) _ _ w2).
    + apply hpost_quiet; try done; [by destruct Hinv2..|]. by apply tame_same.
    + assert (Hi2 : w_ios w2 !! io = Some i') by apply lookup_insert_eq.
      apply submit_or_fail_spec with i'; [done|done|by unfold i'; simpl; rewrite Ht|done|by exists i'].
Qed.

Lemma metadata_write_spec fl w io s n l b : inv fl w → w_fin w = RqMetadataWrite io s n :: l →
  wp (ubi_metadata_write_completion (RqMetadataWrite io s n) b io) w (λ _, hpost fl fl w).
Proof.
  intros Hinv Hfin. destruct (flush_req fl w _ l io Hinv Hfin eq_refl) as (Hp & i & Hi & Ht).
  unfold ubi_metadata_write_completion. wp_step. eapply wp_post; [exact Hp|].
  pose proof (hp_inv _ _ _ _ Hp) as Hinv'. destruct b; simpl.
  - pose proof (metadata_blocks_offset _ _ Hinv' : metadata_blocks SIZEOF_UBI_METADATA _ = _) as Hnb. do 2 wp_step.
    apply submit_or_fail_spec with i; [done|done|by rewrite Ht|done|by exists i].
  - wp_step. apply complete_other_spec with i; [done..|by rewrite Ht].
Qed.

Lemma metadata_flush_spec fl w io s n l b : inv fl w → w_fin w = RqMetadataFlush io s n :: l →
  wp (ubi_metadata_flush_completion (RqMetadataFlush io s n) b io) w (λ _, hpost fl fl w).
Proof.
  intros Hinv Hfin. destruct (flush_req fl w _ l io Hinv Hfin eq_refl) as (Hp & i & Hi & Ht).
  unfold ubi_metadata_flush_completion. wp_step. eapply wp_post; [exact Hp|].
  pose proof (hp_inv _ _ _ _ Hp) as Hinv'. destruct b; simpl.
  - do 2 wp_step. apply wp_bind.
    assert (Hc : ∀ w', hpost (io :: fl) (io :: fl) (with_fin l w) w' → w_ios w' = w_ios w →
      wp (spdk_bdev_io_complete io SPDK_BDEV_IO_STATUS_SUCCESS) w'
         (λ _, hpost (io :: fl) fl (with_fin l w))).
    { intros w' Hp' Hios. wp_step. eapply hpost_trans; [exact Hp'|].
      apply complete_other_spec with i; [by apply Hp'|by rewrite Hios|by rewrite Ht]. }
    case_match; wp_step; apply Hc; try done; [by apply put_ub_spec|by apply hpost_refl].
  - wp_step. apply complete_other_spec with i; [done..|by rewrite Ht].
Qed.
End Handlers.

(** * The dispatch loop *)

Section Dispatch.
Context {E : ext_env}.

(** The head of a queue is taken into service. *)
Lemma start_io_spec fl w w' ch c c' io rest i :
  inv fl w → w_chs w !! ch = Some c → ch_io c = io :: rest → w_ios w !! io = Some i →
  w_ub w' = w_ub w → w_bufq w' = w_bufq w → w_fin w' = w_fin w → w_pend w' = w_pend w →
  w_done w' = w_done w → w_ios w' = <[io := init_driver_ctx ch i]> (w_ios w) →
  w_chs w' = <[ch := c']> (w_chs w) → ch_io c' = rest → ch_ring c' = ch_ring c →
  ch_queue c' = ch_queue c → ch_stripe_fetches c' = ch_stripe_fetches c →
  io_ready (w_ub w) i →
  ch_active_reads c' = ch_active_reads c +
    (if decide (io_type i = SPDK_BDEV_IO_TYPE_READ) then 1 else 0) →
  ch_active_reads c' ≤ UBI_MAX_CONCURRENT_READS → hpost fl (io :: fl) w w'.
Proof.
  intros Hinv Hc Hio Hi Hu Hb Hfin Hpend Hd Hios Hchs Hio' Hring Hq Hsf Hready Hact Hle.
  destruct (iinv_queue_start fl w w' ch c c' io rest i) as [Hi' Hids]; try done.
  { apply Hinv. }
  { unfold reqs. by rewrite Hfin, Hpend. }
  apply hpost_quiet; try done; [| |by rewrite Hu|].
  - intros ch0 c0 e. rewrite Hchs. destruct (decide (ch = ch0)) as [<-|].
    + rewrite lookup_insert_eq. intros [= <-]. rewrite Hring. by apply (inv_sq _ _ Hinv ch).
    + rewrite lookup_insert_ne by done. exact (inv_sq _ _ Hinv ch0 c0 e).
  - unfold fview_of. rewrite Hu, Hchs, Hfin, Hpend, fview_insert. f_equal. apply insert_id.
    rewrite lookup_fmap, Hc. simpl. unfold fchan_of. by rewrite Hring, Hq, Hsf.
  - apply (tame_ring w w' ch c c'); [done|done|by rewrite Hu|done|done| |done].
    rewrite Hio. subst rest. by apply suffix_cons_r.
Qed.

(** What the poller checked before it services a request. *)
Definition servable (w : world) (c : ubi_io_channel) (i : spdk_bdev_io) : Prop :=
  (io_type i = SPDK_BDEV_IO_TYPE_READ → ch_active_reads c < UBI_MAX_CONCURRENT_READS) ∧
  io_ready (w_ub w) i.

Lemma io_verdict_spec fl w ch c io i (Q : verdict → world → Prop) :
  inv fl w → w_chs w !! ch = Some c → io ∈ ch_io c → w_ios w !! io = Some i →
  (servable w c i → Q VServe w) → Q VFail w → Q VWait w → wp (io_verdict c i) w Q.
Proof.
  intros Hinv Hc Hin Hi HS HF HW.
  destruct (ii_queued _ _ (inv_io _ _ Hinv) ch c io Hc Hin) as (i' & Hi' & Hok & _). simplify_eq.
  unfold io_verdict. wp_step.
  destruct (bool_decide (io_type i = SPDK_BDEV_IO_TYPE_READ) &&
    (UBI_MAX_CONCURRENT_READS <=? ch_active_reads c)) eqn:Hfull; [by wp_step|].
  assert (Hact : io_type i = SPDK_BDEV_IO_TYPE_READ → ch_active_reads c < UBI_MAX_CONCURRENT_READS).
  { intros Ht. rewrite bool_decide_eq_true_2 in Hfull by done. simpl in Hfull. by apply Z.leb_gt. }
  case_match eqn:Hcond.
  - apply wp_bind, (wp_stripe_status _ _ i); [by eapply inv_layout|done|destruct Hok; lia|].
    destruct (block_status _ _) eqn:Hst; try by wp_step.
    + case_match eqn:Hor; wp_step; [done|]. apply HS. split; [done|].
      apply orb_false_iff in Hor as [Hr%negb_false_iff%bool_decide_eq_true Hcor].
      unfold io_ready, needs_stripe. by rewrite Hr, Hcor.
    + wp_step. apply HS. split; [done|by intros ? ?].
  - wp_step. apply HS. split; [done|]. apply andb_false_iff in Hcond.
    destruct Hcond as [Hf%negb_false_iff%bool_decide_eq_true|Hge%Z.ltb_ge]; intros Hn ?; [|lia].
    unfold needs_stripe in Hn. by rewrite Hf in Hn.
Qed.

(** The service of an I/O in hand of a channel whose queue is [rest]. *)
Lemma served {A} (m : M world A) fl w w2 ch c2 io :
  hpost fl (io :: fl) w w2 → w_chs w2 !! ch = Some c2 →
  wp m w2 (λ _, hpost (io :: fl) fl w2) →
  wp m w2 (λ _ w', hpost fl fl w w' ∧
    ∃ c', w_chs w' !! ch = Some c' ∧ ch_io c' `suffix_of` ch_io c2).
Proof.
  intros Hp Hc2 Hm. eapply wp_mono; [exact Hm|]. simpl. intros _ w' Hp'. split.
  - by eapply hpost_trans.
  - apply (ev_chs _ _ (hp_evolves _ _ _ _ Hp') ch c2 Hc2).
Qed.

Lemma service_io_spec fl w ch c io rest i :
  inv fl w → w_chs w !! ch = Some c → ch_io c = io :: rest → w_ios w !! io = Some i →
  servable w c i →
  wp (service_io ch io) (set_ch ch (with_io rest c) w) (λ _ w', hpost fl fl w w' ∧
    ∃ c', w_chs w' !! ch = Some c' ∧ ch_io c' `suffix_of` rest).
Proof.
  intros Hinv Hc Hio Hi [Hact Hwr]. unfold service_io. do 2 wp_step.
  set (i' := init_driver_ctx ch i).
  destruct (ii_reads _ _ (inv_io _ _ Hinv) ch c Hc) as [Ha Hle].
  assert (Hrange : 0 ≤ ch_active_reads c) by lia.
  unfold UBI_MAX_CONCURRENT_READS in *.
  assert (Hstart : io_type i ≠ SPDK_BDEV_IO_TYPE_READ →
    ∀ c', core c' = (rest, ch_active_reads c) → ch_ring c' = ch_ring c →
      ch_queue c' = ch_queue c → ch_stripe_fetches c' = ch_stripe_fetches c →
      ∀ w', w_chs w' = <[ch := c']> (w_chs w) → w' = with_chs (w_chs w') (set_io io i' w) →
      hpost fl (io :: fl) w w').
  { intros Ht c' Hcore ? ? ? w' Hw' ->. injection Hcore as ? Hac.
    apply (start_io_spec fl w _ ch c c' io rest i); try done; rewrite Hac; [|done].
    rewrite decide_False by done. lia. }
  assert (Hi' : ∀ w', w_ios w' = <[io := i']> (w_ios w) → w_ios w' !! io = Some i').
  { intros w' ->. apply lookup_insert_eq. }
  set (w1 := set_io io i' (set_ch ch (with_io rest c) w)).
  assert (Hc1 : w_chs w1 !! ch = Some (with_io rest c)) by apply lookup_insert_eq.
  assert (Hother : io_type i ≠ SPDK_BDEV_IO_TYPE_READ → hpost fl (io :: fl) w w1)
    by by intros Ht; apply (Hstart Ht (with_io rest c)).
  assert (Hfail : io_type i ≠ SPDK_BDEV_IO_TYPE_READ →
    wp (spdk_bdev_io_complete io SPDK_BDEV_IO_STATUS_FAILED) w1 (λ _, hpost (io :: fl) fl w1)).
  { intros Ht. wp_step. apply complete_other_spec with i'; [by apply Hother|by apply Hi'|done]. }
  assert (Hunsupported : io_type i ≠ SPDK_BDEV_IO_TYPE_READ →
    wp (spdk_bdev_io_complete io SPDK_BDEV_IO_STATUS_FAILED) w1 (λ _ w', hpost fl fl w w' ∧
      ∃ c', w_chs w' !! ch = Some c' ∧ ch_io c' `suffix_of` rest)).
  { intros Ht. by apply (served _ fl w w1 ch (with_io rest c) io); [apply Hother| |apply Hfail]. }
  destruct (io_type i) eqn:Ht; [| | |by apply Hunsupported..].
  - do 3 wp_step. set (c2 := with_blocks_read _ _). set (w2 := set_ch ch c2 (set_ch _ _ _)).
    assert (Hp : hpost fl (io :: fl) w w2).
    { apply (start_io_spec fl w w2 ch c c2 io rest i); try done.
      - unfold w2; simpl. by rewrite !insert_insert_eq.
      - rewrite decide_True by done. simpl. apply u64_small. lia.
      - specialize (Hact eq_refl). simpl. unfold UBI_MAX_CONCURRENT_READS. rewrite u64_small; lia. }
    apply (served _ fl w w2 ch c2 io); [done|apply lookup_insert_eq|].
    apply io_get_buf_spec with i'; [apply Hp|by apply Hi'|done].
  - wp_step. set (c2 := with_blocks_written _ _). set (w2 := set_ch ch c2 _).
    assert (Hp : hpost fl (io :: fl) w w2).
    { apply (Hstart ltac:(done) c2); try done. unfold w2; simpl. by rewrite !insert_insert_eq. }
    apply (served _ fl w w2 ch c2 io); [done|apply lookup_insert_eq|].
    assert (Hi2 : w_ios w2 !! io = Some i') by by apply Hi'.
    apply wp_bind. eapply wp_mono; [apply (write_request_spec fl w2 io i'); [apply Hp|done..|]|].
    { apply Hwr. unfold needs_stripe. simpl. by rewrite Ht. }
    simpl. intros ret w' [[-> Hp']|(Hne & -> & Hna)]; wp_step; [done|].
    destruct (lose_spec fl (tick w2) io i') as [? Hids];
      [apply inv_tick, Hp|done|by unfold i'; simpl; rewrite Ht|].
    destruct (hpost_tick (io :: fl) w2 (hp_inv _ _ _ _ Hp)) as [_ Hev _].
    split; [done|done|]. exists [io]. by rewrite <-Hids.
  - apply (served _ fl w w1 ch (with_io rest c) io); [by apply Hother|done|].
    apply flush_request_spec with i'; [by apply Hother|by apply Hi'|done..].
Qed.

(** The loop ends within the fuel the poller gives it. *)
Lemma process_ios_spec fuel ch : ∀ fl w c,
  inv fl w → w_chs w !! ch = Some c → (length (ch_io c) < fuel)%nat →
  wp (process_ios fuel ch) w (λ _, hpost fl fl w).
Proof.
  induction fuel as [|fuel IH]; intros fl w c Hinv Hc Hlen; [lia|]. cbn [process_ios].
  wp_step. destruct (ch_io c) as [|io rest] eqn:Hio; [wp_step; by apply hpost_refl|].
  assert (Hin : io ∈ ch_io c) by (rewrite Hio; left).
  destruct (ii_queued _ _ (inv_io _ _ Hinv) ch c io Hc Hin) as (i & Hi & _).
  wp_step. simpl in Hlen.
  assert (Hnext : ∀ w', hpost fl fl w w' → (∃ c', w_chs w' !! ch = Some c' ∧ ch_io c' `suffix_of` rest) →
    wp (process_ios fuel ch) w' (λ _, hpost fl fl w)).
  { intros w' Hp (c' & Hc' & Hsuf%suffix_length). eapply wp_post; [exact Hp|].
    eapply IH; [apply Hp|done|lia]. }
  apply wp_bind, (io_verdict_spec fl w ch c io i); try done.
  - intros Hs. wp_step.
    apply wp_bind. eapply wp_mono; [by apply (service_io_spec fl w ch c io rest i)|].
    simpl. intros [] w' [Hp Hq]. by apply Hnext.
  - do 2 wp_step.
    destruct (iinv_queue_fail fl w ch c io rest SPDK_BDEV_IO_STATUS_FAILED) as [Hi' Hids];
      [apply Hinv|done..|].
    assert (Hsuf : ch_io (with_io rest c) `suffix_of` ch_io c)
      by (rewrite Hio; by apply suffix_cons_r).
    apply Hnext; [|exists (with_io rest c); split; [apply lookup_insert_eq|done]].
    apply hpost_quiet; try done.
    + eapply sq_set_ch; [apply Hinv|]. intros e. by apply (inv_sq _ _ Hinv _ _ _ Hc).
    + by apply (fview_set_ch w _ c).
    + by eapply (tame_ring w _ _ c).
  - wp_step. by apply hpost_refl.
Qed.
End Dispatch.

(** * The fetch machinery *)

Section FetchArith.
Context (u : ubi_bdev) (k : Z).
Hypothesis Hl : layout_ok (layout_of u).
Hypothesis Hk : image_stripe (layout_of u) k.

Lemma fetch_range : 0 ≤ fetch_offset (layout_of u) k ∧
  fetch_offset (layout_of u) k + UBI_METADATA_SIZE < 2 ^ 63.
Proof.
  destruct Hl as ([Hb Hkb Hsh Hsbc Hbytes Hd _] & Himg & _ & Htot). destruct Hk as [Hk0 Hk1].
  unfold fetch_offset. simpl in *. rewrite <-Hbytes.
  assert (0 < ub_stripe_block_count u) by (rewrite Hsbc; apply Z.pow_pos_nonneg; lia).
  split; [apply Z.mul_nonneg_nonneg; nia|]. nia.
Qed.

Lemma stripe_offset_image : stripe_offset u k = Some (fetch_offset (layout_of u) k).
Proof.
  pose proof fetch_range as [H0 H1]. unfold UBI_METADATA_SIZE in H1. unfold stripe_offset.
  change (ub_stripe_size_kb u * 1024 * k) with (fetch_offset (layout_of u) k).
  rewrite (proj2 (Z.ltb_lt _ _)) by lia. by rewrite u64_small by lia.
Qed.

Lemma stripe_nbytes_layout : stripe_nbytes u = fetch_bytes (layout_of u).
Proof.
  destruct Hl as ([_ Hkb _ _ _ _ _] & _). unfold stripe_nbytes, fetch_bytes. simpl in *.
  unfold UBI_STRIPE_SIZE_MAX, UBI_STRIPE_SIZE_MIN in Hkb. apply u32_small. lia.
Qed.

Lemma write_offset_image : u64 (fetch_offset (layout_of u) k + UBI_METADATA_SIZE) =
  fetch_offset (layout_of u) k + UBI_METADATA_SIZE.
Proof. pose proof fetch_range. apply u64_small. unfold UBI_METADATA_SIZE in *. lia. Qed.

Lemma image_stripe_index : i32 k = k ∧ u32 k = k ∧ stripe_index_ok k = true.
Proof.
  pose proof (image_stripe_range _ _ Hl Hk) as Hr. unfold UBI_MAX_STRIPES in Hr. split_and!.
  - apply i32_small. lia.
  - apply u32_small. lia.
  - unfold stripe_index_ok, UBI_MAX_STRIPES. apply andb_true_intro.
    split; [apply Z.leb_le|apply Z.ltb_lt]; lia.
Qed.
End FetchArith.

(** A status other than fetched makes no stripe fetched. *)
Lemma set_status_fetched k k' st u : st ≠ STRIPE_FETCHED →
  ub_stripe_status (set_status k st u) k' = STRIPE_FETCHED → ub_stripe_status u k' = STRIPE_FETCHED.
Proof.
  intros Hst. replace (ub_stripe_status (set_status k st u)) with (<[k := st]> (ub_stripe_status u)).
  2: { by destruct st. }
  destruct (decide (k = k')) as [<-|]; [by rewrite fn_lookup_insert|by rewrite fn_lookup_insert_ne].
Qed.

Section FetchSpecs.
Context {E : ext_env}.

(** A move of the fetch machinery. *)
Lemma hpost_fetch fl w w' :
  inv fl w → rtc fstep (fview_of w) (fview_of w') → statics (w_ub w') = statics (w_ub w) →
  sq_readv w' → w_ios w' = w_ios w → w_bufq w' = w_bufq w → w_done w' = w_done w →
  cview <$> w_chs w' = cview <$> w_chs w → omap req_io (reqs w') = omap req_io (reqs w) →
  (∀ r, r ∈ reqs w' → r ∈ reqs w ∨ req_io r = None) →
  w_fin w' `suffix_of` w_fin w →
  (∀ k, no_swrite w → ub_stripe_status (w_ub w') k = STRIPE_FETCHED →
    ub_stripe_status (w_ub w) k = STRIPE_FETCHED) →
  swrites_new w w' →
  (∀ ch c', w_chs w' !! ch = Some c' →
    ∃ c, w_chs w !! ch = Some c ∧ ring_cq (ch_ring c') ⊆ ring_cq (ch_ring c)) →
  hpost fl fl w w'.
Proof.
  intros [Hf Hi Hsq] Hsteps Hs Hsq' Hios Hbq Hd Hcv Hrq Hreq Hfin Hfetched Hsw Hcq.
  destruct (iinv_fetch fl w w') as [Hi' Hids]; try done.
  { intros k. by apply (fsteps_status (fview_of w) (fview_of w')). }
  split.
  - split; [by eapply fsteps_finv|done|done].
  - split; [done|done|split; [|split; [done|done| |done|done]]].
    + intros ch c Hc. symmetry in Hcv.
      destruct (cview_lookup _ _ _ _ Hcv Hc) as (c' & Hc' & [= Heq _ _]). exists c'. by rewrite Heq.
    + intros _ ch c io o Hc Hin. destruct (cview_lookup _ _ _ _ Hcv Hc) as (c' & Hc' & [= _ _ Heq]).
      left. exists c'. split; [done|]. rewrite readv_pair_elem in *. by rewrite <-Heq.
  - exists []. by rewrite Hids.
Qed.

Lemma cview_insert w ch c c' : w_chs w !! ch = Some c → cview c' = cview c →
  cview <$> (<[ch := c']> (w_chs w)) = cview <$> w_chs w.
Proof. intros Hc Heq. rewrite fmap_insert, Heq. apply insert_id. by rewrite lookup_fmap, Hc. Qed.

Lemma inv_chan fl w ch c : inv fl w → w_chs w !! ch = Some c →
  chan_ok (fview_of w) ch (fchan_of c).
Proof. intros [Hf _ _] Hc. by apply (fi_chan _ Hf), fview_lookup. Qed.

Lemma swrites_same w w' : w_fin w' `suffix_of` w_fin w → w_pend w' = w_pend w → swrites_new w w'.
Proof.
  intros [l Hf] Hp ch slot o n Hin. left. unfold reqs in *. rewrite Hf, <-app_assoc, <-Hp.
  apply elem_of_app. by right.
Qed.

Lemma cq_insert w w' ch c c' : w_chs w !! ch = Some c → w_chs w' = <[ch := c']> (w_chs w) →
  ring_cq (ch_ring c') ⊆ ring_cq (ch_ring c) → ∀ ch0 c0, w_chs w' !! ch0 = Some c0 →
  ∃ c1, w_chs w !! ch0 = Some c1 ∧ ring_cq (ch_ring c0) ⊆ ring_cq (ch_ring c1).
Proof.
  intros Hc Hchs Hcq ch0 c0. rewrite Hchs. destruct (decide (ch = ch0)) as [<-|].
  - rewrite lookup_insert_eq. intros [= <-]. by exists c.
  - rewrite lookup_insert_ne by done. by exists c0.
Qed.

(** The effect of starting a fetch when the ring has room and takes it. *)
Lemma start_fetch_wp `{!env_ok E} w ch c slot s o Q :
  w_chs w !! ch = Some c → ch_stripe_fetches c !! slot = Some s →
  stripe_offset (w_ub w) (sf_stripe_idx s) = Some o →
  Z.of_nat (length (ring_sq (ch_ring c))) < UBI_URING_QUEUE_SIZE →
  (∀ c' n, core c' = core c → ch_queue c' = ch_queue c →
     ch_stripe_fetches c' =
       <[slot := with_buf_aligned (aligned_buf (ub_alignment_bytes (w_ub w)) (sf_buf s)) s]>
         (ch_stripe_fetches c) →
     ring_sq (ch_ring c') = [] → ring_cq (ch_ring c') = ring_cq (ch_ring c) →
     ring_all (ch_ring c') = ring_all (ch_ring c) ++ [SqeRead slot (stripe_nbytes (w_ub w)) o] →
     Q () (with_tick n (set_ch ch c' w))) →
  wp (ubi_start_fetch_stripe ch slot) w Q.
Proof.
  intros Hc Hs Ho Hroom HQ.
  assert (Hsqe : c_true (ext_result w (CallGetSqe ch)) = true).
  { apply negb_true_iff, Z.eqb_neq. by eapply env_get_sqe. }
  unfold ubi_start_fetch_stripe. do 5 wp_step. rewrite Hsqe.
  wp_step. set (e := SqeRead _ _ _).
  set (c2 := with_ring (ring_prep e _) _). set (w2 := set_ch ch c2 _).
  assert (Hc2 : w_chs w2 !! ch = Some c2) by apply lookup_insert_eq.
  apply wp_bind, wp_uring_submit with c2; [done| |].
  - intros Hneg. assert (0 ≤ ext_result w2 (CallUringSubmit ch)); [|lia].
    apply (env_submit_fetch w2 ch c2 slot (stripe_nbytes (w_ub w)) o Hc2). simpl.
    rewrite elem_of_app, list_elem_of_singleton. by right.
  - intros Hpos. rewrite (proj2 (Z.ltb_ge _ _)) by lia. wp_step.
    rewrite (env_submit w2 ch c2 Hc2 Hpos), Nat2Z.id.
    set (c3 := with_ring _ _).
    replace (set_ch ch c3 (tick w2)) with (with_tick (S (w_tick w2)) (set_ch ch c3 w)).
    2: { unfold set_ch, with_chs, with_tick; simpl. by rewrite !insert_insert_eq. }
    apply HQ; try done.
    + simpl. by rewrite drop_all.
    + unfold c3; simpl. by rewrite ring_all_submit, ring_all_prep.
Qed.

(** One round of the loop that starts fetches. *)
Lemma start_one `{!env_ok E} fl w ch c slot s k l (K : M world unit) Q :
  inv fl w → w_chs w !! ch = Some c → queue_list (ch_queue c) = k :: l →
  ch_stripe_fetches c !! slot = Some s → sf_active s = false →
  (∀ w' c' s', hpost fl fl w w' → w_chs w' !! ch = Some c' →
     ch_stripe_fetches c' = <[slot := s']> (ch_stripe_fetches c) → wp K w' Q) →
  wp (stripe_idx ← dequeue_stripe ch;
      upd_slot ch slot (with_sf_start (u32 stripe_idx));;
      ubi_start_fetch_stripe ch slot;;
      upd_ch ch (λ c, with_ch_stripes_fetched (u64 (ch_stripes_fetched c + 1)) c);; K) w Q.
Proof.
  intros Hinv Hc Hq Hs Ha HK. pose proof (inv_chan _ _ _ _ Hinv Hc) as Hok.
  pose proof (inv_layout _ _ Hinv) as Hl.
  destruct (co_held _ _ _ Hok k) as [Himg _].
  { unfold held. simpl. rewrite Hq. left. }
  destruct (image_stripe_index _ _ Hl Himg) as (H32 & Hu32 & _).
  destruct (queue_pop_list _ _ _ (co_queue _ _ _ Hok) Hq) as [Hpop _].
  change (fc_queue (fchan_of c)) with (ch_queue c) in Hpop.
  apply wp_bind. apply dequeue_stripe_wp with c; [done|exact (co_queue _ _ _ Hok)|].
  rewrite Hpop, H32, Hu32.
  wp_step. set (c1 := with_stripe_fetches _ _). set (w1 := set_ch ch c1 _).
  assert (Hlen := lookup_lt_Some _ _ _ Hs).
  apply wp_bind, start_fetch_wp with c1 (with_sf_start k s) (fetch_offset (layout_of (w_ub w)) k).
  { apply lookup_insert_eq. }
  { by apply list_lookup_insert_eq. }
  { by apply stripe_offset_image. }
  { pose proof (sq_bound fl w ch c (inv_io _ _ Hinv) (inv_sq _ _ Hinv) Hc).
    unfold UBI_MAX_CONCURRENT_READS, UBI_URING_QUEUE_SIZE in *. simpl. lia. }
  intros c2 n Hcore Hq2 Hsf Hsq Hcq Hring. simpl in Hsf. rewrite list_insert_insert_eq in Hsf.
  wp_step. set (c3 := with_ch_stripes_fetched _ c2).
  set (s' := with_buf_aligned _ _) in Hsf.
  assert (Hring' : ring_all (ch_ring c3) = ring_all (ch_ring c) ++
    [SqeRead slot (fetch_bytes (layout_of (w_ub w))) (fetch_offset (layout_of (w_ub w)) k)]).
  { rewrite <-(stripe_nbytes_layout (w_ub w) Hl). exact Hring. }
  set (w3 := set_ch ch c3 _).
  assert (Hchs : w_chs w3 = <[ch := c3]> (w_chs w)) by (unfold w3; simpl; by rewrite !insert_insert_eq).
  eapply HK with (s' := s'); [|apply lookup_insert_eq|done].
  apply hpost_fetch; try done.
  - apply rtc_once. unfold fview_of at 2. rewrite Hchs, fview_insert.
    assert (Hfc : fchan_of c3 = mk_fchan (queue_pop (ch_queue c)).2
      (<[slot := s']> (ch_stripe_fetches c)) (fc_ring (fchan_of c) ++
       [(slot, fetch_bytes (layout_of (w_ub w)), fetch_offset (layout_of (w_ub w)) k)])).
    { unfold fchan_of. rewrite Hring', omap_app. simpl. f_equal; [exact Hq2|exact Hsf]. }
    rewrite Hfc. eapply (fs_start (fview_of w) ch (fchan_of c) slot s s' k l); try done.
    by apply fview_lookup.
  - intros ch0 c0 e. rewrite Hchs. destruct (decide (ch = ch0)) as [<-|].
    + rewrite lookup_insert_eq. intros [= <-]. simpl. rewrite Hsq. by intros ?%not_elem_of_nil.
    + rewrite lookup_insert_ne by done. exact (inv_sq _ _ Hinv ch0 c0 e).
  - rewrite Hchs. apply cview_insert with c; [done|]. unfold cview. rewrite Hring', omap_app. simpl.
    rewrite app_nil_r. injection Hcore as -> ->. done.
  - by left.
  - by apply swrites_same.
  - eapply cq_insert; [done..|]. simpl. by rewrite Hcq.
Qed.

(** The slots handed to the loop are distinct idle slots. *)
Lemma start_fetches_spec `{!env_ok E} ch free : ∀ fl w c,
  inv fl w → w_chs w !! ch = Some c → NoDup free →
  (∀ slot, slot ∈ free → ∃ s, ch_stripe_fetches c !! slot = Some s ∧ sf_active s = false) →
  wp (start_fetches ch free) w (λ _, hpost fl fl w).
Proof.
  induction free as [|slot free IH]; intros fl w c Hinv Hc Hnd Hfree; cbn [start_fetches].
  { wp_step. by apply hpost_refl. }
  apply NoDup_cons in Hnd as [Hnotin Hnd].
  unfold stripe_queue_empty. do 2 wp_step. destruct (queue_empty (ch_queue c)) eqn:Hemp.
  { wp_step. by apply hpost_refl. }
  destruct (queue_list (ch_queue c)) as [|k l] eqn:Hq.
  { apply queue_empty_list in Hq; [congruence|]. exact (co_queue _ _ _ (inv_chan _ _ _ _ Hinv Hc)). }
  destruct (Hfree slot) as (s & Hs & Ha); [left|].
  eapply (start_one fl w ch c slot s k l); try done. intros w' c' s' Hp Hc' Hsf.
  eapply wp_post; [exact Hp|]. eapply IH; [apply Hp|done|done|].
  intros slot' Hin. destruct (Hfree slot') as (s0 & ? & ?); [by right|]. exists s0.
  rewrite Hsf, list_lookup_insert_ne; [done|]. by intros ->.
Qed.

Lemma free_stripe_fetches_elem l : ∀ i slot, slot ∈ free_stripe_fetches i l →
  (i ≤ slot)%nat ∧ ∃ s, l !! (slot - i)%nat = Some s ∧ sf_active s = false.
Proof.
  induction l as [|s l IH]; intros i slot; simpl; [by intros ?%not_elem_of_nil|].
  assert (Hrec : slot ∈ free_stripe_fetches (S i) l → (i ≤ slot)%nat ∧
    ∃ s0, (s :: l) !! (slot - i)%nat = Some s0 ∧ sf_active s0 = false).
  { intros (Hle & s0 & Hs0 & ?)%IH. split; [lia|]. exists s0.
    replace (slot - i)%nat with (S (slot - S i)) by lia. done. }
  destruct (sf_active s) eqn:Ha; [done|]. rewrite elem_of_cons. intros [->|?]; [|by apply Hrec].
  split; [lia|]. exists s. by rewrite Nat.sub_diag.
Qed.

Lemma free_stripe_fetches_nodup l : ∀ i, NoDup (free_stripe_fetches i l).
Proof.
  induction l as [|s l IH]; intros i; simpl; [constructor|].
  destruct (sf_active s); [done|]. constructor; [|done].
  intros [? _]%free_stripe_fetches_elem. lia.
Qed.

(** * Completions of the image file *)

Lemma fail_fetch_wp w ch c slot s k Q :
  w_chs w !! ch = Some c → ch_stripe_fetches c !! slot = Some s → sf_stripe_idx s = k →
  i32 k = k → stripe_index_ok k = true →
  Q () (set_ch ch (with_stripe_fetches (<[slot := with_active false s]> (ch_stripe_fetches c)) c)
          (with_ub (set_status k STRIPE_FAILED (w_ub w)) w)) →
  wp (ubi_fail_stripe_fetch ch slot) w Q.
Proof.
  intros Hc Hs Hk H32 Hok HQ. unfold ubi_fail_stripe_fetch, ubi_set_stripe_status.
  wp_step. wp_step. rewrite Hk, H32, Hok. do 2 wp_step. done.
Qed.

(** A slot with an entry on the ring. *)
Lemma ring_slot fl w ch c slot n o res cq :
  inv fl w → w_chs w !! ch = Some c → ring_cq (ch_ring c) = (SqeRead slot n o, res) :: cq →
  fc_ring (fchan_of c) = (slot, n, o) :: omap fetch_of (ring_all (ring_seen (ch_ring c))) ∧
  ∃ s, ch_stripe_fetches c !! slot = Some s ∧ sf_op s = UBI_STRIPE_FETCH ∧
    image_stripe (layout_of (w_ub w)) (sf_stripe_idx s) ∧
    o = fetch_offset (layout_of (w_ub w)) (sf_stripe_idx s).
Proof.
  intros Hinv Hc Hcq. pose proof (inv_chan _ _ _ _ Hinv Hc) as Hok.
  assert (Hring : fc_ring (fchan_of c) =
    (slot, n, o) :: omap fetch_of (ring_all (ring_seen (ch_ring c)))).
  { simpl. by rewrite (ring_all_seen _ _ _ _ Hcq). }
  split; [done|].
  assert (Hin : (slot, n, o) ∈ fc_ring (fchan_of c)) by (rewrite Hring; left).
  destruct (co_ring _ _ _ Hok _ _ _ Hin) as (s & Hs & _ & Ho). exists s.
  assert (Ha : sf_active s = true).
  { eapply outstanding_active; [done..|]. by eapply outstanding_pos_ring. }
  split_and!; [done|by eapply (co_op _ _ _ Hok)| |done].
  apply (co_held _ _ _ Hok). by eapply held_active.
Qed.

Lemma sq_readv_insert w w' ch c c' : sq_readv w → w_chs w !! ch = Some c →
  w_chs w' = <[ch := c']> (w_chs w) → ring_sq (ch_ring c') = ring_sq (ch_ring c) → sq_readv w'.
Proof.
  intros Hsq Hc Hchs Heq ch0 c0 e. rewrite Hchs. destruct (decide (ch = ch0)) as [<-|].
  - rewrite lookup_insert_eq. intros [= <-]. rewrite Heq. by apply (Hsq ch).
  - rewrite lookup_insert_ne by done. exact (Hsq ch0 c0 e).
Qed.

(** A fetch that ends in failure, in any state that differs from [w] only in
    the channel, the status and the call counter. *)
Lemma read_fail_post fl w w' ch c c' slot n o res cq s :
  inv fl w → w_chs w !! ch = Some c → ring_cq (ch_ring c) = (SqeRead slot n o, res) :: cq →
  ch_stripe_fetches c !! slot = Some s →
  w_chs w' = <[ch := c']> (w_chs w) →
  w_ub w' = set_status (sf_stripe_idx s) STRIPE_FAILED (w_ub w) →
  w_ios w' = w_ios w → w_bufq w' = w_bufq w → w_done w' = w_done w →
  w_fin w' = w_fin w → w_pend w' = w_pend w →
  c' = with_ring (ring_seen (ch_ring c))
         (with_stripe_fetches (<[slot := with_active false s]> (ch_stripe_fetches c)) c) →
  hpost fl fl w w'.
Proof.
  intros Hinv Hc Hcq Hs Hchs Hub Hios Hbq Hd Hfin Hpend Hc'.
  destruct (ring_slot _ _ _ _ _ _ _ _ _ Hinv Hc Hcq) as (Hring & _).
  apply hpost_fetch; try done.
  - apply rtc_once. unfold fview_of at 2. rewrite Hchs, fview_insert, Hfin, Hpend, Hub.
    subst c'. eapply (fs_read_fail (fview_of w) ch (fchan_of c) slot s n o); [|done|by rewrite Hring].
    by apply fview_lookup.
  - by rewrite Hub.
  - eapply sq_readv_insert; [apply Hinv|done|done|by subst c'].
  - rewrite Hchs. apply cview_insert with c; [done|]. subst c'. unfold cview; simpl.
    by rewrite (ring_all_seen _ _ _ _ Hcq).
  - unfold reqs. by rewrite Hfin, Hpend.
  - unfold reqs. rewrite Hfin, Hpend. by left.
  - by rewrite Hfin.
  - intros k _. rewrite Hub. by apply set_status_fetched.
  - apply swrites_same; [by rewrite Hfin|done].
  - eapply cq_insert; [done..|]. subst c'. simpl. rewrite Hcq. intros x Hx. by right.
Qed.

Lemma cqe_fetch_spec fl w ch c slot n o res cq (K : Z → M world Z) Q :
  inv fl w → w_chs w !! ch = Some c → ring_cq (ch_ring c) = (SqeRead slot n o, res) :: cq →
  (∀ ret w' c', hpost fl fl w w' → w_chs w' !! ch = Some c' →
     ch_ring c' = ring_seen (ch_ring c) → wp (K ret) w' Q) →
  wp (ret ← handle_cqe ch (SqeRead slot n o) res; io_uring_cqe_seen ch;; K ret) w Q.
Proof.
  intros Hinv Hc Hcq HK.
  destruct (ring_slot _ _ _ _ _ _ _ _ _ Hinv Hc Hcq) as (Hring & s & Hs & Hop & Himg & Ho).
  pose proof (inv_layout _ _ Hinv) as Hl.
  destruct (image_stripe_index _ _ Hl Himg) as (H32 & _ & Hidx).
  assert (Hfail : ∀ w0, w_chs w0 = w_chs w → w_ub w0 = w_ub w → w_ios w0 = w_ios w →
    w_bufq w0 = w_bufq w → w_done w0 = w_done w → w_fin w0 = w_fin w → w_pend w0 = w_pend w →
    wp (ubi_fail_stripe_fetch ch slot;; mret (-1)) w0
       (λ ret w', wp (io_uring_cqe_seen ch;; K ret) w' Q)).
  { intros w0 H1 H2 H3 H4 H5 H6 H7. apply wp_bind.
    apply fail_fetch_wp with c s (sf_stripe_idx s); try done; [by rewrite H1|].
    wp_step. wp_step. set (c' := with_ring _ _). eapply HK; [|apply lookup_insert_eq|done].
    eapply read_fail_post; try done; simpl; rewrite ?insert_insert_eq, ?H1, ?H2; done. }
  unfold handle_cqe, ubi_complete_fetch_stripe. apply wp_bind. wp_step. rewrite Hop.
  do 3 wp_step. { by apply stripe_offset_image. }
  rewrite (write_offset_image _ _ Hl Himg), (stripe_nbytes_layout _ Hl).
  case_match; [by apply Hfail|].
  apply wp_bind, wp_base_submit; intros Hret.
  - rewrite Z.eqb_refl. cbn [negb]. wp_step. wp_step.
    set (c' := with_ring _ _). set (w' := set_ch ch c' _).
    eapply HK; [|apply lookup_insert_eq|done]. apply hpost_fetch; try done.
    + eapply rtc_l; [|apply rtc_once].
      * eapply (fs_read_ok (fview_of w) ch (fchan_of c) slot s n o); [|done|by rewrite Hring].
        by apply fview_lookup.
      * match goal with |- fstep ?v _ =>
          replace (fview_of w') with (put_fwrites (omap swrite_of (reqs w')) v) end.
        2: { unfold fview_of, put_fwrites; simpl. f_equal. by rewrite fview_insert. }
        apply fs_reorder_writes. unfold reqs; simpl.
        rewrite !omap_app. simpl. by rewrite Permutation_middle.
    + eapply sq_readv_insert; [apply Hinv|done|done|done].
    + apply (cview_insert w ch c); [done|]. unfold cview; simpl.
      by rewrite (ring_all_seen _ _ _ _ Hcq).
    + unfold reqs; simpl. by rewrite !omap_app.
    + intros r. unfold reqs; simpl. rewrite !elem_of_app, elem_of_cons.
      intros [?|[->|?]]; auto.
    + intros ch0 slot0 o0 n0. unfold reqs; simpl. rewrite !elem_of_app, elem_of_cons.
      intros [?|[[= -> -> -> ->]|?]]; [tauto| |tauto]. right. exists c, n, o, res. rewrite Hcq.
      split_and!; [done|left|by apply Z.ltb_ge|by rewrite Ho].
    + eapply (cq_insert w); [done..|]. simpl. rewrite Hcq. intros x Hx. by right.
  - rewrite (proj2 (Z.eqb_neq _ 0)) by done. by apply Hfail.
Qed.

(** The oldest completion, of an image read, is consumed. *)
Lemma seen_readv_post fl w ch c io o res cq :
  inv fl w → w_chs w !! ch = Some c → ring_cq (ch_ring c) = (SqeReadv io o, res) :: cq →
  hpost fl (io :: fl) w (set_ch ch (with_ring (ring_seen (ch_ring c)) c) w).
Proof.
  intros Hinv Hc Hcq. pose proof (ring_all_seen _ _ _ _ Hcq) as Hall.
  set (c' := with_ring (ring_seen (ch_ring c)) c).
  assert (Hst : started_ids (io :: fl) (set_ch ch c' w) ≡ₚ started_ids fl w).
  { unfold started_ids; simpl.
    destruct (over_chs_split (ring_ios ∘ ch_ring) (w_chs w) ch c Hc) as (r & -> & ->). simpl.
    unfold ring_ios at 2. rewrite Hall. simpl. by rewrite <-Permutation_middle. }
  assert (Hcore : cores (set_ch ch c' w) = cores w) by by apply cores_set_ch with c.
  destruct Hinv as [Hf Hi Hsq]. apply hpost_quiet; try done.
  - eapply iinv_perm; try done. destruct (ii_places _ _ Hi) as [Hb Hv Hrs]. split; try done.
    intros ch0 c0 io0 o0. simpl. rewrite lookup_insert. case_decide as Hd; [|by apply Hv].
    intros [= <-] Hin. rewrite <-Hd. apply (Hv ch c); [done|]. rewrite Hall. by right.
  - apply sq_set_ch; [done|]. intros e. exact (Hsq ch c e Hc).
  - apply fview_set_ch with c; [done|]. unfold fchan_of. simpl. by rewrite Hall.
  - apply (tame_insert w _ ch c c'); [done..| |].
    + simpl. rewrite Hcq. intros x Hx. by right.
    + intros io0 o0 Hin. left. rewrite Hall. by right.
  - unfold ids, queued_ids. by rewrite Hst, Hcore.
Qed.

Lemma cqe_readv_spec fl w ch c io o res cq (K : Z → M world Z) Q :
  inv fl w → w_chs w !! ch = Some c → ring_cq (ch_ring c) = (SqeReadv io o, res) :: cq →
  (∀ ret w' c', hpost fl fl w w' → w_chs w' !! ch = Some c' →
     ch_ring c' = ring_seen (ch_ring c) → wp (K ret) w' Q) →
  wp (ret ← handle_cqe ch (SqeReadv io o) res; io_uring_cqe_seen ch;; K ret) w Q.
Proof.
  intros Hinv Hc Hcq HK.
  pose proof (seen_readv_post _ _ _ _ _ _ _ _ Hinv Hc Hcq) as Hp1.
  set (w1 := set_ch ch _ w) in Hp1.
  destruct (inv_started _ _ io (hp_inv _ _ _ _ Hp1)) as (i & c0 & Hi & _ & [Hop _] & _); [left|].
  simpl in Hi. destruct (po_readv _ (ii_places _ _ (inv_io _ _ Hinv)) ch c io o Hc)
    as (i' & Hi' & Ht & Hch & _).
  { rewrite (ring_all_seen _ _ _ _ Hcq). left. }
  simplify_eq.
  assert (Hfin : ∀ b ret, wp (ubi_complete_io io b;; mret ret) w
    (λ ret w', wp (io_uring_cqe_seen (uio_ch (io_driver_ctx i));; K ret) w' Q)).
  { intros b ret. unfold ubi_complete_io. wp_step. rewrite decide_True by done.
    do 4 wp_step. set (c' := with_ring _ _). eapply HK; [|apply lookup_insert_eq|done].
    eapply hpost_trans; [exact Hp1|].
    match goal with |- hpost _ _ _ ?w' => replace w' with
      (complete io (if b then SPDK_BDEV_IO_STATUS_SUCCESS else SPDK_BDEV_IO_STATUS_FAILED)
         (set_ch (uio_ch (io_driver_ctx i)) c' w1)) end.
    2: { unfold w1, set_ch, complete, with_chs, with_done; simpl. by rewrite !insert_insert_eq. }
    apply (complete_read_spec fl w1 io _ i (with_ring (ring_seen (ch_ring c)) c)); [apply Hp1|done|done|apply lookup_insert_eq]. }
  unfold handle_cqe, ubi_complete_read_from_image. apply wp_bind. wp_step. rewrite Hop.
  case_match; apply Hfin.
Qed.

(** The loop over a batch of completions. *)
Lemma handle_cqes_spec ch l : ∀ fl w c ret rest,
  inv fl w → w_chs w !! ch = Some c → ring_cq (ch_ring c) = l ++ rest →
  wp (handle_cqes ch l ret) w (λ _, hpost fl fl w).
Proof.
  induction l as [|[e res] l IH]; intros fl w c ret rest Hinv Hc Hcq; cbn [handle_cqes].
  { wp_step. by apply hpost_refl. }
  assert (Hnext : ∀ ret' w' c', hpost fl fl w w' → w_chs w' !! ch = Some c' →
    ch_ring c' = ring_seen (ch_ring c) → wp (handle_cqes ch l ret') w' (λ _, hpost fl fl w)).
  { intros ret' w' c' Hp Hc' Hring. eapply wp_post; [exact Hp|].
    eapply (IH _ _ c' _ rest); [apply Hp|done|]. rewrite Hring. simpl. by rewrite Hcq. }
  destruct e; [by eapply cqe_fetch_spec|by eapply cqe_readv_spec].
Qed.

Lemma complete_image_io_spec fl w ch c : inv fl w → w_chs w !! ch = Some c →
  wp (ubi_complete_image_io ch) w (λ _, hpost fl fl w).
Proof.
  intros Hinv Hc. unfold ubi_complete_image_io, io_uring_peek_batch_cqe. do 3 wp_step.
  eapply wp_post; [by apply hpost_tick|]. pose proof (inv_tick _ _ Hinv) as Ht.
  destruct (_ <? 0); [case_match; wp_step; by apply hpost_refl|].
  eapply handle_cqes_spec; [done..|]. symmetry. apply take_drop.
Qed.

Lemma submit_image_reads_spec `{!env_ok E} fl w ch c : inv fl w → w_chs w !! ch = Some c →
  wp (submit_image_reads ch) w (λ _, hpost fl fl w).
Proof.
  intros Hinv Hc. unfold submit_image_reads. wp_step. case_match.
  2: { wp_step. by apply hpost_refl. }
  apply wp_bind, wp_uring_submit with c; [done|intros Hneg|intros Hpos].
  - rewrite (proj2 (Z.ltb_lt _ _)) by done. wp_step. by apply hpost_tick.
  - rewrite (proj2 (Z.ltb_ge _ _)) by done. wp_step. set (c' := with_has_reads _ _).
    eapply hpost_trans; [by apply hpost_tick|].
    match goal with |- hpost _ _ _ ?w' => replace w' with (set_ch ch c' (tick w)) end.
    2: { unfold set_ch, with_chs; simpl. by rewrite insert_insert_eq. }
    apply hpost_fetch; [by apply inv_tick|..]; try done.
    + rewrite (fview_set_ch (tick w) ch c c'); [done..|].
      unfold fchan_of, c'; simpl. by rewrite ring_all_submit.
    + apply sq_set_ch; [apply Hinv|]. intros e. unfold c'; simpl.
      rewrite (env_submit w ch c Hc Hpos), Nat2Z.id, drop_all. by intros ?%not_elem_of_nil.
    + apply (cview_insert w ch c); [done|]. unfold cview, c'; simpl. by rewrite ring_all_submit.
    + by left.
    + by apply swrites_same.
    + by eapply (cq_insert (tick w)).
Qed.
End FetchSpecs.

(** * The entry points *)

Section Entry.
Context {E : ext_env}.

Lemma poll_spec `{!env_ok E} fl w ch c : inv fl w → w_chs w !! ch = Some c →
  wp (ubi_io_poll ch) w (λ _, hpost fl fl w).
Proof.
  intros Hinv Hc. unfold ubi_io_poll. wp_step. set (qe := bool_decide _ && _).
  apply wp_hpost with fl; [by eapply complete_image_io_spec|]. intros n w1 Hinv1 Hev1.
  destruct (ev_chs _ _ Hev1 ch c Hc) as (c1 & Hc1 & _).
  destruct (qe && _); [wp_step; by apply hpost_refl|].
  destruct qe; [wp_step; by apply hpost_refl|]. wp_step.
  apply wp_hpost with fl.
  { eapply start_fetches_spec; [done..|apply free_stripe_fetches_nodup|].
    intros slot (_ & s & Hs & Ha)%free_stripe_fetches_elem. exists s. by rewrite Nat.sub_0_r in Hs. }
  intros [] w2 Hinv2 Hev2. destruct (ev_chs _ _ Hev2 ch c1 Hc1) as (c2 & Hc2 & _).
  wp_step. apply wp_hpost with fl; [apply (process_ios_spec _ _ fl w2 c2); [done..|lia]|].
  intros [] w3 Hinv3 Hev3. destruct (ev_chs _ _ Hev3 ch c2 Hc2) as (c3 & Hc3 & _).
  apply wp_hpost with fl; [by eapply submit_image_reads_spec|].
  intros [] w4 Hinv4 Hev4. wp_step. by apply hpost_refl.
Qed.

(** Completion of a read or write of the base bdev. *)
Lemma io_completion_spec fl w r io l b : inv fl w → w_fin w = r :: l → req_io r = Some io →
  wp (ubi_io_completion_cb r b io) w (λ _, hpost fl fl w).
Proof.
  intros Hinv Hfin Hr. unfold ubi_io_completion_cb. wp_step.
  pose proof (free_spec fl w r l io Hinv Hfin Hr) as Hp. eapply wp_post; [exact Hp|].
  apply complete_io_spec, Hp.
Qed.

(** Completion of a stripe write. *)
Lemma write_stripe_spec fl w ch slot o n l b : inv fl w →
  w_fin w = RqStripeWrite ch slot o n :: l →
  wp (write_stripe_io_completion (RqStripeWrite ch slot o n) b ch slot) w (λ _ w', hpost fl fl w w' ∧
    ∃ k, image_stripe (layout_of (w_ub w)) k ∧ ub_stripe_status (w_ub w) k = STRIPE_INFLIGHT ∧
      o = fetch_offset (layout_of (w_ub w)) k + UBI_METADATA_SIZE ∧
      n = fetch_bytes (layout_of (w_ub w)) ∧
      ub_stripe_status (w_ub w') = <[k := STRIPE_FETCHED]> (ub_stripe_status (w_ub w)) ∧
      cview <$> w_chs w' = cview <$> w_chs w).
Proof.
  intros Hinv Hfin.
  assert (Hws : fv_writes (fview_of w) = (ch, slot, o, n) :: omap swrite_of (l ++ w_pend w)).
  { simpl. by rewrite Hfin. }
  assert (Hin : (ch, slot, o, n) ∈ fv_writes (fview_of w)) by (rewrite Hws; left).
  destruct (fi_writes _ (inv_fetch _ _ Hinv) _ _ _ _ Hin) as (f & s & Hf & Hs & Ho & Hn).
  simpl in Hf. rewrite lookup_fmap in Hf. destruct (w_chs w !! ch) as [c|] eqn:Hc; [|done].
  injection Hf as <-. simpl in Hs. pose proof (inv_chan _ _ _ _ Hinv Hc) as Hok.
  assert (Ha : sf_active s = true).
  { eapply outstanding_active; [done..|]. by eapply outstanding_pos_writes. }
  destruct (co_held _ _ _ Hok (sf_stripe_idx s)) as [Himg Hin']; [by eapply held_active|].
  pose proof (inv_layout _ _ Hinv) as Hl.
  destruct (image_stripe_index _ _ Hl Himg) as (H32 & _ & Hidx).
  unfold write_stripe_io_completion, ubi_set_stripe_status. do 3 wp_step.
  rewrite H32, Hidx. do 4 wp_step. set (w' := set_ch ch _ _).
  split; [|exists (sf_stripe_idx s); split_and!; try done; by apply (cview_insert w ch c)].
  apply hpost_fetch; try done.
  - apply rtc_once. unfold fview_of at 2, w'. simpl. rewrite fview_insert.
    eapply (fs_write_done (fview_of w) ch (fchan_of c) slot s o n); [|done|by rewrite Hws].
    by apply fview_lookup.
  - eapply (sq_readv_insert w); [apply Hinv|done|done|done].
  - by apply (cview_insert w ch c).
  - unfold reqs; simpl. by rewrite Hfin.
  - intros r. unfold reqs; simpl. rewrite Hfin. left. by right.
  - rewrite Hfin. by apply suffix_cons_r.
  - intros k Hnil. unfold no_swrite in Hnil. by rewrite Hfin in Hnil.
  - apply swrites_same; [|done]. simpl. rewrite Hfin. by apply suffix_cons_r.
  - by eapply cq_insert.
Qed.

(** The state after [io] arrived on channel [ch]. *)
Record submit_post (ch io : Z) (w w' : world) : Prop := {
  sp_inv : inv [] w';
  sp_fetch : rtc fstep (fview_of w) (fview_of w');
  sp_statics : statics (w_ub w') = statics (w_ub w);
  sp_ids : ids [] w' ≡ₚ io :: ids [] w;
  sp_calm : calm w w';
  sp_chs ch0 c0 : w_chs w !! ch0 = Some c0 → ∃ c0', w_chs w' !! ch0 = Some c0' ∧
    ch_io c0' = ch_io c0 ++ (if decide (ch = ch0) then [io] else [])
}.

(** [TAILQ_INSERT_TAIL], from a state in which the fetch was enqueued. *)
Lemma insert_tail_spec w w1 ch c c1 io i :
  hpost [] [] w w1 → w_chs w !! ch = Some c → w_chs w1 !! ch = Some c1 → ids [] w1 = ids [] w →
  w_ios w1 !! io = Some i → io ∉ ids [] w → io_ok (layout_of (w_ub w)) i → ch_io c1 = ch_io c →
  (∀ ch0 c0, ch ≠ ch0 → w_chs w !! ch0 = Some c0 → w_chs w1 !! ch0 = Some c0) →
  (needs_stripe (w_ub w) (io_type i) = true → io_offset_blocks i < ub_image_block_count (w_ub w) →
   block_status (w_ub w1) (io_offset_blocks i) ≠ STRIPE_NOT_FETCHED) →
  wp (upd_ch ch (λ c, with_io (ch_io c ++ [io]) c)) w1 (λ _, submit_post ch io w).
Proof.
  intros [[Hf1 Hi1 Hsq1] Hev _] Hc Hc1 Hids Hi Hnew Hok Hio1 Hothers Hneeds. wp_step.
  destruct (statics_fields _ _ (ev_statics _ _ Hev)) as (Hl1 & Hcor & _ & _ & _ & Himg & _).
  destruct (iinv_submit [] w1 ch c1 io i) as [Hi' Hids']; try done.
  { by rewrite Hids. }
  { split; [by rewrite Hl1|]. unfold needs_stripe in *. by rewrite Hcor, Himg. }
  assert (Hv : fview_of (set_ch ch (with_io (ch_io c1 ++ [io]) c1) w1) = fview_of w1)
    by by apply fview_set_ch with c1.
  split.
  - split; [by rewrite Hv|done|]. apply sq_set_ch; [done|]. intros e. exact (Hsq1 ch c1 e Hc1).
  - rewrite Hv. apply Hev.
  - apply Hev.
  - by rewrite Hids', Hids.
  - eapply calm_trans; [|exact (tm_calm _ _ (ev_tame _ _ Hev))|]; [done|].
    eapply (calm_insert w1 _ ch c1); [done..|]. by left.
  - intros ch0 c0 Hc0. simpl. destruct (decide (ch = ch0)) as [<-|Hne].
    + rewrite lookup_insert_eq. eexists. split; [done|]. simpl. by simplify_eq; rewrite Hio1.
    + rewrite lookup_insert_ne by done. exists c0. rewrite app_nil_r. split; [|done].
      by apply Hothers.
Qed.

Lemma block_image_stripe u i : layout_ok (layout_of u) → io_ok (layout_of u) i →
  io_offset_blocks i < ub_image_block_count u →
  image_stripe (layout_of u) (stripe_of u (io_offset_blocks i)).
Proof.
  intros Hl Hok Himg. rewrite stripe_of_div by done.
  destruct Hl as ([_ _ Hsh Hsbc _ _ _] & _). simpl in *.
  assert (0 < ub_stripe_block_count u) by (rewrite Hsbc; apply Z.pow_pos_nonneg; lia).
  pose proof (iok_offset _ _ Hok). split; [by apply Z.div_pos|]. simpl.
  pose proof (Z.mul_div_le (io_offset_blocks i) (ub_stripe_block_count u)). lia.
Qed.

(** The fetch of a stripe nobody fetched is enqueued. *)
Lemma enqueue_fetch_spec w ch c k : inv [] w → w_chs w !! ch = Some c →
  image_stripe (layout_of (w_ub w)) k → ub_stripe_status (w_ub w) k = STRIPE_NOT_FETCHED →
  queue_length (ch_queue c) + 1 < UBI_FETCH_QUEUE_SIZE →
  wp (enqueue_stripe ch k;; ubi_set_stripe_status k STRIPE_INFLIGHT) w (λ _ w', hpost [] [] w w' ∧
    w' = set_ch ch (with_queue (queue_push (ch_queue c) k) c)
           (with_ub (set_status k STRIPE_INFLIGHT (w_ub w)) w)).
Proof.
  intros Hinv Hc Hk Hnf Hroom.
  destruct (image_stripe_index _ _ (inv_layout _ _ Hinv) Hk) as (H32 & _ & Hidx).
  apply wp_bind, enqueue_stripe_wp with c; [done|exact (co_queue _ _ _ (inv_chan _ _ _ _ Hinv Hc))|].
  unfold ubi_set_stripe_status. rewrite H32. wp_step. rewrite Hidx. wp_step. split; [|done].
  apply hpost_fetch; try done.
  - apply rtc_once. unfold fview_of at 2. simpl. rewrite fview_insert.
    eapply (fs_enqueue (fview_of w) ch (fchan_of c) k); try done. by apply fview_lookup.
  - by eapply (sq_readv_insert w); [apply Hinv|..].
  - by apply (cview_insert w ch c).
  - by left.
  - intros k' _. by apply set_status_fetched.
  - by apply swrites_same.
  - by eapply (cq_insert w).
Qed.

(** Arrival of a request: [io] is a new I/O whose object is [i]. *)
Lemma submit_spec w ch c io i : inv [] w → w_chs w !! ch = Some c → io ∉ ids [] w →
  w_ios w !! io = Some i → io_ok (layout_of (w_ub w)) i →
  queue_length (ch_queue c) + 1 < UBI_FETCH_QUEUE_SIZE →
  wp (ubi_submit_request ch io) w (λ _, submit_post ch io w).
Proof.
  intros Hinv Hc Hnew Hi Hok Hroom. pose proof (inv_layout _ _ Hinv) as Hl.
  pose proof (insert_tail_spec w w ch c c io i (hpost_refl _ _ Hinv) Hc Hc eq_refl Hi Hnew Hok
    eq_refl (λ _ _ _ H0, H0)) as Hplain.
  unfold ubi_submit_request. do 2 wp_step. destruct (needs_stripe _ _) eqn:Hn; [|by apply Hplain].
  destruct (block_ranges _ Hl _ Hok) as (_ & _ & Hend). rewrite Hend.
  assert (Hsame : stripe_of (w_ub w) (io_offset_blocks i) =
    stripe_of (w_ub w) (io_offset_blocks i + io_num_blocks i - 1)).
  { rewrite !stripe_of_div by done. apply (iok_split _ _ Hok).
    unfold needs_stripe in Hn. by destruct (io_type i); auto. }
  rewrite <-Hsame, Z.eqb_refl. cbn [negb].
  destruct (Z.ltb_spec (io_offset_blocks i) (ub_image_block_count (w_ub w))) as [Himg|Himg].
  2: { apply Hplain. lia. }
  apply wp_bind, (wp_stripe_status _ _ i); [done|done|destruct Hok; lia|].
  destruct (bool_decide_reflect (block_status (w_ub w) (io_offset_blocks i) = STRIPE_NOT_FETCHED))
    as [Hnf|Hnf].
  2: { wp_step. by apply Hplain. }
  apply wp_bind. eapply wp_mono.
  { apply enqueue_fetch_spec; [done..|by apply block_image_stripe|done|done]. }
  simpl. intros [] w1 [Hp ->].
  eapply (insert_tail_spec w _ ch c (with_queue _ c)); try done.
  - apply lookup_insert_eq.
  - unfold ids, queued_ids, started_ids. rewrite !cview_cores, !cview_ring_ids; simpl.
    by rewrite (cview_insert w ch c).
  - intros ch0 c0 Hne Hc0. simpl. by rewrite lookup_insert_ne.
  - intros _ _. unfold block_status. simpl. by rewrite fn_lookup_insert.
Qed.
End Entry.
