(* ===== verification/System.v ===== *)
(** The running system: channels, the base bdev, the kernel and the callers
    interleave in any order.

    An [event] is one thing that happens (a request arrives, a poller runs,
    the kernel finishes a read of the image, the base bdev finishes a request
    and its callback runs, a data buffer becomes available, a channel is opened
    or closed); [run_event] is
    what the module does on it, and [run] is a sequence of events, each with
    its own environment.  The theorems hold for every run from a state as
    channel creation leaves it. *)
From stdpp Require Import base tactics list gmap option numbers functions strings relations.
From Stdlib Require Import ZArith Lia.
From S2P Require Import Prelude Types World Layout FetchQueue Stripe Flush IoChannel Submit.
From S2P Require Import FetchProtocol IoInv Refine.

Local Open Scope Z_scope.

(** * Events *)

Inductive event : Type :=
| EvSubmit (ch io : Z) (i : spdk_bdev_io)
| EvPoll (ch : Z)
| EvImageRead (ch : Z) (e : sqe) (res : Z)
| EvBase (r : base_req) (success : bool)
| EvBuf (io : Z) (success : bool)
| EvOpen (ch : Z) (c : ubi_io_channel)
| EvClose (ch : Z).

(** A channel goes away. *)
Definition drop_ch (ch : Z) (w : world) : world := with_chs (delete ch (w_chs w)) w.

Section Run.
Context {E : ext_env}.

(** The callback registered with a request to the base bdev. *)
Definition callback (r : base_req) (success : bool) : M world unit :=
  match r with
  | RqStripeWrite ch slot _ _ => write_stripe_io_completion r success ch slot
  | RqRead io _ _ _ | RqWrite io _ _ _ => ubi_io_completion_cb r success io
  | RqDataFlush io _ _ => ubi_data_flush_completion r success io
  | RqMetadataWrite io _ _ => ubi_metadata_write_completion r success io
  | RqMetadataFlush io _ _ => ubi_metadata_flush_completion r success io
  end.

Definition ring_finish (e : sqe) (res : Z) (r : io_uring) : option io_uring :=
  l ← remove_one e (ring_inflight r);
  Some (mk_ring (ring_sq r) l (ring_cq r ++ [(e, res)])).

Definition run_event (ev : event) : M world unit :=
  match ev with
  | EvSubmit ch io i => put_io io i;; ubi_submit_request ch io
  | EvPoll ch => ubi_io_poll ch;; mret ()
  | EvImageRead ch e res =>
      c ← get_ch ch; r ← of_option (ring_finish e res (ch_ring c)); put_ch ch (with_ring r c)
  | EvBase r success =>
      w ← gets id; l ← of_option (remove_one r (w_pend w));
      modify (with_pend l);; modify (λ w, with_fin (r :: w_fin w) w);; callback r success
  | EvBuf io success =>
      w ← gets id; l ← of_option (remove_one io (w_bufq w));
      modify (with_bufq l);; get_buf_for_read_cb io success
  | EvOpen ch c => modify (set_ch ch c)
  | EvClose ch => modify (drop_ch ch)
  end.
End Run.

(** A channel as [ubi_create_channel_cb] leaves it, see [Creation.v]. *)
Record fresh_channel (c : ubi_io_channel) : Prop := {
  fc_io : ch_io c = [];
  fc_reads : ch_active_reads c = 0;
  fc_q : q_head (ch_queue c) = 0 ∧ q_tail (ch_queue c) = 0;
  fc_sf : length (ch_stripe_fetches c) = 8%nat ∧
    ∀ slot s, ch_stripe_fetches c !! slot = Some s → sf_active s = false;
  fc_r : ch_ring c = mk_ring [] [] []
}.

(** A channel with nothing to do: [ubi_destroy_channel_cb] gives up its ring,
    its poller and the buffers of its fetches. *)
Record idle_channel (c : ubi_io_channel) : Prop := {
  ic_io : ch_io c = [];
  ic_queue : queue_empty (ch_queue c) = true;
  ic_slots : Forall (λ s, sf_active s = false) (ch_stripe_fetches c);
  ic_ring : ring_all (ch_ring c) = []
}.

(** The I/Os that were taken from the queue of the channel [ch] are done. *)
Definition no_started (ch : Z) (w : world) : Prop :=
  Forall (λ io, uio_ch ∘ io_driver_ctx <$> w_ios w !! io ≠ Some ch) (started_ids [] w).

(** When an event can happen.  SPDK checked an arriving request, its object is
    not in use, and there is room in the fetch queue of the channel.  A channel
    is opened at an address that is not in use, and closed when it is idle;
    [Idle.v] shows that it is when its requests are completed. *)
Definition enabled (w : world) (ev : event) : Prop :=
  match ev with
  | EvSubmit ch io i => io ∉ ids [] w ∧ io_ok (layout_of (w_ub w)) i ∧
      ∃ c, w_chs w !! ch = Some c ∧ queue_length (ch_queue c) + 1 < UBI_FETCH_QUEUE_SIZE
  | EvPoll ch => is_Some (w_chs w !! ch)
  | EvImageRead ch e _ => ∃ c, w_chs w !! ch = Some c ∧ e ∈ ring_inflight (ch_ring c)
  | EvBase r _ => r ∈ w_pend w
  | EvBuf io _ => io ∈ w_bufq w
  | EvOpen ch c => w_chs w !! ch = None ∧ fresh_channel c
  | EvClose ch => ∃ c, w_chs w !! ch = Some c ∧ idle_channel c ∧ no_started ch w
  end.

(** Runs whose steps satisfy [P]. *)
Inductive run (P : ext_env → event → Prop) : world → list event → world → Prop :=
| run_nil w : run P w [] w
| run_snoc w tr w1 E ev w2 :
    run P w tr w1 → P E ev → enabled w1 ev →
    run_event (E := E) ev w1 = Done tt w2 → run P w (tr ++ [ev]) w2.

(** Any environment of [env_ok]: liburing behaves as documented, and, which it
    does not promise, the submission of a prepared stripe fetch succeeds. *)
Definition any_step (E : ext_env) (ev : event) : Prop := env_ok E.

(** In addition the base bdev accepts requests and does not fail a flush. *)
Definition lossless_step (E : ext_env) (ev : event) : Prop :=
  env_ok E ∧ accepts (E := E) ∧
  match ev with EvBase (RqDataFlush _ _ _) success => success = true | _ => True end.

(** * Initial states *)

Record initial (w : world) : Prop := {
  init_layout : layout_ok (layout_of (w_ub w));
  init_status k : ub_stripe_status (w_ub w) k = STRIPE_FETCHED ∨
                  ub_stripe_status (w_ub w) k = STRIPE_NOT_FETCHED;
  init_chs ch c : w_chs w !! ch = Some c → fresh_channel c;
  init_lists : w_pend w = [] ∧ w_fin w = [] ∧ w_bufq w = [] ∧ w_done w = []
}.

(** * Observations of a trace *)

(** The requests that arrived, in order, and those of one channel. *)
Definition submitted (tr : list event) : list Z :=
  omap (λ ev, match ev with EvSubmit _ io _ => Some io | _ => None end) tr.
Definition submitted_on (ch : Z) (tr : list event) : list Z :=
  omap (λ ev, match ev with
              | EvSubmit ch' io _ => if ch' =? ch then Some io else None
              | _ => None end) tr.

(** * Lemmas *)

(** How an event may change the data, see [calm]: from the state in which the
    handler starts. *)
Definition calm_event (ev : event) (w w' : world) : Prop :=
  match ev with
  | EvImageRead ch e res => ∃ c r, w_chs w !! ch = Some c ∧
      ring_finish e res (ch_ring c) = Some r ∧ w' = set_ch ch (with_ring r c) w
  | EvBase r _ => ∃ l, remove_one r (w_pend w) = Some l ∧
      calm (with_fin (r :: w_fin w) (with_pend l w)) w'
  | EvSubmit _ _ _ | EvPoll _ | EvBuf _ _ => calm w w'
  | EvOpen ch c => w' = set_ch ch c w
  | EvClose ch => w' = drop_ch ch w
  end.

(** The channels after a tame change are those that were there. *)
Lemma tame_back w w' ch c' : tame w w' → w_chs w' !! ch = Some c' →
  ∃ c, w_chs w !! ch = Some c ∧ ch_io c' `suffix_of` ch_io c.
Proof.
  intros [Hch Hcalm] Hc'. destruct (cm_cq _ _ Hcalm ch c' Hc') as (c & Hc & _). exists c. split; [done|].
  destruct (Hch ch c Hc) as (c'' & Hc'' & Hs). by assert (c'' = c') as -> by congruence.
Qed.

(** What an event does to a state that satisfies the invariant. *)
Record step_post {E : ext_env} (ev : event) (w w' : world) : Prop := {
  st_inv : inv [] w';
  st_fetch : rtc fstep (fview_of w) (fview_of w');
  st_statics : statics (w_ub w') = statics (w_ub w);
  st_ids : ∃ lost, lost ++ ids [] w' ≡ₚ submitted [ev] ++ ids [] w ∧
    (lossless_step E ev → lost = []);
  st_chs ch c' : w_chs w' !! ch = Some c' → ch_io c' = [] ∨
    ∃ c, w_chs w !! ch = Some c ∧ ch_io c' `suffix_of` ch_io c ++ submitted_on ch [ev];
  st_calm : calm_event ev w w'
}.

Section Steps.
Context {E : ext_env}.

Lemma step_of_hpost ev w w' : submitted [ev] = [] → (∀ ch, submitted_on ch [ev] = []) →
  (calm w w' → calm_event ev w w') → hpost [] [] w w' → step_post ev w w'.
Proof.
  intros Hs Hon Hce [Hinv [Hf Hst [Hch Hcalm]] (lost & Hp & Ha)]. split; auto.
  - exists lost. rewrite Hs. split; [done|]. intros (_ & Hacc & _). by apply Ha.
  - intros ch c' Hc'. right. destruct (tame_back w w' ch c') as (c & ? & ?); [by split|done|].
    exists c. by rewrite Hon, app_nil_r.
Qed.

(** Started I/Os and outstanding operations change places in the environment. *)
Lemma hpost_move fl fl' w w' : inv fl w → w_ub w' = w_ub w → w_ios w' = w_ios w →
  w_done w' = w_done w → cores w' = cores w → started_ids fl' w' ≡ₚ started_ids fl w →
  places_ok w' → sq_readv w' → rtc fstep (fview_of w) (fview_of w') → tame w w' →
  hpost fl fl' w w'.
Proof.
  intros [Hf Hi Hsq] Hu Hios Hd Hc Hst Hp Hsq' Hsteps Hcalm. split.
  - split; [by eapply fsteps_finv|by eapply iinv_perm|done].
  - split; [done|by rewrite Hu|done].
  - exists []. split; [|done]. simpl. unfold ids, queued_ids. by rewrite Hc, Hd, Hst.
Qed.

Lemma image_read_spec w ch c e res : inv [] w → w_chs w !! ch = Some c →
  e ∈ ring_inflight (ch_ring c) →
  wp (run_event (EvImageRead ch e res)) w (λ _, step_post (EvImageRead ch e res) w).
Proof.
  intros Hinv Hc Hin. destruct (remove_one_perm e _ Hin) as (l & Hrm & Hperm).
  simpl. wp_step. wp_step; [unfold ring_finish; by rewrite Hrm|]. wp_step.
  set (r := mk_ring _ _ _). set (c' := with_ring r c). set (w' := set_ch ch c' w).
  assert (Hall : ring_all r ≡ₚ ring_all (ch_ring c)).
  { unfold ring_all, r; simpl. rewrite fmap_app, Hperm. simpl.
    rewrite <-!app_assoc. apply Permutation_app_head. simpl. done. }
  assert (Hst : started_ids [] w' ≡ₚ started_ids [] w).
  { unfold started_ids; simpl. apply Permutation_app_tail. apply over_chs_same with c; [done|].
    simpl. unfold ring_ios. by rewrite Hall. }
  assert (Hcores : cores w' = cores w) by by apply cores_set_ch with c.
  assert (Hsteps : rtc fstep (fview_of w) (fview_of w')).
  { apply rtc_once. unfold fview_of at 2; simpl. rewrite fview_insert.
    apply (fs_reorder (fview_of w) ch (fchan_of c)); [by apply fview_lookup|]. simpl. by rewrite Hall. }
  destruct Hinv as [Hf Hi Hsq]. split; [split|done|done| | |].
  - by eapply fsteps_finv.
  - eapply iinv_perm; try done. destruct (ii_places _ _ Hi) as [Hb Hv Hrs]. split; try done.
    intros ch0 c0 io o. simpl. rewrite lookup_insert. case_decide as Hd; [|by apply Hv].
    intros [= <-]. simpl. rewrite Hall. rewrite <-Hd. by apply Hv.
  - apply sq_set_ch; [done|]. intros e'. exact (Hsq ch c e' Hc).
  - exists []. split; [|done]. unfold ids, queued_ids. by rewrite Hcores, Hst.
  - intros ch0 c0 Hc0. simpl in Hc0. apply lookup_insert_Some in Hc0 as [[<- <-]|[_ Hc0]]; right; [exists c|exists c0]; by rewrite app_nil_r.
  - exists c, r. unfold ring_finish. by rewrite Hrm.
Qed.

(** A completed request goes to its callback. *)
Lemma base_done_spec w r l : inv [] w → w_pend w ≡ₚ r :: l →
  let w' := with_fin (r :: w_fin w) (with_pend l w) in
  inv [] w' ∧ rtc fstep (fview_of w) (fview_of w') ∧ ids [] w' ≡ₚ ids [] w.
Proof.
  intros Hinv Hperm w'.
  assert (Hreqs : reqs w' ≡ₚ reqs w).
  { unfold reqs, w'; simpl. rewrite Hperm. by rewrite <-Permutation_middle. }
  assert (Hst : started_ids [] w' ≡ₚ started_ids [] w) by (unfold started_ids; by rewrite Hreqs).
  assert (Hsteps : rtc fstep (fview_of w) (fview_of w')).
  { apply rtc_once. apply (fs_reorder_writes (fview_of w)). simpl.
    change (omap swrite_of (reqs w) ≡ₚ omap swrite_of (reqs w')). by rewrite Hreqs. }
  destruct Hinv as [Hf Hi Hsq]. split_and!; [split|done|].
  - by eapply fsteps_finv.
  - eapply iinv_perm; try done. destruct (ii_places _ _ Hi) as [Hb Hv Hrs]. split; try done.
    intros r'. rewrite Hreqs. apply Hrs.
  - done.
  - unfold ids. by rewrite Hst.
Qed.

Lemma buf_done_spec w io l : inv [] w → w_bufq w ≡ₚ io :: l →
  hpost [] [io] w (with_bufq l w).
Proof.
  intros Hinv Hperm. destruct Hinv as [Hf Hi Hsq]. apply hpost_move; try done.
  - unfold started_ids; simpl. rewrite Hperm. simpl. by rewrite <-Permutation_middle.
  - destruct (ii_places _ _ Hi) as [Hb Hv Hrs]. split; try done.
    intros io' Hin. apply Hb. rewrite Hperm. by right.
  - by apply tame_same.
Qed.

(** A data flush that failed leaves its I/O uncompleted. *)
Lemma data_flush_failed_spec w io s n l : inv [] w → w_fin w = RqDataFlush io s n :: l →
  wp (ubi_data_flush_completion (RqDataFlush io s n) false io) w (λ _ w',
    inv [] w' ∧ evolves w w' ∧ io :: ids [] w' ≡ₚ ids [] w).
Proof.
  intros Hinv Hfin. unfold ubi_data_flush_completion. wp_step. cbn [negb]. wp_step.
  destruct (flush_req [] w _ l io Hinv Hfin eq_refl) as (Hp & i & Hi & Ht).
  destruct (lose_spec [] (with_fin l w) io i) as [Hinv' Hids]; [apply Hp|done|by rewrite Ht|].
  split_and!; [done|apply Hp|]. rewrite Hids. unfold ids.
  by rewrite (free_started [] w (RqDataFlush io s n) l io).
Qed.

Lemma callback_spec w r success : inv [] w → (∃ l, w_fin w = r :: l) →
  wp (callback r success) w (λ _ w', inv [] w' ∧ evolves w w' ∧
    ∃ lost, lost ++ ids [] w' ≡ₚ ids [] w ∧
      (lossless_step E (EvBase r success) → lost = [])).
Proof.
  intros Hinv (l & Hfin).
  assert (Hpost : wp (callback r success) w (λ _, hpost [] [] w) →
    wp (callback r success) w (λ _ w', inv [] w' ∧ evolves w w' ∧
      ∃ lost, lost ++ ids [] w' ≡ₚ ids [] w ∧
        (lossless_step E (EvBase r success) → lost = []))).
  { intros Hw. eapply wp_mono; [exact Hw|]. intros [] w' [Hi He (lost & Hp & Ha)].
    split_and!; [done|done|]. exists lost. split; [done|]. intros (_ & Hacc & _). by apply Ha. }
  destruct r as [ch slot o n|io s n opts|io s n opts|io s n|io s n|io s n].
  - apply Hpost. eapply wp_mono; [by eapply write_stripe_spec|]. by intros [] w' [? _].
  - apply Hpost. by eapply io_completion_spec.
  - apply Hpost. by eapply io_completion_spec.
  - destruct success; [apply Hpost; by eapply data_flush_spec|].
    eapply wp_mono; [by eapply data_flush_failed_spec|]. simpl. intros _ w' (Hinv' & Hev & Hids).
    split_and!; [done|done|]. exists [io]. split; [done|]. by intros (_ & _ & ?).
  - apply Hpost. by eapply metadata_write_spec.
  - apply Hpost. by eapply metadata_flush_spec.
Qed.

Lemma submit_event_spec w ch io i : inv [] w → enabled w (EvSubmit ch io i) →
  wp (run_event (EvSubmit ch io i)) w (λ _, step_post (EvSubmit ch io i) w).
Proof.
  intros Hinv (Hnew & Hok & c & Hc & Hroom). simpl. wp_step.
  assert (Hinv' : inv [] (set_io io i w)).
  { destruct Hinv as [Hf Hi Hsq]. split; [done|by apply iinv_new|done]. }
  eapply wp_mono; [apply (submit_spec _ ch c io i); try done; apply lookup_insert_eq|].
  simpl. intros _ w' [Hinv'' Hf Hs Hids Hcalm Hch]. split; try done.
  - exists []. split; [|done]. simpl. by rewrite Hids.
  - intros ch0 c' Hc'. right. destruct (cm_cq _ _ Hcalm ch0 c' Hc') as (c0 & Hc0 & _). exists c0. split; [done|].
    destruct (Hch ch0 c0 Hc0) as (c'' & Hc'' & Heq). assert (c'' = c') as -> by congruence.
    rewrite Heq. unfold submitted_on; simpl. destruct (decide (ch = ch0)) as [->|Hne].
    + by rewrite Z.eqb_refl.
    + by rewrite (proj2 (Z.eqb_neq ch ch0)).
  - eapply calm_trans; [|apply (tame_same w (set_io io i w))|exact Hcalm]; done.
Qed.

(** ** Opening and closing a channel *)

Lemma fresh_idle c : fresh_channel c → idle_channel c.
Proof.
  intros [Hio _ [Hh Ht] [_ Hs] Hr]. split; [done| | |by rewrite Hr].
  - unfold queue_empty. by rewrite Hh, Ht.
  - apply Forall_forall. intros s [slot Hl]%list_elem_of_lookup_1. by apply (Hs slot).
Qed.

Lemma idle_channel_fchan c : idle_channel c → queue_wf (ch_queue c) → length (ch_stripe_fetches c) = 8%nat →
  idle_fchan (fchan_of c).
Proof.
  intros [_ Hq Hs Hr] Hwf Hlen. split; cbn [fchan_of fc_queue fc_slots fc_ring]; try done.
  - by apply queue_empty_list.
  - intros slot s Hl. rewrite Forall_forall in Hs. by eapply Hs, list_elem_of_lookup_2.
  - by rewrite Hr.
Qed.

Lemma fresh_fchan c : fresh_channel c → idle_fchan (fchan_of c).
Proof.
  intros Hc. apply idle_channel_fchan; [by apply fresh_idle| |apply Hc]. destruct (fc_q _ Hc) as [Hh Ht].
  unfold queue_wf. rewrite Hh, Ht. unfold UBI_FETCH_QUEUE_SIZE. lia.
Qed.

(** The lists that an idle channel contributes to are empty. *)
Lemma idle_ids c : idle_channel c → (ring_ios ∘ ch_ring) c = [] ∧ fst (core c) = [].
Proof. intros [Hio _ _ Hr]. split; [|done]. cbn. unfold ring_ios. by rewrite Hr. Qed.

Lemma open_ids w ch c : w_chs w !! ch = None → idle_channel c →
  started_ids [] (set_ch ch c w) ≡ₚ started_ids [] w ∧ ids [] (set_ch ch c w) ≡ₚ ids [] w.
Proof.
  intros Hn Hi. destruct (idle_ids c Hi) as [Hr Hio].
  assert (Hst : started_ids [] (set_ch ch c w) ≡ₚ started_ids [] w).
  { unfold started_ids. cbn [app set_ch with_chs w_chs]. by rewrite over_chs_insert_new, Hr by done. }
  split; [done|]. unfold ids. rewrite Hst. apply Permutation_app_tail. unfold queued_ids, cores. cbn [set_ch with_chs w_chs].
  rewrite fmap_insert, over_chs_insert_new, Hio by (by rewrite lookup_fmap, Hn). done.
Qed.

Lemma close_ids w ch c : w_chs w !! ch = Some c → idle_channel c →
  started_ids [] (drop_ch ch w) ≡ₚ started_ids [] w ∧ ids [] (drop_ch ch w) ≡ₚ ids [] w.
Proof.
  intros Hc Hi. assert (Hw : set_ch ch c (drop_ch ch w) = w).
  { unfold set_ch, drop_ch, with_chs. destruct w; cbn in *. by rewrite insert_delete_id. }
  destruct (open_ids (drop_ch ch w) ch c (lookup_delete_eq _ _) Hi) as [H1 H2]. rewrite Hw in H1, H2. by split.
Qed.

Lemma open_spec w ch c : inv [] w → w_chs w !! ch = None → fresh_channel c →
  wp (run_event (EvOpen ch c)) w (λ _, step_post (EvOpen ch c) w).
Proof.
  intros Hinv Hn Hc. pose proof (fresh_idle c Hc) as Hi. destruct (open_ids w ch c Hn Hi) as [Hst Hids]. cbn [run_event]. wp_step.
  assert (Hcase : ∀ ch0 c0, w_chs (set_ch ch c w) !! ch0 = Some c0 → ch0 = ch ∧ c0 = c ∨ w_chs w !! ch0 = Some c0).
  { intros ch0 c0 Hc0. simpl in Hc0. apply lookup_insert_Some in Hc0 as [[-> ->]|[_ ?]]; auto. }
  assert (Hsteps : rtc fstep (fview_of w) (fview_of (set_ch ch c w))).
  { apply rtc_once. unfold fview_of at 2; simpl. rewrite fview_insert. apply (fs_open (fview_of w)); [|by apply fresh_fchan].
    simpl. by rewrite lookup_fmap, Hn. }
  destruct Hinv as [Hf [Hnd Hq Hs Hr Hp] Hsq]. split; [split|done|done| | |done].
  - by eapply fsteps_finv.
  - split.
    + by rewrite Hids.
    + intros ch0 c0 io [[-> ->]|Hc0]%Hcase Hio; [|by eapply Hq]. rewrite (fc_io _ Hc) in Hio. by apply not_elem_of_nil in Hio.
    + intros io. rewrite Hst. intros (i & c0 & ? & ? & ? & Hch)%Hs. exists i, c0. split_and!; [done..|].
      cbn. rewrite lookup_insert_ne; [done|]. intros ->. congruence.
    + intros ch0 c0 [[-> ->]|Hc0]%Hcase; [|rewrite (reads_of_perm _ _ _ _ Hst); by apply Hr].
      rewrite (fc_reads _ Hc). rewrite (reads_of_perm _ _ _ _ Hst). split; [|done].
      unfold reads_of. rewrite filter_none; [done|]. intros io (i & c0 & Hio & _ & _ & Hch)%Hs Hrd.
      unfold read_on in Hrd. change (w_ios (set_ch ch c w)) with (w_ios w) in Hrd. rewrite Hio in Hrd.
      apply andb_true_iff in Hrd as [_ Hrd%Z.eqb_eq]. congruence.
    + destruct Hp as [Hb Hv Hrs]. split; [done| |done]. intros ch0 c0 io o [[-> ->]|Hc0]%Hcase; [|by eapply Hv].
      rewrite (fc_r _ Hc). by intros ?%not_elem_of_nil.
  - intros ch0 c0 e [[-> ->]|Hc0]%Hcase; [rewrite (fc_r _ Hc); by intros ?%not_elem_of_nil|by eapply Hsq].
  - exists []. split; [|done]. by rewrite Hids.
  - intros ch0 c0 [[-> ->]|Hc0]%Hcase; [left; apply Hc|right]. exists c0. split; [done|]. by rewrite app_nil_r.
Qed.

Lemma close_spec w ch c : inv [] w → w_chs w !! ch = Some c → idle_channel c → no_started ch w →
  wp (run_event (EvClose ch)) w (λ _, step_post (EvClose ch) w).
Proof.
  intros Hinv Hc Hi Hno. destruct (close_ids w ch c Hc Hi) as [Hst Hids]. cbn [run_event]. wp_step.
  assert (Hcase : ∀ ch0 c0, w_chs (drop_ch ch w) !! ch0 = Some c0 → w_chs w !! ch0 = Some c0).
  { intros ch0 c0 Hc0. simpl in Hc0. by apply lookup_delete_Some in Hc0 as [_ ?]. }
  pose proof (inv_chan _ _ _ _ Hinv Hc) as Hok.
  assert (Hsteps : rtc fstep (fview_of w) (fview_of (drop_ch ch w))).
  { apply rtc_once. unfold fview_of at 2; simpl. rewrite fmap_delete.
    apply (fs_close (fview_of w) ch (fchan_of c)); [by apply fview_lookup|].
    apply idle_channel_fchan; [done|exact (co_queue _ _ _ Hok)|exact (co_slots _ _ _ Hok)]. }
  destruct Hinv as [Hf [Hnd Hq Hs Hr Hp] Hsq]. split; [split|done|done| | |done].
  - by eapply fsteps_finv.
  - split.
    + by rewrite Hids.
    + intros ch0 c0 io Hc0%Hcase. by eapply Hq.
    + intros io. rewrite Hst. intros Hio. destruct (Hs io Hio) as (i & c0 & Hi0 & ? & ? & Hch). exists i, c0.
      split_and!; [done..|]. cbn. rewrite lookup_delete_ne; [done|]. intros ->.
      unfold no_started in Hno. rewrite Forall_forall in Hno. apply (Hno io Hio). by rewrite Hi0.
    + intros ch0 c0 Hc0%Hcase. rewrite (reads_of_perm _ _ _ _ Hst). by apply Hr.
    + destruct Hp as [Hb Hv Hrs]. split; [done| |done]. intros ch0 c0 io o Hc0%Hcase. by eapply Hv.
  - intros ch0 c0 e Hc0%Hcase. by eapply Hsq.
  - exists []. split; [|done]. by rewrite Hids.
  - intros ch0 c0 Hc0%Hcase. right. exists c0. split; [done|]. by rewrite app_nil_r.
Qed.

(** Every event that can happen is handled: the handler returns, without
    undefined behaviour, in a state that satisfies the invariant. *)
Lemma step_spec `{!env_ok E} w ev : inv [] w → enabled w ev →
  wp (run_event ev) w (λ _, step_post ev w).
Proof.
  intros Hinv Hen.
  assert (Hpost : submitted [ev] = [] → (∀ ch, submitted_on ch [ev] = []) →
    (∀ w', calm w w' → calm_event ev w w') →
    wp (run_event ev) w (λ _, hpost [] [] w) → wp (run_event ev) w (λ _, step_post ev w)).
  { intros H1 H2 H3 Hw. eapply wp_mono; [exact Hw|]. intros [] w'. apply step_of_hpost; auto. }
  destruct ev as [ch io i|ch|ch e res|r success|io success|ch c|ch].
  - by apply submit_event_spec.
  - destruct Hen as [c Hc]. apply Hpost; [done..|]. simpl. apply wp_hpost with []; [by eapply poll_spec|].
    intros a w' Hinv' _. wp_step. by apply hpost_refl.
  - destruct Hen as (c & Hc & Hin). by eapply image_read_spec.
  - simpl in Hen. destruct (remove_one_perm r _ Hen) as (l & Hrm & Hperm). simpl.
    do 4 wp_step. destruct (base_done_spec w r l Hinv Hperm) as (Hinv1 & Hf1 & Hids1).
    eapply wp_mono; [apply callback_spec; [exact Hinv1|by exists (w_fin w)]|].
    simpl. intros _ w' (Hinv' & [Hf Hs Htame] & lost & Hids & Hlost).
    split; [done|by etransitivity|done| | |].
    + exists lost. by rewrite Hids, Hids1.
    + intros ch c' Hc'. right. destruct (tame_back _ w' ch c' Htame Hc') as (c & ? & ?).
      exists c. by rewrite app_nil_r.
    + exists l. split; [done|apply Htame].
  - simpl in Hen. destruct (remove_one_perm io _ Hen) as (l & Hrm & Hperm). apply Hpost; [done..|].
    simpl. do 3 wp_step.
    destruct (po_bufq _ (ii_places _ _ (inv_io _ _ Hinv)) io Hen) as (i & Hi & Ht).
    pose proof (buf_done_spec w io l Hinv Hperm) as Hp. eapply wp_post; [exact Hp|].
    by apply get_buf_spec with i; [apply Hp|..].
  - destruct Hen as [Hn Hc]. by apply open_spec.
  - destruct Hen as (c & Hc & Hi & Hno). by apply close_spec with c.
Qed.
End Steps.

(** Stripes fetched before and after a step. *)
Lemma fetched_iff w w' k : inv [] w → rtc fstep (fview_of w) (fview_of w') → calm w w' → no_swrite w →
  ub_stripe_status (w_ub w') k = STRIPE_FETCHED ↔ ub_stripe_status (w_ub w) k = STRIPE_FETCHED.
Proof.
  intros Hinv Hf Hc Hn. split; [by apply (cm_fetched _ _ Hc)|].
  intros Hk. pose proof (fsteps_status _ _ k (inv_fetch _ _ Hinv) Hf) as Hs. simpl in Hs.
  rewrite Hk in Hs. by apply status_fetched_final.
Qed.

(** ** Initial states satisfy the invariant *)

Lemma fresh_held c : fresh_channel c → held (fchan_of c) = [].
Proof.
  intros [_ _ [Hh Ht] [_ Hidle] _]. unfold held; simpl.
  assert (Hq : queue_list (ch_queue c) = []).
  { apply queue_empty_list; [|unfold queue_empty; by rewrite Hh, Ht].
    unfold queue_wf, UBI_FETCH_QUEUE_SIZE. lia. }
  rewrite Hq. simpl. unfold active_stripes.
  assert (Hf : filter (λ s, sf_active s = true) (ch_stripe_fetches c) = []); [|by rewrite Hf].
  apply filter_none. intros s [slot Hs]%list_elem_of_lookup_1. by rewrite (Hidle slot s Hs).
Qed.

Lemma over_chs_nil {C A} (f : C → list A) (m : gmap Z C) :
  (∀ ch c, m !! ch = Some c → f c = []) → over_chs f m = [].
Proof.
  intros Hf. unfold over_chs.
  assert (H : Forall (λ l, l = []) (f <$> (map_to_list m).*2)).
  { apply Forall_fmap, Forall_fmap, Forall_forall. intros [ch c] Hin%elem_of_map_to_list.
    by eapply Hf. }
  induction H as [|l ls -> _ IH]; [done|exact IH].
Qed.

Lemma initial_ids w : initial w → ids [] w = [].
Proof.
  intros [_ _ Hchs (Hp & Hf & Hb & Hd)]. unfold ids, queued_ids, started_ids, reqs, cores.
  rewrite over_chs_fmap, Hp, Hf, Hb, Hd. rewrite !over_chs_nil; [done|..].
  - intros ch c Hc. simpl. by rewrite (fc_r _ (Hchs ch c Hc)).
  - intros ch c Hc. simpl. by rewrite (fc_io _ (Hchs ch c Hc)).
Qed.

Lemma initial_inv w : initial w → inv [] w.
Proof.
  intros Hw. pose proof (initial_ids w Hw) as Hids.
  assert (Hst : started_ids [] w = []).
  { unfold ids in Hids. by destruct (queued_ids w), (started_ids [] w). }
  destruct Hw as [Hl Hstat Hchs (Hp & Hf & Hb & Hd)].
  assert (Hview : ∀ ch f, (fchan_of <$> w_chs w) !! ch = Some f →
    ∃ c, f = fchan_of c ∧ fresh_channel c).
  { intros ch f. rewrite lookup_fmap. destruct (w_chs w !! ch) as [c|] eqn:Hc; [|done].
    intros [= <-]. exists c. split; [done|by eapply Hchs]. }
  split.
  - split; simpl; try done.
    + intros ch f (c & -> & Hfr)%Hview. pose proof (fresh_held c Hfr) as Hh.
      destruct Hfr as [_ _ [Hh0 Ht0] [Hlen Hidle] Hring].
      split; try rewrite Hh; simpl; rewrite ?Hring; simpl.
      * unfold queue_wf, UBI_FETCH_QUEUE_SIZE. lia.
      * done.
      * constructor.
      * by intros k ?%not_elem_of_nil.
      * intros slot s Hs. by rewrite (Hidle slot s Hs), Hf, Hp.
      * intros slot s Hs. by rewrite (Hidle slot s Hs).
      * by intros slot n o ?%not_elem_of_nil.
    + intros ch ch' f f' (c & -> & Hfr)%Hview _ _ k. rewrite (fresh_held c Hfr).
      by intros ?%not_elem_of_nil.
    + intros ch slot o n. rewrite Hf, Hp. by intros ?%not_elem_of_nil.
  - split; rewrite ?Hids, ?Hst.
    + constructor.
    + intros ch c io Hc. rewrite (fc_io _ (Hchs ch c Hc)). by intros ?%not_elem_of_nil.
    + by intros io ?%not_elem_of_nil.
    + intros ch c Hc. by rewrite (fc_reads _ (Hchs ch c Hc)).
    + split.
      * rewrite Hb. by intros io ?%not_elem_of_nil.
      * intros ch c io o Hc. rewrite (fc_r _ (Hchs ch c Hc)). by intros ?%not_elem_of_nil.
      * unfold reqs. rewrite Hf, Hp. by intros r ?%not_elem_of_nil.
  - intros ch c e Hc. rewrite (fc_r _ (Hchs ch c Hc)). by intros ?%not_elem_of_nil.
Qed.

(** ** Invariants of runs *)

Record run_post (lossless : Prop) (w0 : world) (tr : list event) (w : world) : Prop := {
  rp_inv : inv [] w;
  rp_fetch : rtc fstep (fview_of w0) (fview_of w);
  rp_statics : statics (w_ub w) = statics (w_ub w0);
  rp_ids : ∃ lost, lost ++ ids [] w ≡ₚ submitted tr ∧ (lossless → lost = []);
  rp_chs ch c : w_chs w !! ch = Some c → ch_io c `suffix_of` submitted_on ch tr
}.

Lemma run_spec (P : ext_env → event → Prop) (lossless : Prop) w0 tr w :
  (∀ E ev, P E ev → env_ok E) → (lossless → ∀ E ev, P E ev → lossless_step E ev) →
  initial w0 → run P w0 tr w → run_post lossless w0 tr w.
Proof.
  intros HP Hl Hw0 Hrun. induction Hrun as [w0|w0 tr w1 E ev w2 Hrun IH HPev Hen Hstep].
  - split; [by apply initial_inv|done|done| |].
    + exists []. by rewrite (initial_ids _ Hw0).
    + intros ch c Hc. by rewrite (fc_io _ (init_chs _ Hw0 ch c Hc)).
  - destruct (IH Hw0) as [Hinv Hf Hs (lost & Hids & Hlost) Hch].
    pose proof (HP _ _ HPev) as HE.
    pose proof (step_spec w1 ev Hinv Hen) as Hwp. unfold wp in Hwp. rewrite Hstep in Hwp.
    destruct Hwp as [Hinv' Hf' Hs' (lost' & Hids' & Hlost') Hch' _].
    split; [done|by etransitivity|congruence| |].
    + exists (lost ++ lost'). unfold submitted. rewrite omap_app. fold (submitted tr). split.
      * rewrite <-Hids, <-app_assoc, Hids'. fold (submitted [ev]).
        rewrite <-!app_assoc. apply Permutation_app_head. apply Permutation_app_comm.
      * intros HL. rewrite (Hlost HL), (Hlost' (Hl HL _ _ HPev)). done.
    + intros ch c' Hc'. destruct (Hch' ch c' Hc') as [->|(c & Hc & Hsuf)]; [apply suffix_nil|].
      unfold submitted_on. rewrite omap_app. etransitivity; [exact Hsuf|]. apply suffix_app, (Hch ch c Hc).
Qed.

Lemma run_any w0 tr w : initial w0 → run any_step w0 tr w → run_post False w0 tr w.
Proof. apply run_spec; [by intros E ev|done]. Qed.

Lemma run_inv w0 tr w : initial w0 → run any_step w0 tr w → inv [] w.
Proof. intros Hw0 Hrun. apply (run_any w0 tr w Hw0 Hrun). Qed.

(** ** Executable runs *)

#[export] Instance io_ok_dec l i : Decision (io_ok l i).
Proof.
  destruct (decide (ubi_io_type_supported (io_type i) = true ∧ 0 ≤ io_offset_blocks i ∧
    0 < io_num_blocks i ∧ io_offset_blocks i + io_num_blocks i ≤ l_blockcnt l ∧
    (io_offset_blocks i `div` l_sbc l = (io_offset_blocks i + io_num_blocks i - 1) `div` l_sbc l ∨
     (io_type i ≠ SPDK_BDEV_IO_TYPE_READ ∧ io_type i ≠ SPDK_BDEV_IO_TYPE_WRITE)))) as [H|H].
  - left. abstract (destruct H as (? & ? & ? & ? & [?|[? ?]]); split; tauto).
  - right. abstract (intros [? ? ? ? Hs]; apply H; split_and!; try done;
      destruct (decide (io_type i = SPDK_BDEV_IO_TYPE_READ)); [left; tauto|];
      destruct (decide (io_type i = SPDK_BDEV_IO_TYPE_WRITE)); [left; tauto|by right]).
Defined.

#[export] Instance idle_channel_dec c : Decision (idle_channel c).
Proof.
  refine (cast_if (decide (ch_io c = [] ∧ queue_empty (ch_queue c) = true ∧
    Forall (λ s, sf_active s = false) (ch_stripe_fetches c) ∧ ring_all (ch_ring c) = []))).
  - abstract (match goal with H : _ ∧ _ |- _ => destruct H as (? & ? & ? & ?); by split end).
  - abstract (intros [? ? ? ?]; match goal with H : ¬ _ |- _ => by apply H end).
Defined.
#[export] Instance no_started_dec ch w : Decision (no_started ch w).
Proof. unfold no_started. apply _. Defined.
#[export] Instance fresh_channel_dec c : Decision (fresh_channel c).
Proof.
  refine (cast_if (decide ((ch_io c = [] ∧ ch_active_reads c = 0 ∧ q_head (ch_queue c) = 0 ∧ q_tail (ch_queue c) = 0) ∧
    length (ch_stripe_fetches c) = 8%nat ∧ Forall (λ s, sf_active s = false) (ch_stripe_fetches c) ∧
    ring_sq (ch_ring c) = [] ∧ ring_inflight (ch_ring c) = [] ∧ ring_cq (ch_ring c) = []))).
  - abstract (match goal with H : _ ∧ _ |- _ => destruct H as ((? & ? & ? & ?) & ? & Hs & ? & ? & ?) end;
      split; [done..| |by destruct (ch_ring c); simpl in *; subst]; split; [done|]; intros slot s Hl;
      rewrite Forall_forall in Hs; by eapply Hs, list_elem_of_lookup_2).
  - abstract (intros [? ? [? ?] [? Hs] Hr]; match goal with H : ¬ _ |- _ => apply H end; rewrite Hr;
      split_and!; try done; apply Forall_forall; intros s [slot Hl]%list_elem_of_lookup_1; by apply (Hs slot)).
Defined.

#[export] Instance enabled_dec w ev : Decision (enabled w ev).
Proof.
  destruct ev as [ch io i|ch|ch e res|r b|io b|ch c|ch]; simpl; try apply _.
  - destruct (w_chs w !! ch) as [c|].
    + destruct (decide (io ∉ ids [] w ∧ io_ok (layout_of (w_ub w)) i ∧
        queue_length (ch_queue c) + 1 < UBI_FETCH_QUEUE_SIZE)) as [H|H].
      * left. abstract (destruct H as (? & ? & ?); eauto).
      * right. abstract (intros (? & ? & c' & [= <-] & ?); by apply H).
    + right. abstract (by intros (_ & _ & c & [=] & _)).
  - destruct (w_chs w !! ch) as [c|].
    + destruct (decide (e ∈ ring_inflight (ch_ring c))) as [H|H].
      * left. abstract (eauto).
      * right. abstract (by intros (c' & [= <-] & ?)).
    + right. abstract (by intros (c & [=] & _)).
  - destruct (w_chs w !! ch) as [c|].
    + destruct (decide (idle_channel c ∧ no_started ch w)) as [H|H].
      * left. abstract (eauto).
      * right. abstract (by intros (c' & [= <-] & ?)).
    + right. abstract (by intros (c & [=] & _)).
Defined.

(** Runs a list of events with one environment, checking that each can happen. *)
Fixpoint run_events {E : ext_env} (tr : list event) (w : world) : option world :=
  match tr with
  | [] => Some w
  | ev :: tr' =>
      if decide (enabled w ev) then
        match run_event ev w with Done _ w' => run_events tr' w' | _ => None end
      else None
  end.

Lemma run_events_sound {E : ext_env} (P : ext_env → event → Prop) tr : ∀ w0 tr0 w w',
  run P w0 tr0 w → (∀ ev, ev ∈ tr → P E ev) → run_events tr w = Some w' →
  run P w0 (tr0 ++ tr) w'.
Proof.
  induction tr as [|ev tr IH]; intros w0 tr0 w w' Hrun HP Hev; simpl in Hev.
  { simplify_eq. by rewrite app_nil_r. }
  destruct (decide (enabled w ev)) as [Hen|]; [|done].
  destruct (run_event ev w) as [[] w1| |] eqn:Hs; try done.
  replace (tr0 ++ ev :: tr) with ((tr0 ++ [ev]) ++ tr) by by rewrite <-app_assoc.
  apply IH with w1; [|intros; apply HP; by right|done].
  apply run_snoc with w E; try done. apply HP. left.
Qed.

(** ** A concrete system

    One channel, blocks of 512 bytes, stripes of 64 KiB, an image of two
    stripes of which the second is already fetched. *)

Definition demo_bdev : spdk_bdev := mk_bdev 1 (Some "ubi0") 512 4096 true "Ubi disk" 128 true 12.
Definition demo_ubi : ubi_bdev :=
  mk_ubi_bdev demo_bdev (mk_base_info None None) "/image" 64 128 7 16384 256 4096
    false true true (λ k, if k =? 1 then STRIPE_FETCHED else STRIPE_NOT_FETCHED)
    metadata_zero 1 1 0.
Definition demo_channel : ubi_io_channel :=
  mk_channel 0 0 0 0 (replicate 8 (mk_stripe_fetch UBI_STRIPE_FETCH false 0 0 0))
    (mk_queue (λ _, 0) 0 0) 3 (mk_ring [] [] []) 0 [].
Definition demo_world : world := mk_world demo_ubi {[ 1 := demo_channel ]} ∅ [] [] [] [] 0.

(** Room on the ring, every entry submitted, requests accepted, buffers at
    once, completions visible. *)
Definition demo_env : ext_env := λ w c,
  match c with
  | CallUringSubmit ch =>
      match w_chs w !! ch with Some c => Z.of_nat (length (ring_sq (ch_ring c))) | None => 0 end
  | CallBase _ => 0
  | CallPeekBatchCqe _ => 64
  | CallGetSqe _ | CallGetBuf _ _ => 1
  end.

Definition demo_io (t : spdk_bdev_io_type) (off num : Z) : spdk_bdev_io :=
  mk_bdev_io t off num 0 0 0 (mk_ubi_io UBI_BDEV_IO 0 0 0 0).

(** A write to the fetched stripe, a write and a read of the other one. *)
Definition demo_arrivals : list event :=
  [EvSubmit 1 10 (demo_io SPDK_BDEV_IO_TYPE_WRITE 130 8);
   EvSubmit 1 11 (demo_io SPDK_BDEV_IO_TYPE_WRITE 3 1);
   EvSubmit 1 12 (demo_io SPDK_BDEV_IO_TYPE_READ 3 1)].
Definition demo_fetching : list event :=
  demo_arrivals ++
  [EvPoll 1; EvImageRead 1 (SqeRead 0 65536 0) 65536; EvPoll 1].
Definition demo_trace : list event :=
  demo_fetching ++
  [EvBase (RqStripeWrite 1 0 8388608 65536) true; EvPoll 1;
   EvBase (RqWrite 11 16387 1 (mk_ext_opts 0 0 0)) true;
   EvBase (RqWrite 10 16514 8 (mk_ext_opts 0 0 0)) true;
   EvBase (RqRead 12 16387 1 (mk_ext_opts 0 0 0)) true;
   EvSubmit 1 13 (demo_io SPDK_BDEV_IO_TYPE_FLUSH 0 4096); EvPoll 1].
Definition demo_state (tr : list event) : world :=
  default demo_world (run_events (E := demo_env) tr demo_world).

#[export] Instance demo_env_ok : env_ok demo_env.
Proof.
  split.
  - done.
  - intros w ch c Hc _. unfold ext_result, demo_env. by rewrite Hc.
  - intros w ch c slot n o Hc _. unfold ext_result, demo_env. rewrite Hc. lia.
Qed.

Lemma demo_initial : initial demo_world.
Proof.
  split; simpl.
  - split_and!; [split|..]; cbn; unfold UBI_STRIPE_SIZE_MIN, UBI_STRIPE_SIZE_MAX, UBI_METADATA_SIZE,
      UBI_MAX_STRIPES; try lia; done.
  - intros k. destruct (k =? 1); auto.
  - intros ch c [_ <-]%lookup_singleton_Some. split; try done. split; [done|].
    intros slot s Hs%lookup_replicate_1. by destruct Hs as [-> _].
  - done.
Qed.

(** Every prefix of the demonstration trace is a run. *)
Lemma demo_run tr : bool_decide (is_Some (run_events (E := demo_env) tr demo_world)) = true →
  (∀ ev, ev ∈ tr → lossless_step demo_env ev) → run lossless_step demo_world tr (demo_state tr).
Proof.
  intros [w Hw]%bool_decide_eq_true Hl. unfold demo_state. rewrite Hw. simpl.
  eapply (run_events_sound lossless_step tr demo_world []); [constructor|done|done].
Qed.

Lemma run_weaken (P Q : ext_env → event → Prop) w0 tr w : (∀ E ev, P E ev → Q E ev) →
  run P w0 tr w → run Q w0 tr w.
Proof. intros HPQ. induction 1; [constructor|]. eapply run_snoc; eauto. Qed.

Lemma demo_lossless ev : ev ∈ demo_trace → lossless_step demo_env ev.
Proof.
  intros Hev. split; [apply _|]. split; [done|].
  repeat (apply elem_of_cons in Hev as [->|Hev]; [done|]). by apply not_elem_of_nil in Hev.
Qed.

Lemma demo_trace_run : run lossless_step demo_world demo_trace (demo_state demo_trace).
Proof. apply demo_run; [by vm_compute|exact demo_lossless]. Qed.

Lemma demo_fetching_run : run any_step demo_world demo_fetching (demo_state demo_fetching).
Proof.
  apply (run_weaken lossless_step); [by intros ? ? []|]. apply demo_run; [by vm_compute|].
  intros ev Hev. apply demo_lossless. apply elem_of_app. by left.
Qed.

Lemma demo_arrivals_run : run any_step demo_world demo_arrivals (demo_state demo_arrivals).
Proof.
  apply (run_weaken lossless_step); [by intros ? ? []|]. apply demo_run; [by vm_compute|].
  intros ev Hev. apply demo_lossless. do 2 (apply elem_of_app; left). done.
Qed.

Lemma demo_trace_any : run any_step demo_world demo_trace (demo_state demo_trace).
Proof. apply (run_weaken lossless_step); [by intros ? ? []|]. apply demo_trace_run. Qed.
