(* ===== verification/Moves.v ===== *)
(** Partial correctness of the handlers: relations between the states before
    and after a computation that returns.

    [moves R m] says that [m] moves the state along [R] whenever it returns.
    It needs no invariant, so it complements [wp]: what a handler leaves alone,
    and what it may only increase or decrease, follows from the primitive
    operations it is made of. *)
From stdpp Require Import base tactics list gmap option numbers functions strings relations.
From Stdlib Require Import ZArith Lia.
From S2P Require Import Prelude Types World FetchQueue Stripe Flush IoChannel Submit.
From S2P Require Import FetchProtocol IoInv Refine System.

Local Open Scope Z_scope.

Definition moves {A} (R : relation world) (m : M world A) : Prop :=
  ∀ w a w', m w = Done a w' → R w w'.

(** States with the same observation. *)
Definition same {X} (f : world → X) : relation world := λ w w', f w' = f w.

#[export] Instance same_preorder {X} (f : world → X) : PreOrder (same f).
Proof. split; [done|]. intros w1 w2 w3 H1 H2. unfold same in *. congruence. Qed.

Section Moves.
Context {E : ext_env}.
Implicit Types R S T : relation world.

(** Sequencing, with a relation for each part. *)
Lemma moves_seq {A B} R S T (m : M world A) (f : A → M world B) :
  moves R m → (∀ a, moves S (f a)) →
  (∀ w1 w2 w3, R w1 w2 → S w2 w3 → T w1 w3) → moves T (mbind f m).
Proof.
  intros Hm Hf HT w b w'. unfold mbind, M_bind. destruct (m w) as [a w1| |] eqn:H1; try done.
  intros H2. eapply HT; [by eapply Hm|by eapply Hf].
Qed.

Lemma moves_weaken {A} R S (m : M world A) : (∀ w w', R w w' → S w w') → moves R m → moves S m.
Proof. intros HRS Hm w a w' H. by eapply HRS, Hm. Qed.

Lemma moves_undef {A} R : moves (A := A) R undef.
Proof. by intros w a w'. Qed.
Lemma moves_nofuel {A} R : moves (A := A) R nofuel.
Proof. by intros w a w'. Qed.
Lemma moves_modify R (f : world → world) : (∀ w, R w (f w)) → moves R (modify f).
Proof. intros Hf w a w' [= _ <-]. apply Hf. Qed.

Context (R : relation world) `{!PreOrder R}.

Lemma moves_bind {A B} (m : M world A) (f : A → M world B) :
  moves R m → (∀ a, moves R (f a)) → moves R (mbind f m).
Proof. intros Hm Hf. eapply moves_seq; [done..|]. intros. by etransitivity. Qed.
Lemma moves_ret {A} (a : A) : moves R (mret a).
Proof. by intros w a' w' [= _ <-]. Qed.
Lemma moves_gets {A} (f : world → A) : moves R (gets f).
Proof. by intros w a w' [= _ <-]. Qed.
Lemma moves_of_option {A} (o : option A) : moves R (of_option o).
Proof. destruct o; [apply moves_ret|apply moves_undef]. Qed.

(** A field of the state is read, and the state is changed by what was read. *)
Lemma moves_get_ub {A} (f : ubi_bdev → M world A) :
  (∀ w a w', f (w_ub w) w = Done a w' → R w w') → moves R (mbind f get_ub).
Proof. intros Hf w a w' H. by eapply Hf. Qed.
End Moves.

(** Follows the structure of a computation down to the calls that [pre] deals
    with and the updates of the state, which [upd] has to justify. *)
Ltac walk pre upd := repeat first
  [ pre | apply moves_bind; [apply _| |intros ?] | apply moves_ret; apply _ | apply moves_undef | apply moves_nofuel
  | apply moves_gets; apply _ | apply moves_of_option; apply _ | apply moves_modify; intros ?; solve [upd]
  | progress case_match | case_decide
  | progress unfold get_ub, put_ub, get_ch, put_ch, upd_ch, get_io, put_io, get_uio, get_slot, upd_slot, ext,
      base_submit, spdk_bdev_io_complete, spdk_bdev_free_io, ubi_get_stripe_status, ubi_set_stripe_status,
      stripe_queue_empty, dequeue_stripe, io_uring_get_sqe, io_uring_prep, io_uring_submit,
      io_uring_peek_batch_cqe, io_uring_cqe_seen ].
Ltac moves_with tac := walk fail tac.
Ltac moves := moves_with ltac:(done).

Lemma bind_done {A B} (m : M world A) (f : A → M world B) w b w' :
  mbind f m w = Done b w' → ∃ a w1, m w = Done a w1 ∧ f a w1 = Done b w'.
Proof. unfold mbind, M_bind. destruct (m w) as [a w1| |]; try done. by exists a, w1. Qed.

Lemma get_ch_done ch w c w' : get_ch ch w = Done c w' → w_chs w !! ch = Some c ∧ w' = w.
Proof.
  unfold get_ch, mbind, M_bind, gets, of_option, id. destruct (w_chs w !! ch) as [c0|]; [|done].
  by intros [= <- <-].
Qed.

Lemma upd_ch_done ch f w a w' : upd_ch ch f w = Done a w' →
  ∃ c, w_chs w !! ch = Some c ∧ w' = set_ch ch (f c) w.
Proof.
  intros (c & w1 & [Hc ->]%get_ch_done & H)%bind_done. exists c. split; [done|].
  unfold put_ch, modify in H. by injection H as _ <-.
Qed.

Lemma gets_done {X} (f : world → X) w x w' : gets f w = Done x w' → x = f w ∧ w' = w.
Proof. unfold gets. by intros [= <- <-]. Qed.

(** A field of the channels that an update leaves alone. *)
Definition same_chs {X} (g : ubi_io_channel → X) : relation world := same (λ w, g <$> w_chs w).

Section SameChs.
Context {X : Type} (g : ubi_io_channel → X).

Lemma fmap_set_ch w ch c c' : w_chs w !! ch = Some c → g c' = g c →
  g <$> w_chs (set_ch ch c' w) = g <$> w_chs w.
Proof. intros Hc Hg. simpl. rewrite fmap_insert, Hg. apply insert_id. by rewrite lookup_fmap, Hc. Qed.

Lemma same_upd_ch ch f : (∀ c, g (f c) = g c) → moves (same_chs g) (upd_ch ch f).
Proof. intros Hf w a w' (c & Hc & ->)%upd_ch_done. by apply fmap_set_ch with c. Qed.

Lemma same_upd_slot ch slot f : (∀ c l, g (with_stripe_fetches l c) = g c) →
  moves (same_chs g) (upd_slot ch slot f).
Proof.
  intros Hf w a w' (c & w1 & [Hc ->]%get_ch_done & H)%bind_done.
  apply bind_done in H as (s & w1 & H1 & H). unfold of_option in H1.
  destruct (_ !! slot); [|done]. injection H1 as _ <-. unfold put_ch, modify in H. injection H as _ <-.
  by apply (fmap_set_ch w ch c).
Qed.

Lemma same_chs_lookup w w' ch c : same_chs g w w' → w_chs w !! ch = Some c →
  ∃ c', w_chs w' !! ch = Some c' ∧ g c' = g c.
Proof.
  intros Hs Hc. assert (H : (g <$> w_chs w') !! ch = Some (g c)) by (rewrite Hs, lookup_fmap, Hc; done).
  rewrite lookup_fmap in H. destruct (w_chs w' !! ch) as [c'|]; [|done]. exists c'.
  by injection H as <-.
Qed.
End SameChs.

(** Computations that leave a field of the channels alone. *)
Ltac same_chs := repeat first
  [ apply same_upd_ch; by intros ? | apply same_upd_slot; by intros ? ?
  | apply moves_bind; [apply _| |intros ?] | apply moves_ret; apply _ | apply moves_undef
  | apply moves_gets; apply _ | apply moves_of_option; apply _ | apply moves_modify; by intros ?
  | progress case_match | case_decide
  | progress unfold get_ub, put_ub, get_ch, get_io, put_io, get_uio, get_slot, ext, base_submit,
      spdk_bdev_io_complete, ubi_get_stripe_status, ubi_set_stripe_status ].
#[export] Instance same_chs_preorder {X} (g : ubi_io_channel → X) : PreOrder (same_chs g).
Proof. apply same_preorder. Qed.

(** The request is freed first by every callback. *)
Lemma free_io_done {A} r w l (m : M world A) a w' : w_fin w = r :: l →
  (spdk_bdev_free_io r;; m) w = Done a w' → m (with_fin l w) = Done a w'.
Proof.
  intros Hfin. unfold spdk_bdev_free_io, mbind, M_bind, gets, modify, id. cbn beta iota.
  by rewrite Hfin, remove_one_head.
Qed.

(** A callback frees its request and no other. *)
Lemma callback_fin {E : ext_env} r success w w' l : w_fin w = r :: l →
  callback r success w = Done tt w' → w_fin w' = l.
Proof.
  intros Hfin.
  assert (Hfree : ∀ m, moves (same w_fin) m → (spdk_bdev_free_io r;; m) w = Done tt w' → w_fin w' = l).
  { intros m Hm H. apply (free_io_done r w l m tt w' Hfin), Hm in H. exact H. }
  destruct r; simpl; apply Hfree; unfold ubi_set_stripe_status, ubi_complete_io; moves.
Qed.

Lemma base_event_done {E : ext_env} r success w w' l : remove_one r (w_pend w) = Some l →
  run_event (EvBase r success) w = Done tt w' →
  callback r success (with_fin (r :: w_fin w) (with_pend l w)) = Done tt w'.
Proof.
  intros Hrm H. cbn [run_event] in H. unfold mbind, M_bind, gets, modify, id in H. by rewrite Hrm in H.
Qed.

(** Between events no request waits for its callback. *)
Lemma step_fin `{!env_ok E} w ev w' : inv [] w → w_fin w = [] → enabled w ev →
  run_event (E := E) ev w = Done tt w' → w_fin w' = [].
Proof.
  intros Hinv Hfin Hen Hs. pose proof (step_spec w ev Hinv Hen) as Hwp. unfold wp in Hwp. rewrite Hs in Hwp.
  destruct Hwp as [_ _ _ _ _ Hcalm].
  assert (Hquiet : calm w w' → w_fin w' = []).
  { intros Hc. apply suffix_nil_inv. rewrite <-Hfin. apply Hc. }
  destruct ev as [ch io i|ch|ch e res|r success|io success|ch c|ch]; [by apply Hquiet..| | |by apply Hquiet|by simpl in Hcalm; subst|by simpl in Hcalm; subst].
  - destruct Hcalm as (c & r & _ & _ & ->). exact Hfin.
  - destruct Hcalm as (l & Hrm & _). apply (base_event_done _ _ _ _ _ Hrm) in Hs.
    eapply callback_fin; [|exact Hs]. simpl. by rewrite Hfin.
Qed.

Lemma run_fin w0 tr w : initial w0 → run any_step w0 tr w → w_fin w = [].
Proof.
  intros Hw0 Hrun. induction Hrun as [w0|w0 tr w1 E ev w2 Hrun IH HE Hen Hs].
  { by destruct (init_lists _ Hw0) as (_ & ? & _). }
  unfold any_step in HE. by apply (step_fin w1 ev w2 (run_inv _ _ _ Hw0 Hrun) (IH Hw0) Hen Hs).
Qed.
