(* ===== verification/Outcome.v ===== *)
(** What the answers of the module rest on: the calls of
    [spdk_bdev_io_complete] that an event makes, and why one of them reports
    success. *)
From stdpp Require Import base tactics list gmap option numbers functions strings relations.
From Stdlib Require Import ZArith Lia.
From S2P Require Import Prelude Types World FetchQueue Stripe Flush IoChannel Submit.
From S2P Require Import FetchProtocol IoInv Refine System Moves.

Local Open Scope Z_scope.

(** * Relations *)

(** What a caller asked for, which no handler changes. *)
Definition shape (i : spdk_bdev_io) : spdk_bdev_io_type * Z * Z :=
  (io_type i, io_offset_blocks i, io_num_blocks i).
Definition shapes (w : world) : gmap Z (spdk_bdev_io_type * Z * Z) := shape <$> w_ios w.
Definition is_flush (w : world) (io : Z) : Prop :=
  ∃ i, w_ios w !! io = Some i ∧ io_type i = SPDK_BDEV_IO_TYPE_FLUSH.

Lemma shapes_flush w w' io : shapes w' = shapes w → is_flush w' io → is_flush w io.
Proof.
  intros Hs (i & Hi & Ht). assert (H : shapes w !! io = Some (shape i)) by (rewrite <-Hs; unfold shapes; by rewrite lookup_fmap, Hi).
  unfold shapes in H. rewrite lookup_fmap in H. destruct (w_ios w !! io) as [j|] eqn:Hj; [|done].
  exists j. split; [done|]. injection H as H _ _. congruence.
Qed.

(** Requests are answered; those answered with success are in [S], or flushes. *)
Definition answers (S : list Z) : relation world := λ w w',
  shapes w' = shapes w ∧ ∃ new, w_done w' = new ++ w_done w ∧
  ∀ io, (io, SPDK_BDEV_IO_STATUS_SUCCESS) ∈ new → io ∈ S ∨ is_flush w io.

#[export] Instance answers_preorder S : PreOrder (answers S).
Proof.
  split.
  - intros w. split; [done|]. exists []. split; [done|]. by intros io ?%not_elem_of_nil.
  - intros w1 w2 w3 [Hs1 (n1 & Hd1 & H1)] [Hs2 (n2 & Hd2 & H2)]. split; [congruence|]. exists (n2 ++ n1).
    split; [by rewrite Hd2, Hd1, (assoc_L (++))|]. intros io [Hin|Hin]%elem_of_app; [|by apply H1].
    destruct (H2 io Hin) as [?|?]; [by left|right; by eapply shapes_flush].
Qed.

Lemma answers_more S T w w' : S ⊆ T → answers S w w' → answers T w w'.
Proof.
  intros HST [Hs (new & Hd & Hn)]. split; [done|]. exists new. split; [done|].
  intros io Hin. destruct (Hn io Hin); auto.
Qed.

Lemma answers_none S w w' : shapes w' = shapes w → w_done w' = w_done w → answers S w w'.
Proof. intros Hs Hd. split; [done|]. exists []. split; [done|]. by intros io ?%not_elem_of_nil. Qed.

Lemma answers_one S w io st : (st = SPDK_BDEV_IO_STATUS_SUCCESS → io ∈ S) →
  answers S w (with_done ((io, st) :: w_done w) w).
Proof.
  intros Hst. split; [done|]. exists [(io, st)]. split; [done|].
  intros io' [= <- <-]%list_elem_of_singleton. left. by apply Hst.
Qed.

(** The flush itself is one of the exceptions. *)
Lemma answers_flush S w w' io : is_flush w io → answers (io :: S) w w' → answers S w w'.
Proof.
  intros Hf [Hs (new & Hd & Hn)]. split; [done|]. exists new. split; [done|].
  intros io' Hin. destruct (Hn io' Hin) as [[->|?]%elem_of_cons|?]; auto.
Qed.

(** * The handlers *)

(** The updates that answer nothing, and the answers that are failures. *)
Ltac answer := intros; first [by apply answers_none | apply answers_one; by intros [=]].
Ltac answers_with tac := walk tac ltac:(answer).

Section Handlers.
Context {E : ext_env}.

(** An I/O object is read and its driver context replaced. *)
Lemma touch_io io g w a w' (i0 : spdk_bdev_io) : (∀ i, shape (g i) = shape i) → w_ios w !! io = Some i0 →
  put_io io (g i0) w = Done a w' → shapes w' = shapes w ∧ w_done w' = w_done w.
Proof.
  intros Hg Hi [= _ <-]. split; [|done]. unfold shapes; simpl. rewrite fmap_insert, Hg.
  apply insert_id. by rewrite lookup_fmap, Hi.
Qed.

Lemma get_io_done io w i w' : get_io io w = Done i w' → w_ios w !! io = Some i ∧ w' = w.
Proof.
  unfold get_io. intros (? & ? & [-> ->]%gets_done & Hi)%bind_done. unfold of_option, id in Hi.
  destruct (w_ios w !! io); [|done]. by injection Hi as -> <-.
Qed.

Lemma answers_touch_io {A} S io g (rest : spdk_bdev_io → M world A) :
  (∀ i, shape (g i) = shape i) → (∀ i, moves (answers S) (rest i)) →
  moves (answers S) (i ← get_io io; put_io io (g i);; rest i).
Proof.
  intros Hg Hrest w a w' (i & w1 & [Hi ->]%get_io_done & H)%bind_done.
  apply bind_done in H as (? & w1 & H1 & H). destruct (touch_io io g w _ w1 i Hg Hi H1) as [Hs Hd].
  transitivity w1; [by apply answers_none|by eapply Hrest].
Qed.

Lemma answers_complete_io S io b : (b = true → io ∈ S) → moves (answers S) (ubi_complete_io io b).
Proof.
  intros Hb. unfold ubi_complete_io. answers_with fail.
  all: apply moves_modify; intros w; apply answers_one; destruct b; [auto|by intros [=]].
Qed.

Lemma answers_get_buf S io b : moves (answers S) (get_buf_for_read_cb io b).
Proof.
  unfold get_buf_for_read_cb, ubi_submit_read_request. answers_with ltac:(apply answers_complete_io; done).
Qed.

Lemma answers_start_fetches S ch free : moves (answers S) (start_fetches ch free).
Proof.
  induction free as [|slot free IH]; cbn [start_fetches]; unfold ubi_start_fetch_stripe, ubi_fail_stripe_fetch;
    answers_with ltac:(apply IH).
Qed.

(** The requests whose image read was completed without an error. *)
Definition read_done (x : sqe * Z) : option Z := if 0 <=? x.2 then readv_of x.1 else None.

Lemma answers_handle_cqe S ch e res : (∀ io, read_done (e, res) = Some io → io ∈ S) →
  moves (answers S) (handle_cqe ch e res).
Proof.
  intros HS. destruct e as [slot n o|io o]; cbn [handle_cqe].
  - unfold ubi_complete_fetch_stripe, ubi_fail_stripe_fetch. answers_with fail.
  - apply moves_bind; [apply _|answers_with fail|intros u]. destruct (uio_op u); [|apply moves_undef].
    unfold ubi_complete_read_from_image. unfold read_done in HS. cbn in HS.
    destruct (Z.ltb_spec res 0) as [Hn|Hn]; [rewrite (proj2 (Z.leb_gt _ _)) in HS by done|rewrite (proj2 (Z.leb_le _ _)) in HS by done];
      (apply moves_bind; [apply _|apply answers_complete_io; auto|intros _; answers_with fail]).
    done.
Qed.

Lemma answers_handle_cqes S ch l : (∀ io, io ∈ omap read_done l → io ∈ S) →
  ∀ ret, moves (answers S) (handle_cqes ch l ret).
Proof.
  induction l as [|[e res] l IH]; intros HS ret; cbn [handle_cqes]; [answers_with fail|].
  assert (H1 : ∀ io, read_done (e, res) = Some io → io ∈ S).
  { intros io Hio. apply HS. cbn. rewrite Hio. left. }
  assert (H2 : ∀ io, io ∈ omap read_done l → io ∈ S).
  { intros io Hio. apply HS. cbn. destruct (read_done (e, res)); [by right|done]. }
  apply moves_bind; [apply _|by apply answers_handle_cqe|intros ret'].
  apply moves_bind; [apply _|answers_with fail|intros _; by apply IH].
Qed.

Lemma answers_service_io S ch io : moves (answers S) (service_io ch io).
Proof.
  unfold service_io. intros w a w' (i & w1 & [Hi ->]%get_io_done & H)%bind_done.
  apply bind_done in H as (? & w1 & H1 & H).
  destruct (touch_io io (init_driver_ctx ch) w _ w1 i ltac:(done) Hi H1) as [Hs Hd].
  transitivity w1; [by apply answers_none|].
  destruct (io_type i) eqn:Ht;
    try solve [lazymatch type of H with ?m w1 = _ => assert (Hm : moves (answers S) m); [|exact (Hm _ _ _ H)] end;
      unfold spdk_bdev_io_get_buf, ubi_submit_write_request; answers_with ltac:(apply answers_get_buf)].
  apply answers_flush with io.
  - exists (init_driver_ctx ch i). injection H1 as _ <-. simpl. by rewrite lookup_insert_eq.
  - lazymatch type of H with ?m w1 = _ => assert (Hm : moves (answers (io :: S)) m); [|exact (Hm _ _ _ H)] end.
    unfold ubi_submit_flush_request. answers_with fail.
    all: apply moves_modify; intros; apply answers_one; intros _; left.
Qed.

Lemma answers_process_ios S fuel ch : moves (answers S) (process_ios fuel ch).
Proof.
  induction fuel as [|fuel IH]; [apply moves_nofuel|]. cbn [process_ios]. unfold io_verdict.
  answers_with ltac:(first [apply IH|apply answers_service_io]).
Qed.

(** A poll answers, with success, image reads that the kernel completed. *)
Lemma answers_poll ch w c n w' : w_chs w !! ch = Some c → ubi_io_poll ch w = Done n w' →
  answers (omap read_done (ring_cq (ch_ring c))) w w'.
Proof.
  intros Hc (c0 & w0 & [Hc0 ->]%get_ch_done & H)%bind_done. simplify_eq.
  apply bind_done in H as (r & w1 & H1 & H). transitivity w1.
  - apply bind_done in H1 as (b & w2 & Hb & H1). unfold io_uring_peek_batch_cqe in Hb.
    apply bind_done in Hb as (k & w3 & Hr & Hb). unfold ext, mbind, M_bind, gets, modify in Hr. injection Hr as <- <-.
    apply bind_done in Hb as (c' & w4 & [Hc' ->]%get_ch_done & Hb). simpl in Hc'. simplify_eq.
    injection Hb as <- <-. transitivity (with_tick (S (w_tick w)) w); [by apply answers_none|].
    destruct (_ <? 0); [destruct (_ =? _); injection H1 as _ <-; done|].
    eapply answers_handle_cqes; [|exact H1]. intros io (x & Hx & Hio)%list_elem_of_omap.
    apply list_elem_of_omap. exists x. split; [|done]. exact (subseteq_take _ _ _ Hx).
  - lazymatch type of H with ?m w1 = _ => assert (Hm : moves (answers (omap read_done (ring_cq (ch_ring c)))) m); [|exact (Hm _ _ _ H)] end.
    unfold submit_image_reads. answers_with ltac:(first [apply answers_process_ios|apply answers_start_fetches]).
Qed.

(** A callback answers its own request. *)
Lemma answers_callback (r : base_req) (success : bool) :
  moves (answers (if success then option_list (req_io r) else ([] : list Z))) (callback r success).
Proof.
  destruct r; cbn [callback req_io option_list]; unfold write_stripe_io_completion, ubi_io_completion_cb, ubi_data_flush_completion,
    ubi_metadata_write_completion, ubi_metadata_flush_completion.
  all: destruct success; answers_with ltac:(first [apply answers_complete_io; by intros; first [left|done]
    |apply answers_touch_io; [done|intros ?]|apply moves_modify; intros ?; apply answers_one; intros _; left]).
Qed.
End Handlers.

(** * Events *)

(** The result of a completion. *)
Definition status_of (success : bool) : spdk_bdev_io_status :=
  if success then SPDK_BDEV_IO_STATUS_SUCCESS else SPDK_BDEV_IO_STATUS_FAILED.

(** The calls of [spdk_bdev_io_complete] in a step, the latest first. *)
Definition new_done (w w' : world) : list (Z * spdk_bdev_io_status) :=
  take (length (w_done w') - length (w_done w)) (w_done w').

Lemma new_done_app w w' new : w_done w' = new ++ w_done w → new_done w w' = new.
Proof.
  intros Hd. unfold new_done. rewrite Hd, length_app.
  replace (length new + length (w_done w) - length (w_done w))%nat with (length new) by lia. apply take_app_length.
Qed.

(** What the success of a request rests on: the base bdev reported success for
    it, the kernel completed its read of the image without an error, or it is
    a flush. *)
Definition succeeds (w : world) (ev : event) (io : Z) : Prop :=
  match ev with
  | EvBase r true => req_io r = Some io
  | EvPoll ch => ∃ c o res, w_chs w !! ch = Some c ∧ (SqeReadv io o, res) ∈ ring_cq (ch_ring c) ∧ 0 ≤ res
  | _ => False
  end.

Section Events.
Context {E : ext_env}.

Lemma event_answers ev w w' : run_event ev w = Done tt w' →
  w_done w' = new_done w w' ++ w_done w ∧
  shapes w' = match ev with EvSubmit _ io i => <[io := shape i]> (shapes w) | _ => shapes w end ∧
  ∀ io, (io, SPDK_BDEV_IO_STATUS_SUCCESS) ∈ new_done w w' → succeeds w ev io ∨ is_flush w' io.
Proof.
  intros H.
  assert (Hpost : ∀ w1 S, w_done w1 = w_done w → answers S w1 w' → (∀ io, io ∈ S → succeeds w ev io) →
    w_done w' = new_done w w' ++ w_done w ∧ shapes w' = shapes w1 ∧
    ∀ io, (io, SPDK_BDEV_IO_STATUS_SUCCESS) ∈ new_done w w' → succeeds w ev io ∨ is_flush w' io).
  { intros w1 S Hd1 [Hs (new & Hd & Hn)] HS. rewrite Hd1 in Hd. rewrite (new_done_app w w' new Hd).
    split; [done|]. split; [done|]. intros io Hin. destruct (Hn io Hin) as [?|Hf]; [left; auto|right].
    by apply (shapes_flush w' w1). }
  assert (Hmv : ∀ S (m : M world unit), moves (answers S) m → run_event ev = m → answers S w w').
  { intros S m Hm Hev. rewrite Hev in H. by apply Hm in H. }
  destruct ev as [ch io i|ch|ch e res|r success|io success|ch c|ch]; cbn [run_event] in H, Hmv.
  - apply bind_done in H as (? & w1 & H1 & H). injection H1 as _ <-.
    destruct (Hpost (set_io io i w) []) as (Hd & Hs & Hn); [done| |by intros ? ?%not_elem_of_nil|].
    + assert (Hm : moves (answers []) (ubi_submit_request ch io)); [|exact (Hm _ _ _ H)].
      unfold ubi_submit_request, enqueue_stripe. walk fail ltac:(answer).
    + split_and!; [done| |done]. rewrite Hs. unfold shapes. simpl. by rewrite fmap_insert.
  - apply bind_done in H as (n & w1 & H1 & H). injection H as <-.
    destruct (w_chs w !! ch) as [c|] eqn:Hc.
    2: { apply bind_done in H1 as (c & ? & [Hc' _]%get_ch_done & _). congruence. }
    apply (Hpost w (omap read_done (ring_cq (ch_ring c)))); [done|by eapply answers_poll|].
    intros io ([e res] & Hin & Hio)%list_elem_of_omap. unfold read_done in Hio. cbn in Hio.
    destruct (Z.leb_spec 0 res); [|done]. destruct e as [|io' o]; [done|]. injection Hio as ->. by exists c, o, res.
  - apply (Hpost w []); [done| |by intros ? ?%not_elem_of_nil]. eapply Hmv; [|done]. walk fail ltac:(answer).
  - apply (Hpost w (if success then option_list (req_io r) else [])); [done| |].
    + eapply Hmv; [|done]. walk ltac:(apply answers_callback) ltac:(answer).
    + intros io Hin. destruct success; [|by apply not_elem_of_nil in Hin]. simpl.
      destruct (req_io r) as [io'|]; [|by apply not_elem_of_nil in Hin]. by apply list_elem_of_singleton in Hin as ->.
  - apply (Hpost w []); [done| |by intros ? ?%not_elem_of_nil]. eapply Hmv; [|done].
    walk ltac:(apply answers_get_buf) ltac:(answer).
  - apply (Hpost w []); [done| |by intros ? ?%not_elem_of_nil]. injection H as <-. by apply answers_none.
  - apply (Hpost w []); [done| |by intros ? ?%not_elem_of_nil]. injection H as <-. by apply answers_none.
Qed.

(** The requests that were not answered, and not lost. *)
Definition open_ids (w : world) : list Z := queued_ids w ++ started_ids [] w.

(** An event answers open requests, and forgets the answered ones. *)
Lemma event_ids `{!env_ok E} ev w w' : inv [] w → enabled w ev → run_event ev w = Done tt w' →
  NoDup (submitted [ev] ++ open_ids w) ∧
  ∃ lost, lost ++ open_ids w' ++ (new_done w w').*1 ≡ₚ submitted [ev] ++ open_ids w.
Proof.
  intros Hinv Hen Hs. destruct (event_answers ev w w' Hs) as (Hd & _).
  pose proof (step_spec w ev Hinv Hen) as Hwp. unfold wp in Hwp. rewrite Hs in Hwp.
  destruct (st_ids _ _ _ Hwp) as (lost & Hp & _). split.
  - pose proof (ii_nodup _ _ (inv_io _ _ Hinv)) as Hnd. unfold ids in Hnd. rewrite (assoc_L (++)) in Hnd.
    apply NoDup_app in Hnd as (Hnd & _). destruct ev as [ch io i| | | | | |]; try exact Hnd.
    destruct Hen as (Hnew & _). simpl. constructor; [|exact Hnd]. intros Hin. apply Hnew.
    unfold ids. rewrite (assoc_L (++)). apply elem_of_app. by left.
  - exists lost. apply (Permutation_app_inv_r (w_done w).*1). unfold ids in Hp. rewrite Hd, fmap_app in Hp.
    unfold open_ids. by rewrite <-!(assoc_L (++)) in *.
Qed.

(** A read or write of the base bdev is answered with its result. *)
Definition rw_of (r : base_req) : option Z :=
  match r with RqRead io _ _ _ | RqWrite io _ _ _ => Some io | _ => None end.

Lemma rw_answer r success io w w' l : rw_of r = Some io →
  remove_one r (w_pend w) = Some l → run_event (EvBase r success) w = Done tt w' →
  new_done w w' = [(io, status_of success)].
Proof.
  intros Hr Hrm H. apply new_done_app. apply (base_event_done _ _ _ _ _ Hrm) in H.
  assert (Hcb : ubi_io_completion_cb r success io (with_fin (r :: w_fin w) (with_pend l w)) = Done tt w')
    by (destruct r; try done; by injection Hr as ->).
  apply (free_io_done r _ (w_fin w)) in Hcb; [|done]. unfold ubi_complete_io in Hcb.
  apply bind_done in Hcb as (i & w1 & [_ ->]%get_io_done & Hcb).
  apply bind_done in Hcb as (? & w2 & H2 & Hcb). injection Hcb as <-. simpl.
  assert (Hd : w_done w2 = w_done (with_fin (w_fin w) (with_fin (r :: w_fin w) (with_pend l w)))).
  { lazymatch type of H2 with ?m ?w1 = _ => assert (Hm : moves (same w_done) m); [moves|exact (Hm _ _ _ H2)] end. }
  rewrite Hd. by destruct success.
Qed.
End Events.
