(* ===== verification/Idle.v ===== *)
(** A channel whose requests are completed is idle: it fetches no stripe, has
    nothing on its ring, and can be closed.

    A stripe is fetched only while a request waits for it: the request that
    enqueued the fetch stays in the queue of the channel until the stripe has
    left the INFLIGHT status, by success or by failure. *)
From stdpp Require Import base tactics list gmap option numbers functions strings relations.
From Stdlib Require Import ZArith Lia.
From S2P Require Import Prelude Types World Layout FetchQueue Stripe Metadata Flush IoChannel Submit.
From S2P Require Import FetchProtocol IoInv Refine System Moves.

Local Open Scope Z_scope.

(** * Patience *)

(** The request waits for the stripe [k] to leave the INFLIGHT status. *)
Definition wants (u : ubi_bdev) (i : spdk_bdev_io) (k : Z) : Prop :=
  io_type i ≠ SPDK_BDEV_IO_TYPE_FLUSH ∧ io_offset_blocks i < ub_image_block_count u ∧ i32 (stripe_of u (io_offset_blocks i)) = k.

(** What decides whether a request waits. *)
Definition io_place (i : spdk_bdev_io) : spdk_bdev_io_type * Z := (io_type i, io_offset_blocks i).
Definition geometry_of (u : ubi_bdev) : Z * Z := (ub_image_block_count u, ub_stripe_shift u).

(** No stripe gets INFLIGHT. *)
Definition no_flight (w w' : world) : Prop :=
  ∀ k, ub_stripe_status (w_ub w') k = STRIPE_INFLIGHT → ub_stripe_status (w_ub w) k = STRIPE_INFLIGHT.

(** Besides, the queues of the channels stay as they are. *)
Definition queues (w : world) : gmap Z (list Z) * gmap Z (spdk_bdev_io_type * Z) * (Z * Z) :=
  (ch_io <$> w_chs w, io_place <$> w_ios w, geometry_of (w_ub w)).
Definition steady (w w' : world) : Prop := queues w' = queues w ∧ no_flight w w'.

(** Requests are taken from a queue, but none whose stripe is INFLIGHT. *)
Record patient (w w' : world) : Prop := {
  pt_flight : no_flight w w';
  pt_geometry : geometry_of (w_ub w') = geometry_of (w_ub w);
  pt_ios : io_place <$> w_ios w' = io_place <$> w_ios w;
  pt_queue ch c : w_chs w !! ch = Some c → ∃ c', w_chs w' !! ch = Some c' ∧ ∀ io, io ∈ ch_io c →
    io ∈ ch_io c' ∨ ∀ i k, w_ios w !! io = Some i → wants (w_ub w) i k → ub_stripe_status (w_ub w') k ≠ STRIPE_INFLIGHT
}.

#[export] Instance steady_preorder : PreOrder steady.
Proof.
  split; [intros w; split; [done|by intros k]|]. intros w1 w2 w3 [Q1 F1] [Q2 F2]. split; [congruence|]. intros k Hk. by apply F1, F2.
Qed.

Lemma wants_same u u' i i' k : geometry_of u' = geometry_of u → io_place i' = io_place i → wants u i k → wants u' i' k.
Proof. unfold wants, geometry_of, io_place, stripe_of. intros [= -> ->] [= -> ->]. done. Qed.

Lemma place_lookup w w' io i : io_place <$> w_ios w' = io_place <$> w_ios w → w_ios w !! io = Some i →
  ∃ i', w_ios w' !! io = Some i' ∧ io_place i' = io_place i.
Proof.
  intros Heq Hi. assert (H : (io_place <$> w_ios w') !! io = Some (io_place i)) by (rewrite Heq, lookup_fmap, Hi; done).
  rewrite lookup_fmap in H. destruct (w_ios w' !! io) as [i'|]; [|done]. exists i'. split; [done|]. exact (inj Some _ _ H).
Qed.

#[export] Instance patient_preorder : PreOrder patient.
Proof.
  split.
  - intros w. split; [by intros k|done|done|]. intros ch c Hc. exists c. split; [done|]. by left.
  - intros w1 w2 w3 [F1 G1 I1 Q1] [F2 G2 I2 Q2]. split; [by intros k Hk; apply F1, F2|congruence|congruence|].
    intros ch c1 Hc1. destruct (Q1 ch c1 Hc1) as (c2 & Hc2 & H1). destruct (Q2 ch c2 Hc2) as (c3 & Hc3 & H2).
    exists c3. split; [done|]. intros io Hio. destruct (H1 io Hio) as [Hin|Hn].
    + destruct (H2 io Hin) as [?|Hn]; [by left|right]. intros i k Hi Hw.
      destruct (place_lookup _ _ io i I1 Hi) as (i' & Hi' & Hp). by eapply Hn; [|eapply wants_same].
    + right. intros i k Hi Hw Hk. by apply (Hn i k Hi Hw), F2.
Qed.

Lemma steady_patient w w' : steady w w' → patient w w'.
Proof.
  intros [Hq Hf]. unfold queues in Hq. assert (Hc : ch_io <$> w_chs w' = ch_io <$> w_chs w) by congruence.
  split; [done|congruence|congruence|]. intros ch c Hch.
  assert (H : (ch_io <$> w_chs w') !! ch = Some (ch_io c)) by (rewrite Hc, lookup_fmap, Hch; done).
  rewrite lookup_fmap in H. destruct (w_chs w' !! ch) as [c'|]; [|done]. exists c'. split; [done|].
  intros io Hio. left. by rewrite (inj Some _ _ H).
Qed.

(** * Handlers *)

Section Handlers.
Context {E : ext_env}.

Lemma steady_put_ch w ch c c' : w_chs w !! ch = Some c → ch_io c' = ch_io c → steady w (set_ch ch c' w).
Proof. intros Hc Hio. split; [|by intros k]. unfold queues. f_equal. f_equal. by apply (fmap_set_ch ch_io w ch c). Qed.

Lemma steady_upd_ch ch f : (∀ c, ch_io (f c) = ch_io c) → moves steady (upd_ch ch f).
Proof.
  intros Hf w a w' (c & Hc & ->)%upd_ch_done. by apply (steady_put_ch w ch c).
Qed.

Lemma steady_upd_slot ch slot f : moves steady (upd_slot ch slot f).
Proof.
  intros w a w' (c & w1 & [Hc ->]%get_ch_done & H)%bind_done.
  apply bind_done in H as (s & w1 & H1 & H). unfold of_option in H1.
  destruct (_ !! slot); [|done]. injection H1 as _ <-. unfold put_ch, modify in H. injection H as _ <-.
  by apply (steady_put_ch w ch c).
Qed.

Lemma steady_set_status i st : st ≠ STRIPE_INFLIGHT → moves steady (ubi_set_stripe_status i st).
Proof.
  intros Hst w a w' H. cbv [ubi_set_stripe_status get_ub put_ub mbind M_bind gets modify] in H.
  destruct (stripe_index_ok _); [|done]. injection H as _ <-. split; [by destruct st|].
  intros k Hk. cbn in Hk. assert (Heq : ub_stripe_status (set_status (i32 i) st (w_ub w)) k =
    (<[i32 i := st]> (ub_stripe_status (w_ub w))) k) by by destruct st.
  rewrite Heq in Hk. destruct (decide (i32 i = k)) as [<-|]; [by rewrite fn_lookup_insert in Hk|].
  by rewrite fn_lookup_insert_ne in Hk.
Qed.

Lemma steady_touch_io {A} io g (rest : spdk_bdev_io → M world A) :
  (∀ i, io_place (g i) = io_place i) → (∀ i, moves steady (rest i)) →
  moves steady (i ← get_io io; put_io io (g i);; rest i).
Proof.
  intros Hg Hrest w a w' (i & w1 & Hi & H)%bind_done. unfold get_io in Hi.
  apply bind_done in Hi as (? & ? & [-> ->]%gets_done & Hi). unfold of_option, id in Hi.
  destruct (w_ios w !! io) as [i0|] eqn:Hi0; [|done]. injection Hi as -> <-.
  apply bind_done in H as (? & w1 & H1 & H). injection H1 as _ <-. apply Hrest in H.
  etransitivity; [|exact H]. split; [|by intros k]. unfold queues. f_equal. f_equal. cbn.
  rewrite fmap_insert, Hg. apply insert_id. by rewrite lookup_fmap, Hi0.
Qed.
End Handlers.

Ltac steady_with tac := repeat first
  [ tac | apply steady_upd_ch; by intros ? | apply steady_upd_slot | apply steady_set_status; done
  | apply moves_bind; [apply _| |intros ?] | apply moves_ret; apply _ | apply moves_undef | apply moves_nofuel
  | apply moves_gets; apply _ | apply moves_of_option; apply _ | apply moves_modify; intros ?; split; [done|by intros ?]
  | progress case_match | case_decide
  | progress unfold get_ub, get_ch, get_io, get_uio, get_slot, ext, base_submit, spdk_bdev_io_complete,
      ubi_get_stripe_status, stripe_queue_empty, io_uring_get_sqe, io_uring_prep,
      io_uring_submit, io_uring_peek_batch_cqe, io_uring_cqe_seen ].
Ltac steady := steady_with fail.

Section Patient.
Context {E : ext_env}.

Lemma steady_dequeue ch : moves steady (dequeue_stripe ch).
Proof.
  intros w a w' (c & w1 & [Hc ->]%get_ch_done & H)%bind_done. destruct (queue_index_ok _); [|done].
  destruct (queue_pop (ch_queue c)) as [x q]. unfold put_ch, mbind, M_bind, modify in H. injection H as _ <-.
  by apply (steady_put_ch w ch c).
Qed.

Lemma steady_complete_io io b : moves steady (ubi_complete_io io b).
Proof. unfold ubi_complete_io. steady. Qed.

Lemma steady_get_buf io b : moves steady (get_buf_for_read_cb io b).
Proof. unfold get_buf_for_read_cb, ubi_submit_read_request, ubi_complete_io. steady. Qed.

Lemma steady_fail_fetch ch slot : moves steady (ubi_fail_stripe_fetch ch slot).
Proof. unfold ubi_fail_stripe_fetch. steady. Qed.

Lemma steady_service_io ch io : moves steady (service_io ch io).
Proof.
  unfold service_io. apply steady_touch_io; [done|]. intros i.
  unfold spdk_bdev_io_get_buf, ubi_submit_write_request, ubi_submit_flush_request.
  destruct (io_type i); steady_with ltac:(apply steady_get_buf).
Qed.

Lemma steady_start_fetches ch free : moves steady (start_fetches ch free).
Proof.
  induction free as [|slot free IH]; cbn [start_fetches]; unfold ubi_start_fetch_stripe;
    steady_with ltac:(first [apply IH|apply steady_fail_fetch|apply steady_dequeue]).
Qed.

Lemma steady_handle_cqes ch l : ∀ ret, moves steady (handle_cqes ch l ret).
Proof.
  induction l as [|[e res] l IH]; intros ret; cbn [handle_cqes]; [steady|].
  apply moves_bind; [apply _| |intros ret'; steady_with ltac:(apply IH)].
  destruct e; cbn [handle_cqe]; unfold ubi_complete_fetch_stripe, ubi_complete_read_from_image; 
    steady_with ltac:(first [apply steady_fail_fetch|apply steady_complete_io]).
Qed.

(** The dispatch loop takes requests off the queue, but none that waits. *)
Lemma io_verdict_done c i v w w' : io_verdict c i w = Done v w' → w' = w ∧
  (v ≠ VWait → ∀ k, wants (w_ub w) i k → ub_stripe_status (w_ub w) k ≠ STRIPE_INFLIGHT).
Proof.
  unfold io_verdict. intros (u & w1 & [-> ->]%gets_done & H)%bind_done.
  destruct (_ && (UBI_MAX_CONCURRENT_READS <=? _)); [injection H as <- <-; split; [done|by intros ?]|].
  destruct (bool_decide_reflect (io_type i = SPDK_BDEV_IO_TYPE_FLUSH)) as [Ht|Ht]; cbn [negb andb] in H.
  { injection H as <- <-. split; [done|]. by intros _ k [? _]. }
  destruct (Z.ltb_spec (io_offset_blocks i) (ub_image_block_count (w_ub w))) as [Hlt|Hge].
  2: { injection H as <- <-. split; [done|]. intros _ k (_ & ? & _). lia. }
  apply bind_done in H as (st & w1 & Hst & H). unfold ubi_get_stripe_status in Hst.
  apply bind_done in Hst as (u & w2 & [-> ->]%gets_done & Hst). destruct (stripe_index_ok _); [|done].
  injection Hst as <- <-. split.
  - repeat case_match; by injection H.
  - intros Hv k (_ & _ & <-) Hk. rewrite Hk in H. injection H as <- _. done.
Qed.

Lemma patient_take w ch c io rest i : w_chs w !! ch = Some c → ch_io c = io :: rest → w_ios w !! io = Some i →
  (∀ k, wants (w_ub w) i k → ub_stripe_status (w_ub w) k ≠ STRIPE_INFLIGHT) →
  patient w (set_ch ch (with_io rest c) w).
Proof.
  intros Hc Hio Hi Hw. split; [by intros k|done|done|]. intros ch0 c0 Hc0. cbn.
  destruct (decide (ch = ch0)) as [<-|Hne].
  - assert (c0 = c) as -> by congruence. exists (with_io rest c). rewrite lookup_insert_eq. split; [done|].
    intros io0. rewrite Hio, elem_of_cons. intros [->|?]; [right|by left].
    intros i0 k Hi0. assert (i0 = i) as -> by congruence. apply Hw.
  - exists c0. rewrite lookup_insert_ne by done. split; [done|]. by left.
Qed.

Lemma patient_process_ios fuel ch : moves patient (process_ios fuel ch).
Proof.
  induction fuel as [|fuel IH]; [apply moves_nofuel|]. cbn [process_ios].
  intros w a w' (c & w1 & [Hc ->]%get_ch_done & H)%bind_done. destruct (ch_io c) as [|io rest] eqn:Hio.
  { injection H as _ <-. done. }
  apply bind_done in H as (i & w1 & Hi & H). unfold get_io in Hi.
  apply bind_done in Hi as (? & ? & [-> ->]%gets_done & Hi). unfold of_option, id in Hi.
  destruct (w_ios w !! io) as [i0|] eqn:Hi0; [|done]. injection Hi as -> <-.
  apply bind_done in H as (v & w1 & [-> Hv]%io_verdict_done & H).
  assert (Hrest : ∀ m : M world unit, moves patient m → v ≠ VWait →
    (upd_ch ch (with_io rest);; m) w = Done a w' → patient w w').
  { intros m Hm Hne (? & w1 & (c1 & Hc1 & ->)%upd_ch_done & H1)%bind_done. assert (c1 = c) as -> by congruence.
    transitivity (set_ch ch (with_io rest c) w); [by apply (patient_take w ch c io rest i); [..|apply Hv]|by eapply Hm]. }
  destruct v; [|by injection H as _ <-|]; (eapply Hrest; [|done|exact H]).
  - apply moves_bind; [apply _| |intros _; exact IH]. apply moves_modify. intros x. apply steady_patient. split; [done|by intros k].
  - apply moves_bind; [apply _| |intros _; exact IH]. by eapply moves_weaken; [apply steady_patient|apply steady_service_io].
Qed.

Lemma patient_steady {A} (m : M world A) : moves steady m → moves patient m.
Proof. apply moves_weaken. exact steady_patient. Qed.

Lemma patient_poll ch : moves patient (ubi_io_poll ch).
Proof.
  unfold ubi_io_poll. apply moves_bind; [apply _|apply patient_steady; steady|intros c].
  apply moves_bind; [apply _| |intros n].
  { apply patient_steady. unfold ubi_complete_image_io. steady_with ltac:(apply steady_handle_cqes). }
  destruct (_ && (n <? 1)); [apply moves_ret; apply _|]. destruct (_ && _); [apply moves_ret; apply _|].
  apply moves_bind; [apply _|apply patient_steady; steady|intros c'].
  apply moves_bind; [apply _|apply patient_steady, steady_start_fetches|intros _].
  apply moves_bind; [apply _|apply patient_steady; steady|intros c''].
  apply moves_bind; [apply _|apply patient_process_ios|intros _].
  apply patient_steady. unfold submit_image_reads. steady.
Qed.

(** ** Callbacks *)

Lemma steady_free_io r : moves steady (spdk_bdev_free_io r).
Proof. unfold spdk_bdev_free_io. steady. Qed.

Lemma steady_write_stripe r b ch slot : moves steady (write_stripe_io_completion r b ch slot).
Proof.
  unfold write_stripe_io_completion. apply moves_bind; [apply _|apply steady_free_io|intros _].
  apply moves_bind; [apply _|steady|intros s]. apply moves_bind; [apply _|by apply steady_set_status|intros _].
  apply moves_get_ub. intros w a w' (? & w1 & H1 & H)%bind_done. unfold put_ub, modify in H1. injection H1 as _ <-.
  etransitivity; [|by eapply steady_upd_slot]. split; [done|by intros k].
Qed.

Lemma steady_callback r b : moves steady (callback r b).
Proof.
  destruct r; cbn [callback]; [apply steady_write_stripe|..];
    unfold ubi_io_completion_cb, ubi_data_flush_completion, ubi_metadata_write_completion, ubi_metadata_flush_completion;
    (apply moves_bind; [apply _|apply steady_free_io|intros _]); try apply steady_complete_io.
  - destruct (negb b); [steady|]. apply moves_bind; [apply _|steady|intros u]. case_match; [steady|].
    apply moves_bind; [apply _|steady|intros nb]. apply steady_touch_io; [done|intros i; steady].
  - steady.
  - destruct (negb b); [steady|]. apply moves_bind; [apply _|steady|intros uio]. apply moves_get_ub.
    intros w a w' (? & w1 & H1 & H)%bind_done. transitivity w1.
    + destruct (_ <? _); [|by injection H1 as _ <-]. unfold put_ub, modify in H1. injection H1 as _ <-.
      split; [done|by intros k].
    + unfold spdk_bdev_io_complete, modify in H. injection H as _ <-. split; [done|by intros k].
Qed.

(** Every event but the arrival of a request is patient. *)
Lemma event_patient ev w w' : run_event ev w = Done tt w' →
  match ev with EvSubmit _ _ _ | EvOpen _ _ | EvClose _ => True | _ => patient w w' end.
Proof.
  destruct ev as [ch io i|ch|ch e res|r success|io success|ch c|ch]; try done; cbn [run_event].
  - intros (n & w1 & H & Hr)%bind_done. injection Hr as <-. by eapply patient_poll.
  - intros (c & w1 & [Hc ->]%get_ch_done & H)%bind_done. apply bind_done in H as (r & w1 & Hr & H).
    unfold of_option in Hr. destruct (ring_finish _ _ _); [|done]. injection Hr as _ <-.
    unfold put_ch, modify in H. injection H as <-. by apply steady_patient, (steady_put_ch w ch c).
  - intros H. apply steady_patient. unfold mbind, M_bind, gets, modify, id, of_option in H.
    destruct (remove_one r (w_pend w)) as [l|]; [|done]. cbn in H. apply steady_callback in H.
    destruct H as [Hq Hf]. split; [exact Hq|exact Hf].
  - intros H. apply steady_patient. unfold mbind, M_bind, gets, modify, id, of_option in H.
    destruct (remove_one io (w_bufq w)) as [l|]; [|done]. cbn in H. apply steady_get_buf in H.
    destruct H as [Hq Hf]. split; [exact Hq|exact Hf].
Qed.
End Patient.

(** * The arrival of a request *)

Section Submit.
Context {E : ext_env}.

(** The stripes a request puts in flight are those it waits for, and no other
    channel is touched. *)
Lemma submit_flight ch io i w w' : w_ios w !! io = Some i → ubi_submit_request ch io w = Done tt w' →
  (∀ k, ub_stripe_status (w_ub w') k = STRIPE_INFLIGHT →
     ub_stripe_status (w_ub w) k = STRIPE_INFLIGHT ∨ wants (w_ub w) i k) ∧
  (∀ ch0, ch0 ≠ ch → w_chs w' !! ch0 = w_chs w !! ch0).
Proof.
  intros Hi H. unfold ubi_submit_request in H. apply bind_done in H as (i0 & w1 & Hi0 & H). unfold get_io in Hi0.
  apply bind_done in Hi0 as (? & ? & [-> ->]%gets_done & Hi0). unfold of_option, id in Hi0. rewrite Hi in Hi0.
  injection Hi0 as <- <-. apply bind_done in H as (u & w1 & [-> ->]%gets_done & H).
  assert (Hq : ∀ w1, upd_ch ch (λ c, with_io (ch_io c ++ [io]) c) w1 = Done tt w' →
    w_ub w' = w_ub w1 ∧ ∀ ch0, ch0 ≠ ch → w_chs w' !! ch0 = w_chs w1 !! ch0).
  { intros w1 (c & _ & ->)%upd_ch_done. split; [done|]. intros ch0 Hne. cbn. by rewrite lookup_insert_ne. }
  destruct (needs_stripe _ _) eqn:Hns.
  2: { destruct (Hq w H) as [-> ?]. split; [by left|done]. }
  destruct (negb _); [injection H as <-; split; [by left|done]|].
  destruct (Z.ltb_spec (io_offset_blocks i) (ub_image_block_count (w_ub w))) as [Hlt|Hge].
  2: { destruct (Hq w H) as [-> ?]. split; [by left|done]. }
  apply bind_done in H as (st & w1 & Hst & H). unfold ubi_get_stripe_status in Hst.
  apply bind_done in Hst as (u & w2 & [-> ->]%gets_done & Hst). destruct (stripe_index_ok _); [|done].
  injection Hst as <- <-. apply bind_done in H as (? & w1 & H1 & H).
  destruct (Hq w1 H) as [-> Hch]. case_bool_decide as Hnf.
  2: { injection H1 as _ <-. split; [by left|done]. }
  apply bind_done in H1 as (? & w2 & H1 & H2). unfold enqueue_stripe in H1.
  apply bind_done in H1 as (c & ? & [Hc ->]%get_ch_done & H1).
  assert (w_ub w2 = w_ub w ∧ ∀ ch0, ch0 ≠ ch → w_chs w2 !! ch0 = w_chs w !! ch0) as [Hu2 Hch2].
  { destruct (queue_index_ok _); [|done]. injection H1 as _ <-. split; [done|]. intros ch0 Hne. cbn. by rewrite lookup_insert_ne. }
  unfold ubi_set_stripe_status in H2. apply bind_done in H2 as (u & ? & [-> ->]%gets_done & H2).
  destruct (stripe_index_ok _); [|done]. unfold put_ub, modify in H2. injection H2 as _ <-. split.
  - intros k. cbn. rewrite Hu2. destruct (decide (i32 (stripe_of (w_ub w) (io_offset_blocks i)) = k)) as [Hk|Hne].
    + intros _. right. split_and!; [|done|done]. intros Ht. unfold needs_stripe in Hns. by rewrite Ht in Hns.
    + rewrite fn_lookup_insert_ne by done. by left.
  - intros ch0 Hne. rewrite Hch by done. cbn. by apply Hch2.
Qed.
End Submit.

(** * The invariant *)

(** A request in the queue of the channel waits for every stripe it fetches. *)
Definition attended (w : world) : Prop := ∀ ch c k, w_chs w !! ch = Some c → k ∈ held (fchan_of c) →
  ∃ io i, io ∈ ch_io c ∧ w_ios w !! io = Some i ∧ wants (w_ub w) i k.

Lemma held_flight w ch c k : inv [] w → w_chs w !! ch = Some c → k ∈ held (fchan_of c) →
  ub_stripe_status (w_ub w) k = STRIPE_INFLIGHT.
Proof. intros Hinv Hc Hk. by apply (co_held _ _ _ (inv_chan _ _ _ _ Hinv Hc)). Qed.

(** The stripes that a channel holds after a step and that were in flight
    before, it held before. *)
Lemma held_before w w' ch c' k : inv [] w → rtc fstep (fview_of w) (fview_of w') → w_chs w' !! ch = Some c' →
  k ∈ held (fchan_of c') → ub_stripe_status (w_ub w) k = STRIPE_INFLIGHT → ub_stripe_status (w_ub w') k = STRIPE_INFLIGHT →
  ∃ c, w_chs w !! ch = Some c ∧ k ∈ held (fchan_of c).
Proof.
  intros Hinv Hsteps Hc' Hk H1 H2.
  destruct (fsteps_holder (fview_of w) (fview_of w') k ch (fchan_of c') (inv_fetch _ _ Hinv) Hsteps H1 H2) as (f & Hf & Hin);
    [by apply fview_lookup|done|]. simpl in Hf. rewrite lookup_fmap in Hf.
  destruct (w_chs w !! ch) as [c|]; [|done]. exists c. split; [done|]. by rewrite (inj Some _ _ Hf).
Qed.

Lemma attended_patient w w' : inv [] w → inv [] w' → rtc fstep (fview_of w) (fview_of w') → patient w w' →
  attended w → attended w'.
Proof.
  intros Hinv Hinv' Hsteps [Hf Hg Hi Hq] Ha ch c' k Hc' Hk. pose proof (held_flight w' ch c' k Hinv' Hc' Hk) as H2.
  destruct (held_before w w' ch c' k Hinv Hsteps Hc' Hk (Hf k H2) H2) as (c & Hc & Hh).
  destruct (Ha ch c k Hc Hh) as (io & i & Hio & Hi0 & Hw). destruct (Hq ch c Hc) as (c'' & Hc'' & Hkeep).
  assert (c'' = c') as -> by congruence. destruct (Hkeep io Hio) as [Hin|Hn]; [|by destruct (Hn i k Hi0 Hw)].
  destruct (place_lookup _ _ io i Hi Hi0) as (i' & Hi' & Hp). exists io, i'. split_and!; [done|done|by eapply wants_same].
Qed.

Lemma attended_submit {E : ext_env} `{!env_ok E} w w' ch io i : inv [] w → enabled w (EvSubmit ch io i) →
  run_event (EvSubmit ch io i) w = Done tt w' → attended w → attended w'.
Proof.
  intros Hinv Hen Hs Ha. pose proof Hen as (Hnew & Hok & c & Hc & Hroom). pose proof Hs as Hs'. cbn [run_event] in Hs'.
  apply bind_done in Hs' as (? & w1 & H1 & H). unfold put_io, modify in H1. injection H1 as _ <-.
  change (ubi_submit_request ch io (set_io io i w) = Done tt w') in H.
  assert (Hinv1 : inv [] (set_io io i w)) by (destruct Hinv as [Hf Hi Hsq]; split; [done|by apply iinv_new|done]).
  pose proof (submit_spec (set_io io i w) ch c io i Hinv1 Hc Hnew (lookup_insert_eq _ _ _) Hok Hroom) as Hwp.
  unfold wp in Hwp. rewrite H in Hwp. destruct Hwp as [Hinv' Hf Hst _ _ Hch].
  assert (Hmv : moves (same w_ios) (ubi_submit_request ch io))
    by (unfold ubi_submit_request, enqueue_stripe, ubi_set_stripe_status; moves).
  assert (Hios : w_ios w' = <[io := i]> (w_ios w)) by exact (Hmv _ _ _ H).
  destruct (submit_flight ch io i (set_io io i w) w' (lookup_insert_eq _ _ _) H) as [Hfl Hoth].
  assert (Hg : geometry_of (w_ub w') = geometry_of (w_ub w)).
  { unfold geometry_of. unfold statics, layout_of in Hst. cbn in Hst. congruence. }
  intros ch0 c' k Hc' Hk. pose proof (held_flight w' ch0 c' k Hinv' Hc' Hk) as H2.
  destruct (decide (ub_stripe_status (w_ub w) k = STRIPE_INFLIGHT)) as [Hin|Hnin].
  - destruct (held_before (set_io io i w) w' ch0 c' k Hinv1 Hf Hc' Hk Hin H2) as (c0 & Hc0 & Hh).
    destruct (Ha ch0 c0 k Hc0 Hh) as (io0 & i0 & Hio0 & Hi0 & Hw). destruct (Hch ch0 c0 Hc0) as (c'' & Hc'' & Heq).
    assert (c'' = c') as -> by congruence. exists io0, i0. rewrite Heq, Hios. split_and!.
    + apply elem_of_app. by left.
    + rewrite lookup_insert_ne; [done|]. intros ->. apply Hnew. unfold ids. apply elem_of_app. left.
      unfold queued_ids, cores. rewrite over_chs_fmap. by apply (elem_over_chs _ _ ch0 c0).
    + by eapply wants_same.
  - destruct (Hfl k H2) as [?|Hw]; [done|]. assert (ch0 = ch) as ->.
    { destruct (decide (ch0 = ch)) as [|Hne]; [done|]. rewrite Hoth in Hc' by done. exfalso. apply Hnin.
      by apply (held_flight w ch0 c' k Hinv). }
    destruct (Hch ch c Hc) as (c'' & Hc'' & Heq). assert (c'' = c') as -> by congruence. exists io, i.
    rewrite Heq, Hios. split_and!; [|by rewrite lookup_insert_eq|by eapply wants_same].
    apply elem_of_app. right. rewrite decide_True by done. left.
Qed.

Lemma attended_step {E : ext_env} `{!env_ok E} w w' ev : inv [] w → enabled w ev → run_event ev w = Done tt w' →
  attended w → attended w'.
Proof.
  intros Hinv Hen Hs Ha. pose proof (step_spec w ev Hinv Hen) as Hwp. unfold wp in Hwp. rewrite Hs in Hwp.
  destruct Hwp as [Hinv' Hf _ _ _ _]. pose proof (event_patient ev w w' Hs) as Hp.
  destruct ev as [ch io i|ch|ch e res|r success|io success|ch c|ch]; try exact (attended_patient w w' Hinv Hinv' Hf Hp Ha).
  - exact (attended_submit w w' ch io i Hinv Hen Hs Ha).
  - destruct Hen as [Hn Hc]. cbn in Hs. unfold modify in Hs. injection Hs as <-. intros ch0 c0 k Hc0 Hk.
    simpl in Hc0. apply lookup_insert_Some in Hc0 as [[<- <-]|[_ ?]]; [|by eapply Ha].
    rewrite (fresh_held c Hc) in Hk. by apply not_elem_of_nil in Hk.
  - cbn in Hs. unfold modify in Hs. injection Hs as <-. intros ch0 c0 k Hc0 Hk. simpl in Hc0.
    apply lookup_delete_Some in Hc0 as [_ ?]. by eapply Ha.
Qed.

Lemma run_attended w0 tr w : initial w0 → run any_step w0 tr w → inv [] w ∧ attended w.
Proof.
  intros Hw0 Hrun. induction Hrun as [w0|w0 tr w1 E ev w2 Hrun IH HE Hen Hs].
  - split; [by apply initial_inv|]. intros ch c k Hc Hk. rewrite (fresh_held c (init_chs _ Hw0 ch c Hc)) in Hk.
    by apply not_elem_of_nil in Hk.
  - destruct (IH Hw0) as [Hinv Ha]. unfold any_step in HE. split; [|by eapply attended_step].
    pose proof (step_spec w1 ev Hinv Hen) as Hwp. unfold wp in Hwp. rewrite Hs in Hwp. apply Hwp.
Qed.

(** A channel with an empty queue fetches nothing. *)
Lemma attended_idle w ch c : inv [] w → attended w → w_chs w !! ch = Some c → ch_io c = [] → no_started ch w →
  idle_channel c.
Proof.
  intros Hinv Ha Hc Hio Hno. pose proof (inv_chan _ _ _ _ Hinv Hc) as Hok.
  assert (Hh : held (fchan_of c) = []).
  { destruct (held (fchan_of c)) as [|k l] eqn:Hh; [done|].
    destruct (Ha ch c k Hc) as (io & i & Hin & _); [rewrite Hh; left|]. rewrite Hio in Hin. by apply not_elem_of_nil in Hin. }
  unfold held in Hh. apply app_eq_nil in Hh as [Hq Hact]. cbn [fchan_of fc_queue fc_slots] in Hq, Hact.
  assert (Hs : ∀ slot s, ch_stripe_fetches c !! slot = Some s → sf_active s = false).
  { intros slot s Hs. destruct (sf_active s) eqn:Hs0; [|done]. pose proof (active_elem _ slot s Hs Hs0) as Hin.
    rewrite Hact in Hin. by apply not_elem_of_nil in Hin. }
  split; [done| | |].
  - by apply queue_empty_list; [exact (co_queue _ _ _ Hok)|].
  - apply Forall_forall. intros s [slot Hl]%list_elem_of_lookup_1. by eapply Hs.
  - destruct (ring_all (ch_ring c)) as [|[slot n o|io o] l] eqn:Hr; [done|exfalso..].
    + assert (Hin : (slot, n, o) ∈ fc_ring (fchan_of c)) by (simpl; rewrite Hr; left).
      destruct (co_ring _ _ _ Hok slot n o Hin) as (s & Hsl & _).
      pose proof (outstanding_active _ _ _ slot s Hok Hsl (outstanding_pos_ring ch slot n o _ _ Hin)) as Hsa.
      cbn in Hsl. by rewrite (Hs slot s Hsl) in Hsa.
    + assert (Hin : SqeReadv io o ∈ ring_all (ch_ring c)) by (rewrite Hr; left).
      destruct (po_readv _ (ii_places _ _ (inv_io _ _ Hinv)) ch c io o Hc Hin) as (i & Hi & _ & Hch & _).
      unfold no_started in Hno. rewrite Forall_forall in Hno. apply (Hno io); [|by rewrite Hi, <-Hch].
      unfold started_ids. rewrite !elem_of_app. right. left.
      apply (elem_over_chs (ring_ios ∘ ch_ring) _ ch c); [done|]. by eapply elem_ring_ios.
Qed.

(** * The property *)

(** C17. A channel whose requests are completed can be closed: when no request
    waits in its queue and none that was taken from it is outstanding, the
    channel has no stripe queued for a fetch, no fetch in progress, no entry
    on its ring and no write of a stripe outstanding, so that
    [ubi_destroy_channel_cb] frees nothing that the kernel, the base bdev or
    a callback still uses. *)
Theorem channel_closable (w0 w : world) (tr : list event) (ch : Z) (c : ubi_io_channel)
    (Hw0 : initial w0) (Hrun : run any_step w0 tr w) (Hc : w_chs w !! ch = Some c)
    (Hqueue : ch_io c = []) (Hstarted : no_started ch w) :
  enabled w (EvClose ch) ∧ idle_channel c ∧ ∀ slot o n, RqStripeWrite ch slot o n ∉ reqs w.
Proof.
  destruct (run_attended w0 tr w Hw0 Hrun) as [Hinv Ha].
  pose proof (attended_idle w ch c Hinv Ha Hc Hqueue Hstarted) as Hi. split; [by exists c|]. split; [done|].
  intros slot o n Hin. pose proof (inv_chan _ _ _ _ Hinv Hc) as Hok.
  apply (idle_no_writes (fview_of w) ch (fchan_of c) slot o n (inv_fetch _ _ Hinv)).
  - by apply fview_lookup.
  - apply idle_channel_fchan; [done|exact (co_queue _ _ _ Hok)|exact (co_slots _ _ _ Hok)].
  - simpl. apply list_elem_of_omap. by exists (RqStripeWrite ch slot o n).
Qed.

(** A second channel is opened; the requests of the first one are served,
    among them a write that fetched a stripe, and the first one is closed. *)
Definition demo_served : list event :=
  EvOpen 2 demo_channel :: demo_fetching ++
  [EvBase (RqStripeWrite 1 0 8388608 65536) true; EvPoll 1;
   EvBase (RqWrite 11 16387 1 (mk_ext_opts 0 0 0)) true;
   EvBase (RqWrite 10 16514 8 (mk_ext_opts 0 0 0)) true;
   EvBase (RqRead 12 16387 1 (mk_ext_opts 0 0 0)) true].

Lemma demo_served_run : run any_step demo_world demo_served (demo_state demo_served).
Proof.
  apply (run_weaken lossless_step); [by intros ? ? []|]. apply demo_run; [by vm_compute|].
  intros ev Hev. split; [apply _|]. split; [done|].
  repeat (apply elem_of_cons in Hev as [->|Hev]; [done|]). by apply not_elem_of_nil in Hev.
Qed.

Lemma channel_closable_witness : ∃ c, w_chs (demo_state demo_served) !! 1 = Some c ∧
  enabled (demo_state demo_served) (EvClose 1) ∧ dom (w_chs (demo_state (demo_served ++ [EvClose 1]))) = {[ 2 ]}.
Proof.
  destruct (w_chs (demo_state demo_served) !! 1) as [c|] eqn:Hc; [|vm_compute in Hc; discriminate Hc].
  exists c. split; [reflexivity|]. split; [|vm_compute; reflexivity].
  apply (channel_closable demo_world (demo_state demo_served) demo_served 1 c demo_initial demo_served_run Hc).
  - assert (H : ch_io <$> w_chs (demo_state demo_served) !! 1 = Some []) by (vm_compute; reflexivity).
    rewrite Hc in H. injection H as H. exact H.
  - apply (bool_decide_unpack _). vm_compute. exact I.
Defined.
