(* ===== verification/Work.v ===== *)
(** The work that is left: a measure of the requests and stripe fetches in
    progress, by how far each of them has come, and what every handler does to
    it.  Nothing but the arrival of a request adds work. *)
From stdpp Require Import base tactics list gmap option numbers functions strings relations.
From Stdlib Require Import ZArith Lia.
From S2P Require Import Prelude Types World Layout FetchQueue Stripe Flush IoChannel Submit.
From S2P Require Import FetchProtocol IoInv Refine System Moves.

Local Open Scope nat_scope.

(** * The measure

    A request waits in its queue (6), then for a buffer (5), then it is on a
    ring (4 prepared, 3 submitted, 2 completed) or at the base bdev (1, with
    two more steps for a flush).  A stripe fetch waits in the fetch queue (5),
    is on the ring, and is then written to the base bdev (1).  A completed
    request to the base bdev counts one less until its callback has run. *)
Definition req_work (r : base_req) : nat :=
  match r with RqDataFlush _ _ _ => 3 | RqMetadataWrite _ _ _ => 2 | _ => 1 end.
Definition ring_work (r : io_uring) : nat :=
  4 * length (ring_sq r) + 3 * length (ring_inflight r) + 2 * length (ring_cq r).
Definition chan_work (c : ubi_io_channel) : nat :=
  6 * length (ch_io c) + 5 * Z.to_nat (queue_length (ch_queue c)) + ring_work (ch_ring c).
Definition work (w : world) : nat :=
  sum_list_with chan_work (map_to_list (w_chs w)).*2 + 5 * length (w_bufq w) +
  sum_list_with req_work (w_pend w) + sum_list_with (pred ∘ req_work) (w_fin w).

(** At most [n] units of work are added. *)
Definition spends (n : nat) : relation world := λ w w', work w' ≤ n + work w.

#[export] Instance spends_preorder : PreOrder (spends 0).
Proof. split; unfold spends; [intros w; lia|intros w1 w2 w3; lia]. Qed.

(** * Primitives *)

(** Operations that add no work. *)
Ltac spend := moves_with ltac:(unfold spends, work; simpl; lia).

Lemma work_chan (m : gmap Z ubi_io_channel) ch c c' : m !! ch = Some c →
  sum_list_with chan_work (map_to_list (<[ch := c']> m)).*2 + chan_work c =
  sum_list_with chan_work (map_to_list m).*2 + chan_work c'.
Proof.
  intros Hc. rewrite <-(insert_id m ch c Hc) at 2. rewrite <-!(insert_delete_eq m).
  rewrite !map_to_list_insert by apply lookup_delete_eq. simpl. lia.
Qed.

Lemma work_set_ch w ch c c' : w_chs w !! ch = Some c →
  work (set_ch ch c' w) + chan_work c = work w + chan_work c'.
Proof. intros Hc. unfold work; simpl. pose proof (work_chan (w_chs w) ch c c' Hc). lia. Qed.

(** Channels that come and go. *)
Lemma work_open w ch c : w_chs w !! ch = None → work (set_ch ch c w) = chan_work c + work w.
Proof.
  intros Hn. unfold work, set_ch. cbn [with_chs w_chs w_bufq w_pend w_fin].
  rewrite map_to_list_insert by done. cbn [fmap list_fmap sum_list_with snd]. lia.
Qed.

Lemma work_close w ch c : w_chs w !! ch = Some c → work w = chan_work c + work (drop_ch ch w).
Proof.
  intros Hc. rewrite <-(work_open (drop_ch ch w) ch c) by apply lookup_delete_eq. f_equal.
  unfold set_ch, drop_ch, with_chs. destruct w; cbn in *. by rewrite insert_delete_id.
Qed.

Lemma idle_work c : idle_channel c → chan_work c = 0.
Proof.
  intros [Hio Hq _ Hr]. unfold chan_work, ring_work, ring_all in *.
  apply app_eq_nil in Hr as [Hr1%fmap_nil_inv [Hr2 Hr3]%app_eq_nil].
  unfold queue_empty in Hq. apply Z.eqb_eq in Hq. unfold queue_length.
  rewrite Hio, Hr1, Hr2, Hr3, Hq, Z.sub_diag. done.
Qed.

Lemma work_ge_chan w ch c : w_chs w !! ch = Some c → chan_work c ≤ work w.
Proof.
  intros Hc. unfold work. assert (Hin : c ∈ (map_to_list (w_chs w)).*2).
  { apply list_elem_of_fmap. exists (ch, c). split; [done|]. by apply elem_of_map_to_list. }
  pose proof (sum_list_with_in c chan_work _ Hin). lia.
Qed.

Section Spend.
Context {E : ext_env}.
Implicit Types n k : nat.

Lemma spend_seq {A B} n k (m : M world A) (f : A → M world B) :
  moves (spends n) m → (∀ a, moves (spends k) (f a)) → moves (spends (n + k)) (mbind f m).
Proof. intros Hm Hf. eapply moves_seq; [done..|]. unfold spends. intros. lia. Qed.

(** Sequencing when one of the parts adds nothing. *)
Lemma spend_l {A B} n (m : M world A) (f : A → M world B) :
  moves (spends n) m → (∀ a, moves (spends 0) (f a)) → moves (spends n) (mbind f m).
Proof. intros. rewrite <-(Nat.add_0_r n). by apply spend_seq. Qed.
Lemma spend_r {A B} n (m : M world A) (f : A → M world B) :
  moves (spends 0) m → (∀ a, moves (spends n) (f a)) → moves (spends n) (mbind f m).
Proof. intros. by apply (spend_seq 0 n). Qed.

Lemma spend_more {A} n k (m : M world A) : n ≤ k → moves (spends n) m → moves (spends k) m.
Proof. intros Hnk. apply moves_weaken. unfold spends. intros. lia. Qed.

Lemma spend_upd_ch n ch f : (∀ c, chan_work (f c) ≤ n + chan_work c) →
  moves (spends n) (upd_ch ch f).
Proof.
  intros Hf w [] w'. unfold upd_ch, get_ch, mbind, M_bind, gets, of_option, id.
  destruct (w_chs w !! ch) as [c|] eqn:Hc; [|done]. intros [= <-].
  pose proof (work_set_ch w ch c (f c) Hc) as Hw. specialize (Hf c).
  unfold spends. unfold set_ch in Hw. lia.
Qed.

Lemma spend_upd_slot ch slot f : moves (spends 0) (upd_slot ch slot f).
Proof.
  intros w [] w'. unfold upd_slot, get_ch, mbind, M_bind, gets, of_option, id.
  destruct (w_chs w !! ch) as [c|] eqn:Hc; [|done]. simpl.
  destruct (ch_stripe_fetches c !! slot) as [s|]; [|done]. intros [= <-].
  pose proof (work_set_ch w ch c (with_stripe_fetches (<[slot := f s]> (ch_stripe_fetches c)) c) Hc) as Hw.
  unfold spends. unfold set_ch in Hw. unfold chan_work in Hw. simpl in Hw. lia.
Qed.

Lemma spend_base_submit r : moves (spends (req_work r)) (base_submit r).
Proof.
  unfold base_submit. apply spend_r; [unfold ext; spend|]. intros ret.
  destruct (ret =? 0)%Z; [|apply (spend_more 0); [lia|spend]].
  apply spend_l; [|intros; spend]. apply moves_modify. intros w. unfold spends, work; simpl. lia.
Qed.

Lemma spend_prep ch b e : moves (spends 4) (io_uring_prep ch b e).
Proof.
  unfold io_uring_prep. destruct b; [|apply moves_undef]. apply spend_upd_ch. intros c.
  unfold chan_work, ring_work; simpl. rewrite length_app. simpl. lia.
Qed.

(** Submission moves entries along the ring. *)
Lemma ring_work_submit n r :
  ring_work (ring_submit n r) + (n `min` length (ring_sq r)) = ring_work r.
Proof. unfold ring_work, ring_submit; simpl. rewrite length_app, length_take, length_drop. lia. Qed.

Lemma spend_uring_submit ch : moves (spends 0) (io_uring_submit ch).
Proof.
  unfold io_uring_submit. apply spend_r; [unfold ext; spend|]. intros ret. case_match; [spend|].
  apply spend_l; [|intros; spend]. apply spend_upd_ch. intros c. unfold chan_work; simpl.
  pose proof (ring_work_submit (Z.to_nat ret) (ch_ring c)). lia.
Qed.

Lemma spend_put_ub u : moves (spends 0) (put_ub u).
Proof. unfold put_ub. spend. Qed.
End Spend.

(** * Handlers *)

(** Computations whose parts add no work. *)
Ltac spend0 := repeat first
  [ apply spend_put_ub | apply spend_upd_slot | apply spend_uring_submit
  | apply spend_upd_ch; intros ?; solve [unfold chan_work; simpl; lia]
  | apply moves_bind; [apply _| |intros ?] | apply moves_ret; apply _ | apply moves_undef
  | apply moves_gets; apply _ | apply moves_of_option; apply _
  | apply moves_modify; intros ?; solve [unfold spends, work; simpl; lia]
  | progress case_match | case_decide
  | progress unfold get_ub, get_ch, get_io, put_io, get_uio, get_slot, ext, spdk_bdev_io_complete ].

Section Handlers.
Context {E : ext_env}.

Lemma spend_complete_io io b : moves (spends 0) (ubi_complete_io io b).
Proof. unfold ubi_complete_io. spend0. Qed.

Lemma spend_set_status i st : moves (spends 0) (ubi_set_stripe_status i st).
Proof. unfold ubi_set_stripe_status. spend0. Qed.

Lemma spend_get_status i : moves (spends 0) (ubi_get_stripe_status i).
Proof. unfold ubi_get_stripe_status. spend0. Qed.

Lemma spend_fail_fetch ch slot : moves (spends 0) (ubi_fail_stripe_fetch ch slot).
Proof.
  unfold ubi_fail_stripe_fetch. apply spend_r; [spend0|intros s].
  apply spend_r; [apply spend_set_status|intros _]. apply spend_upd_slot.
Qed.

(** A request to the base bdev, and what is done with its result. *)
Lemma spend_submit_then {A} r n (f : Z → M world A) : req_work r ≤ n →
  (∀ ret, moves (spends 0) (f ret)) → moves (spends n) (mbind f (base_submit r)).
Proof. intros Hn Hf. apply spend_l; [|done]. eapply spend_more; [done|apply spend_base_submit]. Qed.

Lemma spend_read_request io : moves (spends 1) (ubi_submit_read_request io).
Proof.
  unfold ubi_submit_read_request. do 2 (apply spend_r; [spend0|intros ?]). apply spend_base_submit.
Qed.

Lemma spend_write_request io : moves (spends 1) (ubi_submit_write_request io).
Proof.
  unfold ubi_submit_write_request. do 2 (apply spend_r; [spend0|intros ?]). apply spend_base_submit.
Qed.

Lemma spend_get_buf_cb io b : moves (spends 4) (get_buf_for_read_cb io b).
Proof.
  unfold get_buf_for_read_cb. destruct (negb b).
  { apply (spend_more 0); [lia|apply spend_complete_io]. }
  do 2 (apply spend_r; [spend0|intros ?]). apply spend_r; [apply spend_get_status|intros st].
  case_match.
  - apply (spend_more 1); [lia|]. apply spend_l; [apply spend_read_request|]. intros ret.
    case_match; [apply spend_complete_io|spend0].
  - apply spend_r; [unfold io_uring_get_sqe; spend0|intros sqe].
    case_match; [apply (spend_more 0); [lia|apply spend_complete_io]|].
    apply spend_l; [apply spend_prep|]. intros _. spend0.
Qed.

Lemma spend_get_buf io len : moves (spends 5) (spdk_bdev_io_get_buf io len).
Proof.
  unfold spdk_bdev_io_get_buf. apply spend_r; [spend0|intros r]. case_match.
  - apply moves_modify. intros w. unfold spends, work; simpl. lia.
  - apply (spend_more 4); [lia|apply spend_get_buf_cb].
Qed.

Lemma spend_flush_request io : moves (spends 3) (ubi_submit_flush_request io).
Proof.
  unfold ubi_submit_flush_request. do 2 (apply spend_r; [spend0|intros ?]).
  case_match; [apply (spend_more 0); [lia|spend0]|]. apply spend_submit_then; [done|]. intros. spend0.
Qed.

Lemma spend_service_io ch io : moves (spends 5) (service_io ch io).
Proof.
  unfold service_io. apply spend_r; [spend0|intros i]. apply spend_r; [spend0|intros _].
  destruct (io_type i).
  - do 3 (apply spend_r; [spend0|intros ?]). apply spend_get_buf.
  - apply spend_r; [spend0|intros _]. apply (spend_more 1); [lia|].
    apply spend_l; [apply spend_write_request|]. intros. spend0.
  - apply (spend_more 3); [lia|apply spend_flush_request].
  - apply (spend_more 0); [lia|spend0].
  - apply (spend_more 0); [lia|spend0].
  - apply (spend_more 0); [lia|spend0].
  - apply (spend_more 0); [lia|spend0].
Qed.

Lemma spend_start_fetch ch slot : moves (spends 4) (ubi_start_fetch_stripe ch slot).
Proof.
  unfold ubi_start_fetch_stripe. apply spend_r; [spend0|intros u].
  apply spend_r; [unfold io_uring_get_sqe; spend0|intros sqe].
  do 2 (apply spend_r; [spend0|intros ?]). apply spend_r; [apply spend_upd_slot|intros _].
  apply spend_l; [apply spend_prep|intros _]. apply spend_r; [apply spend_uring_submit|intros ret].
  case_match; [apply spend_fail_fetch|spend0].
Qed.

Lemma spend_handle_cqe ch e res : moves (spends 1) (handle_cqe ch e res).
Proof.
  destruct e as [slot n o|io o]; cbn [handle_cqe].
  - apply spend_r; [spend0|intros s]. destruct (sf_op s); [apply moves_undef|].
    unfold ubi_complete_fetch_stripe. do 3 (apply spend_r; [spend0|intros ?]).
    case_match.
    + apply spend_r; [apply spend_fail_fetch|intros _]. apply (spend_more 0); [lia|spend0].
    + apply spend_submit_then; [done|]. intros ret. case_match; [|spend0].
      apply spend_r; [apply spend_fail_fetch|intros _]. spend0.
  - apply spend_r; [spend0|intros u]. apply (spend_more 0); [lia|]. destruct (uio_op u); [|apply moves_undef].
    unfold ubi_complete_read_from_image. case_match; (apply spend_r; [apply spend_complete_io|intros _; spend0]).
Qed.

Lemma handle_cqe_ring ch e res : moves (same_chs ch_ring) (handle_cqe ch e res).
Proof.
  destruct e; cbn [handle_cqe]; unfold ubi_complete_fetch_stripe, ubi_complete_read_from_image,
    ubi_fail_stripe_fetch, ubi_complete_io; same_chs.
Qed.

(** Every completion that is reaped takes work away. *)
Lemma handle_cqes_work ch l : ∀ w c ret rest a w', w_chs w !! ch = Some c →
  ring_cq (ch_ring c) = l ++ rest → handle_cqes ch l ret w = Done a w' →
  work w' + length l ≤ work w.
Proof.
  induction l as [|[e res] l IH]; intros w c ret rest a w' Hc Hcq; cbn [handle_cqes].
  { intros [= _ <-]. simpl. lia. }
  intros (r1 & w1 & H1 & H2)%bind_done. pose proof (spend_handle_cqe _ _ _ _ _ _ H1) as Hw1.
  destruct (same_chs_lookup _ _ _ _ _ (handle_cqe_ring _ _ _ _ _ _ H1) Hc) as (c1 & Hc1 & Hring).
  apply bind_done in H2 as (? & w2 & (c1' & Hc1' & ->)%upd_ch_done & H2).
  assert (c1' = c1) as -> by congruence.
  pose proof (work_set_ch w1 ch c1 (with_ring (ring_seen (ch_ring c1)) c1) Hc1) as Hset.
  assert (Hcw : chan_work (with_ring (ring_seen (ch_ring c1)) c1) + 2 = chan_work c1).
  { unfold chan_work, ring_work, ring_seen; cbn -[Nat.mul drop]. rewrite Hring, Hcq, length_drop. cbn -[Nat.mul Nat.sub]. lia. }
  apply (IH _ (with_ring (ring_seen (ch_ring c1)) c1) _ rest) in H2; [|apply lookup_insert_eq|simpl; by rewrite Hring, Hcq].
  unfold spends in Hw1. simpl. lia.
Qed.

Lemma complete_image_io_work ch w c n w' : w_chs w !! ch = Some c →
  ubi_complete_image_io ch w = Done n w' →
  work w' ≤ work w ∧ (ring_cq (ch_ring c) = [] → w' = tick w) ∧
  (ring_cq (ch_ring c) ≠ [] → (1 ≤ ext_result w (CallPeekBatchCqe ch))%Z → work w' < work w).
Proof.
  intros Hc (b & w1 & Hb & H)%bind_done. unfold io_uring_peek_batch_cqe in Hb.
  apply bind_done in Hb as (r & w2 & Hr & Hb). unfold ext, mbind, M_bind, gets, modify in Hr. injection Hr as <- <-.
  apply bind_done in Hb as (c' & w3 & [Hc' ->]%get_ch_done & Hb). simpl in Hc'. simplify_eq.
  injection Hb as <- <-. change (with_tick _ w) with (tick w) in *. set (n0 := ext_result _ _) in *.
  destruct (Z.ltb_spec n0 0) as [Hneg|Hpos].
  { assert (w' = tick w) as -> by (revert H; case_match; by intros [= _ <-]).
    split_and!; [done|done|lia]. }
  pose proof H as Hdone. apply (handle_cqes_work ch _ (tick w) c _ (drop (Z.to_nat n0 `min` 64) (ring_cq (ch_ring c))))
    in H; [|done|symmetry; apply take_drop]. change (work (tick w)) with (work w) in H.
  rewrite length_take in H. split_and!; [lia| |].
  - intros Hnil. rewrite Hnil, take_nil in Hdone. by injection Hdone as _ <-.
  - intros Hne Hn. destruct (ring_cq (ch_ring c)); [done|]. simpl in H. lia.
Qed.

(** * The loops of the poller *)

Lemma start_fetch_queue ch slot : moves (same_chs ch_queue) (ubi_start_fetch_stripe ch slot).
Proof.
  unfold ubi_start_fetch_stripe, ubi_fail_stripe_fetch, io_uring_prep, io_uring_submit, io_uring_get_sqe. same_chs.
Qed.

Lemma pop_work c : queue_wf (ch_queue c) → queue_empty (ch_queue c) = false →
  chan_work (with_queue (queue_pop (ch_queue c)).2 c) + 5 = chan_work c.
Proof.
  intros Hwf Hne. destruct (queue_list (ch_queue c)) as [|k l] eqn:Hl.
  { apply queue_empty_list in Hl; [congruence|done]. }
  destruct (queue_pop_list _ _ _ Hwf Hl) as [_ Hl']. unfold chan_work.
  change (ch_queue (with_queue ?q c)) with q. rewrite <-!queue_list_length, Hl', Hl. simpl. lia.
Qed.

Lemma start_fetches_work ch free : ∀ w c a w', w_chs w !! ch = Some c → queue_wf (ch_queue c) →
  start_fetches ch free w = Done a w' →
  work w' ≤ work w ∧ (queue_empty (ch_queue c) = true → w' = w) ∧
  (queue_empty (ch_queue c) = false → free ≠ [] → work w' < work w).
Proof.
  induction free as [|slot free IH]; intros w c a w' Hc Hwf; cbn [start_fetches].
  { by intros [= _ <-]. }
  intros (b & w1 & Hb & H)%bind_done. unfold stripe_queue_empty in Hb.
  apply bind_done in Hb as (c1 & w2 & [Hc1 ->]%get_ch_done & Hb). injection Hb as <- <-. simplify_eq.
  destruct (queue_empty (ch_queue c)) eqn:Hq; [by injection H as _ <-|].
  apply bind_done in H as (k & w1 & Hd & H). unfold dequeue_stripe in Hd.
  apply bind_done in Hd as (c1 & w2 & [Hc1 ->]%get_ch_done & Hd). simplify_eq.
  destruct (queue_index_ok _); [|done]. cbn in Hd. unfold put_ch, mbind, M_bind, modify in Hd. injection Hd as _ <-.
  set (c1 := with_queue _ c) in *. pose proof (work_set_ch w ch c c1 Hc) as Hset.
  assert (Hcw : chan_work c1 + 5 = chan_work c) by by apply pop_work.
  apply bind_done in H as (? & w2 & H2 & H). pose proof (spend_upd_slot _ _ _ _ _ _ H2) as Hw2.
  apply (same_upd_slot ch_queue) in H2; [|done].
  apply bind_done in H as (? & w3 & H3 & H). pose proof (spend_start_fetch _ _ _ _ _ H3) as Hw3.
  apply start_fetch_queue in H3.
  apply bind_done in H as (? & w4 & (c4 & Hc4 & ->)%upd_ch_done & H).
  destruct (same_chs_lookup ch_queue _ w3 ch c1 (transitivity H2 H3)) as (c4' & Hc4' & Hq4).
  { apply lookup_insert_eq. } simplify_eq.
  apply (IH _ (with_ch_stripes_fetched (u64 (ch_stripes_fetched c4 + 1)) c4)) in H as (H & _);
    [|apply lookup_insert_eq|simpl; rewrite Hq4; by apply queue_pop_wf].
  pose proof (work_set_ch w3 ch c4 (with_ch_stripes_fetched (u64 (ch_stripes_fetched c4 + 1)) c4) Hc4) as Hw4.
  unfold spends, chan_work in *. simpl in *. unfold set_ch in *. split_and!; [lia|done|lia].
Qed.

Lemma io_verdict_same c i : moves (same id) (io_verdict c i).
Proof. unfold io_verdict, ubi_get_stripe_status. moves. Qed.

(** Taking a request off its queue pays for what is done with it. *)
Lemma dequeue_io_work ch w c io rest (m : M world unit) a w' :
  w_chs w !! ch = Some c → ch_io c = io :: rest → moves (spends 5) m →
  (upd_ch ch (with_io rest);; m) w = Done a w' → work w' < work w.
Proof.
  intros Hc Hio Hm (? & w1 & (c1 & Hc1 & ->)%upd_ch_done & H%Hm)%bind_done. simplify_eq.
  pose proof (work_set_ch w ch c (with_io rest c) Hc) as Hw.
  assert (chan_work (with_io rest c) + 6 = chan_work c).
  { unfold chan_work; cbn -[Nat.mul]. rewrite Hio. cbn -[Nat.mul]. lia. }
  unfold spends in H. lia.
Qed.

Lemma process_ios_work ch fuel : ∀ w a w', process_ios fuel ch w = Done a w' →
  work w' ≤ work w ∧
  (∀ c io rest i v w1, w_chs w !! ch = Some c → ch_io c = io :: rest → w_ios w !! io = Some i →
     io_verdict c i w = Done v w1 → v ≠ VWait → work w' < work w).
Proof.
  induction fuel as [|fuel IH]; intros w a w'; cbn [process_ios]; [done|].
  intros (c & w1 & [Hc ->]%get_ch_done & H)%bind_done.
  destruct (ch_io c) as [|io rest] eqn:Hio.
  { injection H as _ <-. split; [done|]. intros. congruence. }
  apply bind_done in H as (i & w1 & Hi & H). unfold get_io in Hi.
  apply bind_done in Hi as (? & ? & [-> ->]%gets_done & Hi). unfold of_option, id in Hi.
  destruct (w_ios w !! io) as [i0|] eqn:Hi0; [|done]. injection Hi as -> <-.
  apply bind_done in H as (v & w1 & Hv & H).
  assert (w1 = w) as -> by exact (io_verdict_same _ _ _ _ _ Hv).
  assert (Hnext : ∀ m : M world unit, moves (spends 5) m →
    (upd_ch ch (with_io rest);; m;; process_ios fuel ch) w = Done a w' → work w' < work w).
  { intros m Hm Hd. apply (dequeue_io_work ch w c io rest _ a w' Hc Hio) in Hd; [done|].
    apply spend_l; [done|]. intros _ x b y Hp. by apply IH in Hp as [? _]. }
  assert (Hlt : v ≠ VWait → work w' < work w).
  { intros Hne. destruct v; [|done|].
    - apply (Hnext (spdk_bdev_io_complete io SPDK_BDEV_IO_STATUS_FAILED)); [|exact H].
      apply (spend_more 0); [lia|spend0].
    - apply (Hnext (service_io ch io)); [apply spend_service_io|exact H]. }
  split.
  - destruct v; [|by injection H as _ <-|]; apply Nat.lt_le_incl, Hlt; done.
  - intros c' io' rest' i' v' w1 Hc' Hio' Hi' Hv'. assert (v' = v) as -> by congruence. exact Hlt.
Qed.

Lemma submit_image_reads_work ch : moves (spends 0) (submit_image_reads ch).
Proof.
  unfold submit_image_reads. apply spend_r; [spend0|intros c]. case_match; [|spend0].
  apply spend_r; [apply spend_uring_submit|intros ret]. spend0.
Qed.

(** What makes a poll take work away: a completion to reap, a fetch to start in
    an idle slot, or a request at the head of the queue that need not wait. *)
Definition stirs (w : world) (ch : Z) (c : ubi_io_channel) : Prop :=
  ring_cq (ch_ring c) ≠ [] ∧ (1 ≤ ext_result w (CallPeekBatchCqe ch))%Z ∨
  ring_cq (ch_ring c) = [] ∧
    (queue_empty (ch_queue c) = false ∧ free_stripe_fetches 0 (ch_stripe_fetches c) ≠ [] ∨
     queue_empty (ch_queue c) = true ∧ ∃ io rest i v w1, ch_io c = io :: rest ∧
       w_ios w !! io = Some i ∧ io_verdict c i (tick w) = Done v w1 ∧ v ≠ VWait).

(** A poll adds no work, and takes some away when there is something to do. *)
Lemma poll_work ch w c n w' : inv [] w → w_chs w !! ch = Some c →
  ubi_io_poll ch w = Done n w' → work w' ≤ work w ∧ (stirs w ch c → work w' < work w).
Proof.
  intros Hinv Hc (c0 & w0 & [Hc0 ->]%get_ch_done & H)%bind_done. simplify_eq.
  set (qe := bool_decide _ && _) in H. apply bind_done in H as (r & w1 & H1 & H).
  destruct (complete_image_io_work ch w c r w1 Hc H1) as (Hw1 & Hnil & Hcq).
  pose proof (complete_image_io_spec [] w ch c Hinv Hc) as Hp1. unfold wp in Hp1. rewrite H1 in Hp1.
  destruct Hp1 as [Hinv1 _ _].
  assert (Hidle : qe = true → w' = w1 → work w' ≤ work w ∧ (stirs w ch c → work w' < work w)).
  { intros Hqe ->. split; [done|]. apply andb_true_iff in Hqe as [Hio%bool_decide_eq_true Hq].
    intros [[? ?]|[_ [[? _]|(_ & io & rest & i & v & w2 & ? & _)]]]; [by apply Hcq|congruence..]. }
  destruct qe eqn:Hqe; [apply Hidle; [done|]; revert H; case_match; by intros [= _ <-]|]. cbn [andb] in H.
  apply bind_done in H as (c1 & ? & [Hc1 ->]%get_ch_done & H).
  apply bind_done in H as (? & w2 & H2 & H).
  apply (start_fetches_work ch _ w1 c1) in H2 as (Hw2 & Hsame & Hstart);
    [|done|apply (inv_chan _ _ _ _ Hinv1 Hc1)].
  apply bind_done in H as (c2 & ? & [Hc2 ->]%get_ch_done & H).
  apply bind_done in H as (? & w3 & [Hw3 Hhead]%process_ios_work & H).
  apply bind_done in H as (? & w4 & Hw4%submit_image_reads_work & H). injection H as _ <-.
  unfold spends in Hw4. split; [lia|]. intros [[? ?]|[Hnil' Hcase]].
  { specialize (Hcq ltac:(done) ltac:(done)). lia. }
  specialize (Hnil Hnil'). subst w1. simpl in Hc1. simplify_eq.
  destruct Hcase as [[Hq Hfree]|(Hq & io & rest & i & v & w1 & Hio & Hi & Hv & Hne)].
  - specialize (Hstart Hq Hfree). lia.
  - specialize (Hsame Hq). subst w2.
    pose proof (Hhead c io rest i v w1 Hc Hio Hi Hv Hne). lia.
Qed.
End Handlers.

(** * Events *)

(** The events that finish something outside the module. *)
Definition completion (ev : event) : bool :=
  match ev with
  | EvImageRead _ _ _ | EvBase _ _ | EvBuf _ _ => true
  | EvSubmit _ _ _ | EvPoll _ | EvOpen _ _ | EvClose _ => false
  end.

Section Events.
Context {E : ext_env}.

Lemma remove_one_sum {A} `{EqDecision A} (f : A → nat) (r : A) l l' : remove_one r l = Some l' →
  sum_list_with f l = f r + sum_list_with f l'.
Proof.
  intros Hrm. destruct (decide (r ∈ l)) as [Hin|Hn].
  - destruct (remove_one_perm r l Hin) as (l0 & Hrm' & Hp). assert (l0 = l') as -> by congruence. by rewrite Hp.
  - exfalso. revert l' Hrm. induction l as [|x l IH]; intros l'; [done|]. simpl.
    apply not_elem_of_cons in Hn as [Hne Hn]. rewrite decide_False by done.
    destruct (remove_one r l) as [l0|]; [|done]. intros _. by apply (IH Hn l0).
Qed.

Lemma remove_one_length {A} `{EqDecision A} (r : A) l l' : remove_one r l = Some l' →
  length l = S (length l').
Proof.
  intros H%(remove_one_sum (λ _, 1)).
  assert (Hs : ∀ l : list A, sum_list_with (λ _, 1) l = length l).
  { induction l0 as [|x l0 IH]; [done|]. cbn. by rewrite <-IH. }
  by rewrite !Hs in H.
Qed.

Lemma spend_free_io {A} r n (m : M world A) : moves (spends n) m →
  ∀ w a w', (spdk_bdev_free_io r;; m) w = Done a w' → work w' + pred (req_work r) ≤ n + work w.
Proof.
  intros Hm w a w' (? & w1 & H1 & H%Hm)%bind_done. unfold spdk_bdev_free_io in H1.
  apply bind_done in H1 as (? & ? & [-> ->]%gets_done & H1). unfold id in H1.
  apply bind_done in H1 as (l & w2 & Hl & H1). unfold of_option in Hl.
  destruct (remove_one r (w_fin w)) as [l0|] eqn:Hrm; [|done]. injection Hl as <- <-.
  unfold modify in H1. injection H1 as _ <-.
  pose proof (remove_one_sum (pred ∘ req_work) _ _ _ Hrm) as Hsum.
  unfold spends, work in *; cbn -[Nat.mul req_work] in *. lia.
Qed.

(** A callback leaves less work than its request was. *)
Lemma callback_work r success w w' : callback r success w = Done tt w' → work w' ≤ work w.
Proof.
  assert (Hfree : ∀ m : M world unit, moves (spends (pred (req_work r))) m →
    (spdk_bdev_free_io r;; m) w = Done tt w' → work w' ≤ work w).
  { intros m Hm H. apply (spend_free_io r _ m Hm) in H. lia. }
  destruct r as [ch slot o n|io s n opts|io s n opts|io s n|io s n|io s n]; apply Hfree; cbn [req_work pred].
  - apply spend_r; [spend0|intros sf]. apply spend_r; [apply spend_set_status|intros _].
    apply spend_r; [spend0|intros u]. apply spend_r; [apply spend_put_ub|intros _]. apply spend_upd_slot.
  - apply spend_complete_io.
  - apply spend_complete_io.
  - destruct (negb success); [apply (spend_more 0); [lia|spend0]|].
    apply spend_r; [spend0|intros u]. case_match; [apply (spend_more 0); [lia|spend0]|].
    do 3 (apply spend_r; [spend0|intros ?]). apply spend_submit_then; [done|]. intros. spend0.
  - destruct (negb success); [apply (spend_more 0); [lia|spend0]|].
    do 2 (apply spend_r; [spend0|intros ?]). apply spend_submit_then; [done|]. intros. spend0.
  - destruct (negb success); spend0.
Qed.

(** A completion takes work away, a poll adds none. *)
Lemma event_work ev w w' : inv [] w → env_ok E → enabled w ev →
  match ev with EvSubmit _ _ _ => False | _ => True end →
  run_event ev w = Done tt w' →
  (if completion ev then 1 else 0) + work w' ≤ work w.
Proof.
  intros Hinv HE Hen Hns. destruct ev as [ch io i|ch|ch e res|r success|io success|ch c|ch]; [done|..]; cbn [completion].
  - destruct Hen as [c Hc]. intros (n & w1 & Hp & H)%bind_done. injection H as <-.
    by eapply poll_work.
  - intros (c & w1 & [Hc ->]%get_ch_done & H)%bind_done.
    apply bind_done in H as (r & w1 & Hr & H). unfold ring_finish, of_option in Hr.
    destruct (remove_one e (ring_inflight (ch_ring c))) as [l|] eqn:Hrm; [|done]. injection Hr as <- <-.
    unfold put_ch, modify in H. injection H as <-.
    pose proof (work_set_ch w ch c (with_ring (mk_ring (ring_sq (ch_ring c)) l
      (ring_cq (ch_ring c) ++ [(e, res)])) c) Hc) as Hw.
    pose proof (remove_one_length _ _ _ Hrm) as Hlen.
    unfold chan_work, ring_work, set_ch in Hw; cbn -[Nat.mul work] in Hw. rewrite length_app, Hlen in Hw.
    cbn -[Nat.mul work] in *. lia.
  - cbn [run_event]. intros (? & ? & [-> ->]%gets_done & H)%bind_done. unfold id in H.
    apply bind_done in H as (l & w1 & Hl & H). unfold of_option in Hl.
    destruct (remove_one r (w_pend w)) as [l0|] eqn:Hrm; [|done]. injection Hl as <- <-.
    apply (remove_one_sum req_work) in Hrm.
    apply bind_done in H as (? & w1 & H1 & H). injection H1 as _ <-.
    apply bind_done in H as (? & w1 & H1 & H). injection H1 as _ <-. apply callback_work in H.
    assert (0 < req_work r) by (destruct r; simpl; lia).
    unfold work in H at 2; cbn -[Nat.mul req_work] in H. unfold work at 2. lia.
  - cbn [run_event]. intros (? & ? & [-> ->]%gets_done & H)%bind_done. unfold id in H.
    apply bind_done in H as (l & w1 & Hl & H). unfold of_option in Hl.
    destruct (remove_one io (w_bufq w)) as [l0|] eqn:Hrm; [|done]. injection Hl as <- <-.
    apply bind_done in H as (? & w1 & H1 & H). injection H1 as _ <-. apply spend_get_buf_cb in H.
    apply remove_one_length in Hrm. unfold spends in H. unfold work in H at 2; cbn -[Nat.mul] in H. unfold work at 2. lia.
  - destruct Hen as [Hn Hc]. intros H. cbn [run_event] in H. unfold modify in H. injection H as <-. cbn [plus].
    rewrite (work_open w ch c Hn), (idle_work c (fresh_idle c Hc)). lia.
  - destruct Hen as (c & Hc & _). intros H. cbn [run_event] in H. unfold modify in H. injection H as <-. cbn [plus].
    rewrite (work_close w ch c Hc). lia.
Qed.
End Events.
