(* ===== verification/SystemProps.v ===== *)
(** Properties of every run of the system: safety of the handlers, each
    request completed once, the stripe fetch discipline, dispatch order and
    resource bounds.  The witnesses evaluate the concrete run of
    [System.v]. *)
From stdpp Require Import base tactics list gmap option numbers functions strings relations.
From Stdlib Require Import ZArith Lia.
From S2P Require Import Prelude Types World Layout FetchQueue Stripe Flush IoChannel Submit.
From S2P Require Import FetchProtocol IoInv Refine System.

Local Open Scope Z_scope.

(** * Definitions of the statements *)

(** The bytes of the base bdev a data request touches. *)
Definition data_range (blocklen : Z) (r : base_req) : option (Z * Z) :=
  match r with
  | RqStripeWrite _ _ offset nbytes => Some (offset, nbytes)
  | RqRead _ start num _ | RqWrite _ start num _ => Some (start * blocklen, num * blocklen)
  | _ => None
  end.

Definition disjoint_ranges (a b : Z * Z) : Prop := a.1 + a.2 ≤ b.1 ∨ b.1 + b.2 ≤ a.1.

(** * Lemmas *)

Lemma run_owned P w0 tr w : (∀ E ev, P E ev → env_ok E) → initial w0 → run P w0 tr w →
  owned (fview_of w).
Proof.
  intros HP Hw0 Hrun.
  destruct (run_spec P False w0 tr w HP (λ F, False_ind _ F) Hw0 Hrun) as [_ Hsteps _ _ _].
  eapply fsteps_owned; [exact Hsteps|by apply initial_inv|].
  intros k. simpl. by destruct (init_status _ Hw0 k) as [-> | ->].
Qed.

(** The request of an outstanding stripe write, in terms of its stripe. *)
Lemma stripe_write_inflight w ch slot o n : inv [] w → RqStripeWrite ch slot o n ∈ reqs w →
  ∃ k, ub_stripe_status (w_ub w) k = STRIPE_INFLIGHT ∧ image_stripe (layout_of (w_ub w)) k ∧
    o = fetch_offset (layout_of (w_ub w)) k + UBI_METADATA_SIZE ∧ n = fetch_bytes (layout_of (w_ub w)).
Proof.
  intros Hinv Hin.
  assert (Hw : (ch, slot, o, n) ∈ fv_writes (fview_of w)).
  { apply list_elem_of_omap. by exists (RqStripeWrite ch slot o n). }
  destruct (fi_writes _ (inv_fetch _ _ Hinv) _ _ _ _ Hw) as (f & s & Hf & Hs & -> & ->).
  exists (sf_stripe_idx s). pose proof (fi_chan _ (inv_fetch _ _ Hinv) _ _ Hf) as Hok.
  assert (Ha : sf_active s = true).
  { eapply outstanding_active; [done..|]. by eapply outstanding_pos_writes. }
  destruct (co_held _ _ _ Hok (sf_stripe_idx s)) as [? ?]; [by eapply held_active|done].
Qed.

(** The I/O of an outstanding request is started. *)
Lemma req_started w r io : inv [] w → r ∈ reqs w → req_io r = Some io → started w io.
Proof.
  intros Hinv Hin Hr. apply (ii_started _ _ (inv_io _ _ Hinv)). unfold started_ids.
  rewrite !elem_of_app. do 3 right. apply list_elem_of_omap. by exists r.
Qed.

(** A stripe and a range of blocks that lies in another stripe. *)
Lemma stripe_blocks_disjoint u k i : layout_ok (layout_of u) → io_ok (layout_of u) i →
  io_type i = SPDK_BDEV_IO_TYPE_READ ∨ io_type i = SPDK_BDEV_IO_TYPE_WRITE →
  stripe_of u (io_offset_blocks i) ≠ k →
  disjoint_ranges (k * ub_stripe_block_count u, ub_stripe_block_count u)
    (io_offset_blocks i, io_num_blocks i).
Proof.
  intros Hl Hok Ht. rewrite stripe_of_div by done. pose proof (iok_split _ _ Hok Ht) as Hs.
  destruct Hl as ([_ _ Hsh Hsbc _ _ _] & _). simpl in *.
  assert (Hpos : 0 < ub_stripe_block_count u) by (rewrite Hsbc; apply Z.pow_pos_nonneg; lia).
  set (b := io_offset_blocks i) in *. set (e := b + io_num_blocks i - 1) in *.
  set (sbc := ub_stripe_block_count u) in *. pose proof (iok_num _ _ Hok). intros Hne.
  pose proof (Z.mul_div_le b sbc Hpos). pose proof (Z.mul_succ_div_gt e sbc Hpos).
  unfold disjoint_ranges; simpl. rewrite <-Hs in *.
  destruct (Z.lt_ge_cases (b `div` sbc) k); [right|left]; nia.
Qed.

(** The state reached after a longer trace, as a run from the shorter one. *)
Lemma run_split P w0 tr1 tr2 w : run P w0 (tr1 ++ tr2) w →
  ∃ w1, run P w0 tr1 w1 ∧ run P w1 tr2 w.
Proof.
  remember (tr1 ++ tr2) as tr eqn:Htr. intros Hrun. revert tr2 Htr.
  induction Hrun as [w|w tr w1 E ev w2 Hrun IH HP Hen Hs]; intros tr2 Htr.
  - symmetry in Htr. apply app_nil in Htr as [-> ->]. exists w. split; constructor.
  - destruct tr2 as [|ev' tr2' _] using rev_ind.
    + rewrite app_nil_r in Htr. subst. exists w2. split; [by eapply run_snoc|constructor].
    + rewrite app_assoc in Htr. apply app_inj_tail in Htr as [-> ->].
      destruct (IH tr2' eq_refl) as (w' & H1 & H2). exists w'. split; [done|]. by eapply run_snoc.
Qed.

Lemma run_evolve w tr w' : inv [] w → run any_step w tr w' →
  inv [] w' ∧ rtc fstep (fview_of w) (fview_of w').
Proof.
  intros Hinv Hrun. induction Hrun as [w|w tr w1 E ev w2 Hrun IH HP Hen Hs]; [done|].
  destruct (IH Hinv) as [Hinv1 Hf]. pose proof HP as HE. unfold any_step in HE.
  pose proof (step_spec w1 ev Hinv1 Hen) as Hwp. unfold wp in Hwp. rewrite Hs in Hwp.
  destruct Hwp as [? Hf' _ _ _ _]. split; [done|]. by etransitivity.
Qed.

(** * Properties *)

(** C2. Handlers are safe in every environment of [env_ok].  After any run in
    which, at every step, liburing behaves as documented and the submission of
    a prepared stripe fetch succeeds, every handler that may be called next
    returns: it runs to its end, without undefined behaviour (no NULL or
    dangling pointer, no index outside the status array, the queue, the slots,
    no request freed twice) and without exhausting the fuel of its loop.
    Everything else may fail at any time: requests to the base bdev may be
    refused or fail, reads of the image may fail, other submissions may fail,
    buffers may be missing.  The condition on submissions is an assumption on
    io_uring that the code does not make good itself: without it a run reaches
    undefined behaviour, see [Flaws]. *)
Theorem system_safe (w0 w : world) (tr : list event) (E : ext_env) (ev : event) :
  initial w0 → run any_step w0 tr w → env_ok E → enabled w ev →
  ∃ w', run_event ev w = Done tt w' ∧ inv [] w'.
Proof.
  intros Hw0 Hrun HE Hen. pose proof (step_spec w ev (run_inv _ _ _ Hw0 Hrun) Hen) as Hwp.
  apply wp_done in Hwp as ([] & w' & Hs & Hp). exists w'. split; [done|]. by destruct Hp.
Qed.

Lemma system_safe_witness : ∃ w',
  run_event (E := demo_env) (EvBase (RqStripeWrite 1 0 8388608 65536) false)
    (demo_state demo_fetching) = Done tt w' ∧ inv [] w'.
Proof.
  apply (system_safe demo_world _ demo_fetching demo_env).
  - exact demo_initial.
  - exact demo_fetching_run.
  - exact demo_env_ok.
  - apply (bool_decide_unpack _). by vm_compute.
Defined.

(** C3. No request is lost and none is completed twice, as long as the base
    bdev accepts requests and data flushes succeed: the requests that
    arrived are, each exactly once, either completed, waiting in a channel
    queue, or started (in a ring, waiting for a buffer, or at the base
    bdev). *)
Theorem io_exactly_once (w0 w : world) (tr : list event) :
  initial w0 → run lossless_step w0 tr w →
  (w_done w).*1 ++ queued_ids w ++ started_ids [] w ≡ₚ submitted tr ∧ NoDup (submitted tr).
Proof.
  intros Hw0 Hrun.
  destruct (run_spec lossless_step True w0 tr w) as [Hinv _ _ (lost & Hids & Hl) _]; try done.
  { by intros E ev (? & _). }
  rewrite (Hl I) in Hids. simpl in Hids. pose proof (ii_nodup _ _ (inv_io _ _ Hinv)) as Hnd.
  rewrite <-Hids. split; [|done]. unfold ids. rewrite Permutation_app_comm. by rewrite app_assoc.
Qed.

Lemma io_exactly_once_witness :
  (w_done (demo_state demo_trace)).*1 ++ queued_ids (demo_state demo_trace) ++
    started_ids [] (demo_state demo_trace) ≡ₚ [10; 11; 12; 13].
Proof. apply (io_exactly_once demo_world _ demo_trace demo_initial demo_trace_run). Defined.

(** In any environment of [env_ok], even one that refuses requests or fails flushes, a
    request is completed at most once, only after it arrived, and never while
    the module still holds it. *)
Theorem io_completed_once (w0 w : world) (tr : list event) :
  initial w0 → run any_step w0 tr w →
  NoDup (w_done w).*1 ∧
  ∀ io, io ∈ (w_done w).*1 → io ∈ submitted tr ∧ io ∉ queued_ids w ∧ io ∉ started_ids [] w.
Proof.
  intros Hw0 Hrun. destruct (run_any _ _ _ Hw0 Hrun) as [Hinv _ _ (lost & Hids & _) _].
  pose proof (ii_nodup _ _ (inv_io _ _ Hinv)) as Hnd. unfold ids in Hnd. rewrite app_assoc in Hnd.
  apply NoDup_app in Hnd as (_ & Hdisj & Hnd). split; [done|]. intros io Hio. split.
  - rewrite <-Hids. unfold ids. rewrite !elem_of_app. tauto.
  - split; intros Hin; eapply Hdisj; eauto; rewrite elem_of_app; tauto.
Qed.

Lemma io_completed_once_witness : 12 ∈ (w_done (demo_state demo_trace)).*1 ∧
  12 ∉ started_ids [] (demo_state demo_trace).
Proof.
  assert (H : 12 ∈ (w_done (demo_state demo_trace)).*1).
  { apply (bool_decide_unpack _). by vm_compute. }
  split; [exact H|]. apply (io_completed_once demo_world _ demo_trace demo_initial demo_trace_any). exact H.
Defined.

(** C10. A stripe that is being written to the base bdev does not overlap any
    outstanding read or write of the module on the base bdev, when the image
    ends at a stripe boundary: a fetch never overwrites the data of a
    request, and no request reads a stripe that is half written. *)
Theorem fetch_write_disjoint (w0 w : world) (tr : list event) (r1 r2 : base_req) (a b : Z * Z) :
  initial w0 → run any_step w0 tr w →
  ub_image_block_count (w_ub w) `mod` ub_stripe_block_count (w_ub w) = 0 →
  r1 ∈ reqs w → r2 ∈ reqs w → is_Some (swrite_of r1) → swrite_of r2 = None →
  data_range (bd_blocklen (ub_bdev (w_ub w))) r1 = Some a →
  data_range (bd_blocklen (ub_bdev (w_ub w))) r2 = Some b → disjoint_ranges a b.
Proof.
  intros Hw0 Hrun Halign H1 H2 Hsw Hnsw Ha Hb. pose proof (run_inv _ _ _ Hw0 Hrun) as Hinv.
  destruct r1 as [ch slot o n| | | | |]; try by destruct Hsw. simpl in Ha. simplify_eq.
  destruct (stripe_write_inflight _ _ _ _ _ Hinv H1) as (k & Hk & [Hk0 Hkimg] & -> & ->).
  pose proof (inv_layout _ _ Hinv) as Hl. pose proof Hl as ([Hbl _ Hsh Hsbc Hbytes Hd _] & _).
  pose proof (po_req _ (ii_places _ _ (inv_io _ _ Hinv)) _ H2) as Hok.
  assert (Hmain : ∀ io i start num, req_io r2 = Some io → w_ios w !! io = Some i →
    io_type i = SPDK_BDEV_IO_TYPE_READ ∨ io_type i = SPDK_BDEV_IO_TYPE_WRITE →
    base_rw_ok (w_ub w) i start num →
    disjoint_ranges (k * ub_stripe_block_count (w_ub w), ub_stripe_block_count (w_ub w))
      (io_offset_blocks i, io_num_blocks i)).
  { intros io i start num Hio Hi Ht (_ & _ & Hf).
    destruct (req_started _ _ _ Hinv H2 Hio) as (i' & c & Hi' & Hiok & _). simplify_eq.
    apply stripe_blocks_disjoint; [done..|]. intros Heq. unfold block_status in Hf. rewrite Heq, Hk in Hf.
    destruct (Z.lt_ge_cases (io_offset_blocks i) (ub_image_block_count (w_ub w))) as [Hlt|Hge].
    - by specialize (Hf Hlt).
    - simpl in *. rewrite stripe_of_div in Heq by done.
      assert (Hpos : 0 < ub_stripe_block_count (w_ub w)) by (rewrite Hsbc; apply Z.pow_pos_nonneg; lia).
      pose proof (Z.div_mod (ub_image_block_count (w_ub w)) (ub_stripe_block_count (w_ub w)) ltac:(lia)) as Hq.
      pose proof (Z.mul_succ_div_gt (io_offset_blocks i) (ub_stripe_block_count (w_ub w)) Hpos) as Hgt.
      rewrite Halign in Hq. rewrite Heq in Hgt.
      set (q := ub_image_block_count (w_ub w) `div` ub_stripe_block_count (w_ub w)) in *.
      assert (k < q) by nia. nia. }
  unfold fetch_offset, fetch_bytes. simpl in *.
  destruct r2 as [|io start num opts|io start num opts| | |]; try done; simpl in *; simplify_eq;
    destruct Hok as (i & Hi & Ht & Hrw); pose proof Hrw as (-> & -> & _);
    (destruct (Hmain io i _ _ eq_refl Hi ltac:(tauto) Hrw) as [Hd'|Hd']; [left|right]; simpl in *; nia).
Qed.

Lemma fetch_write_disjoint_witness : disjoint_ranges (8388608, 65536) (16514 * 512, 8 * 512).
Proof.
  apply (fetch_write_disjoint demo_world (demo_state demo_fetching) demo_fetching
           (RqStripeWrite 1 0 8388608 65536) (RqWrite 10 16514 8 (mk_ext_opts 0 0 0))).
  - exact demo_initial.
  - exact demo_fetching_run.
  - by vm_compute.
  - apply (bool_decide_unpack _). by vm_compute.
  - apply (bool_decide_unpack _). by vm_compute.
  - by eexists.
  - done.
  - done.
  - by vm_compute.
Defined.

(** C13. The module keeps to its parts of the base bdev.  In every reachable state
    each outstanding read, write or data flush lies inside the data area, each
    metadata write or flush covers exactly the metadata, and each stripe write
    lies behind the metadata; when the image ends at a stripe boundary, which
    the code does not check, a stripe write also ends inside the data area. *)
Theorem requests_in_bounds (w0 w : world) (tr : list event) (r : base_req) :
  initial w0 → run any_step w0 tr w → r ∈ reqs w →
  let bl := bd_blocklen (ub_bdev (w_ub w)) in let doff := ub_data_offset_blocks (w_ub w) in
  let data_end := doff + bd_blockcnt (ub_bdev (w_ub w)) in
  doff * bl = UBI_METADATA_SIZE ∧
  match r with
  | RqRead _ start num _ | RqWrite _ start num _ => doff ≤ start ∧ 0 < num ∧ start + num ≤ data_end
  | RqStripeWrite _ _ offset nbytes => UBI_METADATA_SIZE ≤ offset ∧ 0 < nbytes ∧
      (ub_image_block_count (w_ub w) `mod` ub_stripe_block_count (w_ub w) = 0 → offset + nbytes ≤ data_end * bl)
  | RqMetadataWrite _ start num | RqMetadataFlush _ start num => start = 0 ∧ num = doff
  | RqDataFlush _ start num => doff ≤ start ∧ 0 < num ∧ start + num ≤ data_end
  end.
Proof.
  intros Hw0 Hrun Hin bl doff data_end. pose proof (run_inv _ _ _ Hw0 Hrun) as Hinv.
  pose proof (inv_layout _ _ Hinv) as ([Hbl Hkb Hsh Hsbc Hbytes Hd _] & Himg & _).
  pose proof (po_req _ (ii_places _ _ (inv_io _ _ Hinv)) _ Hin) as Hok. simpl in Hbl, Hkb, Hsh, Hsbc, Hbytes, Hd, Himg. fold bl in Hbl, Hbytes, Hd. fold doff in Hd.
  split; [done|].
  assert (Hrw : ∀ io i start num, req_io r = Some io → w_ios w !! io = Some i →
    start = io_offset_blocks i + ub_data_offset_blocks (w_ub w) → num = io_num_blocks i →
    doff ≤ start ∧ 0 < num ∧ start + num ≤ data_end).
  { intros io i start num Hio Hi Hs Hm. fold doff in Hs.
    destruct (req_started _ _ _ Hinv Hin Hio) as (i' & c & Hi' & [_ Ho Hn He _] & _).
    assert (i' = i) as -> by congruence. simpl in He. unfold data_end. lia. }
  destruct r as [ch slot o n|io start num opts|io start num opts|io start num|io start num|io start num].
  - destruct (stripe_write_inflight _ _ _ _ _ Hinv Hin) as (k & _ & [Hk0 Hk] & -> & ->).
    unfold fetch_offset, fetch_bytes, UBI_STRIPE_SIZE_MIN in *. simpl in *. split_and!; [nia|lia|].
    intros Hal. assert (Hpos : 0 < ub_stripe_block_count (w_ub w)) by (rewrite Hsbc; apply Z.pow_pos_nonneg; lia).
    pose proof (Z.div_mod (ub_image_block_count (w_ub w)) (ub_stripe_block_count (w_ub w)) ltac:(lia)) as Hq.
    rewrite Hal in Hq. set (q := ub_image_block_count (w_ub w) `div` ub_stripe_block_count (w_ub w)) in *.
    assert (k + 1 ≤ q) by nia. rewrite <-Hbytes, <-Hd.
    assert ((k + 1) * ub_stripe_block_count (w_ub w) ≤ bd_blockcnt (ub_bdev (w_ub w))) by nia.
    unfold data_end. nia.
  - destruct Hok as (i & Hi & _ & Hs & Hn & _). by apply (Hrw io i).
  - destruct Hok as (i & Hi & _ & Hs & Hn & _). by apply (Hrw io i).
  - destruct Hok as (i & Hi & _ & Hs & Hn). by apply (Hrw io i).
  - by destruct Hok as (i & _ & _ & -> & ->).
  - by destruct Hok as (i & _ & _ & -> & ->).
Qed.

Lemma requests_in_bounds_witness : 16384 * 512 = UBI_METADATA_SIZE ∧ 16384 ≤ 16514 ∧ 0 < 8 ∧ 16514 + 8 ≤ 16384 + 4096.
Proof.
  apply (requests_in_bounds demo_world (demo_state demo_fetching) demo_fetching (RqWrite 10 16514 8 (mk_ext_opts 0 0 0))
    demo_initial demo_fetching_run). apply (bool_decide_unpack _). vm_compute. exact I.
Defined.

(** C23. A stripe goes from not fetched to in flight and from there to fetched
    or failed, and never back: between any two states of a run its status
    moves along these transitions only.  A fetched stripe stays fetched. *)
Theorem stripe_status_monotone (w0 w1 w2 : world) (tr1 tr2 : list event) (k : Z) :
  initial w0 → run any_step w0 tr1 w1 → run any_step w1 tr2 w2 →
  rtc status_step (ub_stripe_status (w_ub w1) k) (ub_stripe_status (w_ub w2) k) ∧
  (ub_stripe_status (w_ub w1) k = STRIPE_FETCHED → ub_stripe_status (w_ub w2) k = STRIPE_FETCHED).
Proof.
  intros Hw0 H1 H2. pose proof (run_inv _ _ _ Hw0 H1) as Hinv.
  destruct (run_evolve _ _ _ Hinv H2) as [_ Hf].
  pose proof (fsteps_status _ _ k (inv_fetch _ _ Hinv) Hf) as Hs. split; [exact Hs|].
  intros Hk. simpl in Hs. rewrite Hk in Hs. by apply status_fetched_final.
Qed.

Lemma stripe_status_monotone_witness :
  rtc status_step (ub_stripe_status (w_ub (demo_state demo_arrivals)) 0)
    (ub_stripe_status (w_ub (demo_state demo_trace)) 0) ∧
  ub_stripe_status (w_ub (demo_state demo_trace)) 1 = STRIPE_FETCHED.
Proof.
  assert (H : run any_step (demo_state demo_arrivals) (drop 3 demo_trace) (demo_state demo_trace)).
  { apply (run_events_sound (E := demo_env) any_step _ _ [] (demo_state demo_arrivals)); [constructor|by intros; apply demo_env_ok|].
    by vm_compute. }
  split.
  - apply (stripe_status_monotone demo_world _ _ demo_arrivals _ 0 demo_initial demo_arrivals_run H).
  - apply (stripe_status_monotone demo_world _ _ demo_arrivals _ 1 demo_initial demo_arrivals_run H).
    by vm_compute.
Defined.

(** C16. At any time each stripe is held by at most one fetch queue entry or
    active fetch slot of all channels, a held stripe is in flight, and every
    stripe in flight is held: it is waiting in the queue of a channel, or one
    slot of a channel has it with exactly one read of the image or one write
    to the base bdev outstanding.  No stripe is fetched twice and none is
    forgotten. *)
Theorem stripe_inflight_owner (w0 w : world) (tr : list event) (k : Z) :
  initial w0 → run any_step w0 tr w →
  (ub_stripe_status (w_ub w) k = STRIPE_INFLIGHT ↔
   ∃ ch c, w_chs w !! ch = Some c ∧ k ∈ held (fchan_of c)) ∧
  (∀ ch1 ch2 c1 c2, w_chs w !! ch1 = Some c1 → w_chs w !! ch2 = Some c2 →
     k ∈ held (fchan_of c1) → k ∈ held (fchan_of c2) → ch1 = ch2) ∧
  (∀ ch c, w_chs w !! ch = Some c → NoDup (held (fchan_of c)) ∧
     ∀ slot s, ch_stripe_fetches c !! slot = Some s → sf_active s = true →
       outstanding ch slot (omap fetch_of (ring_all (ch_ring c))) (omap swrite_of (reqs w)) = 1%nat).
Proof.
  intros Hw0 Hrun. pose proof (run_inv _ _ _ Hw0 Hrun) as Hinv.
  pose proof (run_owned any_step w0 tr w (λ _ _ H, H) Hw0 Hrun) as Ho.
  pose proof (inv_fetch _ _ Hinv) as Hf. split_and!; [split| |].
  - intros (ch & f & Hch & Hk)%Ho. simpl in Hch. rewrite lookup_fmap in Hch.
    destruct (w_chs w !! ch) as [c|] eqn:Hc; [|done]. injection Hch as <-. by exists ch, c.
  - intros (ch & c & Hc & Hk). by apply (co_held _ _ _ (inv_chan _ _ _ _ Hinv Hc)).
  - intros ch1 ch2 c1 c2 H1 H2 Hk1 Hk2. destruct (decide (ch1 = ch2)); [done|]. exfalso.
    by eapply (fi_disjoint _ Hf ch1 ch2); [apply fview_lookup..| | |].
  - intros ch c Hc. pose proof (inv_chan _ _ _ _ Hinv Hc) as Hok. split; [apply Hok|].
    intros slot s Hs Ha.
    pose proof (co_outstanding _ _ _ Hok slot s Hs) as Hout. by rewrite Ha in Hout.
Qed.

Lemma stripe_inflight_owner_witness : ∃ ch c,
  w_chs (demo_state demo_fetching) !! ch = Some c ∧ 0 ∈ held (fchan_of c).
Proof.
  apply (stripe_inflight_owner demo_world (demo_state demo_fetching) demo_fetching 0
           demo_initial demo_fetching_run).
  by vm_compute.
Defined.

(** C24. Resource bounds of a channel: the read counter is the number of reads
    it has started and not completed, at most [UBI_MAX_CONCURRENT_READS]; all
    entries on its ring, prepared, submitted or unreaped, fit in the
    [UBI_URING_QUEUE_SIZE] entries it was created with; and before a stripe
    fetch is started there is room for its entry, so the unchecked
    [io_uring_get_sqe] of [ubi_start_fetch_stripe] returns one. *)
Theorem channel_bounds (w0 w : world) (tr : list event) (ch : Z) (c : ubi_io_channel) :
  initial w0 → run any_step w0 tr w → w_chs w !! ch = Some c →
  ch_active_reads c = Z.of_nat (length (reads_of (w_ios w) ch (started_ids [] w))) ∧
  ch_active_reads c ≤ UBI_MAX_CONCURRENT_READS ∧
  Z.of_nat (length (ring_all (ch_ring c))) ≤ UBI_URING_QUEUE_SIZE ∧
  Z.of_nat (length (ring_sq (ch_ring c))) + UBI_MAX_ACTIVE_STRIPE_FETCHES ≤ UBI_URING_QUEUE_SIZE.
Proof.
  intros Hw0 Hrun Hc. pose proof (run_inv _ _ _ Hw0 Hrun) as Hinv.
  destruct (ii_reads _ _ (inv_io _ _ Hinv) ch c Hc) as [Ha Hle]. split_and!; [done|done| |].
  - pose proof (ring_ios_bound _ _ _ _ (inv_io _ _ Hinv) Hc) as Hr.
    pose proof (fetch_ring_bound _ _ _ (inv_chan _ _ _ _ Hinv Hc)) as Hfb. simpl in Hfb.
    rewrite ring_length. unfold ring_ios in Hr.
    unfold UBI_MAX_CONCURRENT_READS, UBI_URING_QUEUE_SIZE in *. lia.
  - pose proof (sq_bound _ _ _ _ (inv_io _ _ Hinv) (inv_sq _ _ Hinv) Hc).
    unfold UBI_MAX_CONCURRENT_READS, UBI_URING_QUEUE_SIZE, UBI_MAX_ACTIVE_STRIPE_FETCHES in *. lia.
Qed.

Lemma channel_bounds_witness : ∃ c, w_chs (demo_state demo_fetching) !! 1 = Some c ∧
  Z.of_nat (length (ring_all (ch_ring c))) ≤ UBI_URING_QUEUE_SIZE.
Proof.
  destruct (w_chs (demo_state demo_fetching) !! 1) as [c|] eqn:Hc; [|by vm_compute in Hc].
  exists c. split; [done|].
  apply (channel_bounds demo_world (demo_state demo_fetching) demo_fetching 1 c demo_initial
           demo_fetching_run Hc).
Defined.

(** C25. Requests of a channel are dispatched in the order they arrived: what
    is still queued is exactly the tail of the sequence of arrivals. *)
Theorem dispatch_fifo (w0 w : world) (tr : list event) (ch : Z) (c : ubi_io_channel) :
  initial w0 → run any_step w0 tr w → w_chs w !! ch = Some c →
  ∃ dispatched, submitted_on ch tr = dispatched ++ ch_io c.
Proof.
  intros Hw0 Hrun Hc. destruct (run_any _ _ _ Hw0 Hrun) as [_ _ _ _ Hch].
  destruct (Hch ch c Hc) as (l & Hl). by exists l.
Qed.

Lemma dispatch_fifo_witness : ∃ c dispatched, w_chs (demo_state demo_fetching) !! 1 = Some c ∧
  [10; 11; 12] = dispatched ++ ch_io c.
Proof.
  destruct (w_chs (demo_state demo_fetching) !! 1) as [c|] eqn:Hc; [|by vm_compute in Hc].
  exists c. destruct (dispatch_fifo demo_world _ demo_fetching 1 c demo_initial demo_fetching_run Hc) as (l & Hl).
  exists l. split; [done|exact Hl].
Defined.

(** C26. The branch of the dispatch loop that reports a programming error is
    dead: the loop fails a queued request only when the fetch of its stripe
    failed, and it lets a write, or a read with copy_on_read, through only to
    a fetched stripe or past the end of the image. *)
Theorem dispatch_verdict (w0 w : world) (tr : list event) (ch io : Z)
    (c : ubi_io_channel) (i : spdk_bdev_io) :
  initial w0 → run any_step w0 tr w → w_chs w !! ch = Some c → io ∈ ch_io c →
  w_ios w !! io = Some i →
  wp (io_verdict c i) w (λ v w', w' = w ∧
    (v = VFail → block_status (w_ub w) (io_offset_blocks i) = STRIPE_FAILED ∧
                 io_offset_blocks i < ub_image_block_count (w_ub w)) ∧
    (v = VServe → servable w c i)).
Proof.
  intros Hw0 Hrun Hc Hin Hi. pose proof (run_inv _ _ _ Hw0 Hrun) as Hinv.
  destruct (ii_queued _ _ (inv_io _ _ Hinv) ch c io Hc Hin) as (i' & Hi' & Hok & Hneed). simplify_eq.
  unfold io_verdict. wp_step. set (full := _ && (UBI_MAX_CONCURRENT_READS <=? _)).
  destruct full eqn:Hfull; [by wp_step|].
  assert (Hact : io_type i = SPDK_BDEV_IO_TYPE_READ → ch_active_reads c < UBI_MAX_CONCURRENT_READS).
  { intros Ht. unfold full in Hfull. rewrite bool_decide_eq_true_2 in Hfull by done.
    by apply Z.leb_gt. }
  destruct (bool_decide_reflect (io_type i = SPDK_BDEV_IO_TYPE_FLUSH)) as [Ht|Ht]; cbn [negb andb].
  { wp_step. split_and!; [done..|]. intros _. split; [done|]. intros Hn. unfold needs_stripe in Hn.
    by rewrite Ht in Hn. }
  destruct (Z.ltb_spec (io_offset_blocks i) (ub_image_block_count (w_ub w))) as [Himg|Himg].
  2: { wp_step. split_and!; [done..|]. intros _. split; [done|]. intros _ ?. lia. }
  apply wp_bind, (wp_stripe_status _ _ i); [by eapply inv_layout|done|destruct Hok; lia|].
  destruct (block_status _ _) eqn:Hst; [|by wp_step|by wp_step; split_and!|].
  - destruct (needs_stripe (w_ub w) (io_type i)) eqn:Hn; [by destruct (Hneed eq_refl Himg)|].
    pose proof (iok_type _ _ Hok) as Hty. pose proof Hn as Hn'. unfold needs_stripe in Hn'.
    destruct (io_type i) eqn:Hio; rewrite ?Hio in *; try done. rewrite bool_decide_eq_true_2, Hn' by done. cbn [negb orb].
    wp_step. split_and!; [done..|]. intros _. split; [intros _; by apply Hact|]. unfold io_ready. by rewrite Hio, Hn.
  - wp_step. split_and!; [done..|]. intros _. split; [done|by intros ? ?].
Qed.

Lemma dispatch_verdict_witness : ∃ c i, w_chs (demo_state demo_fetching) !! 1 = Some c ∧
  wp (io_verdict c i) (demo_state demo_fetching) (λ v w', w' = demo_state demo_fetching ∧
    (v = VFail → block_status (w_ub (demo_state demo_fetching)) (io_offset_blocks i) = STRIPE_FAILED ∧
       io_offset_blocks i < ub_image_block_count (w_ub (demo_state demo_fetching))) ∧
    (v = VServe → servable (demo_state demo_fetching) c i)).
Proof.
  destruct (w_chs (demo_state demo_fetching) !! 1) as [c|] eqn:Hc; [|by vm_compute in Hc].
  destruct (w_ios (demo_state demo_fetching) !! 11) as [i|] eqn:Hi; [|by vm_compute in Hi].
  exists c, i. split; [done|].
  apply (dispatch_verdict demo_world (demo_state demo_fetching) demo_fetching 1 11 c i demo_initial
           demo_fetching_run Hc); [|exact Hi].
  vm_compute in Hc. injection Hc as <-. apply (bool_decide_unpack _). by vm_compute.
Defined.

(** C27. The unchecked fetch queue cannot overflow when the image has fewer
    than [UBI_FETCH_QUEUE_SIZE] stripes: whenever a request may enqueue a
    fetch, there is room for it, however many requests are pending. *)
Theorem fetch_queue_room (w0 w : world) (tr : list event) (ch k : Z) (c : ubi_io_channel) :
  initial w0 → run any_step w0 tr w → w_chs w !! ch = Some c →
  ub_image_block_count (w_ub w) ≤ (UBI_FETCH_QUEUE_SIZE - 1) * ub_stripe_block_count (w_ub w) →
  image_stripe (layout_of (w_ub w)) k → ub_stripe_status (w_ub w) k = STRIPE_NOT_FETCHED →
  queue_length (ch_queue c) + 1 < UBI_FETCH_QUEUE_SIZE.
Proof.
  intros Hw0 Hrun Hc Himg Hk Hnf. pose proof (run_inv _ _ _ Hw0 Hrun) as Hinv.
  pose proof (queue_room (fview_of w) ch (fchan_of c) k (UBI_FETCH_QUEUE_SIZE - 1) (inv_fetch _ _ Hinv)
    (fview_lookup _ _ _ Hc) Hk Hnf Himg) as Hr. simpl in Hr. unfold UBI_FETCH_QUEUE_SIZE in *. lia.
Qed.

Lemma fetch_queue_room_witness : queue_length (ch_queue demo_channel) + 1 < UBI_FETCH_QUEUE_SIZE.
Proof.
  apply (fetch_queue_room demo_world demo_world [] 1 0 demo_channel demo_initial).
  - constructor.
  - reflexivity.
  - by vm_compute.
  - by vm_compute.
  - reflexivity.
Defined.
