(* ===== verification/Progress.v ===== *)
(** Liveness of the I/O path: when no request arrives any more, the requests in
    progress need a bounded number of completions, and polling the channels
    never leaves one of them stuck. *)
From stdpp Require Import base tactics list gmap option numbers functions strings relations.
From Stdlib Require Import ZArith Lia.
From S2P Require Import Prelude Types World Layout FetchQueue Stripe Flush IoChannel Submit.
From S2P Require Import FetchProtocol IoInv Refine System SystemProps Moves Work.

Local Open Scope Z_scope.

(** * Draining *)

(** [io_uring_peek_batch_cqe] reports the completions there are. *)
Definition responsive (E : ext_env) : Prop := ∀ w ch c, w_chs w !! ch = Some c →
  ring_cq (ch_ring c) ≠ [] → 1 ≤ ext_result w (CallPeekBatchCqe ch).

(** Everything but the arrival of requests. *)
Definition drain_step (E : ext_env) (ev : event) : Prop :=
  lossless_step E ev ∧ responsive E ∧ match ev with EvSubmit _ _ _ => False | _ => True end.

Definition completions (tr : list event) : nat := length (filter (λ ev, completion ev = true) tr).

(** * Lemmas *)

Lemma run_app P w0 tr w tr' w' : run P w0 tr w → run P w tr' w' → run P w0 (tr ++ tr') w'.
Proof.
  intros Hrun. induction 1 as [w|w tr' w1 E ev w2 Hrun' IH HP Hen Hs]; [by rewrite app_nil_r|].
  rewrite app_assoc. eapply run_snoc; [by apply IH|done..].
Qed.

(** With copy_on_read no image read is prepared for a request, so every entry
    of a ring is submitted. *)
Lemma copy_on_read_ring w ch c : inv [] w → ub_copy_on_read (w_ub w) = true → w_chs w !! ch = Some c →
  ring_sq (ch_ring c) = [] ∧ ring_ios (ch_ring c) = [].
Proof.
  intros Hinv Hcor Hc.
  assert (Hno : ∀ io o, SqeReadv io o ∉ ring_all (ch_ring c)).
  { intros io o Hin. destruct (po_readv _ (ii_places _ _ (inv_io _ _ Hinv)) ch c io o Hc Hin)
      as (i & _ & _ & _ & [_ Hf] & _). congruence. }
  split.
  - destruct (ring_sq (ch_ring c)) as [|e l] eqn:Hsq; [done|]. exfalso.
    destruct (inv_sq _ _ Hinv ch c e Hc) as [io He]; [rewrite Hsq; left|].
    destruct e as [|io' o]; [done|]. apply (Hno io' o). unfold ring_all. rewrite !elem_of_app, Hsq. do 2 right. left.
  - unfold ring_ios. destruct (omap readv_of _) as [|io l] eqn:Hl; [done|]. exfalso.
    assert (Hin : io ∈ omap readv_of (ring_all (ch_ring c))) by (rewrite Hl; left).
    apply list_elem_of_omap in Hin as ([|io' o] & Hin & He); [done|]. by apply (Hno io' o).
Qed.

(** A state in which nothing is due from outside. *)
Record settled (w : world) : Prop := {
  se_inv : inv [] w;
  se_owned : owned (fview_of w);
  se_cor : ub_copy_on_read (w_ub w) = true;
  se_fin : w_fin w = [];
  se_due ev : completion ev = true → ¬ enabled w ev
}.

Lemma settled_lists w : settled w → w_pend w = [] ∧ w_bufq w = [] ∧
  ∀ ch c, w_chs w !! ch = Some c → ring_inflight (ch_ring c) = [].
Proof.
  intros [_ _ _ _ Hdue]. split_and!.
  - destruct (w_pend w) as [|r l] eqn:Hp; [done|]. destruct (Hdue (EvBase r true)); [done|]. cbn. rewrite Hp. left.
  - destruct (w_bufq w) as [|io l] eqn:Hp; [done|]. destruct (Hdue (EvBuf io true)); [done|]. cbn. rewrite Hp. left.
  - intros ch c Hc. destruct (ring_inflight (ch_ring c)) as [|e l] eqn:Hr; [done|].
    destruct (Hdue (EvImageRead ch e 0)); [done|]. exists c. rewrite Hr. split; [done|left].
Qed.

Lemma settled_started w : settled w → started_ids [] w = [].
Proof.
  intros Hset. destruct (settled_lists w Hset) as (Hp & Hb & _). destruct Hset as [Hinv _ Hcor Hfin _].
  unfold started_ids, reqs. rewrite Hp, Hb, Hfin. simpl. rewrite app_nil_r. apply over_chs_nil.
  intros ch c Hc. by apply (copy_on_read_ring w ch c).
Qed.

Section Settled.
Context (w : world) (Hset : settled w).
(** No completion waits on a ring either. *)
Hypothesis Hcq : ∀ ch c, w_chs w !! ch = Some c → ring_cq (ch_ring c) = [].

Lemma settled_slots ch c slot s : w_chs w !! ch = Some c → ch_stripe_fetches c !! slot = Some s →
  sf_active s = false.
Proof.
  intros Hc Hs. destruct (settled_lists w Hset) as (Hp & _ & Hinf). pose proof (se_inv _ Hset) as Hinv.
  destruct (copy_on_read_ring w ch c Hinv (se_cor _ Hset) Hc) as [Hsq _].
  pose proof (co_outstanding _ _ _ (inv_chan _ _ _ _ Hinv Hc) slot s Hs) as Hout.
  unfold fchan_of, outstanding, ring_all in Hout. simpl in Hout.
  rewrite (Hcq ch c Hc), (Hinf ch c Hc), Hsq, Hp, (se_fin _ Hset) in Hout. simpl in Hout.
  by destruct (sf_active s).
Qed.

Lemma settled_fetch ch c : w_chs w !! ch = Some c → queue_empty (ch_queue c) = false →
  free_stripe_fetches 0 (ch_stripe_fetches c) ≠ [].
Proof.
  intros Hc _. pose proof (co_slots _ _ _ (inv_chan _ _ _ _ (se_inv _ Hset) Hc)) as Hlen. simpl in Hlen.
  destruct (ch_stripe_fetches c) as [|s l] eqn:Hl; [done|]. simpl.
  by rewrite (settled_slots ch c 0 s Hc) by by rewrite Hl.
Qed.

(** When no fetch is queued either, no stripe is in flight and the first request
    of a channel is dispatched. *)
Lemma settled_dispatch ch c io rest : (∀ ch c, w_chs w !! ch = Some c → queue_empty (ch_queue c) = true) →
  w_chs w !! ch = Some c → ch_io c = io :: rest →
  ∃ i v w1, w_ios w !! io = Some i ∧ io_verdict c i (tick w) = Done v w1 ∧ v ≠ VWait.
Proof.
  intros Hq Hc Hio. pose proof (se_inv _ Hset) as Hinv.
  destruct (ii_queued _ _ (inv_io _ _ Hinv) ch c io Hc) as (i & Hi & Hok & Hneed); [rewrite Hio; left|].
  assert (Hact : ch_active_reads c = 0).
  { destruct (ii_reads _ _ (inv_io _ _ Hinv) ch c Hc) as [-> _]. by rewrite (settled_started w Hset). }
  assert (Hnot : block_status (w_ub w) (io_offset_blocks i) ≠ STRIPE_INFLIGHT).
  { intros (ch0 & f & Hf & Hheld)%(se_owned _ Hset). simpl in Hf. rewrite lookup_fmap in Hf.
    destruct (w_chs w !! ch0) as [c0|] eqn:Hc0; [|done]. injection Hf as <-. unfold held in Hheld. simpl in Hheld.
    pose proof (co_queue _ _ _ (inv_chan _ _ _ _ Hinv Hc0)) as Hwf. simpl in Hwf.
    rewrite (proj1 (queue_empty_list _ Hwf) (Hq ch0 c0 Hc0)) in Hheld. simpl in Hheld.
    apply list_elem_of_fmap in Hheld as (s & _ & Hs). apply list_elem_of_filter in Hs as [Ha Hs].
    apply list_elem_of_lookup_1 in Hs as [slot Hs]. by rewrite (settled_slots ch0 c0 slot s) in Ha. }
  assert (Hwp : wp (io_verdict c i) (tick w) (λ v _, v ≠ VWait)).
  { unfold io_verdict. wp_step. rewrite Hact, andb_false_r. case_match; [|by wp_step].
    apply wp_bind, (wp_stripe_status _ _ i); [exact (inv_layout [] w Hinv)|done|destruct Hok; lia|].
    change (w_ub (tick w)) with (w_ub w). destruct (block_status _ _); [case_match; by wp_step|done|by wp_step|by wp_step]. }
  apply wp_done in Hwp as (v & w1 & Hv & Hne). by exists i, v, w1.
Qed.

End Settled.

Lemma some_channel (P : ubi_io_channel → Prop) `{!∀ c, Decision (P c)} w :
  (∃ ch c, w_chs w !! ch = Some c ∧ P c) ∨ ∀ ch c, w_chs w !! ch = Some c → ¬ P c.
Proof.
  destruct (decide (map_Exists (λ _ c, P c) (w_chs w))) as [(ch & c & ? & ?)|Hn].
  - left. by exists ch, c.
  - right. intros ch c Hc Hp. apply Hn. by exists ch, c.
Qed.

(** Whether a completion is due. *)
Lemma due_dec w : (∃ ev, completion ev = true ∧ enabled w ev) ∨
  ∀ ev, completion ev = true → ¬ enabled w ev.
Proof.
  destruct (w_pend w) as [|r l] eqn:Hp; [|left; exists (EvBase r true); split; [done|]; cbn; rewrite Hp; left].
  destruct (w_bufq w) as [|io l] eqn:Hb; [|left; exists (EvBuf io true); split; [done|]; cbn; rewrite Hb; left].
  destruct (some_channel (λ c, ring_inflight (ch_ring c) ≠ []) w) as [(ch & c & Hc & Hne)|Hno].
  - left. destruct (ring_inflight (ch_ring c)) as [|e l] eqn:Hr; [done|]. exists (EvImageRead ch e 0).
    split; [done|]. exists c. rewrite Hr. split; [done|left].
  - right. intros [ch io i|ch|ch e res|r b|io b|ch c|ch]; cbn; try done; intros _; rewrite ?Hp, ?Hb.
    + intros (c & Hc & Hin). apply (Hno ch c Hc). intros Hr. rewrite Hr in Hin. by apply not_elem_of_nil in Hin.
    + apply not_elem_of_nil.
    + apply not_elem_of_nil.
Qed.

(** Some channel has something to do, or nothing is left. *)
Lemma settled_stirs w : settled w → queued_ids w = [] ∨
  ∃ ch c, w_chs w !! ch = Some c ∧ ∀ E, responsive E → stirs (E := E) w ch c.
Proof.
  intros Hset.
  destruct (some_channel (λ c, ring_cq (ch_ring c) ≠ []) w) as [(ch & c & Hc & Hne)|Hcq].
  { right. exists ch, c. split; [done|]. intros E HE. left. split; [done|]. by eapply HE. }
  assert (Hcq' : ∀ ch c, w_chs w !! ch = Some c → ring_cq (ch_ring c) = []).
  { intros ch c Hc. specialize (Hcq ch c Hc). by destruct (ring_cq (ch_ring c)); [|destruct Hcq]. }
  destruct (some_channel (λ c, queue_empty (ch_queue c) = false) w) as [(ch & c & Hc & Hq)|Hq].
  { right. exists ch, c. split; [done|]. intros E _. right. split; [by eapply Hcq'|]. left. split; [done|].
    by apply (settled_fetch w Hset Hcq' ch c). }
  assert (Hq' : ∀ ch c, w_chs w !! ch = Some c → queue_empty (ch_queue c) = true).
  { intros ch c Hc. specialize (Hq ch c Hc). by destruct (queue_empty _). }
  destruct (some_channel (λ c, ch_io c ≠ []) w) as [(ch & c & Hc & Hne)|Hio].
  - right. exists ch, c. split; [done|]. destruct (ch_io c) as [|io rest] eqn:Hio; [done|].
    destruct (settled_dispatch w Hset Hcq' ch c io rest Hq' Hc Hio) as (i & v & w1 & ? & ? & ?).
    intros E _. right. split; [by eapply Hcq'|]. right. split; [by eapply Hq'|]. exists io, rest, i, v, w1.
    by split_and!.
  - left. unfold queued_ids, cores. rewrite over_chs_fmap. apply over_chs_nil. intros ch c Hc.
    specialize (Hio ch c Hc). cbn. by destruct (ch_io c); [|destruct Hio].
Qed.

(** * The property *)

(** C7. Every request is completed, under conditions: copy_on_read is on, the base
    bdev accepts requests and no data flush fails ([lossless_step]), and the
    ring reports the completions it has ([responsive]).  When no request
    arrives any more, at most [work w] completions
    can happen after a state [w], every completion and no poll reduces the work
    that is left by one at least, and no request is stuck: all requests are
    completed, or a completion is due, or polling some channel, whatever the
    calls it makes return, reduces the work that is left. *)
Theorem io_answered_eventually (w0 w w' : world) (tr tr' : list event) :
  initial w0 → ub_copy_on_read (w_ub w0) = true →
  run lossless_step w0 tr w → run drain_step w tr' w' →
  (completions tr' + work w' ≤ work w)%nat ∧
  ((w_done w').*1 ≡ₚ submitted tr ∨
   (∃ ev, completion ev = true ∧ enabled w' ev) ∨
   ∃ ch, is_Some (w_chs w' !! ch) ∧ ∀ E, drain_step E (EvPoll ch) →
     ∃ w'', run_event (E := E) (EvPoll ch) w' = Done tt w'' ∧ (work w'' < work w')%nat).
Proof.
  intros Hw0 Hcor Hrun Hrun'.
  assert (Hany : ∀ tr w, run lossless_step w0 tr w → run any_step w0 tr w).
  { intros tr0 x. apply run_weaken. by intros ? ? []. }
  split.
  - clear Hcor. induction Hrun' as [w|w tr' w1 E ev w2 Hrun' IH HP Hen Hs]; [cbn; lia|].
    assert (Hw1 : run lossless_step w0 (tr ++ tr') w1).
    { eapply run_app; [done|]. eapply run_weaken; [|exact Hrun']. by intros ? ? []. }
    pose proof (run_inv _ _ _ Hw0 (Hany _ _ Hw1)) as Hinv. destruct HP as ((HE & _) & _ & Hns).
    pose proof (event_work ev w1 w2 Hinv HE Hen Hns Hs) as Hev. specialize (IH Hrun).
    unfold completions. rewrite filter_app, length_app, filter_cons.
    destruct (completion ev); [rewrite decide_True by done|rewrite decide_False by done]; cbn in *;
      unfold completions in IH; lia.
  - assert (Hw' : run lossless_step w0 (tr ++ tr') w').
    { eapply run_app; [done|]. eapply run_weaken; [|exact Hrun']. by intros ? ? []. }
    assert (Hsub : submitted tr' = []).
    { clear -Hrun'. unfold submitted. induction Hrun' as [|w tr' w1 E ev w2 _ IH (_ & _ & Hns) _ _]; [done|].
      rewrite omap_app, IH. by destruct ev. }
    destruct (due_dec w') as [?|Hdue]; [by right; left|].
    assert (Hset : settled w').
    { pose proof (Hany _ _ Hw') as Ha. split; [by eapply run_inv|by eapply (run_owned any_step)| |by eapply run_fin|done].
      destruct (run_any _ _ _ Hw0 Ha) as [_ _ Hst _ _]. destruct (statics_fields _ _ Hst) as (_ & Hc & _). congruence. }
    destruct (settled_stirs w' Hset) as [Hq|(ch & c & Hc & Hstir)].
    + left. destruct (run_spec lossless_step True w0 (tr ++ tr') w') as [_ _ _ (lost & Hids & Hl) _]; try done.
      { by intros E ev (? & _). }
      unfold ids, submitted in Hids. rewrite omap_app in Hids. fold (submitted tr) (submitted tr') in Hids.
      by rewrite (Hl I), Hq, (settled_started w' Hset), Hsub, app_nil_r in Hids.
    + right. right. exists ch. split; [by eexists|]. intros E ((HE & _) & Hresp & _).
      pose proof (step_spec (E := E) w' (EvPoll ch) (se_inv _ Hset) ltac:(by exists c)) as Hwp.
      apply wp_done in Hwp as ([] & w'' & Hs & _). exists w''. split; [done|].
      pose proof Hs as (n & w1 & Hp & H)%bind_done. injection H as <-.
      eapply poll_work; [apply Hset|done|exact Hp|by apply Hstir].
Qed.

(** A responsive run of the example: the requests of [demo_arrivals] and their
    first completion. *)
Lemma demo_responsive : responsive demo_env.
Proof. intros w ch c _ _. cbv. done. Qed.

Definition demo_tail : list event :=
  [EvPoll 1; EvImageRead 1 (SqeRead 0 65536 0) 65536; EvPoll 1;
   EvBase (RqStripeWrite 1 0 8388608 65536) true].

Lemma demo_tail_run : run drain_step (demo_state demo_arrivals) demo_tail (demo_state (demo_arrivals ++ demo_tail)).
Proof.
  apply (run_events_sound (E := demo_env) drain_step demo_tail _ [] (demo_state demo_arrivals)).
  - constructor.
  - intros ev Hev. split; [apply demo_lossless|split; [exact demo_responsive|]].
    + unfold demo_trace, demo_fetching. unfold demo_tail in Hev.
      repeat (apply elem_of_cons in Hev as [->|Hev]; [rewrite !elem_of_app, !elem_of_cons; tauto|]).
      by apply not_elem_of_nil in Hev.
    + unfold demo_tail in Hev.
      repeat (apply elem_of_cons in Hev as [->|Hev]; [done|]). by apply not_elem_of_nil in Hev.
  - by vm_compute.
Qed.

Lemma demo_arrivals_lossless : run lossless_step demo_world demo_arrivals (demo_state demo_arrivals).
Proof.
  apply demo_run; [by vm_compute|]. intros ev Hev. apply demo_lossless. do 2 (apply elem_of_app; left). done.
Qed.

Lemma io_answered_eventually_witness :
  (completions demo_tail + work (demo_state (demo_arrivals ++ demo_tail)) ≤ work (demo_state demo_arrivals))%nat ∧
  completions demo_tail = 2%nat.
Proof.
  split; [|by vm_compute].
  apply (io_answered_eventually demo_world (demo_state demo_arrivals) _ demo_arrivals demo_tail).
  - exact demo_initial.
  - reflexivity.
  - exact demo_arrivals_lossless.
  - exact demo_tail_run.
Defined.

(** * Image reads that are never submitted *)

(** A poll of a channel with nothing queued and no completion does nothing. *)
Lemma idle_poll {E : ext_env} w ch c : w_chs w !! ch = Some c → ch_io c = [] →
  queue_empty (ch_queue c) = true → ring_cq (ch_ring c) = [] →
  run_event (EvPoll ch) w = Done tt (tick w).
Proof.
  intros Hc Hio Hq Hcq.
  assert (Hwp : wp (run_event (EvPoll ch)) w (λ _ w', w' = tick w)).
  { cbn [run_event]. unfold ubi_io_poll. wp_step. rewrite Hio, Hq. cbn [andb bool_decide].
    apply wp_bind. unfold ubi_complete_image_io, io_uring_peek_batch_cqe. do 3 wp_step.
    rewrite Hcq, take_nil. rewrite bool_decide_eq_true_2 by done. cbn [andb].
    destruct (_ <? 0); [case_match|cbn [handle_cqes]]; wp_step; case_match; by repeat wp_step. }
  apply wp_done in Hwp as ([] & w' & Hs & ->). exact Hs.
Qed.

(** The example without copy_on_read; the buffer of its read comes after the
    poll that dispatched it. *)
Definition demo_image_ubi : ubi_bdev :=
  mk_ubi_bdev demo_bdev (mk_base_info None None) "/image" 64 128 7 16384 256 4096
    false false true (λ k, STRIPE_NOT_FETCHED) metadata_zero 0 0 0.
Definition demo_image_world : world := mk_world demo_image_ubi {[ 1 := demo_channel ]} ∅ [] [] [] [] 0.
Definition demo_late_env : ext_env := λ w c,
  match c with CallGetBuf _ _ => 0 | _ => demo_env w c end.
Definition demo_image_read : list event :=
  [EvSubmit 1 20 (demo_io SPDK_BDEV_IO_TYPE_READ 3 1); EvPoll 1; EvBuf 20 true].

#[export] Instance demo_late_env_ok : env_ok demo_late_env.
Proof. destruct demo_env_ok. by split. Qed.

Lemma demo_image_initial : initial demo_image_world.
Proof.
  destruct demo_initial as [Hl _ Hc Hls]. split; [exact Hl| |exact Hc|done]. intros k. by right.
Qed.

(** [io_uring_submit] does not fail. *)
Definition submitting_step (E : ext_env) (ev : event) : Prop :=
  lossless_step E ev ∧ ∀ w ch, 0 ≤ @ext_result E w (CallUringSubmit ch).

(** Nothing is queued and nothing is due; entries may wait on the rings for
    their submission. *)
Record dormant (w : world) : Prop := {
  do_chs ch c : w_chs w !! ch = Some c →
    ch_io c = [] ∧ queue_empty (ch_queue c) = true ∧ ring_cq (ch_ring c) = [] ∧ ring_inflight (ch_ring c) = [];
  do_pend : w_pend w = [];
  do_bufq : w_bufq w = []
}.

Lemma dormant_quiet w ev : dormant w → completion ev = true → ¬ enabled w ev.
Proof.
  intros [Hchs Hp Hb]. destruct ev as [ch io i|ch|ch e res|r b|io b|ch c|ch]; cbn; try done; intros _; rewrite ?Hp, ?Hb; try apply not_elem_of_nil.
  intros (c & Hc & Hin). destruct (Hchs ch c Hc) as (_ & _ & _ & Hr). rewrite Hr in Hin. by apply not_elem_of_nil in Hin.
Qed.

(** Without new requests nothing happens to the entry. *)
Lemma dormant_run w tr w' ch c e : dormant w → w_chs w !! ch = Some c → ring_sq (ch_ring c) = [e] →
  run any_step w tr w' → submitted tr = [] → dormant w' ∧ w_done w' = w_done w ∧ w_chs w' !! ch = Some c.
Proof.
  intros Hd Hc He Hrun. induction Hrun as [w|w tr w1 E ev w2 Hrun IH HE Hen Hs]; [done|].
  unfold submitted. rewrite omap_app. fold (submitted tr) (submitted [ev]). intros [H1 H2]%app_nil.
  destruct (IH Hd Hc H1) as (Hd1 & Hdone & Hc1). pose proof Hd1 as [Hchs Hp Hb].
  destruct ev as [ch' io i|ch'|ch' e' res|r b|io b|ch' c'|ch']; try done;
    try by (exfalso; by eapply (dormant_quiet w1) in Hen).
  - destruct Hen as [c' Hc']. destruct (Hchs ch' c' Hc') as (Hio & Hq & Hcq & _).
    rewrite (idle_poll w1 ch' c' Hc' Hio Hq Hcq) in Hs. injection Hs as <-. split_and!; [by split|done|done].
  - destruct Hen as [Hn Hfr]. injection Hs as <-. split_and!; [split; [|done|done]|done|].
    + intros ch0 c0 Hc0. cbn in Hc0. apply lookup_insert_Some in Hc0 as [[<- <-]|[_ Hc0]]; [|by eapply Hchs].
      destruct Hfr as [Hio _ [Hh Ht] _ Hr]. rewrite Hr. split_and!; [done| |done|done]. unfold queue_empty. by rewrite Hh, Ht.
    + cbn. rewrite lookup_insert_ne; [done|]. congruence.
  - destruct Hen as (c' & Hc' & Hidle & _). injection Hs as <-. split_and!; [split; [|done|done]|done|].
    + intros ch0 c0 Hc0. cbn in Hc0. apply lookup_delete_Some in Hc0 as [_ Hc0]. by eapply Hchs.
    + cbn. rewrite lookup_delete_ne; [done|]. intros ->. assert (c' = c) as -> by congruence.
      assert (Hin : e ∈ ring_all (ch_ring c)) by (unfold ring_all; rewrite !elem_of_app, He, list_elem_of_singleton; tauto).
      rewrite (ic_ring _ Hidle) in Hin. by apply not_elem_of_nil in Hin.
Qed.

Definition image_state (tr : list event) : world :=
  default demo_image_world (run_events (E := demo_late_env) tr demo_image_world).

Lemma image_run tr : bool_decide (is_Some (run_events (E := demo_late_env) tr demo_image_world)) = true →
  (∀ ev, ev ∈ tr → submitting_step demo_late_env ev) → run submitting_step demo_image_world tr (image_state tr).
Proof.
  intros [w Hw]%bool_decide_eq_true HP. unfold image_state. rewrite Hw. cbn [default from_option id].
  by apply (run_events_sound (E := demo_late_env) submitting_step tr _ [] demo_image_world); [apply run_nil| |].
Qed.

Lemma image_submitting ev : (∀ r b, ev ≠ EvBase r b) → submitting_step demo_late_env ev.
Proof.
  intros Hb. split; [split; [exact demo_late_env_ok|]; split; [by intros ? ?|]|].
  - destruct ev; try done. by destruct (Hb r success).
  - intros w ch. unfold ext_result, demo_late_env, demo_env. destruct (w_chs w !! ch); lia.
Qed.

(** C33. An image read can be forgotten.  Without copy_on_read, when the buffer
    of a read of a stripe that is not fetched arrives after the poll that
    dispatched the read, its entry is prepared on the ring and not submitted:
    although no submission has failed, the entry waits on the ring, no
    completion of any kind is due, and as long as no new request arrives,
    whatever else happens (polls, however often, channels that come and go,
    and whatever the calls return), the entry stays where it is and the
    request is not completed. *)
Theorem image_read_stuck : ∃ w0 w1 w tr ch c io i o,
  initial w0 ∧ ub_copy_on_read (w_ub w0) = false ∧ run submitting_step w0 tr w1 ∧
  w_ios w1 !! io = Some i ∧ io_type i = SPDK_BDEV_IO_TYPE_READ ∧ io ∈ w_bufq w1 ∧ queued_ids w1 = [] ∧
  run submitting_step w1 [EvBuf io true] w ∧
  w_chs w !! ch = Some c ∧ ring_sq (ch_ring c) = [SqeReadv io o] ∧
  (∀ ev, completion ev = true → ¬ enabled w ev) ∧
  ∀ tr' w', run any_step w tr' w' → submitted tr' = [] →
    w_chs w' !! ch = Some c ∧ io ∉ (w_done w').*1 ∧ ∀ ev, completion ev = true → ¬ enabled w' ev.
Proof.
  set (tr := [EvSubmit 1 20 (demo_io SPDK_BDEV_IO_TYPE_READ 3 1); EvPoll 1]).
  destruct (w_chs (image_state demo_image_read) !! 1) as [c|] eqn:Hc; [|vm_compute in Hc; discriminate Hc].
  destruct (w_ios (image_state tr) !! 20) as [i|] eqn:Hi; [|vm_compute in Hi; discriminate Hi].
  assert (Hsq : ring_sq (ch_ring c) = [SqeReadv 20 1536]) by (vm_compute in Hc; injection Hc as <-; reflexivity).
  assert (Hdone : w_done (image_state demo_image_read) = []) by (vm_compute; reflexivity).
  assert (Hd : dormant (image_state demo_image_read)).
  { split; [|vm_compute; reflexivity|vm_compute; reflexivity]. intros ch c' Hc'.
    assert (Hkeys : map_to_list (w_chs (image_state demo_image_read)) = [(1, c)]).
    { vm_compute in Hc. injection Hc as <-. vm_compute. reflexivity. }
    apply elem_of_map_to_list in Hc'. rewrite Hkeys in Hc'. apply list_elem_of_singleton in Hc'. injection Hc' as -> ->.
    vm_compute in Hc. injection Hc as <-. by split_and!. }
  assert (Hok : ∀ ev, ev ∈ demo_image_read → submitting_step demo_late_env ev).
  { intros ev Hev. apply image_submitting. intros r b ->. unfold demo_image_read in Hev.
    repeat (apply elem_of_cons in Hev as [Heq|Hev]; [discriminate Heq|]). by apply not_elem_of_nil in Hev. }
  exists demo_image_world, (image_state tr), (image_state demo_image_read), tr, 1, c, 20, i, 1536.
  split; [exact demo_image_initial|]. split; [reflexivity|].
  split. { apply image_run; [vm_compute; reflexivity|]. intros ev Hev. apply Hok. unfold demo_image_read. change (ev ∈ tr ++ [EvBuf 20 true]). apply elem_of_app. by left. }
  split; [exact Hi|]. split; [vm_compute in Hi; injection Hi as <-; reflexivity|].
  split; [apply list_elem_of_In; vm_compute; tauto|]. split; [vm_compute; reflexivity|]. split.
  { apply (run_events_sound (E := demo_late_env) submitting_step [EvBuf 20 true] _ [] (image_state tr)); [apply run_nil| |vm_compute; reflexivity].
    intros ev ->%list_elem_of_singleton. apply Hok. right. right. left. }
  split; [exact Hc|]. split; [exact Hsq|]. split; [intros ev; by apply dormant_quiet|].
  intros tr' w' Hrun Hsub. destruct (dormant_run _ _ _ _ _ _ Hd Hc Hsq Hrun Hsub) as (Hd' & Hdone' & Hc').
  split; [exact Hc'|]. split; [rewrite Hdone', Hdone; apply not_elem_of_nil|]. intros ev. by apply dormant_quiet.
Qed.
