(* ===== verification/Books.v ===== *)
(** The books of the module: the metadata in memory, the counters of fetched
    and flushed stripes, the counter a flush request carries, and the metadata
    requests outstanding at the base bdev.

    Only the callback of a stripe write and the callbacks of a flush change
    them; the other handlers leave them alone, which is shown here handler by
    handler, together with the requests that can complete with success. *)
From stdpp Require Import base tactics list gmap option numbers functions strings relations.
From Stdlib Require Import ZArith Lia.
From S2P Require Import Prelude Types World Layout FetchQueue Stripe Metadata Flush IoChannel Submit.
From S2P Require Import FetchProtocol IoInv Refine System Moves.

Local Open Scope Z_scope.

(** * What the handlers that do not deal with metadata leave alone *)

Definition meta_req (r : base_req) : bool :=
  match r with RqMetadataWrite _ _ _ | RqMetadataFlush _ _ _ => true | _ => false end.

(** Metadata, counters, the type and range of a request with the counter in its
    driver context, and the metadata requests at the base bdev. *)
Definition io_book (i : spdk_bdev_io) : spdk_bdev_io_type * Z * Z * Z :=
  (io_type i, io_offset_blocks i, io_num_blocks i, uio_stripes_fetched (io_driver_ctx i)).
Definition ub_book (u : ubi_bdev) : ubi_metadata * Z * Z * bool :=
  (ub_metadata u, ub_stripes_fetched u, ub_stripes_flushed u, ub_no_sync u).
Definition book (w : world) : (ubi_metadata * Z * Z * bool) * gmap Z (spdk_bdev_io_type * Z * Z * Z) * list base_req :=
  (ub_book (w_ub w), io_book <$> w_ios w, filter (λ r, meta_req r = true) (w_pend w)).

(** The requests completed with success. *)
Definition wins (w : world) : list Z :=
  omap (λ x, match x.2 with SPDK_BDEV_IO_STATUS_SUCCESS => Some x.1 | _ => None end) (w_done w).

(** No request is completed with success, as long as flushes are not ignored. *)
Definition no_wins : relation world := λ w w',
  ub_no_sync (w_ub w) = false → ub_no_sync (w_ub w') = false ∧ wins w' = wins w.

#[export] Instance no_wins_preorder : PreOrder no_wins.
Proof.
  split; [done|]. intros w1 w2 w3 H1 H2 H. destruct (H1 H) as [H1' ?]. destruct (H2 H1') as [? ?].
  split; [done|congruence].
Qed.

Section Book.
Context {E : ext_env}.

Lemma book_upd_ch ch f : moves (same book) (upd_ch ch f).
Proof. by intros w a w' (c & _ & ->)%upd_ch_done. Qed.

Lemma book_set_status i st : st ≠ STRIPE_FETCHED → moves (same book) (ubi_set_stripe_status i st).
Proof. intros Hst w a w' H. cbv [ubi_set_stripe_status get_ub put_ub mbind M_bind gets modify] in H.
  destruct (stripe_index_ok _); [|done]. injection H as _ <-. by destruct st. Qed.

Lemma book_submit r : meta_req r = false → moves (same book) (base_submit r).
Proof.
  intros Hr. unfold base_submit. apply moves_bind; [apply _|by moves|intros ret].
  destruct (ret =? 0); [|by moves]. apply moves_bind; [apply _| |intros _; by moves].
  apply moves_modify. intros w. unfold same, book; simpl. by rewrite filter_cons_False by congruence.
Qed.

(** An I/O object is read and its driver context replaced. *)
Lemma book_touch_io {A} io g (rest : spdk_bdev_io → M world A) :
  (∀ i, io_book (g i) = io_book i) → (∀ i, moves (same book) (rest i)) →
  moves (same book) (i ← get_io io; put_io io (g i);; rest i).
Proof.
  intros Hg Hrest w a w' (i & w1 & Hi & H)%bind_done. unfold get_io in Hi.
  apply bind_done in Hi as (? & ? & [-> ->]%gets_done & Hi). unfold of_option, id in Hi.
  destruct (w_ios w !! io) as [i0|] eqn:Hi0; [|done]. injection Hi as -> <-.
  apply bind_done in H as (? & w1 & H1 & H). injection H1 as _ <-. apply Hrest in H.
  unfold same in *. rewrite H. unfold book; simpl. f_equal. f_equal. rewrite fmap_insert, Hg.
  apply insert_id. by rewrite lookup_fmap, Hi0.
Qed.
End Book.

(** Handlers that keep the books; [tac] deals with the calls of other handlers. *)
Ltac books_with tac := repeat first
  [ tac | apply book_upd_ch | apply book_set_status; done | apply book_submit; done
  | apply moves_bind; [apply _| |intros ?] | apply moves_ret; apply _ | apply moves_undef | apply moves_nofuel
  | apply moves_gets; apply _ | apply moves_of_option; apply _ | apply moves_modify; by intros ?
  | progress case_match | case_decide
  | progress unfold get_ub, get_ch, put_ch, get_io, get_uio, get_slot, upd_slot, ext, spdk_bdev_io_complete,
      ubi_get_stripe_status, stripe_queue_empty, dequeue_stripe, io_uring_get_sqe, io_uring_prep,
      io_uring_submit, io_uring_peek_batch_cqe, io_uring_cqe_seen ].
Ltac books := books_with fail.

Section Quiet.
Context {E : ext_env}.

Lemma book_complete_io io b : moves (same book) (ubi_complete_io io b).
Proof. unfold ubi_complete_io. books. Qed.

Lemma book_get_buf io b : moves (same book) (get_buf_for_read_cb io b).
Proof.
  unfold get_buf_for_read_cb, ubi_submit_read_request, ubi_complete_io. books.
Qed.

Lemma book_fail_fetch ch slot : moves (same book) (ubi_fail_stripe_fetch ch slot).
Proof. unfold ubi_fail_stripe_fetch. books. Qed.

Lemma book_service_io ch io : moves (same book) (service_io ch io).
Proof.
  unfold service_io. apply book_touch_io; [done|]. intros i.
  unfold spdk_bdev_io_get_buf, ubi_submit_write_request, ubi_submit_flush_request.
  destruct (io_type i); books_with ltac:(apply book_get_buf).
Qed.

Lemma book_process_ios fuel ch : moves (same book) (process_ios fuel ch).
Proof.
  induction fuel as [|fuel IH]; [apply moves_nofuel|]. cbn [process_ios]. unfold io_verdict.
  books_with ltac:(first [apply IH|apply book_service_io]).
Qed.

Lemma book_start_fetches ch free : moves (same book) (start_fetches ch free).
Proof.
  induction free as [|slot free IH]; cbn [start_fetches]; unfold ubi_start_fetch_stripe; books_with ltac:(first [apply IH|apply book_fail_fetch]).
Qed.

Lemma book_handle_cqes ch l : ∀ ret, moves (same book) (handle_cqes ch l ret).
Proof.
  induction l as [|[e res] l IH]; intros ret; cbn [handle_cqes]; [books|].
  apply moves_bind; [apply _| |intros ret'; books_with ltac:(apply IH)].
  destruct e; cbn [handle_cqe]; unfold ubi_complete_fetch_stripe, ubi_complete_read_from_image; 
    books_with ltac:(first [apply book_fail_fetch|apply book_complete_io]).
Qed.

(** A poll starts no metadata write and changes no metadata. *)
Lemma book_poll ch : moves (same book) (ubi_io_poll ch).
Proof.
  unfold ubi_io_poll, ubi_complete_image_io, submit_image_reads. 
  books_with ltac:(first [apply book_handle_cqes|apply book_start_fetches|apply book_process_ios]).
Qed.
End Quiet.

(** ** Successful completions *)

Ltac quiet_with tac := walk tac ltac:(done).
Ltac quiet := quiet_with fail.

Section Wins.
Context {E : ext_env}.

(** Successful completions of the requests in [S] only. *)
Definition wins_in (S : list Z) : relation world := λ w w', ∀ io, io ∈ wins w' → io ∈ wins w ∨ io ∈ S.

Lemma wins_in_seq {A B} S T (m : M world A) (f : A → M world B) :
  moves (wins_in S) m → (∀ a, moves (wins_in T) (f a)) → moves (wins_in (S ++ T)) (mbind f m).
Proof.
  intros Hm Hf. eapply moves_seq; [done..|]. intros w1 w2 w3 H1 H2 io Hio. rewrite elem_of_app.
  destruct (H2 io Hio) as [[?|?]%H1|?]; auto.
Qed.

Lemma wins_same {A} S (m : M world A) : moves (same wins) m → moves (wins_in S) m.
Proof. apply moves_weaken. intros w w' H io. rewrite H. by left. Qed.

Lemma wins_complete_io io b : moves (wins_in [io]) (ubi_complete_io io b).
Proof.
  unfold ubi_complete_io. change [io] with ([] ++ [] ++ [io]).
  apply wins_in_seq; [apply wins_same; quiet|intros i].
  apply wins_in_seq; [apply wins_same; quiet|intros _].
  apply moves_modify. intros w io'. unfold wins; simpl. destruct b; cbn; rewrite ?elem_of_cons; tauto.
Qed.

Lemma wins_handle_cqe ch e res : moves (wins_in (option_list (readv_of e))) (handle_cqe ch e res).
Proof.
  destruct e as [slot n o|io o]; cbn [handle_cqe readv_of option_list].
  - apply wins_same. unfold ubi_complete_fetch_stripe, ubi_fail_stripe_fetch. quiet.
  - change (option_list (Some io)) with ([] ++ [io]). apply wins_in_seq; [apply wins_same; quiet|intros u].
    destruct (uio_op u); [|apply moves_undef]. unfold ubi_complete_read_from_image.
    change [io] with ([io] ++ []). case_match; (apply wins_in_seq; [apply wins_complete_io|intros _; apply wins_same; quiet]).
Qed.

Lemma wins_handle_cqes ch l : ∀ ret, moves (wins_in (omap readv_of l.*1)) (handle_cqes ch l ret).
Proof.
  induction l as [|[e res] l IH]; intros ret; cbn [handle_cqes]; [apply wins_same; quiet|].
  assert (Heq : omap readv_of ((e, res) :: l).*1 = option_list (readv_of e) ++ [] ++ omap readv_of l.*1).
  { cbn. by destruct (readv_of e). }
  rewrite Heq. apply wins_in_seq; [apply wins_handle_cqe|intros ret'].
  apply wins_in_seq; [apply wins_same; quiet|intros _]. apply IH.
Qed.

Lemma wins_get_buf io b : moves (same wins) (get_buf_for_read_cb io b).
Proof. unfold get_buf_for_read_cb, ubi_submit_read_request, ubi_complete_io. quiet. Qed.

Lemma wins_start_fetches ch free : moves (same wins) (start_fetches ch free).
Proof.
  induction free as [|slot free IH]; cbn [start_fetches]; unfold ubi_start_fetch_stripe, ubi_fail_stripe_fetch;
    quiet_with ltac:(apply IH).
Qed.

(** Starting requests completes none with success. *)
Lemma no_wins_same {A} (m : M world A) : moves (same wins) m → moves (same (ub_no_sync ∘ w_ub)) m → moves no_wins m.
Proof. intros H1 H2 w a w' H Hns. split; [rewrite <-Hns; by eapply H2|by eapply H1]. Qed.

Lemma no_sync_get_buf io b : moves (same (ub_no_sync ∘ w_ub)) (get_buf_for_read_cb io b).
Proof. unfold get_buf_for_read_cb, ubi_submit_read_request, ubi_complete_io. quiet. Qed.

Lemma no_wins_flush_request io : moves no_wins (ubi_submit_flush_request io).
Proof.
  unfold ubi_submit_flush_request. apply moves_bind; [apply _|quiet|intros u].
  apply moves_get_ub. intros w a w' H. destruct (ub_no_sync (w_ub w)) eqn:Hns; [by intros ?; congruence|].
  revert w a w' H Hns. intros w a w' H Hns.
  assert (Hm : moves no_wins (ret ← base_submit (RqDataFlush io (u64 (uio_block_offset u + ub_data_offset_blocks (w_ub w)))
    (uio_block_count u)); if c_true ret then spdk_bdev_io_complete io SPDK_BDEV_IO_STATUS_FAILED else mret ())) by quiet.
  by eapply Hm.
Qed.

Lemma no_wins_service_io ch io : moves no_wins (service_io ch io).
Proof.
  unfold service_io, spdk_bdev_io_get_buf, ubi_submit_write_request.
  do 2 (apply moves_bind; [apply _|quiet|intros ?]). destruct (io_type _);
    try apply no_wins_flush_request; quiet_with ltac:(apply no_wins_same; [apply wins_get_buf|apply no_sync_get_buf]).
Qed.

Lemma book_no_sync {A} (m : M world A) : moves (same book) m → moves (same (ub_no_sync ∘ w_ub)) m.
Proof. apply moves_weaken. unfold same, book, ub_book. by intros x y [= _ _ _ ? _ _]. Qed.

Lemma no_wins_start_fetches ch free : moves no_wins (start_fetches ch free).
Proof. apply no_wins_same; [apply wins_start_fetches|apply book_no_sync, book_start_fetches]. Qed.

Lemma no_wins_process_ios fuel ch : moves no_wins (process_ios fuel ch).
Proof.
  induction fuel as [|fuel IH]; [apply moves_nofuel|]. cbn [process_ios]. unfold io_verdict.
  quiet_with ltac:(first [apply IH|apply no_wins_service_io]).
Qed.

(** The requests a poll completes with success are image reads on its ring. *)
Lemma wins_poll ch w c n w' : w_chs w !! ch = Some c → ub_no_sync (w_ub w) = false →
  ubi_io_poll ch w = Done n w' → ∀ io, io ∈ wins w' → io ∈ wins w ∨ io ∈ ring_ios (ch_ring c).
Proof.
  intros Hc Hns (c0 & w0 & [Hc0 ->]%get_ch_done & H)%bind_done. simplify_eq.
  apply bind_done in H as (r & w1 & H1 & H).
  assert (Hw1 : ∀ io, io ∈ wins w1 → io ∈ wins w ∨ io ∈ ring_ios (ch_ring c)).
  { apply bind_done in H1 as (b & w2 & Hb & H1). unfold io_uring_peek_batch_cqe in Hb.
    apply bind_done in Hb as (k & w3 & Hr & Hb). unfold ext, mbind, M_bind, gets, modify in Hr. injection Hr as <- <-.
    apply bind_done in Hb as (c' & w4 & [Hc' ->]%get_ch_done & Hb). simpl in Hc'. simplify_eq.
    injection Hb as <- <-. destruct (_ <? 0).
    - destruct (_ =? _); injection H1 as _ <-; intros io ?; by left.
    - intros io Hio. destruct (wins_handle_cqes _ _ _ _ _ _ H1 io Hio) as [?|Hin]; [by left|right].
      unfold ring_ios, ring_all. rewrite omap_app, elem_of_app. left.
      apply list_elem_of_omap in Hin as (e & Hin & He). apply list_elem_of_omap. exists e. split; [|done].
      apply list_elem_of_fmap in Hin as (x & -> & Hin). apply list_elem_of_fmap_2.
      exact (subseteq_take _ _ _ Hin). }
  assert (Hns1 : ub_no_sync (w_ub w1) = false).
  { assert (Hm : moves (same (ub_no_sync ∘ w_ub)) (ubi_complete_image_io ch)).
    { apply book_no_sync. unfold ubi_complete_image_io. books_with ltac:(apply book_handle_cqes). }
    rewrite <-Hns. by eapply Hm. }
  assert (Hrest : no_wins w1 w').
  { lazymatch type of H with ?m w1 = _ => assert (Hm : moves no_wins m); [|exact (Hm _ _ _ H)] end.
    unfold submit_image_reads. quiet_with ltac:(first [apply no_wins_process_ios|apply no_wins_start_fetches]). }
  destruct (Hrest Hns1) as [_ ->]. exact Hw1.
Qed.
End Wins.

(** * The callbacks of a flush *)

Section FlushResults.
Context {E : ext_env}.
Context (w w' : world) (l : list base_req) (io : Z).

(** A request is submitted to the base bdev, or its I/O is failed. *)
Lemma submit_or_fail_done r w1 : (ret ← base_submit r;
    if c_true ret then spdk_bdev_io_complete io SPDK_BDEV_IO_STATUS_FAILED else mret ()) w1 = Done tt w' →
  w' = with_pend (r :: w_pend w1) (tick w1) ∨ w' = complete io SPDK_BDEV_IO_STATUS_FAILED (tick w1).
Proof.
  intros (ret & w2 & H1 & H)%bind_done. unfold base_submit in H1.
  apply bind_done in H1 as (x & w3 & Hr & H1). unfold ext, mbind, M_bind, gets, modify in Hr. injection Hr as <- <-.
  destruct (Z.eqb_spec (ext_result w1 (CallBase r)) 0) as [Heq|Hne].
  - cbn in H1. injection H1 as <- <-. rewrite Heq in H. cbn in H. left. by injection H as <-.
  - injection H1 as <- <-. unfold c_true in H. rewrite (proj2 (Z.eqb_neq _ 0)) in H by done.
    cbn in H. right. by injection H as <-.
Qed.

Lemma data_flush_done s n b : w_fin w = RqDataFlush io s n :: l →
  ubi_data_flush_completion (RqDataFlush io s n) b io w = Done tt w' →
  let w0 := with_fin l w in let u := w_ub w in
  (b = false ∧ w' = w0) ∨
  (b = true ∧ ub_stripes_fetched u = ub_stripes_flushed u ∧ w' = complete io SPDK_BDEV_IO_STATUS_SUCCESS w0) ∨
  (b = true ∧ ub_stripes_fetched u ≠ ub_stripes_flushed u ∧ ∃ i nb, w_ios w !! io = Some i ∧
     let w1 := set_io io (with_driver_ctx (with_uio_stripes_fetched (ub_stripes_fetched u) (io_driver_ctx i)) i) w0 in
     (w' = with_pend (RqMetadataWrite io 0 nb :: w_pend w1) (tick w1) ∨
      w' = complete io SPDK_BDEV_IO_STATUS_FAILED (tick w1))).
Proof.
  intros Hfin H. apply (free_io_done _ _ _ _ _ _ Hfin) in H. intros w0 u.
  destruct b; cbn [negb] in H; [right|left; injection H as <-; done].
  cbv [get_ub] in H. apply bind_done in H as (? & ? & [-> ->]%gets_done & H).
  change (w_ub (with_fin l w)) with u in H.
  destruct (Z.eqb_spec (ub_stripes_fetched u) (ub_stripes_flushed u)) as [Heq|Hne].
  { left. split_and!; [done|done|]. injection H as <-. done. }
  right. split_and!; [done|done|]. apply bind_done in H as (nb & w2 & Hnb & H).
  unfold of_option in Hnb. destruct (metadata_blocks _ _) as [nb0|]; [|done]. injection Hnb as -> <-.
  apply bind_done in H as (i & w3 & Hi & H). unfold get_io in Hi.
  apply bind_done in Hi as (? & ? & [-> ->]%gets_done & Hi). unfold of_option, id in Hi.
  destruct (w_ios (with_fin l w) !! io) as [i0|] eqn:Hi0; [|done]. injection Hi as -> <-.
  apply bind_done in H as (? & w4 & H1 & H). unfold put_io, modify in H1. injection H1 as _ <-.
  exists i, nb. split; [done|]. by apply submit_or_fail_done in H.
Qed.

Lemma metadata_write_done s n b : w_fin w = RqMetadataWrite io s n :: l →
  ubi_metadata_write_completion (RqMetadataWrite io s n) b io w = Done tt w' →
  let w0 := with_fin l w in
  (b = false ∧ w' = complete io SPDK_BDEV_IO_STATUS_FAILED w0) ∨
  (b = true ∧ ((∃ nb, w' = with_pend (RqMetadataFlush io 0 nb :: w_pend w0) (tick w0)) ∨
     w' = complete io SPDK_BDEV_IO_STATUS_FAILED (tick w0))).
Proof.
  intros Hfin H. apply (free_io_done _ _ _ _ _ _ Hfin) in H. intros w0.
  destruct b; cbn [negb] in H; [right|left; injection H as <-; done]. split; [done|].
  cbv [get_ub] in H. apply bind_done in H as (? & ? & [-> ->]%gets_done & H).
  apply bind_done in H as (nb & w2 & Hnb & H).
  unfold of_option in Hnb. destruct (metadata_blocks _ _) as [nb0|]; [|done]. injection Hnb as -> <-.
  apply submit_or_fail_done in H as [H|H]; [left; by exists nb|by right].
Qed.

Lemma metadata_flush_done s n b : w_fin w = RqMetadataFlush io s n :: l →
  ubi_metadata_flush_completion (RqMetadataFlush io s n) b io w = Done tt w' →
  let w0 := with_fin l w in
  (b = false ∧ w' = complete io SPDK_BDEV_IO_STATUS_FAILED w0) ∨
  (b = true ∧ ∃ i, w_ios w !! io = Some i ∧ let k := uio_stripes_fetched (io_driver_ctx i) in
     w' = complete io SPDK_BDEV_IO_STATUS_SUCCESS
            (with_ub (with_stripes_flushed (ub_stripes_flushed (w_ub w) `max` k) (w_ub w)) w0)).
Proof.
  intros Hfin H. apply (free_io_done _ _ _ _ _ _ Hfin) in H. intros w0.
  destruct b; cbn [negb] in H; [right|left; injection H as <-; done]. split; [done|].
  apply bind_done in H as (uio & w1 & Hu & H). unfold get_uio, get_io in Hu.
  apply bind_done in Hu as (i & w2 & Hi & Hu). apply bind_done in Hi as (? & ? & [-> ->]%gets_done & Hi).
  unfold of_option, id in Hi. change (w_ios (with_fin l w)) with (w_ios w) in Hi.
  destruct (w_ios w !! io) as [i0|] eqn:Hi0; [|done]. injection Hi as -> <-. injection Hu as <- <-.
  exists i. split; [done|]. cbv zeta. cbv [get_ub] in H. apply bind_done in H as (? & ? & [-> ->]%gets_done & H).
  change (w_ub (with_fin l w)) with (w_ub w) in H. set (k := uio_stripes_fetched (io_driver_ctx i)) in *.
  destruct (Z.ltb_spec (ub_stripes_flushed (w_ub w)) k).
  - cbv in H. injection H as <-. rewrite Z.max_r by lia. done.
  - cbv [mbind M_bind mret M_ret modify spdk_bdev_io_complete] in H. injection H as <-. rewrite Z.max_l by lia.
    unfold w0, complete, with_done, with_fin, with_ub. by destruct (w_ub w), w.
Qed.

Lemma write_stripe_done ch slot o n b : w_fin w = RqStripeWrite ch slot o n :: l →
  write_stripe_io_completion (RqStripeWrite ch slot o n) b ch slot w = Done tt w' →
  ∃ k, w_ub w' = with_stripes_fetched (u64 (ub_stripes_fetched (w_ub w) + 1)) (set_status k STRIPE_FETCHED (w_ub w)) ∧
    stripe_index_ok k = true ∧ w_ios w' = w_ios w ∧ w_pend w' = w_pend w ∧ w_done w' = w_done w.
Proof.
  intros Hfin H. apply (free_io_done _ _ _ _ _ _ Hfin) in H.
  apply bind_done in H as (sf & w1 & Hs & H).
  assert (w1 = with_fin l w) as ->.
  { unfold get_slot in Hs. apply bind_done in Hs as (c & w2 & [_ ->]%get_ch_done & Hs).
    unfold of_option in Hs. destruct (_ !! _); [|done]. by injection Hs as _ <-. }
  apply bind_done in H as (? & w1 & H1 & H). unfold ubi_set_stripe_status, get_ub in H1.
  apply bind_done in H1 as (? & ? & [-> ->]%gets_done & H1).
  exists (i32 (sf_stripe_idx sf)). destruct (stripe_index_ok _); [|done]. injection H1 as _ <-.
  cbv [get_ub] in H. apply bind_done in H as (? & ? & [-> ->]%gets_done & H).
  apply bind_done in H as (? & w2 & H1 & H). unfold put_ub, modify in H1. injection H1 as _ <-.
  apply bind_done in H as (c & w3 & [_ ->]%get_ch_done & H).
  apply bind_done in H as (s & w3 & Hs' & H). unfold of_option in Hs'. destruct (_ !! _); [|done].
  injection Hs' as _ <-. unfold put_ch, modify in H. injection H as <-. done.
Qed.
End FlushResults.

(** The same in a reachable state: the stripe was in flight. *)
Lemma stripe_write_done {E : ext_env} w w' l ch slot o n b : inv [] w →
  w_fin w = RqStripeWrite ch slot o n :: l →
  write_stripe_io_completion (RqStripeWrite ch slot o n) b ch slot w = Done tt w' →
  ∃ k, w_ub w' = with_stripes_fetched (u64 (ub_stripes_fetched (w_ub w) + 1)) (set_status k STRIPE_FETCHED (w_ub w)) ∧
    stripe_index_ok k = true ∧ ub_stripe_status (w_ub w) k = STRIPE_INFLIGHT ∧
    o = fetch_offset (layout_of (w_ub w)) k + UBI_METADATA_SIZE ∧
    w_ios w' = w_ios w ∧ w_pend w' = w_pend w ∧ w_done w' = w_done w.
Proof.
  intros Hinv Hfin H. pose proof (write_stripe_spec [] w ch slot o n l b Hinv Hfin) as Hwp.
  unfold wp in Hwp. rewrite H in Hwp. destruct Hwp as (_ & k' & _ & Hk' & Ho & _ & Hst & _).
  destruct (write_stripe_done w w' l ch slot o n b Hfin H) as (k & Hu & Hk & Hrest).
  assert (k = k') as ->.
  { rewrite Hu in Hst. cbn in Hst. destruct (decide (k = k')) as [|Hne]; [done|].
    apply (f_equal (λ f, f k')) in Hst. rewrite fn_lookup_insert in Hst.
    rewrite fn_lookup_insert_ne in Hst by done. congruence. }
  by exists k'.
Qed.

(** * How an event changes the books *)

(** A metadata request outstanding for an I/O. *)
Definition mreq (w : world) (r : base_req) : Prop := meta_req r = true ∧ r ∈ w_pend w.

(** The statuses that count do not change. *)
Definition same_fetched (w w' : world) : Prop := ∀ k,
  ub_stripe_status (w_ub w') k = STRIPE_FETCHED ↔ ub_stripe_status (w_ub w) k = STRIPE_FETCHED.

(** The I/Os that were there keep their type and their counter. *)
Definition same_io_books (w w' : world) : Prop := ∀ io i', io ∈ ids [] w → w_ios w' !! io = Some i' →
  ∃ i, w_ios w !! io = Some i ∧ io_book i' = io_book i.

Inductive bstep : event → world → world → Prop :=
(** The books stay as they are, and no flush succeeds. *)
| bs_quiet ev w w' :
    ub_book (w_ub w') = ub_book (w_ub w) → same_fetched w w' → same_io_books w w' →
    (∀ r, mreq w' r → mreq w r) → (∀ io s n b, ev ≠ EvBase (RqMetadataWrite io s n) b) →
    (∀ io, io ∈ wins w' → io ∈ wins w ∨ io ∈ ids [] w ∧
       ∀ i, w_ios w !! io = Some i → io_type i ≠ SPDK_BDEV_IO_TYPE_FLUSH) →
    bstep ev w w'
(** A stripe becomes fetched. *)
| bs_fetched ch slot o n b k w w' : stripe_index_ok k = true →
    ub_stripe_status (w_ub w) k = STRIPE_INFLIGHT →
    w_ub w' = with_stripes_fetched (u64 (ub_stripes_fetched (w_ub w) + 1)) (set_status k STRIPE_FETCHED (w_ub w)) →
    w_ios w' = w_ios w → (∀ r, mreq w' r → mreq w r) → wins w' = wins w →
    bstep (EvBase (RqStripeWrite ch slot o n) b) w w'
(** A flush whose data are flushed finds nothing to write. *)
| bs_clean io s n w w' : w_ub w' = w_ub w → ub_stripes_fetched (w_ub w) = ub_stripes_flushed (w_ub w) →
    w_ios w' = w_ios w → (∀ r, mreq w' r → mreq w r) → wins w' = io :: wins w →
    bstep (EvBase (RqDataFlush io s n) true) w w'
(** It writes the metadata, or fails. *)
| bs_write io s n i w w' : w_ub w' = w_ub w → w_ios w !! io = Some i → (∀ r, mreq w r → req_io r ≠ Some io) →
    w_ios w' = <[io := with_driver_ctx (with_uio_stripes_fetched (ub_stripes_fetched (w_ub w)) (io_driver_ctx i)) i]> (w_ios w) →
    (∀ r, mreq w' r → mreq w r ∨ ∃ nb, r = RqMetadataWrite io 0 nb) → wins w' = wins w →
    bstep (EvBase (RqDataFlush io s n) true) w w'
(** The metadata are written and then flushed, or the I/O fails. *)
| bs_written io s n b w w' : w_ub w' = w_ub w → w_ios w' = w_ios w → mreq w (RqMetadataWrite io s n) →
    (∀ r, mreq w' r → (mreq w r ∧ req_io r ≠ Some io) ∨ b = true ∧ ∃ nb, r = RqMetadataFlush io 0 nb) →
    wins w' = wins w → bstep (EvBase (RqMetadataWrite io s n) b) w w'
(** The metadata are flushed. *)
| bs_flushed io s n i w w' : mreq w (RqMetadataFlush io s n) → w_ios w !! io = Some i →
    w_ub w' = with_stripes_flushed (ub_stripes_flushed (w_ub w) `max` uio_stripes_fetched (io_driver_ctx i)) (w_ub w) →
    w_ios w' = w_ios w → (∀ r, mreq w' r → mreq w r) → wins w' = io :: wins w →
    bstep (EvBase (RqMetadataFlush io s n) true) w w'.

Lemma wins_in_done w io : io ∈ wins w → io ∈ (w_done w).*1.
Proof.
  intros ([io' st] & Hin & He)%list_elem_of_omap. destruct st; cbn in He; simplify_eq.
  by apply (list_elem_of_fmap_2 fst) in Hin.
Qed.

Lemma wins_ids w io : io ∈ wins w → io ∈ ids [] w.
Proof. intros H. by apply done_in_ids, wins_in_done. Qed.

Lemma mreq_ids w r io : mreq w r → req_io r = Some io → io ∈ ids [] w.
Proof. intros [_ Hr] Hio. by apply req_in_ids with r. Qed.

Lemma success_wins w io : (io, SPDK_BDEV_IO_STATUS_SUCCESS) ∈ w_done w → io ∈ wins w.
Proof. intros H. apply list_elem_of_omap. by exists (io, SPDK_BDEV_IO_STATUS_SUCCESS). Qed.

Lemma same_ios_io_books w w' : w_ios w' = w_ios w → same_io_books w w'.
Proof. intros H io i' _. rewrite H. by exists i'. Qed.

Section Bstep.
Context {E : ext_env} `{!env_ok E}.

Lemma book_submit_request ch io : moves (same book) (ubi_submit_request ch io).
Proof. unfold ubi_submit_request, enqueue_stripe. books. Qed.

Lemma wins_submit_request ch io : moves (same wins) (ubi_submit_request ch io).
Proof. unfold ubi_submit_request, enqueue_stripe. quiet. Qed.

Lemma book_parts w w' : same book w w' → ub_book (w_ub w') = ub_book (w_ub w) ∧
  (∀ io i', w_ios w' !! io = Some i' → ∃ i, w_ios w !! io = Some i ∧ io_book i' = io_book i) ∧
  (∀ r, mreq w' r → mreq w r).
Proof.
  unfold same, book. intros H. injection H as H1 H2 H3 H4 H5 H6. split_and!.
  - unfold ub_book. congruence.
  - intros io i' Hi. assert (Hl : (io_book <$> w_ios w') !! io = Some (io_book i')) by by rewrite lookup_fmap, Hi.
    rewrite H5, lookup_fmap in Hl. destruct (w_ios w !! io) as [i|]; [|done]. exists i. split; [done|].
    cbn in Hl. congruence.
  - intros r [Hr Hin]. split; [done|].
    assert (Hf : r ∈ filter (λ r, meta_req r = true) (w_pend w')) by by apply list_elem_of_filter.
    rewrite H6 in Hf. by apply list_elem_of_filter in Hf as [_ ?].
Qed.

(** No other outstanding request belongs to the I/O of a request. *)
Lemma req_unique w r r' l io : inv [] w → w_fin w = [] → w_pend w ≡ₚ r :: l → r' ∈ l →
  req_io r = Some io → req_io r' ≠ Some io.
Proof.
  intros Hinv Hfin Hp Hin Hio Hio'. pose proof (ii_nodup _ _ (inv_io _ _ Hinv)) as Hnd.
  unfold ids, started_ids, reqs in Hnd. rewrite Hfin in Hnd. simpl in Hnd.
  apply NoDup_app in Hnd as (_ & _ & Hnd). apply NoDup_app in Hnd as (Hnd & _ & _).
  do 2 apply NoDup_app in Hnd as (_ & _ & Hnd). rewrite Hp in Hnd. cbn [omap list_omap] in Hnd. rewrite Hio in Hnd.
  apply NoDup_cons in Hnd as [Hn _]. apply Hn, list_elem_of_omap. by exists r'.
Qed.

Context (w w' : world) (Hinv : inv [] w) (Hfin : w_fin w = []) (Hns : ub_no_sync (w_ub w) = false).

Lemma step_fetched ev : enabled w ev → run_event ev w = Done tt w' → calm w w' → same_fetched w w'.
Proof using Hinv Hfin env_ok0.
  intros Hen Hs Hc k. pose proof (step_spec w ev Hinv Hen) as Hwp. unfold wp in Hwp. rewrite Hs in Hwp.
  apply fetched_iff; [done|apply Hwp|done|]. unfold no_swrite. by rewrite Hfin.
Qed.

(** Reads and writes of the base bdev. *)
Lemma rw_bstep r success : enabled w (EvBase r success) →
  match r with RqRead _ _ _ _ | RqWrite _ _ _ _ => True | _ => False end →
  run_event (EvBase r success) w = Done tt w' → bstep (EvBase r success) w w'.
Proof using Hinv Hfin.
  intros Hen Hr H. destruct (remove_one_perm r _ Hen) as (l & Hrm & Hp).
  apply (base_event_done _ _ _ _ _ Hrm) in H. set (w1 := with_fin _ _) in H.
  assert (∃ io, req_io r = Some io ∧ callback r success w1 = ubi_io_completion_cb r success io w1)
    as (io & Hio & Hcb) by (destruct r; try done; by eexists).
  rewrite Hcb in H. apply (free_io_done r w1 (w_fin w)) in H; [|done].
  pose proof (book_complete_io io success _ _ _ H) as (Hu & Hios & Hreq)%book_parts.
  pose proof (wins_complete_io io success _ _ _ H) as Hw.
  assert (Hst : ub_stripe_status (w_ub w') = ub_stripe_status (w_ub w)).
  { assert (Hm : moves (same (ub_stripe_status ∘ w_ub)) (ubi_complete_io io success)) by (unfold ubi_complete_io; quiet).
    exact (Hm _ _ _ H). }
  apply bs_quiet.
  - exact Hu.
  - intros k. by rewrite Hst.
  - intros io' i' _ Hi'. by apply Hios.
  - intros r' Hr'. destruct (Hreq _ Hr') as [? Hin]. split; [done|]. simpl in Hin. rewrite Hp. by right.
  - intros ? ? ? ? [= ->]. done.
  - intros io' [?|Heq]%Hw; [by left|right]. apply list_elem_of_singleton in Heq as ->. split.
    + by apply req_in_ids with r.
    + intros i Hi. assert (Hok : req_ok (w_ub w) (w_ios w) r).
      { apply (ii_places _ _ (inv_io _ _ Hinv)). apply elem_of_app. by right. }
      destruct r; try done; cbn in Hok, Hio; destruct Hok as (? & ? & ? & _); congruence.
Qed.

(** The state in which the callback of [r] starts: [r] is taken off the list. *)
Lemma taken_req r : r ∈ w_pend w → ∃ l, remove_one r (w_pend w) = Some l ∧
  (∀ r', meta_req r' = true ∧ r' ∈ l → mreq w r') ∧
  (∀ r' io, r' ∈ l → req_io r = Some io → req_io r' ≠ Some io).
Proof using Hinv Hfin.
  intros Hin. destruct (remove_one_perm r _ Hin) as (l & Hrm & Hp). exists l. split_and!; [done| |].
  - intros r' [? ?]. split; [done|]. rewrite Hp. by right.
  - intros r' io Hr'. by apply (req_unique w r r' l).
Qed.

Lemma stripe_write_bstep ch slot o n b : enabled w (EvBase (RqStripeWrite ch slot o n) b) →
  run_event (EvBase (RqStripeWrite ch slot o n) b) w = Done tt w' →
  bstep (EvBase (RqStripeWrite ch slot o n) b) w w'.
Proof using Hinv Hfin.
  intros Hen H. destruct (remove_one_perm _ _ Hen) as (l & Hrm & Hp).
  apply (base_event_done _ _ _ _ _ Hrm) in H. set (w1 := with_fin _ _) in H.
  destruct (base_done_spec w _ l Hinv Hp) as (Hinv1 & _ & _). fold w1 in Hinv1.
  destruct (stripe_write_done w1 w' (w_fin w) ch slot o n b Hinv1 eq_refl H) as (k & Hu & Hk & Hst & _ & Hios & Hpend & Hdone).
  apply bs_fetched with k; try done.
  - intros r [? Hin]. split; [done|]. rewrite Hpend in Hin. simpl in Hin. rewrite Hp. by right.
  - unfold wins. by rewrite Hdone.
Qed.

Lemma flush_bstep r success : enabled w (EvBase r success) →
  match r with RqDataFlush _ _ _ | RqMetadataWrite _ _ _ | RqMetadataFlush _ _ _ => True | _ => False end →
  run_event (EvBase r success) w = Done tt w' → bstep (EvBase r success) w w'.
Proof using Hinv Hfin.
  intros Hen Hr H. destruct (taken_req r Hen) as (l & Hrm & Hl & Hu).
  apply (base_event_done _ _ _ _ _ Hrm) in H. set (w1 := with_fin _ _) in H.
  destruct r as [| | |io s n|io s n|io s n]; try done; cbn [callback] in H.
  - apply (data_flush_done w1 w' (w_fin w)) in H as [[-> ->]|[(-> & Hf & ->)|(-> & Hf & i & nb & Hi & H)]]; [| | |done].
    + apply bs_quiet; try done; [by intros io' i' _ Hi'; exists i'|]. by left.
    + by apply bs_clean.
    + apply bs_write with i; try done.
      * destruct H as [-> | ->]; done.
      * intros r [Hm Hin] Hio. destruct (remove_one_perm _ _ Hen) as (l' & Hrm' & Hp). rewrite Hrm' in Hrm.
        injection Hrm as ->. rewrite Hp in Hin. apply elem_of_cons in Hin as [->|Hin]; [done|].
        by apply (Hu r io Hin).
      * destruct H as [-> | ->]; done.
      * intros r [Hm Hin]. destruct H as [-> | ->]; simpl in Hin; [|left; by apply Hl].
        apply elem_of_cons in Hin as [->|Hin]; [right; by exists nb|left; by apply Hl].
      * destruct H as [-> | ->]; done.
  - apply (metadata_write_done w1 w' (w_fin w)) in H; [|done].
    assert (Hrest : ∀ r, meta_req r = true ∧ r ∈ l → mreq w r ∧ req_io r ≠ Some io).
    { intros r Hr'. split; [by apply Hl|]. by apply Hu; [apply Hr'|]. }
    destruct H as [[-> ->]|[-> [[nb ->]| ->]]]; apply bs_written; try done; try (intros r Hr'; left; by apply Hrest).
    intros r [Hm Hin]. simpl in Hin. apply elem_of_cons in Hin as [->|Hin]; [right; eauto|left; by apply Hrest].
  - apply (metadata_flush_done w1 w' (w_fin w)) in H as [[-> ->]|[-> (i & Hi & ->)]]; [| |done].
    + apply bs_quiet; try done; [by intros io' i' _ Hi'; exists i'|]. by left.
    + by apply bs_flushed with i.
Qed.

(** The books of a run change by [bstep]. *)
Lemma event_bstep ev : enabled w ev → run_event ev w = Done tt w' → bstep ev w w'.
Proof using Hinv Hfin Hns env_ok0.
  intros Hen H. pose proof (step_spec w ev Hinv Hen) as Hwp. unfold wp in Hwp. rewrite H in Hwp.
  destruct Hwp as [_ _ _ _ _ Hcalm].
  assert (Hbook : ∀ w1, w_ub w1 = w_ub w → w_pend w1 = w_pend w → calm w w' → same book w1 w' →
    (∀ io i, io ∈ ids [] w → w_ios w1 !! io = Some i → w_ios w !! io = Some i) →
    (∀ io s n b, ev ≠ EvBase (RqMetadataWrite io s n) b) →
    (∀ io, io ∈ wins w' → io ∈ wins w ∨ io ∈ ids [] w ∧
       ∀ i, w_ios w !! io = Some i → io_type i ≠ SPDK_BDEV_IO_TYPE_FLUSH) → bstep ev w w').
  { intros w1 Hu1 Hp1 Hc Hb Hi1 Hev Hw. destruct (book_parts _ _ Hb) as (Hu & Hios & Hreq).
    rewrite Hu1 in Hu. apply bs_quiet; [done|by apply (step_fetched ev)| | |done|done].
    - intros io i' Hin (i & Hi & Hbk)%Hios. exists i. split; [|done]. by apply Hi1.
    - intros r [? Hin]%Hreq. split; [done|]. by rewrite <-Hp1. }
  destruct ev as [ch io i|ch|ch e res|r success|io success|ch c|ch].
  - destruct Hen as (Hnew & _). cbn [run_event] in H. apply bind_done in H as (? & w1 & H1 & H).
    unfold put_io, modify in H1. injection H1 as _ <-.
    apply (Hbook (set_io io i w)); try done; [by eapply book_submit_request| |].
    + intros io' i' Hin. simpl. rewrite lookup_insert_ne; [done|]. by intros ->.
    + pose proof (wins_submit_request ch io _ _ _ H) as Hw. unfold same in Hw. rewrite Hw. by left.
  - destruct Hen as [c Hc]. cbn [run_event] in H. apply bind_done in H as (n & w1 & H & Hr). injection Hr as <-.
    apply (Hbook w); try done; [by eapply book_poll|]. intros io Hio.
    destruct (wins_poll ch w c n w1 Hc Hns H io Hio) as [?|Hin]; [by left|right].
    split; [by apply ring_in_ids with ch c|]. intros i Hi. unfold ring_ios in Hin.
    apply list_elem_of_omap in Hin as ([|io' o] & Hin & He); [done|]. injection He as ->.
    destruct (po_readv _ (ii_places _ _ (inv_io _ _ Hinv)) ch c io o Hc Hin) as (i' & Hi' & Ht & _). congruence.
  - destruct Hcalm as (c & r & Hc & _ & ->). apply bs_quiet; try done; [by intros io' i' _ Hi'; exists i'|by left].
  - destruct r; [by apply stripe_write_bstep|by apply rw_bstep|by apply rw_bstep|by apply flush_bstep..].
  - cbn [run_event] in H. unfold mbind, M_bind, gets, modify, id, of_option in H.
    destruct (remove_one io (w_bufq w)) as [l|]; [|done]. cbn in H.
    apply (Hbook (with_bufq l w)); try done; [by eapply book_get_buf|].
    pose proof (wins_get_buf io success _ _ _ H) as Hw. unfold same in Hw. rewrite Hw. by left.
  - cbn in Hcalm. subst w'. apply bs_quiet; try done; [by intros io' i' _ Hi'; exists i'|by left].
  - cbn in Hcalm. subst w'. apply bs_quiet; try done; [by intros io' i' _ Hi'; exists i'|by left].
Qed.
End Bstep.
