(* ===== verification/FlushData.v ===== *)
(** A flush that succeeds has flushed the blocks it was asked to flush. *)
From stdpp Require Import base tactics list gmap option numbers functions strings relations.
From Stdlib Require Import ZArith Lia.
From S2P Require Import Prelude Types World Layout FetchQueue Stripe Metadata Flush IoChannel Submit.
From S2P Require Import FetchProtocol IoInv Refine System Moves Books.

Local Open Scope Z_scope.

(** The base bdev has flushed the blocks of a request. *)
Definition data_flushed (tr : list event) (u : ubi_bdev) (io : Z) (i : spdk_bdev_io) : Prop :=
  EvBase (RqDataFlush io (io_offset_blocks i + ub_data_offset_blocks u) (io_num_blocks i)) true ∈ tr.

(** Flushes that are past that point: they succeeded, or deal with metadata. *)
Definition past_data (w : world) (io : Z) (i : spdk_bdev_io) : Prop :=
  w_ios w !! io = Some i ∧ io_type i = SPDK_BDEV_IO_TYPE_FLUSH ∧
  (io ∈ wins w ∨ ∃ r, mreq w r ∧ req_io r = Some io).

Definition same_range (i i' : spdk_bdev_io) : Prop :=
  io_type i' = io_type i ∧ io_offset_blocks i' = io_offset_blocks i ∧ io_num_blocks i' = io_num_blocks i.

Lemma io_book_range i i' : io_book i' = io_book i → same_range i i'.
Proof. intros [= ? ? ? _]. done. Qed.

Lemma past_data_ids w io i : past_data w io i → io ∈ ids [] w.
Proof.
  intros (_ & _ & [Hw|(r & Hr & Hio)]); [by apply wins_ids|by eapply mreq_ids].
Qed.

(** Only the callback of a data flush takes a request past that point. *)
Lemma past_data_step ev w w' io i' : bstep ev w w' → past_data w' io i' → ∃ i, same_range i i' ∧
  w_ios w !! io = Some i ∧ (past_data w io i ∨ ∃ s n, ev = EvBase (RqDataFlush io s n) true).
Proof.
  intros Hb (Hi' & Ht & Hpast).
  assert (Hsame : w_ios w' = w_ios w → (∀ r, mreq w' r → req_io r = Some io → ∃ r0, mreq w r0 ∧ req_io r0 = Some io) →
    (io ∈ wins w' → io ∈ wins w ∨ (∃ r, mreq w r ∧ req_io r = Some io) ∨ ∃ s n, ev = EvBase (RqDataFlush io s n) true) →
    ∃ i, same_range i i' ∧ w_ios w !! io = Some i ∧ (past_data w io i ∨ ∃ s n, ev = EvBase (RqDataFlush io s n) true)).
  { intros Hios Hreq Hw. rewrite Hios in Hi'. exists i'. split; [done|]. split; [done|].
    unfold past_data. destruct Hpast as [[?|[?|?]]%Hw|(r & Hr & Hio)]; [by left; auto|by left; auto|by right|].
    left. destruct (Hreq r Hr Hio) as (r0 & ? & ?). split_and!; [done|done|]. right. by exists r0. }
  inversion Hb as [ev0 w0 w1 Hu Hsf Hios Hreq Hne Hw|ch slot o n b j w0 w1 _ _ Hu Hios Hreq Hw
    |io' st n w0 w1 Hu Hf Hios Hreq Hw|io' st n i w0 w1 Hu Hi Hfree Hios Hreq Hw
    |io' st n b w0 w1 Hu Hios Hin Hreq Hw|io' st n i w0 w1 Hin Hi Hu Hios Hreq Hw]; subst.
  - assert (Hids : io ∈ ids [] w).
    { destruct Hpast as [[Hin|[? _]]%Hw|(r & Hr%Hreq & Hio)]; [by apply wins_ids|done|by eapply mreq_ids]. }
    destruct (Hios io i' Hids Hi') as (i & Hi & Hbk%io_book_range). exists i. split; [done|]. split; [done|left].
    assert (Hti : io_type i = SPDK_BDEV_IO_TYPE_FLUSH) by by rewrite <-(proj1 Hbk).
    split_and!; [done|done|]. destruct Hpast as [[Hin|[_ Hn]]%Hw|(r & Hr%Hreq & Hio)].
    + by left.
    + by destruct (Hn i Hi).
    + right. by exists r.
  - apply Hsame; [done| |rewrite Hw; by left]. intros r Hr%Hreq Hio. by exists r.
  - apply Hsame; [done| |].
    + intros r Hr%Hreq Hio. by exists r.
    + rewrite Hw, elem_of_cons. intros [->|?]; [right; right; by exists st, n|by left].
  - destruct (decide (io' = io)) as [->|Hne].
    + rewrite Hios, lookup_insert_eq in Hi'. injection Hi' as <-. exists i. split; [done|]. split; [done|].
      right. by exists st, n.
    + rewrite Hios, lookup_insert_ne in Hi' by done. exists i'. split; [done|]. split; [done|left].
      split_and!; [done|done|]. rewrite Hw in Hpast. destruct Hpast as [?|(r & [Hr|[nb ->]]%Hreq & Hio)]; [by left| |].
      * right. by exists r.
      * injection Hio as ->. done.
  - apply Hsame; [done| |rewrite Hw; by left]. intros r [[Hr _]|[_ [nb ->]]]%Hreq Hio; [by exists r|].
    injection Hio as ->. by exists (RqMetadataWrite io st n).
  - apply Hsame; [done| |].
    + intros r Hr%Hreq Hio. by exists r.
    + rewrite Hw, elem_of_cons. intros [->|?]; [right; left; by exists (RqMetadataFlush io' st n)|by left].
Qed.

(** The request of a data flush, in terms of its I/O. *)
Lemma data_flush_range w io s n i : inv [] w → RqDataFlush io s n ∈ w_pend w → w_ios w !! io = Some i →
  s = io_offset_blocks i + ub_data_offset_blocks (w_ub w) ∧ n = io_num_blocks i.
Proof.
  intros Hinv Hin Hi. assert (Hok : req_ok (w_ub w) (w_ios w) (RqDataFlush io s n)).
  { apply (ii_places _ _ (inv_io _ _ Hinv)). apply elem_of_app. by right. }
  destruct Hok as (i' & Hi' & _ & -> & ->). assert (i' = i) as -> by congruence. done.
Qed.

Lemma run_past_data w0 tr w : initial w0 → ub_no_sync (w_ub w0) = false → run any_step w0 tr w →
  inv [] w ∧ w_fin w = [] ∧ statics (w_ub w) = statics (w_ub w0) ∧
  ∀ io i, past_data w io i → data_flushed tr (w_ub w0) io i.
Proof.
  intros Hw0 Hns Hrun. induction Hrun as [w0|w0 tr w1 E ev w2 Hrun IH HE Hen Hs].
  - destruct (init_lists _ Hw0) as (Hp & Hf & _ & Hd). split_and!; [by apply initial_inv|done|done|].
    intros io i (_ & _ & [Hw|(r & [_ Hr] & _)]).
    + unfold wins in Hw. rewrite Hd in Hw. by apply not_elem_of_nil in Hw.
    + rewrite Hp in Hr. by apply not_elem_of_nil in Hr.
  - destruct (IH Hw0 Hns) as (Hinv & Hfin & Hst & Hpast). unfold any_step in HE.
    assert (Hns1 : ub_no_sync (w_ub w1) = false) by (rewrite <-Hns; unfold statics in Hst; congruence).
    pose proof (step_spec w1 ev Hinv Hen) as Hwp. unfold wp in Hwp. rewrite Hs in Hwp.
    destruct Hwp as [Hinv2 _ Hst2 _ _ _]. split_and!; [done|by apply (step_fin w1 ev w2)|congruence|].
    intros io i' Hp'. pose proof (event_bstep w1 w2 Hinv Hfin Hns1 ev Hen Hs) as Hb.
    destruct (past_data_step ev w1 w2 io i' Hb Hp') as (i & (Ht & Ho & Hn) & Hi & Hor).
    unfold data_flushed. rewrite Ho, Hn. apply elem_of_app. destruct Hor as [Hp|(s & n & ->)].
    + left. by apply Hpast.
    + right. simpl in Hen. destruct (data_flush_range w1 io s n i Hinv Hen Hi) as [-> ->].
      destruct (statics_fields _ _ Hst) as (_ & _ & _ & _ & -> & _). left.
Qed.

(** * The property *)

(** A flush that succeeds has flushed the blocks it was asked for: unless
    flushes are ignored (no_sync), the base bdev has completed, with success
    and on behalf of the request, a flush of exactly its range of the data
    area. *)
Theorem flush_covers_data (w0 w : world) (tr : list event) (io : Z) (i : spdk_bdev_io) :
  initial w0 → ub_no_sync (w_ub w0) = false → run any_step w0 tr w →
  w_ios w !! io = Some i → io_type i = SPDK_BDEV_IO_TYPE_FLUSH →
  (io, SPDK_BDEV_IO_STATUS_SUCCESS) ∈ w_done w → data_flushed tr (w_ub w0) io i.
Proof.
  intros Hw0 Hns Hrun Hi Ht Hdone. destruct (run_past_data w0 tr w Hw0 Hns Hrun) as (_ & _ & _ & Hpast).
  apply Hpast. split_and!; [done|done|left; by apply success_wins].
Qed.

Definition demo_flushed : list event := demo_trace ++ [EvBase (RqDataFlush 13 16384 4096) true;
  EvBase (RqMetadataWrite 13 0 16384) true; EvBase (RqMetadataFlush 13 0 16384) true].

Lemma demo_flushed_run : run any_step demo_world demo_flushed (demo_state demo_flushed).
Proof.
  apply (run_weaken lossless_step); [by intros ? ? []|]. apply demo_run; [by vm_compute|].
  intros ev [Hev|Hev]%elem_of_app; [by apply demo_lossless|]. split; [apply _|]. split; [done|].
  repeat (apply elem_of_cons in Hev as [->|Hev]; [done|]). by apply not_elem_of_nil in Hev.
Qed.

Lemma flush_covers_data_witness : ∃ i, w_ios (demo_state demo_flushed) !! 13 = Some i ∧
  data_flushed demo_flushed demo_ubi 13 i.
Proof.
  destruct (w_ios (demo_state demo_flushed) !! 13) as [i|] eqn:Hi; [|vm_compute in Hi; discriminate Hi].
  exists i. split; [reflexivity|].
  apply (flush_covers_data demo_world (demo_state demo_flushed) demo_flushed 13 i demo_initial eq_refl demo_flushed_run Hi).
  - assert (Ht : io_type <$> w_ios (demo_state demo_flushed) !! 13 = Some SPDK_BDEV_IO_TYPE_FLUSH)
      by (vm_compute; reflexivity).
    rewrite Hi in Ht. injection Ht as Ht. exact Ht.
  - apply list_elem_of_In. vm_compute. tauto.
Defined.
