(* ===== verification/Faults.v ===== *)
(** What the module does when the base bdev fails a request whose result it
    does not handle: a data flush that fails and a write that is refused are
    never answered, and a stripe whose write failed is taken as fetched. *)
From stdpp Require Import base tactics list gmap option numbers functions strings relations.
From Stdlib Require Import ZArith Lia.
From S2P Require Import Prelude Types World Layout FetchQueue Stripe Metadata Flush IoChannel Submit.
From S2P Require Import FetchProtocol IoInv Refine System Moves Outcome Books.

Local Open Scope Z_scope.

(** * Lemmas *)

(** An I/O that is nowhere stays nowhere until it is submitted again. *)
Lemma run_gone w tr w' io : inv [] w → run any_step w tr w' → io ∉ ids [] w → io ∉ submitted tr →
  inv [] w' ∧ io ∉ ids [] w'.
Proof.
  intros Hinv Hrun Hio. induction Hrun as [w|w tr w1 E ev w2 Hrun IH HE Hen Hs]; [done|].
  unfold submitted. rewrite omap_app. fold (submitted tr) (submitted [ev]). intros [H1 H2]%not_elem_of_app.
  destruct (IH Hinv Hio H1) as [Hinv1 Hio1]. unfold any_step in HE.
  pose proof (step_spec w1 ev Hinv1 Hen) as Hwp. unfold wp in Hwp. rewrite Hs in Hwp.
  destruct Hwp as [Hinv2 _ _ (lost & Hp & _) _ _]. split; [done|]. intros Hin.
  assert (Hin' : io ∈ submitted [ev] ++ ids [] w1) by (rewrite <-Hp; apply elem_of_app; by right).
  by apply elem_of_app in Hin' as [?|?].
Qed.

(** * The properties *)

(** C28. A flush request whose data flush fails is never completed: after the
    failure the module holds the request nowhere, and no later event completes
    it. *)
Theorem failed_flush_hangs (w0 w w1 w2 : world) (tr tr' : list event) (E : ext_env) (io s n : Z)
    (Hw0 : initial w0) (Hrun : run any_step w0 tr w) (HE : env_ok E)
    (Hen : enabled w (EvBase (RqDataFlush io s n) false))
    (Hfail : run_event (E := E) (EvBase (RqDataFlush io s n) false) w = Done tt w1)
    (Hlater : run any_step w1 tr' w2) (Hnew : io ∉ submitted tr') :
  io ∈ submitted tr ∧ io ∉ (w_done w2).*1.
Proof.
  pose proof (run_any _ _ _ Hw0 Hrun) as Hpost. pose proof (rp_inv _ _ _ _ Hpost) as Hinv.
  destruct (rp_ids _ _ _ _ Hpost) as (lost & Hids & _). simpl in Hen.
  destruct (remove_one_perm _ _ Hen) as (l & Hrm & Hp).
  apply (base_event_done _ _ _ _ _ Hrm) in Hfail.
  destruct (base_done_spec w _ l Hinv Hp) as (Hinv0 & _ & Hids0).
  pose proof (data_flush_failed_spec _ io s n (w_fin w) Hinv0 eq_refl) as Hwp.
  unfold wp in Hwp. cbn [callback] in Hfail. rewrite Hfail in Hwp. destruct Hwp as (Hinv1 & _ & Hids1).
  assert (Hgone : io ∉ ids [] w1).
  { pose proof (ii_nodup _ _ (inv_io _ _ Hinv)) as Hnd. rewrite <-Hids0, <-Hids1 in Hnd.
    by apply NoDup_cons in Hnd as [? _]. }
  split.
  - rewrite <-Hids. apply elem_of_app. right. by apply req_in_ids with (RqDataFlush io s n).
  - intros Hin. destruct (run_gone w1 tr' w2 io Hinv1 Hlater Hgone Hnew) as [_ Hn].
    by apply Hn, done_in_ids.
Qed.

Definition demo_flush : list event := [EvSubmit 1 13 (demo_io SPDK_BDEV_IO_TYPE_FLUSH 0 4096); EvPoll 1].

Lemma demo_flush_run : run any_step demo_world demo_flush (demo_state demo_flush).
Proof.
  apply (run_weaken lossless_step); [by intros ? ? []|]. apply demo_run; [by vm_compute|].
  intros ev Hev. split; [apply _|]. split; [done|].
  repeat (apply elem_of_cons in Hev as [->|Hev]; [done|]). by apply not_elem_of_nil in Hev.
Qed.

Lemma failed_flush_hangs_witness : ∃ w1,
  run_event (E := demo_env) (EvBase (RqDataFlush 13 16384 4096) false) (demo_state demo_flush) = Done tt w1 ∧
  13 ∈ submitted demo_flush ∧ 13 ∉ (w_done w1).*1.
Proof.
  eexists. split; [vm_compute; reflexivity|].
  eapply (failed_flush_hangs demo_world (demo_state demo_flush) _ _ demo_flush [] demo_env 13 16384 4096).
  - exact demo_initial.
  - exact demo_flush_run.
  - apply _.
  - apply (bool_decide_unpack _). vm_compute. exact I.
  - vm_compute. reflexivity.
  - apply run_nil.
  - apply not_elem_of_nil.
Defined.

(** C30. A stripe whose write to the base bdev fails becomes fetched, in memory
    and in the metadata that the next flush makes durable, like one whose write
    succeeds: the result of the write is not looked at. *)
Theorem failed_stripe_write_trusted (w0 w w1 : world) (tr : list event) (E : ext_env) (ch : Z) (slot : nat) (o n : Z)
    (Hw0 : initial w0) (Hrun : run any_step w0 tr w) (HE : env_ok E)
    (Hen : enabled w (EvBase (RqStripeWrite ch slot o n) false))
    (Hfail : run_event (E := E) (EvBase (RqStripeWrite ch slot o n) false) w = Done tt w1) :
  run_event (E := E) (EvBase (RqStripeWrite ch slot o n) true) w = Done tt w1 ∧
  ∃ k, o = fetch_offset (layout_of (w_ub w)) k + UBI_METADATA_SIZE ∧
    ub_stripe_status (w_ub w) k = STRIPE_INFLIGHT ∧ ub_stripe_status (w_ub w1) k = STRIPE_FETCHED ∧
    (md_stripe_headers (ub_metadata (w_ub w1)) k).1 = 1.
Proof.
  split; [exact Hfail|]. pose proof (run_inv _ _ _ Hw0 Hrun) as Hinv. simpl in Hen.
  destruct (remove_one_perm _ _ Hen) as (l & Hrm & Hp).
  apply (base_event_done _ _ _ _ _ Hrm) in Hfail. set (w' := with_fin _ _) in Hfail.
  destruct (base_done_spec w _ l Hinv Hp) as (Hinv0 & _ & _). fold w' in Hinv0. cbn [callback] in Hfail.
  destruct (stripe_write_done w' w1 (w_fin w) ch slot o n false Hinv0 eq_refl Hfail) as (k & Hu & _ & Hk & Ho & _).
  exists k. split_and!; [done|done| |]; rewrite Hu; cbn; by rewrite fn_lookup_insert.
Qed.

Lemma failed_stripe_write_trusted_witness : ∃ w1,
  run_event (E := demo_env) (EvBase (RqStripeWrite 1 0 8388608 65536) false) (demo_state demo_fetching) = Done tt w1 ∧
  ub_stripe_status (w_ub (demo_state demo_fetching)) 0 = STRIPE_INFLIGHT ∧
  ub_stripe_status (w_ub w1) 0 = STRIPE_FETCHED.
Proof.
  eexists. split; [vm_compute; reflexivity|].
  destruct (failed_stripe_write_trusted demo_world (demo_state demo_fetching) _ demo_fetching demo_env 1 0 8388608 65536
    demo_initial demo_fetching_run _ ltac:(apply (bool_decide_unpack _); vm_compute; exact I)
    ltac:(vm_compute; reflexivity)) as (_ & k & Ho & Hk & Hk1 & _).
  assert (k = 0) as ->.
  { assert (Hl : l_kb (layout_of (w_ub (demo_state demo_fetching))) = 64) by (vm_compute; reflexivity).
    unfold fetch_offset, UBI_METADATA_SIZE in Ho. rewrite Hl in Ho. lia. }
  split; [exact Hk|exact Hk1].
Defined.

(** A base bdev that is out of memory for every write of a request. *)
Definition refusing_env : ext_env := λ w c,
  match c with CallBase (RqWrite _ _ _ _) => -12 | _ => demo_env w c end.
#[export] Instance refusing_env_ok : env_ok refusing_env.
Proof.
  split.
  - done.
  - intros w ch c Hc _. unfold ext_result, refusing_env, demo_env. by rewrite Hc.
  - intros w ch c slot n o Hc _. unfold ext_result, refusing_env, demo_env. rewrite Hc. lia.
Qed.

(** A write to a fetched stripe. *)
Definition one_write : list event := [EvSubmit 1 10 (demo_io SPDK_BDEV_IO_TYPE_WRITE 130 8)].
Definition refusing_state (tr : list event) : world := default demo_world (run_events (E := refusing_env) tr demo_world).

Lemma refusing_run tr : bool_decide (is_Some (run_events (E := refusing_env) tr demo_world)) = true →
  run any_step demo_world tr (refusing_state tr).
Proof.
  intros [w Hw]%bool_decide_eq_true. unfold refusing_state. rewrite Hw. simpl.
  eapply (run_events_sound any_step tr demo_world []); [apply run_nil| |exact Hw]. intros. apply refusing_env_ok.
Qed.

(** * Writes that are refused *)

(** [io] is answered by no one and reaches the base bdev by no one. *)
Definition avoids (io : Z) : relation world := λ w w',
  (∀ r, r ∈ w_pend w' → r ∈ w_pend w ∨ req_io r ≠ Some io) ∧ (io ∈ (w_done w').*1 → io ∈ (w_done w).*1).

#[export] Instance avoids_preorder io : PreOrder (avoids io).
Proof.
  split; [by split; [left|]|]. intros w1 w2 w3 [Hp1 Hd1] [Hp2 Hd2]. split; [|auto].
  intros r Hr. destruct (Hp2 r Hr); auto.
Qed.

Lemma avoids_none io w w' : w_pend w' = w_pend w → w_done w' = w_done w → avoids io w w'.
Proof. intros Hp Hd. unfold avoids. rewrite Hp, Hd. split; auto. Qed.
Lemma avoids_done io io' st w : io' ≠ io → avoids io w (with_done ((io', st) :: w_done w) w).
Proof. intros Hne. split; [by left|]. cbn. by intros [?|?]%elem_of_cons. Qed.
Lemma avoids_pend io r w : req_io r ≠ Some io → avoids io w (with_pend (r :: w_pend w) w).
Proof. intros Hne. split; [|done]. cbn. intros r' [->|?]%elem_of_cons; auto. Qed.

Ltac avoid := intros; first [by apply avoids_none | by apply avoids_done
  | apply avoids_pend; cbn [req_io]; congruence].
Ltac avoids_with tac := walk tac ltac:(avoid).

(** The base bdev refuses every write of the request [io]. *)
Definition refuses (E : ext_env) (io : Z) : Prop :=
  ∀ w start num opts, @ext_result E w (CallBase (RqWrite io start num opts)) ≠ 0.

(** [io] is a write whose stripe is on the base bdev, or that starts beyond the
    image. *)
Definition ready_write (w : world) (io : Z) : Prop :=
  ∃ i, w_ios w !! io = Some i ∧ io_type i = SPDK_BDEV_IO_TYPE_WRITE ∧
    io_ok (layout_of (w_ub w)) i ∧ io_ready (w_ub w) i.

Section Refused.
Context {E : ext_env} `{!env_ok E}.
Variable io : Z.

(** A write is in no place where only reads are. *)
Lemma write_not_read w ch c o : inv [] w → ready_write w io → w_chs w !! ch = Some c →
  SqeReadv io o ∉ ring_all (ch_ring c).
Proof.
  intros Hinv (i & Hi & Ht & _) Hc Hin.
  destruct (po_readv _ (ii_places _ _ (inv_io _ _ Hinv)) ch c io o Hc Hin) as (i' & Hi' & Ht' & _). congruence.
Qed.

Lemma ready_write_mono w w' : ready_write w io → shapes w' = shapes w → layout_of (w_ub w') = layout_of (w_ub w) →
  (∀ i, io_ready (w_ub w) i → io_ready (w_ub w') i) → ready_write w' io.
Proof.
  intros (i & Hi & Ht & Hok & Hr) Hsh Hl Hmono.
  assert (Hi' : shapes w' !! io = Some (shape i)) by (rewrite Hsh; unfold shapes; by rewrite lookup_fmap, Hi).
  unfold shapes in Hi'. rewrite lookup_fmap in Hi'. destruct (w_ios w' !! io) as [i'|] eqn:Hio; [|done].
  injection Hi' as Ht' Ho' Hn'. exists i'. rewrite Hl. split; [done|]. split; [congruence|]. split.
  - destruct Hok. split; by rewrite ?Ht', ?Ho', ?Hn'.
  - apply Hmono in Hr. unfold io_ready in *. by rewrite Ht', Ho'.
Qed.

Lemma ready_write_kept w w' : inv [] w → ready_write w io → evolves w w' → shapes w' = shapes w → ready_write w' io.
Proof.
  intros Hinv Hw Hev Hsh. apply (ready_write_mono w); [done|done|by destruct (statics_fields _ _ (ev_statics _ _ Hev))|].
  intros i. apply io_ready_mono; [apply Hev|].
  intros k. apply (fsteps_status _ _ k (inv_fetch _ _ Hinv) (ev_fetch _ _ Hev)).
Qed.

Lemma avoids_image_io ch w n w' : inv [] w → ready_write w io → ubi_complete_image_io ch w = Done n w' → avoids io w w'.
Proof.
  intros Hinv Hw H. unfold ubi_complete_image_io, io_uring_peek_batch_cqe in H.
  apply bind_done in H as (b & w1 & Hb & H).
  apply bind_done in Hb as (k & w2 & Hr & Hb). unfold ext, mbind, M_bind, gets, modify in Hr. injection Hr as <- <-.
  apply bind_done in Hb as (c & w2 & [Hc ->]%get_ch_done & Hb). injection Hb as <- <-. simpl in Hc.
  transitivity (with_tick (S (w_tick w)) w); [by apply avoids_none|].
  destruct (_ <? 0); [destruct (_ =? _); injection H as _ <-; done|].
  assert (Hl : ∀ x, x ∈ take (Z.to_nat (ext_result w (CallPeekBatchCqe ch)) `min` 64) (ring_cq (ch_ring c)) → readv_of x.1 ≠ Some io).
  { intros [[|io' o] res] Hx Hio; [done|]. apply (subseteq_take _ _) in Hx. injection Hio as ->.
    eapply write_not_read; [exact Hinv|exact Hw|exact Hc|]. unfold ring_all. rewrite !elem_of_app. left.
    apply list_elem_of_fmap. by exists (SqeReadv io o, res). }
  revert Hl H. generalize (take (Z.to_nat (ext_result w (CallPeekBatchCqe ch)) `min` 64) (ring_cq (ch_ring c))).
  intros l. generalize (with_tick (S (w_tick w)) w). generalize 0.
  induction l as [|[e res] l IH]; intros ret w1 Hl H; [change (Done ret w1 = Done n w') in H; by simplify_eq|]. cbn [handle_cqes] in H.
  apply bind_done in H as (ret' & w2 & H1 & H). apply bind_done in H as (? & w3 & H2 & H).
  transitivity w2; [|transitivity w3]; [| |eapply IH; [|exact H]; intros y Hy; apply Hl; by right].
  - assert (Hne : readv_of e ≠ Some io) by (apply (Hl (e, res)); left).
    assert (Hm : moves (avoids io) (handle_cqe ch e res)); [|exact (Hm _ _ _ H1)].
    destruct e as [slot n0 o|io' o]; cbn [handle_cqe].
    + unfold ubi_complete_fetch_stripe, ubi_fail_stripe_fetch. avoids_with fail.
    + assert (io' ≠ io) by (intros ->; by apply Hne). unfold ubi_complete_read_from_image, ubi_complete_io. avoids_with fail.
  - assert (Hm : moves (avoids io) (io_uring_cqe_seen ch)); [avoids_with fail|exact (Hm _ _ _ H2)].
Qed.

Lemma avoids_start_fetches ch free : moves (avoids io) (start_fetches ch free).
Proof.
  induction free as [|slot free IH]; cbn [start_fetches]; unfold ubi_start_fetch_stripe, ubi_fail_stripe_fetch;
    avoids_with ltac:(apply IH).
Qed.

(** The service of another request. *)
Lemma avoids_service ch io' : io' ≠ io → moves (avoids io) (service_io ch io').
Proof.
  intros Hne. unfold service_io, spdk_bdev_io_get_buf, get_buf_for_read_cb, ubi_submit_read_request,
    ubi_submit_write_request, ubi_submit_flush_request, ubi_complete_io. avoids_with fail.
Qed.

(** The loop over the queue changes no status. *)
Lemma service_same_ub ch io' : moves (same w_ub) (service_io ch io').
Proof.
  unfold service_io, spdk_bdev_io_get_buf, get_buf_for_read_cb, ubi_submit_read_request,
    ubi_submit_write_request, ubi_submit_flush_request, ubi_complete_io. moves.
Qed.

(** The write is serviced, and the base bdev refuses it. *)
Lemma verdict_serves w c i v w' : layout_ok (layout_of (w_ub w)) → io_type i = SPDK_BDEV_IO_TYPE_WRITE →
  io_ok (layout_of (w_ub w)) i → io_ready (w_ub w) i → io_verdict c i w = Done v w' → v = VServe.
Proof.
  intros Hl Ht Hok Hr H.
  assert (Hwp : wp (io_verdict c i) w (λ v _, v = VServe)); [|unfold wp in Hwp; by rewrite H in Hwp].
  unfold io_verdict. wp_step. rewrite Ht, !bool_decide_eq_false_2 by done. cbn [negb andb].
  case_match eqn:Hc; [|by wp_step]. apply Z.ltb_lt in Hc.
  apply wp_bind, (wp_stripe_status _ _ i); [done|done|destruct Hok; lia|]. rewrite Hr; [by wp_step|by rewrite Ht|done].
Qed.

Lemma avoids_refused_submit start num opts : refuses E io → moves (avoids io) (base_submit (RqWrite io start num opts)).
Proof.
  intros Hrefuse w ret w' (r & w1 & Hr & H)%bind_done. unfold ext, mbind, M_bind, gets, modify in Hr.
  injection Hr as <- <-. rewrite (proj2 (Z.eqb_neq _ _) (Hrefuse w start num opts)) in H. injection H as _ <-.
  by apply avoids_none.
Qed.

Lemma avoids_refused ch w a w' : refuses E io → ready_write w io → service_io ch io w = Done a w' → avoids io w w'.
Proof.
  intros Hrefuse (i & Hi & Ht & _) (i' & w1 & [Hi' ->]%get_io_done & H)%bind_done. simplify_eq.
  apply bind_done in H as (? & w1 & H1 & H). rewrite Ht in H.
  transitivity w1; [injection H1 as _ <-; by apply avoids_none|].
  lazymatch type of H with ?m w1 = _ => assert (Hm : moves (avoids io) m); [|exact (Hm _ _ _ H)] end.
  unfold ubi_submit_write_request. avoids_with ltac:(by apply avoids_refused_submit).
Qed.

Lemma avoids_process fuel ch : refuses E io → ∀ w a w', layout_ok (layout_of (w_ub w)) → ready_write w io →
  process_ios fuel ch w = Done a w' → avoids io w w'.
Proof.
  intros Hrefuse. induction fuel as [|fuel IH]; [done|]. intros w a w' Hl Hw H. cbn [process_ios] in H.
  apply bind_done in H as (c & w1 & [Hc ->]%get_ch_done & H). destruct (ch_io c) as [|io' rest]; [by injection H as _ <-|].
  apply bind_done in H as (i & w1 & [Hi ->]%get_io_done & H). apply bind_done in H as (v & w1 & Hv & H).
  assert (w1 = w) as ->.
  { assert (Hm : moves (same id) (io_verdict c i)); [unfold io_verdict; moves|exact (Hm _ _ _ Hv)]. }
  assert (Hnext : ∀ w2 a2, avoids io w w2 → w_ub w2 = w_ub w → shapes w2 = shapes w → process_ios fuel ch w2 = Done a2 w' → avoids io w w').
  { intros w2 a2 Hav Hu Hsh H2. transitivity w2; [done|]. eapply IH; [by rewrite Hu| |exact H2].
    apply (ready_write_mono w); [done..|by rewrite Hu|by rewrite Hu]. }
  destruct v; [| by injection H as _ <-|].
  - apply bind_done in H as (? & w1 & H1 & H). apply bind_done in H as (? & w2 & H2 & H).
    apply upd_ch_done in H1 as (c1 & _ & ->). injection H2 as _ <-.
    assert (io' ≠ io).
    { intros ->. destruct Hw as (i' & Hi' & Ht & Hok & Hr). simplify_eq. by apply verdict_serves in Hv. }
    refine (Hnext _ _ _ _ _ H); [|done|done].
    transitivity (set_ch ch (with_io rest c1) w); [by apply avoids_none|by apply (avoids_done io io' _ (set_ch ch (with_io rest c1) w))].
  - apply bind_done in H as (? & w1 & H1 & H). apply bind_done in H as (? & w2 & H2 & H).
    apply upd_ch_done in H1 as (c1 & _ & ->). set (w1 := set_ch ch (with_io rest c1) w) in H2.
    destruct (answers_service_io [] ch io' w1 _ w2 H2) as [Hsh _].
    refine (Hnext _ _ _ (service_same_ub ch io' w1 _ w2 H2) Hsh H).
    transitivity w1; [by apply avoids_none|]. destruct (decide (io' = io)) as [->|Hne]; [|exact (avoids_service ch io' Hne w1 _ w2 H2)].
    exact (avoids_refused ch w1 _ w2 Hrefuse Hw H2).
Qed.

Lemma same_shapes_image_io ch : moves (same shapes) (ubi_complete_image_io ch).
Proof.
  unfold ubi_complete_image_io. apply moves_bind; [apply _|moves|intros [err|l]]; [moves|]. generalize 0.
  induction l as [|[e res] l IH]; intros ret; cbn [handle_cqes]; [moves|]. unfold handle_cqe, ubi_complete_fetch_stripe,
    ubi_fail_stripe_fetch, ubi_complete_read_from_image, ubi_complete_io. moves_with ltac:(done); apply IH.
Qed.
Lemma same_shapes_start_fetches ch free : moves (same shapes) (start_fetches ch free).
Proof.
  induction free as [|slot free IH]; cbn [start_fetches]; unfold ubi_start_fetch_stripe, ubi_fail_stripe_fetch;
    walk ltac:(apply IH) ltac:(done).
Qed.

Lemma avoids_poll ch w n w' : inv [] w → refuses E io → ready_write w io →
  ubi_io_poll ch w = Done n w' → avoids io w w'.
Proof.
  intros Hinv Hrefuse Hw H. apply bind_done in H as (c & w1 & [Hc ->]%get_ch_done & H).
  apply bind_done in H as (k & w1 & H1 & H).
  pose proof (complete_image_io_spec [] w ch c Hinv Hc) as Hwp1. unfold wp in Hwp1. rewrite H1 in Hwp1.
  destruct Hwp1 as [Hinv1 Hev1 _].
  assert (Hw1 : ready_write w1 io) by (apply (ready_write_kept w); try done; by apply (same_shapes_image_io ch w k)).
  transitivity w1; [by eapply avoids_image_io|].
  destruct (_ && (k <? 1)); [by injection H as _ <-|]. destruct (_ && _); [by injection H as _ <-|].
  apply bind_done in H as (c1 & w1' & [Hc1 ->]%get_ch_done & H). apply bind_done in H as (? & w2 & H2 & H).
  apply bind_done in H as (c2 & w2' & [Hc2 ->]%get_ch_done & H). apply bind_done in H as (? & w3 & H3 & H).
  apply bind_done in H as (? & w4 & H4 & H). injection H as _ <-.
  assert (Hwp2 : wp (start_fetches ch (free_stripe_fetches 0 (ch_stripe_fetches c1))) w1 (λ _, hpost [] [] w1)).
  { eapply start_fetches_spec; [done..|apply free_stripe_fetches_nodup|].
    intros slot (_ & s & Hs & Ha)%free_stripe_fetches_elem. exists s. by rewrite Nat.sub_0_r in Hs. }
  unfold wp in Hwp2. rewrite H2 in Hwp2. destruct Hwp2 as [Hinv2 Hev2 _].
  assert (Hw2 : ready_write w2 io) by (apply (ready_write_kept w1); try done; by eapply same_shapes_start_fetches).
  transitivity w2; [by eapply avoids_start_fetches|]. transitivity w3; [eapply avoids_process; [done| |done|exact H3]; by eapply inv_layout|].
  assert (Hm : moves (avoids io) (submit_image_reads ch)); [unfold submit_image_reads; avoids_with fail|exact (Hm _ _ _ H4)].
Qed.
(** After the poll the write is nowhere. *)
Lemma refused_gone ch w w' : inv [] w → inv [] w' → w_fin w = [] → enabled w (EvPoll ch) → refuses E io → ready_write w io →
  io ∈ queued_ids w → run_event (E := E) (EvPoll ch) w = Done tt w' → io ∉ queued_ids w' → io ∉ ids [] w'.
Proof.
  intros Hinv Hinv' Hfin Hen Hrefuse Hw Hq Hs Hnq.
  pose proof (step_fin w _ w' Hinv Hfin Hen Hs) as Hfin'.
  destruct (event_answers _ _ _ Hs) as (_ & Hsh & _).
  apply bind_done in Hs as (n & w1 & Hs & H). injection H as <-.
  destruct (avoids_poll ch w n w1 Hinv Hrefuse Hw Hs) as [Hpend Hdone].
  pose proof (ii_nodup _ _ (inv_io _ _ Hinv)) as Hnd. unfold ids in Hnd. apply NoDup_app in Hnd as (_ & Hdis & _).
  assert (Hno : io ∉ started_ids [] w ++ (w_done w).*1) by by apply Hdis.
  rewrite not_elem_of_app in Hno. destruct Hno as [Hns Hnd].
  destruct Hw as (i & Hi & Ht & _).
  assert (Hi' : shapes w1 !! io = Some (shape i)) by (rewrite Hsh; unfold shapes; by rewrite lookup_fmap, Hi).
  unfold shapes in Hi'. rewrite lookup_fmap in Hi'. destruct (w_ios w1 !! io) as [i'|] eqn:Hio; [|done].
  injection Hi' as Ht' _ _. pose proof (ii_places _ _ (inv_io _ _ Hinv')) as Hpl.
  unfold ids, started_ids. rewrite !not_elem_of_app. split_and!; [done|apply not_elem_of_nil| | | |].
  - unfold over_chs. intros (l & Hl & Hin)%list_elem_of_In%in_concat.
    apply list_elem_of_In, list_elem_of_fmap in Hl as (c & -> & Hc).
    apply list_elem_of_fmap in Hc as ([ch' c'] & -> & Hc). apply elem_of_map_to_list in Hc.
    apply list_elem_of_In, list_elem_of_omap in Hin as ([|io' o] & Hin & [= ->]).
    destruct (po_readv _ Hpl ch' c' io o Hc Hin) as (i0 & Hi0 & Ht0 & _). congruence.
  - intros Hin. destruct (po_bufq _ Hpl io Hin) as (i0 & Hi0 & Ht0). congruence.
  - unfold reqs. rewrite Hfin'. intros (r & Hr & Hrio)%list_elem_of_omap. destruct (Hpend r Hr) as [Hr0|?]; [|done].
    apply Hns. unfold started_ids, reqs. rewrite !elem_of_app. do 3 right. apply list_elem_of_omap. exists r.
    split; [apply elem_of_app; by right|done].
  - auto.
Qed.
End Refused.

(** C29. A write that the base bdev refuses is never completed: the result of
    [ubi_submit_write_request] is not looked at.  When a poll takes a write
    from the queue of its channel whose stripe is on the base bdev, or that
    starts beyond the image, and the base bdev refuses its requests, then the
    request is held nowhere afterwards, and no later event completes it, with
    success or without. *)
Theorem refused_write_hangs (w0 w w1 w2 : world) (tr tr' : list event) (E : ext_env) (ch io : Z)
    (c : ubi_io_channel) (i : spdk_bdev_io)
    (Hw0 : initial w0) (Hrun : run any_step w0 tr w) (HE : env_ok E)
    (Hc : w_chs w !! ch = Some c) (Hqueue : io ∈ ch_io c) (Hi : w_ios w !! io = Some i)
    (Ht : io_type i = SPDK_BDEV_IO_TYPE_WRITE)
    (Hready : io_offset_blocks i < ub_image_block_count (w_ub w) →
              block_status (w_ub w) (io_offset_blocks i) = STRIPE_FETCHED)
    (Hrefuse : refuses E io) (Hpoll : run_event (E := E) (EvPoll ch) w = Done tt w1) (Htaken : io ∉ queued_ids w1)
    (Hlater : run any_step w1 tr' w2) (Hnew : io ∉ submitted tr') :
  io ∈ submitted tr ∧ io ∉ queued_ids w2 ∧ io ∉ started_ids [] w2 ∧ io ∉ (w_done w2).*1.
Proof.
  pose proof (run_any _ _ _ Hw0 Hrun) as Hpost. pose proof (rp_inv _ _ _ _ Hpost) as Hinv.
  destruct (rp_ids _ _ _ _ Hpost) as (lost & Hids & _).
  assert (Hqueued : io ∈ queued_ids w).
  { eapply (elem_over_chs _ (cores w) ch (core c)); [unfold cores; by rewrite lookup_fmap, Hc|done]. }
  assert (Hen : enabled w (EvPoll ch)) by (by exists c).
  assert (Hw : ready_write w io).
  { destruct (ii_queued _ _ (inv_io _ _ Hinv) ch c io Hc Hqueue) as (i' & Hi' & Hok & _). simplify_eq.
    exists i. split_and!; [done..|]. by intros _. }
  pose proof (step_spec w (EvPoll ch) Hinv Hen) as Hwp. unfold wp in Hwp. rewrite Hpoll in Hwp.
  pose proof (st_inv _ _ _ Hwp) as Hinv1.
  pose proof (run_gone w1 tr' w2 io Hinv1 Hlater) as Hgone.
  assert (Hn : io ∉ ids [] w2).
  { apply Hgone; [|done]. apply (refused_gone io ch w w1); try done. by eapply run_fin. }
  unfold ids in Hn. rewrite !not_elem_of_app in Hn. split; [|tauto].
  rewrite <-Hids. apply elem_of_app. right. unfold ids. apply elem_of_app. by left.
Qed.

Lemma refused_write_hangs_witness : let w2 := refusing_state (one_write ++ [EvPoll 1]) in
  10 ∈ submitted one_write ∧ 10 ∉ queued_ids w2 ∧ 10 ∉ started_ids [] w2 ∧ 10 ∉ (w_done w2).*1.
Proof.
  intros w2. destruct (w_chs (refusing_state one_write) !! 1) as [c|] eqn:Hc; [|vm_compute in Hc; discriminate Hc].
  destruct (w_ios (refusing_state one_write) !! 10) as [i|] eqn:Hi; [|vm_compute in Hi; discriminate Hi].
  apply (refused_write_hangs demo_world (refusing_state one_write) w2 w2 one_write [] refusing_env 1 10 c i demo_initial).
  - apply refusing_run. vm_compute. reflexivity.
  - exact refusing_env_ok.
  - exact Hc.
  - vm_compute in Hc. injection Hc as <-. left.
  - exact Hi.
  - vm_compute in Hi. by injection Hi as <-.
  - vm_compute in Hi. injection Hi as <-. intros _. vm_compute. reflexivity.
  - by intros w start num opts.
  - vm_compute. reflexivity.
  - apply (bool_decide_eq_false _). vm_compute. reflexivity.
  - apply run_nil.
  - apply not_elem_of_nil.
Defined.
