(* ===== verification/Persist.v ===== *)
(** What a restart finds: the metadata on the base bdev along a run, and what a
    flush that succeeded guarantees about them.

    The state of the module is extended with the metadata the base bdev holds.
    A block device takes the contents of a write at some moment between its
    submission and its completion, so a metadata write leaves, for every
    stripe, the header as it was in memory when the write was submitted or as
    it is when the write completes; a write that fails leaves each header as it
    was on the base bdev or as it is in memory.  A write changes only the
    headers, and the part in front of them, that its range of blocks covers. *)
From stdpp Require Import base tactics list gmap option numbers functions strings relations.
From Stdlib Require Import ZArith Lia.
From S2P Require Import Prelude Types World Layout FetchQueue Stripe Metadata Flush IoChannel Submit.
From S2P Require Import FetchProtocol IoInv Refine System Moves Books.

Local Open Scope Z_scope.

(** * Runs with the metadata on the base bdev *)

(** [p_snap io]: the metadata in memory when the metadata write of the flush
    [io] was submitted. *)
Record pstate : Type := mk_pstate { p_w : world; p_disk : ubi_metadata; p_snap : Z → ubi_metadata }.

(** The stripes that metadata list as fetched. *)
Definition listed (m : ubi_metadata) (k : Z) : Prop := c_true (md_stripe_headers m k).1 = true.
#[export] Instance listed_dec m k : Decision (listed m k).
Proof. unfold listed. apply _. Defined.
Definition listed_count (m : ubi_metadata) : Z :=
  Z.of_nat (header_count m 0 (Z.to_nat UBI_MAX_STRIPES)).

(** The part of the metadata in front of the headers. *)
Definition fixed_part (m : ubi_metadata) : list Z * list Z * list Z :=
  (md_magic m, md_versionMajor m, md_versionMinor m).

(** A request of [num] blocks of [bl] bytes from [start] covers the byte at an
    offset of the base bdev.  A header is where its first byte is. *)
Definition covers (bl start num off : Z) : Prop := start * bl ≤ off < (start + num) * bl.
Definition header_off (k : Z) : Z := OFF_stripe_headers + 2 * k.
Definition covers_header (bl start num k : Z) : Prop := covers bl start num (header_off k).
Definition covers_fixed (bl start num : Z) : Prop := start * bl ≤ 0 ∧ OFF_stripe_headers ≤ (start + num) * bl.

(** What a write that covers some headers, [H], and maybe the fixed part, [F],
    leaves of the metadata [old] on the base bdev: a header in its range is as
    in [m0] or as in [m1], and the fixed part as in [m1]. *)
Record written_over (H : Z → Prop) (F : Prop) (m0 m1 old m : ubi_metadata) : Prop := {
  wo_headers k : 0 ≤ k < UBI_MAX_STRIPES → H k →
    md_stripe_headers m k = md_stripe_headers m0 k ∨ md_stripe_headers m k = md_stripe_headers m1 k;
  wo_other k : 0 ≤ k < UBI_MAX_STRIPES → ¬ H k → md_stripe_headers m k = md_stripe_headers old k;
  wo_fixed : F → fixed_part m = fixed_part m1;
  wo_not_fixed : ¬ F → fixed_part m = fixed_part old
}.

(** What it leaves when it fails: any part of its range may have been written. *)
Record torn (H : Z → Prop) (F : Prop) (old m1 m : ubi_metadata) : Prop := {
  tn_headers k : 0 ≤ k < UBI_MAX_STRIPES →
    md_stripe_headers m k = md_stripe_headers old k ∨ H k ∧ md_stripe_headers m k = md_stripe_headers m1 k;
  tn_fixed : fixed_part m = fixed_part old ∨ F ∧ fixed_part m = fixed_part m1
}.

Definition disk_after (s : pstate) (ev : event) (m : ubi_metadata) : Prop :=
  let bl := blen (p_w s) in let mem := ub_metadata (w_ub (p_w s)) in
  match ev with
  | EvBase (RqMetadataWrite io start num) true =>
      written_over (covers_header bl start num) (covers_fixed bl start num) (p_snap s io) mem (p_disk s) m
  | EvBase (RqMetadataWrite io start num) false =>
      torn (covers_header bl start num) (covers_fixed bl start num) (p_disk s) mem m
  | _ => m = p_disk s
  end.

(** The metadata write of a flush is submitted when its data are flushed. *)
Definition snap_after (s : pstate) (ev : event) : Z → ubi_metadata :=
  match ev with
  | EvBase (RqDataFlush io _ _) true => <[io := ub_metadata (w_ub (p_w s))]> (p_snap s)
  | _ => p_snap s
  end.

(** Runs whose states satisfy [P]. *)
Inductive prun (P : world → Prop) (s0 : pstate) : list event → pstate → Prop :=
| prun_nil : prun P s0 [] s0
| prun_snoc tr s E ev w' m' :
    prun P s0 tr s → env_ok E → enabled (p_w s) ev → run_event (E := E) ev (p_w s) = Done tt w' →
    disk_after s ev m' → P w' → prun P s0 (tr ++ [ev]) (mk_pstate w' m' (snap_after s ev)).

(** The metadata writes of different flushes do not overlap. *)
Definition serial_flushes (w : world) : Prop := ∀ io s n io' s' n',
  RqMetadataWrite io s n ∈ w_pend w → RqMetadataWrite io' s' n' ∈ w_pend w → io = io'.

(** A bdev that was created from the metadata on the base bdev, see
    [load_metadata]: statuses and counters agree with them. *)
Record pinitial (s : pstate) : Prop := {
  pn_initial : initial (p_w s);
  pn_no_sync : ub_no_sync (w_ub (p_w s)) = false;
  pn_sync : headers_sync (w_ub (p_w s));
  pn_disk k : 0 ≤ k < UBI_MAX_STRIPES → listed (p_disk s) k ↔ ub_stripe_status (w_ub (p_w s)) k = STRIPE_FETCHED;
  pn_fetched : ub_stripes_fetched (w_ub (p_w s)) = Z.of_nat (fetched_count (w_ub (p_w s)));
  pn_flushed : ub_stripes_flushed (w_ub (p_w s)) = ub_stripes_fetched (w_ub (p_w s));
  pn_current : metadata_current (ub_metadata (w_ub (p_w s)));
  pn_fresh : metadata_current (p_disk s) ∨ ub_stripes_flushed (w_ub (p_w s)) = 0
}.

(** * Counting stripes *)

Lemma listed_sync u k : headers_sync u → 0 ≤ k < UBI_MAX_STRIPES →
  listed (ub_metadata u) k ↔ ub_stripe_status u k = STRIPE_FETCHED.
Proof. intros Hs Hk. unfold listed. rewrite (Hs k Hk). apply bool_decide_eq_true. Qed.

Lemma all_stripes_range k : k ∈ seqZ 0 UBI_MAX_STRIPES ↔ 0 ≤ k < UBI_MAX_STRIPES.
Proof. rewrite elem_of_seqZ. lia. Qed.

Lemma listed_count_le m u : (∀ k, 0 ≤ k < UBI_MAX_STRIPES → listed m k → ub_stripe_status u k = STRIPE_FETCHED) →
  listed_count m ≤ Z.of_nat (fetched_count u).
Proof.
  intros H. unfold listed_count, header_count, fetched_count. rewrite Z2Nat.id by (unfold UBI_MAX_STRIPES; lia).
  apply Nat2Z.inj_le, length_filter_le. intros k Hk%all_stripes_range. by apply H.
Qed.

(** A fetched stripe that the metadata do not list makes them fall behind. *)
Lemma listed_count_lt m u k :
  (∀ k, 0 ≤ k < UBI_MAX_STRIPES → listed m k → ub_stripe_status u k = STRIPE_FETCHED) →
  0 ≤ k < UBI_MAX_STRIPES → ub_stripe_status u k = STRIPE_FETCHED → ¬ listed m k →
  listed_count m < Z.of_nat (fetched_count u).
Proof.
  intros H Hk Hf Hn. unfold listed_count, header_count, fetched_count. rewrite Z2Nat.id by (unfold UBI_MAX_STRIPES; lia).
  apply Nat2Z.inj_lt. apply (length_filter_lt _ _ _ k); [|by apply all_stripes_range|done|done].
  intros j Hj%all_stripes_range. by apply H.
Qed.

Lemma listed_count_sync u : headers_sync u → listed_count (ub_metadata u) = Z.of_nat (fetched_count u).
Proof. intros Hs. unfold listed_count. by rewrite header_count_fetched. Qed.

Lemma fetched_count_bound u : Z.of_nat (fetched_count u) ≤ UBI_MAX_STRIPES.
Proof.
  unfold fetched_count. pose proof (length_filter (λ k, ub_stripe_status u k = STRIPE_FETCHED) (seqZ 0 UBI_MAX_STRIPES)) as H.
  rewrite length_seqZ in H. unfold UBI_MAX_STRIPES in *. lia.
Qed.

Lemma fetched_count_ext u u' : (∀ k, ub_stripe_status u' k = STRIPE_FETCHED ↔ ub_stripe_status u k = STRIPE_FETCHED) →
  fetched_count u' = fetched_count u.
Proof. intros H. apply length_filter_iff. intros k _. apply H. Qed.

Lemma fetched_count_none u : (∀ k, ub_stripe_status u k ≠ STRIPE_FETCHED) → fetched_count u = 0%nat.
Proof. intros H. unfold fetched_count. rewrite filter_none; [done|]. intros k _. apply H. Qed.

Lemma fetched_count_add u u' k : 0 ≤ k < UBI_MAX_STRIPES → ub_stripe_status u k ≠ STRIPE_FETCHED →
  ub_stripe_status u' = <[k := STRIPE_FETCHED]> (ub_stripe_status u) →
  fetched_count u' = S (fetched_count u).
Proof.
  intros Hk Hn Hst. unfold fetched_count.
  apply (length_filter_add _ _ _ k); [apply NoDup_seqZ|by apply all_stripes_range|done| |].
  - by rewrite Hst, fn_lookup_insert.
  - intros j _ Hne. by rewrite Hst, fn_lookup_insert_ne by done.
Qed.


Lemma listed_count_nonneg m : 0 ≤ listed_count m.
Proof. apply Nat2Z.is_nonneg. Qed.

Lemma listed_count_mono m m' : (∀ k, 0 ≤ k < UBI_MAX_STRIPES → listed m k → listed m' k) →
  listed_count m ≤ listed_count m'.
Proof.
  intros H. unfold listed_count, header_count. rewrite Z2Nat.id by (unfold UBI_MAX_STRIPES; lia).
  apply Nat2Z.inj_le, length_filter_le. intros k Hk%all_stripes_range. by apply H.
Qed.

Lemma current_fixed m m' : fixed_part m' = fixed_part m → metadata_current m → metadata_current m'.
Proof.
  unfold fixed_part, metadata_current, metadata_wf, ubi_get_version. intros [= -> -> ->]. done.
Qed.

(** * The invariant *)

#[local] Opaque fetched_count header_count listed_count.

(** [m] lists at most the stripes that [m'] lists. *)
Definition list_le (m m' : ubi_metadata) : Prop :=
  ∀ k, 0 ≤ k < UBI_MAX_STRIPES → listed m k → listed m' k.

#[export] Instance list_le_preorder : PreOrder list_le.
Proof. split; [by intros m k|]. intros m1 m2 m3 H1 H2 k Hk H. by apply H2, H1. Qed.

Record pinv (s : pstate) : Prop := {
  pv_inv : inv [] (p_w s);
  pv_fin : w_fin (p_w s) = [];
  pv_no_sync : ub_no_sync (w_ub (p_w s)) = false;
  pv_sync : headers_sync (w_ub (p_w s));
  pv_current : metadata_current (ub_metadata (w_ub (p_w s)));
  pv_fetched : ub_stripes_fetched (w_ub (p_w s)) = Z.of_nat (fetched_count (w_ub (p_w s)));
  pv_listed : list_le (p_disk s) (ub_metadata (w_ub (p_w s)));
  pv_disk : metadata_current (p_disk s) ∨ ub_stripes_flushed (w_ub (p_w s)) = 0;
  pv_flushed : ub_stripes_flushed (w_ub (p_w s)) ≤ listed_count (p_disk s);
  pv_mflush io st n i : mreq (p_w s) (RqMetadataFlush io st n) → w_ios (p_w s) !! io = Some i →
    uio_stripes_fetched (io_driver_ctx i) ≤ listed_count (p_disk s) ∧ metadata_current (p_disk s);
  pv_mwrite io st n : mreq (p_w s) (RqMetadataWrite io st n) →
    list_le (p_disk s) (p_snap s io) ∧ list_le (p_snap s io) (ub_metadata (w_ub (p_w s))) ∧
    ∀ i, w_ios (p_w s) !! io = Some i → uio_stripes_fetched (io_driver_ctx i) ≤ listed_count (p_snap s io)
}.

Lemma no_mreq w r : w_pend w = [] → ¬ mreq w r.
Proof. intros Hp [_ Hin]. rewrite Hp in Hin. by apply not_elem_of_nil in Hin. Qed.

Lemma pinitial_pinv s : pinitial s → pinv s.
Proof.
  intros [Hi Hn Hs Hd Hf Hfl Hc Hfr]. destruct (init_lists _ Hi) as (Hp & Hfin & _ & _).
  split; try assumption.
  - by apply initial_inv.
  - intros k Hk Hlk. apply listed_sync; [done..|]. by apply Hd.
  - rewrite Hfl, Hf, <-listed_count_sync by done. apply listed_count_mono. intros k Hk.
    rewrite listed_sync by done. by apply Hd.
  - intros io st n i Hr. by apply no_mreq in Hr.
  - intros io st n Hr. by apply no_mreq in Hr.
Qed.

(** ** Every event keeps it *)

(** A pending metadata write sees, in the metadata of its submission, at most
    what is in memory. *)
Lemma snap_ok s ev io st n : pinv s → mreq (p_w s) (RqMetadataWrite io st n) →
  let m := snap_after s ev io in
  list_le (p_disk s) m ∧ list_le m (ub_metadata (w_ub (p_w s))) ∧
  ∀ i, w_ios (p_w s) !! io = Some i → uio_stripes_fetched (io_driver_ctx i) ≤ listed_count m.
Proof.
  intros Hp Hr m. destruct (pv_mwrite s Hp io st n Hr) as (H1 & H2 & H3).
  assert (m = p_snap s io ∨ m = ub_metadata (w_ub (p_w s))) as [-> | ->]; [| |split_and!; [apply Hp|done|]].
  - unfold m, snap_after. destruct ev as [| | |[] []| | |]; auto.
    destruct (decide (io0 = io)) as [->|]; [right; by rewrite fn_lookup_insert|left; by rewrite fn_lookup_insert_ne].
  - done.
  - intros i Hi. specialize (H3 i Hi). pose proof (listed_count_mono _ _ H2). lia.
Qed.

(** A metadata write or flush covers all the metadata. *)
Lemma covers_all w r : inv [] w → r ∈ reqs w → match r with RqMetadataWrite _ _ _ | RqMetadataFlush _ _ _ => True | _ => False end →
  ∃ io n, req_io r = Some io ∧ n = ub_data_offset_blocks (w_ub w) ∧
    (r = RqMetadataWrite io 0 n ∨ r = RqMetadataFlush io 0 n) ∧ n * blen w = UBI_METADATA_SIZE.
Proof.
  intros Hinv Hr Hm. pose proof (po_req _ (ii_places _ _ (inv_io _ _ Hinv)) _ Hr) as Hok.
  pose proof (inv_layout _ _ Hinv) as ([_ _ _ _ _ Hd _] & _). simpl in Hd.
  destruct r as [| | | |io st n|io st n]; try done; destruct Hok as (i & _ & _ & -> & ->);
    exists io, (ub_data_offset_blocks (w_ub w)); eauto.
Qed.

Lemma covers_metadata bl n off : n * bl = UBI_METADATA_SIZE → 0 ≤ off < UBI_METADATA_SIZE → covers bl 0 n off.
Proof. unfold covers. intros Hn Hoff. nia. Qed.

Lemma header_off_range k : 0 ≤ k < UBI_MAX_STRIPES → 0 ≤ header_off k < UBI_METADATA_SIZE.
Proof.
  unfold header_off, OFF_stripe_headers, OFF_stripe_size_kb, OFF_versionMinor, OFF_versionMajor, UBI_MAGIC_SIZE,
    UBI_MAX_STRIPES, UBI_METADATA_SIZE. lia.
Qed.

Lemma mwrite_covers s io st n : pinv s → mreq (p_w s) (RqMetadataWrite io st n) →
  (∀ k, 0 ≤ k < UBI_MAX_STRIPES → covers_header (blen (p_w s)) st n k) ∧ covers_fixed (blen (p_w s)) st n.
Proof.
  intros Hp [_ Hr]. destruct (covers_all (p_w s) (RqMetadataWrite io st n) (pv_inv s Hp)) as (io' & n' & _ & -> & [[= _ -> ->]|?] & Hn);
    [apply elem_of_app; by right|done| |done]. split.
  - intros k Hk. by apply covers_metadata, header_off_range.
  - unfold covers_fixed. rewrite Z.add_0_l, Hn. done.
Qed.

(** The headers after a metadata write, which lie between those on the base
    bdev and those in memory. *)
Lemma disk_after_le s io st n b m : pinv s → mreq (p_w s) (RqMetadataWrite io st n) →
  disk_after s (EvBase (RqMetadataWrite io st n) b) m →
  list_le (p_disk s) m ∧ list_le m (ub_metadata (w_ub (p_w s))) ∧
  (metadata_current (p_disk s) → metadata_current m) ∧
  (b = true → list_le (p_snap s io) m ∧ metadata_current m).
Proof.
  intros Hp Hr Hd. destruct (pv_mwrite s Hp io st n Hr) as (H1 & H2 & _).
  destruct (mwrite_covers s io st n Hp Hr) as [Hch Hcf].
  pose proof (pv_listed s Hp) as H3. pose proof (pv_current s Hp) as Hc.
  assert (Hle : ∀ m0, list_le m0 (ub_metadata (w_ub (p_w s))) →
    (∀ k, 0 ≤ k < UBI_MAX_STRIPES → md_stripe_headers m k = md_stripe_headers m0 k ∨
      md_stripe_headers m k = md_stripe_headers (ub_metadata (w_ub (p_w s))) k) →
    list_le m0 m ∧ list_le m (ub_metadata (w_ub (p_w s)))).
  { intros m0 Hm0 Hh. unfold list_le, listed in *.
    split; intros k Hk; destruct (Hh k Hk) as [-> | ->]; auto. }
  destruct b; cbn [disk_after] in Hd.
  - destruct Hd as [Hh _ Hfix _]. destruct (Hle _ H2) as [H4 H5]; [intros k Hk; by apply Hh, Hch|].
    assert (metadata_current m) by (eapply current_fixed; [by apply Hfix|done]).
    split_and!; [by transitivity (p_snap s io)|done|done|by intros _].
  - destruct Hd as [Hh Hfix]. destruct (Hle _ H3) as [H4 H5].
    { intros k Hk. destruct (Hh k Hk) as [?|[_ ?]]; tauto. }
    split_and!; [done|done| |done].
    intros Hcd. destruct Hfix as [Hfix|[_ Hfix]]; by eapply current_fixed.
Qed.

(** The metadata list a stripe when it becomes fetched. *)
Lemma fetched_books w w' k : stripe_index_ok k = true → ub_stripe_status (w_ub w) k = STRIPE_INFLIGHT →
  w_ub w' = with_stripes_fetched (u64 (ub_stripes_fetched (w_ub w) + 1)) (set_status k STRIPE_FETCHED (w_ub w)) →
  headers_sync (w_ub w) → metadata_current (ub_metadata (w_ub w)) →
  ub_stripes_fetched (w_ub w) = Z.of_nat (fetched_count (w_ub w)) →
  headers_sync (w_ub w') ∧ metadata_current (ub_metadata (w_ub w')) ∧
  ub_stripes_fetched (w_ub w') = Z.of_nat (fetched_count (w_ub w')) ∧
  list_le (ub_metadata (w_ub w)) (ub_metadata (w_ub w')) ∧
  ub_stripes_flushed (w_ub w') = ub_stripes_flushed (w_ub w) ∧ ub_no_sync (w_ub w') = ub_no_sync (w_ub w).
Proof.
  intros Hk Hst Hu Hs Hc Hf. apply andb_true_iff in Hk as [Hk1%Z.leb_le Hk2%Z.ltb_lt].
  assert (Hn : fetched_count (w_ub w') = S (fetched_count (w_ub w))).
  { apply fetched_count_add with k; [lia|congruence|by rewrite Hu]. }
  pose proof (fetched_count_bound (w_ub w')) as Hb. unfold UBI_MAX_STRIPES in Hb. rewrite Hn in Hb.
  split_and!; try by rewrite Hu.
  - intros j Hj. rewrite Hu. cbn. destruct (decide (k = j)) as [->|Hne].
    + by rewrite !fn_lookup_insert.
    + rewrite !fn_lookup_insert_ne by done. by apply Hs.
  - rewrite Hn, Hu. cbn. rewrite u64_small; lia.
  - intros j Hj. unfold listed. rewrite Hu. cbn. destruct (decide (k = j)) as [->|Hne].
    + by rewrite fn_lookup_insert.
    + by rewrite fn_lookup_insert_ne.
Qed.

(** A step after which the base bdev holds what it held. *)
Lemma pinv_kept s ev w' : pinv s → inv [] w' → w_fin w' = [] →
  ub_no_sync (w_ub w') = false → headers_sync (w_ub w') → metadata_current (ub_metadata (w_ub w')) →
  ub_stripes_fetched (w_ub w') = Z.of_nat (fetched_count (w_ub w')) →
  list_le (ub_metadata (w_ub (p_w s))) (ub_metadata (w_ub w')) →
  ub_stripes_flushed (w_ub w') = ub_stripes_flushed (w_ub (p_w s)) ∨
    metadata_current (p_disk s) ∧ ub_stripes_flushed (w_ub w') ≤ listed_count (p_disk s) →
  (∀ r io i', mreq w' r → req_io r = Some io → w_ios w' !! io = Some i' → mreq (p_w s) r ∧
    ∃ i, w_ios (p_w s) !! io = Some i ∧
      uio_stripes_fetched (io_driver_ctx i') = uio_stripes_fetched (io_driver_ctx i)) →
  (∀ r, mreq w' r → mreq (p_w s) r) → pinv (mk_pstate w' (p_disk s) (snap_after s ev)).
Proof.
  intros Hp Hinv Hfin Hns Hs Hc Hf Hle Hfl Hios Hreq. split; cbn [p_w p_disk p_snap]; try assumption.
  - transitivity (ub_metadata (w_ub (p_w s))); [exact (pv_listed s Hp)|assumption].
  - destruct Hfl as [->|[? _]]; [exact (pv_disk s Hp)|by left].
  - destruct Hfl as [->|[_ ?]]; [exact (pv_flushed s Hp)|assumption].
  - intros io st n i' Hr Hi'. destruct (Hios _ io i' Hr eq_refl Hi') as (Hr0 & i & Hi & ->).
    by apply (pv_mflush s Hp io st n i).
  - intros io st n Hr. destruct (snap_ok s ev io st n Hp (Hreq _ Hr)) as (H1 & H2 & H3).
    split_and!; [done|by transitivity (ub_metadata (w_ub (p_w s)))|]. intros i' Hi'.
    destruct (Hios _ io i' Hr eq_refl Hi') as (_ & i & Hi & ->). by apply H3.
Qed.

Lemma same_ios_books w w' : w_ios w' = w_ios w → (∀ r, mreq w' r → mreq w r) →
  ∀ r io i', mreq w' r → req_io r = Some io → w_ios w' !! io = Some i' → mreq w r ∧
    ∃ i, w_ios w !! io = Some i ∧ uio_stripes_fetched (io_driver_ctx i') = uio_stripes_fetched (io_driver_ctx i).
Proof. intros -> Hreq r io i' Hr _ Hi'. split; [by apply Hreq|by exists i']. Qed.

Lemma pinv_quiet s ev w' : pinv s → inv [] w' → w_fin w' = [] → ub_book (w_ub w') = ub_book (w_ub (p_w s)) →
  same_fetched (p_w s) w' → same_io_books (p_w s) w' → (∀ r, mreq w' r → mreq (p_w s) r) →
  pinv (mk_pstate w' (p_disk s) (snap_after s ev)).
Proof.
  intros Hp Hinv Hfin Hu Hsf Hios Hreq. unfold ub_book in Hu. injection Hu as Em Ef El En.
  apply pinv_kept; rewrite ?Em, ?En; try assumption.
  - exact (pv_no_sync s Hp).
  - intros k Hk. rewrite Em, (pv_sync s Hp k Hk). apply bool_decide_ext. symmetry. apply Hsf.
  - exact (pv_current s Hp).
  - by rewrite Ef, (pv_fetched s Hp), (fetched_count_ext (w_ub (p_w s)) (w_ub w')).
  - done.
  - by left.
  - intros r io i' Hr Hio Hi'. split; [by apply Hreq|]. apply Hreq in Hr.
    destruct (Hios io i' (mreq_ids _ _ _ Hr Hio) Hi') as (i & Hi & Hb). exists i. split; [done|].
    unfold io_book in Hb. congruence.
Qed.

(** The metadata in memory do not change. *)
Lemma pinv_memory s ev w' m' : pinv s → inv [] w' → w_fin w' = [] → w_ub w' = w_ub (p_w s) →
  list_le (p_disk s) m' → list_le m' (ub_metadata (w_ub (p_w s))) →
  (metadata_current (p_disk s) → metadata_current m') →
  (∀ io st n i, mreq w' (RqMetadataFlush io st n) → w_ios w' !! io = Some i →
    uio_stripes_fetched (io_driver_ctx i) ≤ listed_count m' ∧ metadata_current m') →
  (∀ io st n, mreq w' (RqMetadataWrite io st n) →
    list_le m' (snap_after s ev io) ∧ list_le (snap_after s ev io) (ub_metadata (w_ub (p_w s))) ∧
    ∀ i, w_ios w' !! io = Some i → uio_stripes_fetched (io_driver_ctx i) ≤ listed_count (snap_after s ev io)) →
  pinv (mk_pstate w' m' (snap_after s ev)).
Proof.
  intros Hp Hinv Hfin Hu Hle1 Hle2 Hcur Hmf Hmw. split; cbn [p_w p_disk p_snap]; rewrite ?Hu; try assumption.
  - exact (pv_no_sync s Hp).
  - exact (pv_sync s Hp).
  - exact (pv_current s Hp).
  - exact (pv_fetched s Hp).
  - destruct (pv_disk s Hp) as [?|?]; [left; by apply Hcur|by right].
  - pose proof (pv_flushed s Hp). pose proof (listed_count_mono _ _ Hle1). lia.
Qed.

Lemma pinv_write s w' io s0 n i : pinv s → inv [] w' → w_fin w' = [] → w_ub w' = w_ub (p_w s) →
  (∀ r, mreq (p_w s) r → req_io r ≠ Some io) →
  w_ios w' = <[io := with_driver_ctx (with_uio_stripes_fetched (ub_stripes_fetched (w_ub (p_w s)))
                       (io_driver_ctx i)) i]> (w_ios (p_w s)) →
  (∀ r, mreq w' r → mreq (p_w s) r ∨ ∃ nb, r = RqMetadataWrite io 0 nb) →
  pinv (mk_pstate w' (p_disk s) (snap_after s (EvBase (RqDataFlush io s0 n) true))).
Proof.
  intros Hp Hinv Hfin Hu Hfree Hios Hreq. apply pinv_memory; try assumption.
  - done.
  - exact (pv_listed s Hp).
  - done.
  - intros io' st m j Hr Hj. destruct (Hreq _ Hr) as [Hr0|[nb ?]]; [|done].
    assert (io ≠ io') by (intros ->; by apply (Hfree _ Hr0)).
    rewrite Hios, lookup_insert_ne in Hj by done. by apply (pv_mflush s Hp io' st m).
  - intros io' st m Hr. destruct (Hreq _ Hr) as [Hr0|[nb [= -> _ _]]].
    + assert (io ≠ io') by (intros ->; by apply (Hfree _ Hr0)).
      rewrite Hios, lookup_insert_ne by done. by apply (snap_ok s _ io' st m).
    + cbn [snap_after]. rewrite fn_lookup_insert. split_and!; [exact (pv_listed s Hp)|done|].
      rewrite Hios, lookup_insert_eq. intros j [= <-]. cbn.
      rewrite (pv_fetched s Hp), listed_count_sync by exact (pv_sync s Hp). lia.
Qed.

Lemma pinv_written s w' m' io s0 n b : pinv s → serial_flushes (p_w s) → inv [] w' → w_fin w' = [] →
  w_ub w' = w_ub (p_w s) → w_ios w' = w_ios (p_w s) → mreq (p_w s) (RqMetadataWrite io s0 n) →
  (∀ r, mreq w' r → mreq (p_w s) r ∧ req_io r ≠ Some io ∨ b = true ∧ ∃ nb, r = RqMetadataFlush io 0 nb) →
  disk_after s (EvBase (RqMetadataWrite io s0 n) b) m' →
  pinv (mk_pstate w' m' (snap_after s (EvBase (RqMetadataWrite io s0 n) b))).
Proof.
  intros Hp Hser Hinv Hfin Hu Hios Hin Hreq Hd.
  destruct (disk_after_le s io s0 n b m' Hp Hin Hd) as (H1 & H2 & H3 & H4).
  apply pinv_memory; try assumption.
  - intros io' st m j Hr Hj. rewrite Hios in Hj. destruct (Hreq _ Hr) as [[Hr0 _]|[-> [nb [= -> _ _]]]].
    + destruct (pv_mflush s Hp io' st m j Hr0 Hj) as [? ?]. split; [|by apply H3].
      pose proof (listed_count_mono _ _ H1). lia.
    + destruct (H4 eq_refl) as [Hle ?]. split; [|done]. pose proof (listed_count_mono _ _ Hle).
      destruct (pv_mwrite s Hp io s0 n Hin) as (_ & _ & Hc). specialize (Hc j Hj). lia.
  - intros io' st m Hr. exfalso. destruct (Hreq _ Hr) as [[Hr0 Hne]|[_ [nb ?]]]; [|done].
    apply Hne. cbn. f_equal. exact (Hser _ _ _ _ _ _ (proj2 Hr0) (proj2 Hin)).
Qed.

Lemma pinv_bstep s ev w' m' : pinv s → serial_flushes (p_w s) → inv [] w' → w_fin w' = [] →
  bstep ev (p_w s) w' → disk_after s ev m' → pinv (mk_pstate w' m' (snap_after s ev)).
Proof.
  intros Hp Hser Hinv Hfin Hb Hd.
  inversion Hb as [ev0 w0 w1 Hu Hsf Hios Hreq Hne _|ch slot o n b k w0 w1 Hk Hst Hu Hios Hreq _
    |io st n w0 w1 Hu Hf Hios Hreq _|io st n i w0 w1 Hu Hi Hfree Hios Hreq _
    |io st n b w0 w1 Hu Hios Hin Hreq _|io st n i w0 w1 Hin Hi Hu Hios Hreq _]; subst.
  - assert (m' = p_disk s) as ->.
    { destruct ev as [| | |[] []| | |]; try exact Hd; exfalso; by eapply Hne. }
    by apply pinv_quiet.
  - cbn in Hd. subst m'.
    destruct (fetched_books (p_w s) w' k Hk Hst Hu (pv_sync s Hp) (pv_current s Hp) (pv_fetched s Hp))
      as (H1 & H2 & H3 & H4 & H5 & H6).
    apply pinv_kept; try assumption; [rewrite H6; exact (pv_no_sync s Hp)|by left|by apply same_ios_books].
  - cbn in Hd. subst m'. apply pinv_quiet; try assumption; [by rewrite Hu|intros k; by rewrite Hu|].
    intros io' i'. rewrite Hios. by exists i'.
  - cbn in Hd. subst m'. by apply pinv_write with i.
  - by apply pinv_written.
  - cbn in Hd. subst m'. destruct (pv_mflush s Hp io st n i Hin Hi) as [Hle Hc].
    apply pinv_kept; try assumption.
    + rewrite Hu. exact (pv_no_sync s Hp).
    + rewrite Hu. exact (pv_sync s Hp).
    + rewrite Hu. exact (pv_current s Hp).
    + rewrite (fetched_count_ext (w_ub (p_w s)) (w_ub w')) by (intros k; by rewrite Hu).
      rewrite Hu. exact (pv_fetched s Hp).
    + by rewrite Hu.
    + right. split; [done|]. rewrite Hu. cbn. pose proof (pv_flushed s Hp). lia.
    + by apply same_ios_books.
Qed.

(** One step of a run, on the books. *)
Lemma prun_step s E ev w' : pinv s → env_ok E → enabled (p_w s) ev →
  run_event (E := E) ev (p_w s) = Done tt w' → inv [] w' ∧ w_fin w' = [] ∧ bstep ev (p_w s) w' ∧
  (∀ k, ub_stripe_status (w_ub (p_w s)) k = STRIPE_FETCHED → ub_stripe_status (w_ub w') k = STRIPE_FETCHED).
Proof.
  intros Hp HE Hen Hs. pose proof (pv_inv s Hp) as Hinv. pose proof (pv_fin s Hp) as Hfin.
  pose proof (step_spec (p_w s) ev Hinv Hen) as Hwp. unfold wp in Hwp. rewrite Hs in Hwp.
  destruct Hwp as [Hinv' Hf _ _ _ _]. split_and!; [done|exact (step_fin (p_w s) ev w' Hinv Hfin Hen Hs)| |].
  - exact (event_bstep (p_w s) w' Hinv Hfin (pv_no_sync s Hp) ev Hen Hs).
  - intros k Hk. pose proof (fsteps_status _ _ k (inv_fetch _ _ Hinv) Hf) as Hst. simpl in Hst.
    rewrite Hk in Hst. by apply status_fetched_final.
Qed.

Lemma prun_keeps s1 tr s2 : pinv s1 → serial_flushes (p_w s1) → prun serial_flushes s1 tr s2 →
  pinv s2 ∧ serial_flushes (p_w s2).
Proof.
  intros H1 Hser1 Hrun. induction Hrun as [|tr s E ev w' m' Hrun [Hp Hser] HE Hen Hs Hd Hser']; [done|].
  destruct (prun_step s E ev w' Hp HE Hen Hs) as (Hinv & Hfin & Hb & _). split; [by apply pinv_bstep|done].
Qed.

Lemma prun_pinv s0 tr s : pinitial s0 → prun serial_flushes s0 tr s → pinv s ∧ serial_flushes (p_w s).
Proof.
  intros H0. apply prun_keeps; [by apply pinitial_pinv|].
  destruct (init_lists _ (pn_initial _ H0)) as (Hp & _).
  intros io st n io' st' n'. rewrite Hp. by intros ?%not_elem_of_nil.
Qed.

(** * What a flush promises *)

(** The stripe [k] is listed on the base bdev, or the flush [io] has not
    succeeded and, when it writes the metadata, they list [k]. *)
Definition promise (k io : Z) (s : pstate) : Prop :=
  (listed (p_disk s) k ∧ metadata_current (p_disk s)) ∨
  ((io ∈ wins (p_w s) → ∀ i, w_ios (p_w s) !! io = Some i → io_type i ≠ SPDK_BDEV_IO_TYPE_FLUSH) ∧
   (∀ st n, ¬ mreq (p_w s) (RqMetadataFlush io st n)) ∧
   (∀ st n, mreq (p_w s) (RqMetadataWrite io st n) → listed (p_snap s io) k)).

(** Metadata that list as many stripes as are flushed list every fetched stripe
    when all of them are flushed. *)
Lemma all_listed m u k : list_le m (ub_metadata u) → headers_sync u → 0 ≤ k < UBI_MAX_STRIPES →
  ub_stripe_status u k = STRIPE_FETCHED → ub_stripes_fetched u = Z.of_nat (fetched_count u) →
  ub_stripes_fetched u = ub_stripes_flushed u → ub_stripes_flushed u ≤ listed_count m →
  metadata_current m ∨ ub_stripes_flushed u = 0 → listed m k ∧ metadata_current m.
Proof.
  intros Hm Hs Hk Hst Hf Heq Hfl Hc.
  assert (Hle : ∀ j, 0 ≤ j < UBI_MAX_STRIPES → listed m j → ub_stripe_status u j = STRIPE_FETCHED).
  { intros j Hj Hlj. apply (listed_sync _ _ Hs Hj). by apply Hm. }
  split.
  - destruct (decide (listed m k)) as [|Hn]; [done|].
    pose proof (listed_count_lt m u k Hle Hk Hst Hn). lia.
  - destruct Hc as [|Hz]; [done|]. exfalso.
    assert (Hno : ∀ j, ¬ listed metadata_zero j) by (intros j Hj; discriminate Hj).
    assert (listed_count metadata_zero < Z.of_nat (fetched_count u)).
    { apply (listed_count_lt metadata_zero u k); [|assumption|assumption|apply Hno].
      intros j _ Hj. destruct (Hno j Hj). }
    assert (0 ≤ listed_count metadata_zero) by apply listed_count_nonneg. lia.
Qed.

Lemma clean_listed s k : pinv s → 0 ≤ k < UBI_MAX_STRIPES → ub_stripe_status (w_ub (p_w s)) k = STRIPE_FETCHED →
  ub_stripes_fetched (w_ub (p_w s)) = ub_stripes_flushed (w_ub (p_w s)) →
  listed (p_disk s) k ∧ metadata_current (p_disk s).
Proof.
  intros Hp Hk Hst Heq. apply (all_listed _ (w_ub (p_w s)));
    [exact (pv_listed s Hp)|exact (pv_sync s Hp)|assumption|assumption|exact (pv_fetched s Hp)|assumption
    |exact (pv_flushed s Hp)|exact (pv_disk s Hp)].
Qed.

(** The books of [io] stay, and so does what is promised. *)
Lemma promise_kept k io s ev w' : promise k io s → same_io_books (p_w s) w' →
  (∀ r, mreq w' r → mreq (p_w s) r) → 
  (∀ io', io' ∈ wins w' → io' ∈ wins (p_w s) ∨ io' ≠ io ∨ io' ∈ ids [] (p_w s) ∧
     ∀ i, w_ios (p_w s) !! io' = Some i → io_type i ≠ SPDK_BDEV_IO_TYPE_FLUSH) →
  (listed (ub_metadata (w_ub (p_w s))) k) → promise k io (mk_pstate w' (p_disk s) (snap_after s ev)).
Proof.
  intros [?|(Hw & Hf & Hm)] Hios Hreq Hwins Hmem; [by left|right]. cbn [p_w p_disk p_snap]. split_and!.
  - intros Hio i' Hi'. destruct (Hwins io Hio) as [Hin|[?|[Hin Ht]]]; [|done|].
    + destruct (Hios io i' (wins_ids _ _ Hin) Hi') as (i & Hi & Hb). unfold io_book in Hb.
      injection Hb as Hb _ _ _. rewrite Hb. by apply Hw.
    + destruct (Hios io i' Hin Hi') as (i & Hi & Hb). unfold io_book in Hb. injection Hb as Hb _ _ _. rewrite Hb. by apply Ht.
  - intros st n Hr%Hreq. by apply (Hf st n).
  - intros st n Hr%Hreq. unfold snap_after. destruct ev as [| | |[] []| | |]; try by eapply Hm.
    destruct (decide (io0 = io)) as [->|]; [by rewrite fn_lookup_insert|].
    rewrite fn_lookup_insert_ne by done. by eapply Hm.
Qed.

Lemma promise_bstep s k io ev w' m' : pinv s → 0 ≤ k < UBI_MAX_STRIPES →
  ub_stripe_status (w_ub (p_w s)) k = STRIPE_FETCHED → bstep ev (p_w s) w' → disk_after s ev m' →
  promise k io s → promise k io (mk_pstate w' m' (snap_after s ev)).
Proof.
  intros Hp Hk Hst Hb Hd Hpr.
  assert (Hmem : listed (ub_metadata (w_ub (p_w s))) k) by by apply (listed_sync _ _ (pv_sync s Hp) Hk).
  inversion Hb as [ev0 w0 w1 Hu Hsf Hios Hreq Hne Hw|ch slot o n b j w0 w1 _ _ Hu Hios Hreq Hw
    |io' st n w0 w1 Hu Hf Hios Hreq Hw|io' st n i w0 w1 Hu Hi Hfree Hios Hreq Hw
    |io' st n b w0 w1 Hu Hios Hin Hreq Hw|io' st n i w0 w1 Hin Hi Hu Hios Hreq Hw]; subst.
  - assert (m' = p_disk s) as ->.
    { destruct ev as [| | |[] []| | |]; try exact Hd; exfalso; by eapply Hne. }
    apply promise_kept; try done. intros io' [?|?]%Hw; [by left|by do 2 right].
  - cbn in Hd. subst m'. apply promise_kept; try assumption; [by apply same_ios_io_books|]. intros io'. rewrite Hw. by left.
  - cbn in Hd. subst m'. left. exact (clean_listed s k Hp Hk Hst Hf).
  - cbn in Hd. subst m'. destruct Hpr as [?|(Hwin & Hfl & Hm)]; [by left|right]. cbn [p_w p_disk p_snap].
    split_and!.
    + rewrite Hw, Hios. intros Hio i' Hi'. destruct (decide (io' = io)) as [->|Hne].
      * rewrite lookup_insert_eq in Hi'. injection Hi' as <-. exact (Hwin Hio i Hi).
      * rewrite lookup_insert_ne in Hi' by done. by apply Hwin.
    + intros st' n' Hr. destruct (Hreq _ Hr) as [Hr0|[nb ?]]; [by apply (Hfl st' n')|done].
    + intros st' n' Hr. unfold snap_after. destruct (decide (io' = io)) as [->|Hne]; [by rewrite fn_lookup_insert|].
      rewrite fn_lookup_insert_ne by done. destruct (Hreq _ Hr) as [Hr0|[nb [= ? _ _]]]; [by eapply Hm|congruence].
  - destruct (disk_after_le s io' st n b m' Hp Hin Hd) as (H1 & _ & H3 & H4).
    destruct Hpr as [[Hl Hc]|(Hwin & Hfl & Hm)]; [left; cbn; auto|]. destruct (decide (io' = io)) as [->|Hne].
    + destruct b; [left; destruct (H4 eq_refl) as [Hle ?]; split; [|done]; apply Hle; [done|by apply (Hm st n)]|].
      right. cbn [p_w p_disk p_snap]. split_and!.
      * rewrite Hw, Hios. exact Hwin.
      * intros st' n' Hr. destruct (Hreq _ Hr) as [[Hr0 _]|[? _]]; [by apply (Hfl st' n')|done].
      * intros st' n' Hr. destruct (Hreq _ Hr) as [[_ Hno]|[? _]]; done.
    + right. cbn [p_w p_disk p_snap]. split_and!.
      * rewrite Hw, Hios. exact Hwin.
      * intros st' n' Hr. destruct (Hreq _ Hr) as [[Hr0 _]|[_ [nb [= ? _ _]]]]; [by apply (Hfl st' n')|congruence].
      * intros st' n' Hr. destruct (Hreq _ Hr) as [[Hr0 _]|[_ [nb ?]]]; [by apply (Hm st' n')|done].
  - cbn in Hd. subst m'. destruct Hpr as [?|(Hwin & Hfl & Hm)]; [by left|].
    apply promise_kept; try done; [by right|by apply same_ios_io_books|].
    intros io'' . rewrite Hw, elem_of_cons. intros [->|?]; [right; left; intros ->; by apply (Hfl st n)|by left].
Qed.

Lemma promise_new s k io : pinv s → io ∉ ids [] (p_w s) → promise k io s.
Proof.
  intros Hp Hnew. right. split_and!.
  - intros Hw. by apply wins_ids in Hw.
  - intros st n Hr. by apply Hnew, (mreq_ids _ _ _ Hr).
  - intros st n Hr. exfalso. by apply Hnew, (mreq_ids _ _ _ Hr).
Qed.

(** A flush that arrives after [k] was fetched keeps its promise. *)
Lemma prun_promise s1 tr s2 k io : pinv s1 → serial_flushes (p_w s1) → prun serial_flushes s1 tr s2 →
  0 ≤ k < UBI_MAX_STRIPES → ub_stripe_status (w_ub (p_w s1)) k = STRIPE_FETCHED → io ∉ ids [] (p_w s1) →
  promise k io s2.
Proof.
  intros Hp1 Hser1 Hrun Hk Hst1 Hnew.
  assert (ub_stripe_status (w_ub (p_w s2)) k = STRIPE_FETCHED ∧ promise k io s2) as [_ ?]; [|done].
  induction Hrun as [|tr s E ev w' m' Hrun [Hst Hpr] HE Hen Hs Hd Hser']; [split; [done|by apply promise_new]|].
  destruct (prun_keeps s1 tr s Hp1 Hser1 Hrun) as [Hp _].
  destruct (prun_step s E ev w' Hp HE Hen Hs) as (_ & _ & Hb & Hmono). split; [by apply Hmono|by apply promise_bstep].
Qed.

(** What a restart reads. *)
Lemma reload_listed m u k : metadata_current m → freshly_read u m →
  0 ≤ k < UBI_MAX_STRIPES → ∃ u1, ubi_load_metadata u = Some (0, u1) ∧
  ub_stripe_status u1 k = if decide (listed m k) then STRIPE_FETCHED else STRIPE_NOT_FETCHED.
Proof.
  intros Hc Hfr Hk. eexists. split; [by apply (load_metadata_current u m)|].
  rewrite (load_metadata_status u m k) by done. unfold listed. by case_decide; case_match.
Qed.

(** ** Executable runs

    Every metadata write takes its contents when it is submitted, and none
    fails. *)

Definition metadata_ios (w : world) : list Z :=
  omap (λ r, match r with RqMetadataWrite io _ _ => Some io | _ => None end) (w_pend w).

#[export] Instance serial_flushes_dec w : Decision (serial_flushes w).
Proof.
  refine (cast_if (decide (Forall (λ x, Forall (eq x) (metadata_ios w)) (metadata_ios w)))).
  - abstract (rewrite Forall_forall in *; intros io s n io' s' n' H1 H2;
      assert (Hin : ∀ x s n, RqMetadataWrite x s n ∈ w_pend w → x ∈ metadata_ios w)
        by (intros x s0 n0 Hx; apply list_elem_of_omap; by exists (RqMetadataWrite x s0 n0));
      match goal with H : ∀ x, x ∈ _ → Forall _ _ |- _ => specialize (H io (Hin _ _ _ H1)) end;
      rewrite Forall_forall in *; eauto).
  - abstract (intros Hs; match goal with H : ¬ _ |- _ => apply H end;
      apply Forall_forall; intros x Hx; apply Forall_forall; intros y Hy;
      apply list_elem_of_omap in Hx as ([] & Hx & Ex); simplify_eq;
      apply list_elem_of_omap in Hy as ([] & Hy & Ey); simplify_eq; eauto).
Defined.

#[export] Instance covers_header_dec bl st n k : Decision (covers_header bl st n k).
Proof. unfold covers_header, covers. apply _. Defined.
#[export] Instance covers_fixed_dec bl st n : Decision (covers_fixed bl st n).
Proof. unfold covers_fixed. apply _. Defined.

(** [new], in the range of a request, over [old]. *)
Definition overwrite (bl start num : Z) (new old : ubi_metadata) : ubi_metadata :=
  let m := if decide (covers_fixed bl start num) then new else old in
  mk_metadata (md_magic m) (md_versionMajor m) (md_versionMinor m) (md_stripe_size_kb m)
    (λ k, if decide (covers_header bl start num k) then md_stripe_headers new k else md_stripe_headers old k)
    (md_padding m).

Definition submitted_disk (s : pstate) (ev : event) : ubi_metadata :=
  match ev with
  | EvBase (RqMetadataWrite io start num) true => overwrite (blen (p_w s)) start num (p_snap s io) (p_disk s)
  | _ => p_disk s
  end.

(** The step is one of [prun] with these contents. *)
Definition disk_step_ok (s : pstate) (ev : event) : bool :=
  match ev with
  | EvBase (RqMetadataWrite io _ _) true =>
      bool_decide (fixed_part (p_snap s io) = fixed_part (ub_metadata (w_ub (p_w s))))
  | EvBase (RqMetadataWrite _ _ _) false => false
  | _ => true
  end.

Fixpoint prun_events {E : ext_env} (P : world → Prop) `{!∀ w, Decision (P w)} (tr : list event) (s : pstate)
    : option pstate :=
  match tr with
  | [] => Some s
  | ev :: tr' =>
      if decide (enabled (p_w s) ev) then
        match run_event ev (p_w s) with
        | Done _ w' =>
            if disk_step_ok s ev then
              if decide (P w') then prun_events P tr' (mk_pstate w' (submitted_disk s ev) (snap_after s ev))
              else None
            else None
        | _ => None
        end
      else None
  end.

Lemma disk_step_sound s ev : disk_step_ok s ev = true → disk_after s ev (submitted_disk s ev).
Proof.
  destruct ev as [| | |[] []| | |]; try done. intros H%bool_decide_eq_true.
  split; cbn [submitted_disk overwrite md_stripe_headers]; unfold fixed_part in *; cbn.
  - intros k _ Hk. left. by rewrite decide_True.
  - intros k _ Hk. by rewrite decide_False.
  - intros HF. by rewrite decide_True.
  - intros HF. by rewrite decide_False.
Qed.

Lemma prun_events_sound {E : ext_env} `{!env_ok E} (P : world → Prop) `{!∀ w, Decision (P w)} tr : ∀ s0 tr0 s s',
  prun P s0 tr0 s → prun_events P tr s = Some s' → prun P s0 (tr0 ++ tr) s'.
Proof.
  induction tr as [|ev tr IH]; intros s0 tr0 s s' Hrun Hev; cbn [prun_events] in Hev.
  { injection Hev as <-. by rewrite app_nil_r. }
  destruct (decide (enabled (p_w s) ev)) as [Hen|]; [|done].
  destruct (run_event ev (p_w s)) as [[] w1| |] eqn:Hs; try done.
  destruct (disk_step_ok s ev) eqn:Hd; [|done]. destruct (decide (P w1)) as [HP|]; [|done].
  replace (tr0 ++ ev :: tr) with ((tr0 ++ [ev]) ++ tr) by by rewrite <-app_assoc.
  apply (IH s0 _ _ _ (prun_snoc P s0 tr0 s E ev w1 _ Hrun _ Hen Hs (disk_step_sound s ev Hd) HP) Hev).
Qed.

(** ** A bdev on a new disk, with an image of two stripes *)

Definition new_ubi : ubi_bdev :=
  ubi_init_metadata (mk_ubi_bdev demo_bdev (mk_base_info None None) "/image" 64 128 7 16384 256 4096
    false true true (λ _, STRIPE_NOT_FETCHED) metadata_zero 0 0 0).
Definition new_world : world := mk_world new_ubi {[ 1 := demo_channel ]} ∅ [] [] [] [] 0.
Definition new_disk : pstate := mk_pstate new_world metadata_zero (λ _, metadata_zero).

Definition fetch_event (io block slot : Z) (k : Z) : list event :=
  [EvSubmit 1 io (demo_io SPDK_BDEV_IO_TYPE_WRITE block 1); EvPoll 1;
   EvImageRead 1 (SqeRead (Z.to_nat slot) 65536 (65536 * k)) 65536; EvPoll 1;
   EvBase (RqStripeWrite 1 (Z.to_nat slot) (65536 * k + UBI_METADATA_SIZE) 65536) true; EvPoll 1;
   EvBase (RqWrite io (block + 16384) 1 (mk_ext_opts 0 0 0)) true].
Definition flush_data (io : Z) : list event :=
  [EvSubmit 1 io (demo_io SPDK_BDEV_IO_TYPE_FLUSH 0 4096); EvPoll 1; EvBase (RqDataFlush io 16384 4096) true].
Definition flush_metadata (io : Z) : list event :=
  [EvBase (RqMetadataWrite io 0 16384) true; EvBase (RqMetadataFlush io 0 16384) true].

Lemma new_disk_initial : pinitial new_disk.
Proof.
  split.
  - destruct demo_initial as [Hl _ Hc Hq]. split; [exact Hl|by right|exact Hc|done].
  - done.
  - intros k _. reflexivity.
  - intros k _. split; intros H; discriminate H.
  - change (0 = Z.of_nat (fetched_count new_ubi)).
    by rewrite (fetched_count_none new_ubi).
  - done.
  - split; [done|]. split; done.
  - by right.
Qed.

Definition end_of (P : world → Prop) `{!∀ w, Decision (P w)} (tr : list event) (s : pstate) : pstate :=
  default s (prun_events (E := demo_env) P tr s).

Lemma end_of_run (P : world → Prop) `{!∀ w, Decision (P w)} tr s :
  bool_decide (is_Some (prun_events (E := demo_env) P tr s)) = true → prun P s tr (end_of P tr s).
Proof.
  intros [s' Hs']%bool_decide_eq_true. unfold end_of. rewrite Hs'. cbn [default from_option id].
  exact (prun_events_sound (E := demo_env) P tr s [] s s' (prun_nil P s) Hs').
Qed.

(** A write fetches the first stripe; then a flush writes the metadata. *)
Definition one_fetched : pstate := end_of serial_flushes (fetch_event 11 3 0 0) new_disk.
Definition one_flushed : pstate := end_of serial_flushes (flush_data 20 ++ flush_metadata 20) one_fetched.

(** The metadata write of the flush 20 is outstanding while the second stripe
    is fetched and the flush 21 is served; it is done last. *)
Definition two_fetched : pstate :=
  end_of (λ _, True) (fetch_event 11 3 0 0 ++ flush_data 20 ++ fetch_event 10 130 0 1) new_disk.
Definition overlapped : pstate :=
  end_of (λ _, True) (flush_data 21 ++ flush_metadata 21 ++ flush_metadata 20 ++ flush_data 22) two_fetched.

(** * The properties *)

(** A flush that succeeds makes the fetched stripes durable.  When a stripe was
    fetched before a flush request arrived and the request succeeds, then from
    then on any bdev that is created from the metadata on the base bdev has
    the stripe fetched, in whatever order the other requests are completed,
    also when metadata writes fail, as long as metadata writes of different
    flushes do not overlap. *)
Theorem flush_persists (s0 s1 s2 : pstate) (tr1 tr2 : list event) (k io : Z) (i : spdk_bdev_io) (u : ubi_bdev)
    (Hs0 : pinitial s0) (Hrun1 : prun serial_flushes s0 tr1 s1) (Hrun2 : prun serial_flushes s1 tr2 s2)
    (Hk : 0 ≤ k < UBI_MAX_STRIPES) (Hfetched : ub_stripe_status (w_ub (p_w s1)) k = STRIPE_FETCHED)
    (Hnew : io ∉ ids [] (p_w s1)) (Hio : w_ios (p_w s2) !! io = Some i)
    (Hflush : io_type i = SPDK_BDEV_IO_TYPE_FLUSH)
    (Hsuccess : (io, SPDK_BDEV_IO_STATUS_SUCCESS) ∈ w_done (p_w s2))
    (Hread : freshly_read u (p_disk s2)) :
  ∃ u1, ubi_load_metadata u = Some (0, u1) ∧ ub_stripe_status u1 k = STRIPE_FETCHED.
Proof.
  destruct (prun_pinv s0 tr1 s1 Hs0 Hrun1) as [Hp1 Hser1].
  destruct (prun_promise s1 tr2 s2 k io Hp1 Hser1 Hrun2 Hk Hfetched Hnew) as [[Hl Hc]|(Hw & _)].
  - destruct (reload_listed (p_disk s2) u k Hc Hread Hk) as (u1 & ? & Hst). exists u1.
    by rewrite decide_True in Hst.
  - by destruct (Hw (success_wins _ _ Hsuccess) i Hio).
Qed.

Lemma one_fetched_run : prun serial_flushes new_disk (fetch_event 11 3 0 0) one_fetched.
Proof. apply end_of_run. by vm_compute. Qed.
Lemma one_flushed_run : prun serial_flushes one_fetched (flush_data 20 ++ flush_metadata 20) one_flushed.
Proof. apply end_of_run. by vm_compute. Qed.
Lemma two_fetched_run : prun (λ _, True) new_disk
  (fetch_event 11 3 0 0 ++ flush_data 20 ++ fetch_event 10 130 0 1) two_fetched.
Proof. apply end_of_run. by vm_compute. Qed.
Lemma overlapped_run : prun (λ _, True) two_fetched
  (flush_data 21 ++ flush_metadata 21 ++ flush_metadata 20 ++ flush_data 22) overlapped.
Proof. apply end_of_run. by vm_compute. Qed.

Definition reread (s : pstate) : ubi_bdev :=
  fresh_from (p_disk s) 64.

Lemma stripe_range_0 : 0 ≤ 0 < UBI_MAX_STRIPES.
Proof. done. Qed.
Lemma stripe_range_1 : 0 ≤ 1 < UBI_MAX_STRIPES.
Proof. done. Qed.

Lemma flush_persists_witness :
  (20, SPDK_BDEV_IO_STATUS_SUCCESS) ∈ w_done (p_w one_flushed) ∧
  ∃ u1, ubi_load_metadata (reread one_flushed) = Some (0, u1) ∧ ub_stripe_status u1 0 = STRIPE_FETCHED.
Proof.
  assert (Hdone : (20, SPDK_BDEV_IO_STATUS_SUCCESS) ∈ w_done (p_w one_flushed))
    by (apply list_elem_of_In; vm_compute; tauto).
  split; [exact Hdone|].
  destruct (w_ios (p_w one_flushed) !! 20) as [i|] eqn:Hi; [|vm_compute in Hi; discriminate Hi].
  apply (flush_persists new_disk one_fetched one_flushed (fetch_event 11 3 0 0) (flush_data 20 ++ flush_metadata 20)
    0 20 i (reread one_flushed)).
  - exact new_disk_initial.
  - exact one_fetched_run.
  - exact one_flushed_run.
  - exact stripe_range_0.
  - vm_compute. reflexivity.
  - apply (bool_decide_unpack _). vm_compute. exact I.
  - exact Hi.
  - assert (Ht : io_type <$> w_ios (p_w one_flushed) !! 20 = Some SPDK_BDEV_IO_TYPE_FLUSH)
      by (vm_compute; reflexivity).
    rewrite Hi in Ht. injection Ht as Ht; exact Ht.
  - exact Hdone.
  - apply fresh_from_read.
Defined.

(** C31. When metadata writes of different flushes overlap, a flush can succeed
    without that: the write that was submitted first and lands last puts the
    older headers back, while the module counts the newer ones as flushed and
    later flushes write nothing.  In a reachable state without outstanding
    requests a flush has succeeded that arrived after a stripe was fetched
    (and written to), and a bdev that is created from the base bdev takes the
    stripe from the image again. *)
Theorem overlapping_flushes_lose : ∃ s0 s1 s2 tr1 tr2 k io i,
  pinitial s0 ∧ prun (λ _, True) s0 tr1 s1 ∧ prun (λ _, True) s1 tr2 s2 ∧
  0 ≤ k < UBI_MAX_STRIPES ∧ ub_stripe_status (w_ub (p_w s1)) k = STRIPE_FETCHED ∧ io ∉ ids [] (p_w s1) ∧
  w_ios (p_w s2) !! io = Some i ∧ io_type i = SPDK_BDEV_IO_TYPE_FLUSH ∧
  (io, SPDK_BDEV_IO_STATUS_SUCCESS) ∈ w_done (p_w s2) ∧ w_pend (p_w s2) = [] ∧
  ∀ u, freshly_read u (p_disk s2) →
    ∃ u1, ubi_load_metadata u = Some (0, u1) ∧ ub_stripe_status u1 k = STRIPE_NOT_FETCHED.
Proof.
  destruct (w_ios (p_w overlapped) !! 22) as [i|] eqn:Hi; [|vm_compute in Hi; discriminate Hi].
  exists new_disk, two_fetched, overlapped. do 2 eexists. exists 1, 22, i.
  split; [exact new_disk_initial|]. split; [exact two_fetched_run|]. split; [exact overlapped_run|].
  split; [exact stripe_range_1|]. split; [vm_compute; reflexivity|].
  split; [apply (bool_decide_unpack _); vm_compute; exact I|].
  split; [exact Hi|]. split.
  { assert (Ht : io_type <$> w_ios (p_w overlapped) !! 22 = Some SPDK_BDEV_IO_TYPE_FLUSH)
      by (vm_compute; reflexivity).
    rewrite Hi in Ht. injection Ht as Ht; exact Ht. }
  split; [apply list_elem_of_In; vm_compute; tauto|]. split; [vm_compute; reflexivity|].
  intros u Hu. destruct (reload_listed (p_disk overlapped) u 1) as (u1 & Hl & Hst); [|exact Hu|exact stripe_range_1|].
  { split; [|split]; [split; [|split]|..]; vm_compute; reflexivity. }
  exists u1. split; [exact Hl|]. rewrite Hst. rewrite decide_False; [reflexivity|]. intros H. vm_compute in H. discriminate H.
Qed.
