(* ===== verification/Disk.v ===== *)
(** What the module stores and returns: a refinement of an atomic disk.

    The control state of [System.v] is extended with the contents of the base
    bdev, of the stripe buffers and of the data buffers of reads.  A block of
    the ubi bdev has its value in the image while its stripe is not fetched,
    and on the base bdev afterwards ([logical]).  What a caller sees are its
    submissions and the calls of [spdk_bdev_io_complete], with the contents of
    its buffer ([observe]).  The theorem is that every run refines a disk
    whose blocks start with these values, whose writes take effect at one
    moment before they are answered with success, and whose reads that are
    answered with success return the contents of the disk at one moment
    between the arrival of the request and its completion.

    The contents of blocks are abstract ([B]); [image] is the image file in
    blocks, [payload io b] what the write [io] has for block [b], [meta] the
    blocks of the metadata structure. *)
From stdpp Require Import base tactics list gmap option numbers functions strings relations.
From Stdlib Require Import ZArith Lia.
From S2P Require Import Prelude Types World Layout FetchQueue Stripe Flush IoChannel Submit.
From S2P Require Import FetchProtocol IoInv Refine System Moves Outcome.

Local Open Scope Z_scope.

(** * The data of a run *)

Section Disk.
Context {B : Type}.
Variable image : Z → B.
Variable payload : Z → Z → B.
Variable meta : ubi_metadata → Z → B.

(** The blocks of the base bdev, of the buffer of a slot of a channel, and of
    the data buffer of a read. *)
Record dstate : Type := mk_dstate {
  d_w : world;
  d_base : Z → B;
  d_buf : Z → nat → Z → B;
  d_got : Z → Z → B
}.

(** What a caller sees: it submits a request, and [spdk_bdev_io_complete] is
    called for it; a read that succeeds has its data. *)
Inductive obs : Type :=
| ObArrive (io : Z) (type : spdk_bdev_io_type) (start num : Z)
| ObDone (io : Z) (status : spdk_bdev_io_status) (data : list B).

(** [num] blocks from [start] get [data]. *)
Definition write_range (start num : Z) (data base : Z → B) (b : Z) : B :=
  if (start <=? b) && (b <? start + num) then data b else base b.

(** Effect of an event on the base bdev; [junk] is what a failed write
    leaves.  The base bdev performs a request when it completes it. *)
Definition base_effect (w : world) (ev : event) (junk : Z → B) (buf : Z → nat → Z → B)
    (base : Z → B) : Z → B :=
  match ev with
  | EvBase r success =>
      let data (good : Z → B) := if (success : bool) then good else junk in
      match r with
      | RqStripeWrite ch slot offset nbytes =>
          let start := offset `div` blen w in
          write_range start (nbytes `div` blen w) (data (λ b, buf ch slot (b - start))) base
      | RqWrite io start num _ =>
          write_range start num
            (data (λ b, payload io (b - ub_data_offset_blocks (w_ub w)))) base
      | RqMetadataWrite io start num =>
          write_range start num (data (meta (ub_metadata (w_ub w)))) base
      | RqRead _ _ _ _ | RqDataFlush _ _ _ | RqMetadataFlush _ _ _ => base
      end
  | _ => base
  end.

(** A read of the image fills the stripe buffer, as far as it got. *)
Definition buf_effect (w : world) (ev : event) (buf : Z → nat → Z → B) : Z → nat → Z → B :=
  match ev with
  | EvImageRead ch (SqeRead slot _ offset) res =>
      if res <? 0 then buf
      else λ ch' slot', if decide (ch' = ch ∧ slot' = slot)
                        then λ j, if (j + 1) * blen w <=? res then image (offset `div` blen w + j) else buf ch slot j
                        else buf ch' slot'
  | _ => buf
  end.

(** A read fills its data buffer when the base bdev or the kernel completes it;
    a failed one leaves anything there. *)
Definition got_effect (w : world) (ev : event) (junk base : Z → B) (got : Z → Z → B) : Z → Z → B :=
  match ev with
  | EvBase (RqRead io start num _) success =>
      λ io', if decide (io' = io) then λ j, if (success : bool) then base (start + j) else junk j
             else got io'
  | EvImageRead _ (SqeReadv io offset) res =>
      λ io', if decide (io' = io)
             then λ j, if (j + 1) * blen w <=? res then image (offset `div` blen w + j) else junk j
             else got io'
  | _ => got
  end.

Definition arrivals (ev : event) : list obs :=
  match ev with
  | EvSubmit _ io i => [ObArrive io (io_type i) (io_offset_blocks i) (io_num_blocks i)]
  | _ => []
  end.

(** The contents of the buffer of a read that succeeded. *)
Definition answer_data (w : world) (got : Z → Z → B) (io : Z) (st : spdk_bdev_io_status) : list B :=
  match st, shapes w !! io with
  | SPDK_BDEV_IO_STATUS_SUCCESS, Some (SPDK_BDEV_IO_TYPE_READ, _, num) => got io <$> seqZ 0 num
  | _, _ => []
  end.
Definition observe_done (w : world) (got : Z → Z → B) (x : Z * spdk_bdev_io_status) : obs :=
  ObDone x.1 x.2 (answer_data w got x.1 x.2).

(** The observations of an event that takes [w] to [w']. *)
Definition observe (w : world) (ev : event) (w' : world) (got' : Z → Z → B) : list obs :=
  arrivals ev ++ (observe_done w' got' <$> reverse (new_done w w')).

(** What the module relies on without checking it: a write of a stripe to the
    base bdev succeeds, and a read of the image that does not fail returns
    all the bytes. *)
Definition faithful (w : world) (ev : event) : Prop :=
  match ev with
  | EvBase (RqStripeWrite _ _ _ _) success => success = true
  | EvImageRead _ (SqeRead _ nbytes _) res => res < 0 ∨ res = nbytes
  | EvImageRead _ (SqeReadv io _) res => res < 0 ∨
      ∃ i, w_ios w !! io = Some i ∧ res = io_num_blocks i * blen w
  | _ => True
  end.

Definition dnext (s : dstate) (ev : event) (junk : Z → B) (w' : world) : dstate :=
  mk_dstate w' (base_effect (d_w s) ev junk (d_buf s) (d_base s))
    (buf_effect (d_w s) ev (d_buf s)) (got_effect (d_w s) ev junk (d_base s) (d_got s)).

(** [env_ok] holds, writes of stripes to the base bdev succeed, and reads of the
    image that do not fail are complete. *)
Definition faithful_step (E : ext_env) (w : world) (ev : event) : Prop := env_ok E ∧ faithful w ev.

(** Runs whose steps satisfy [P]. *)
Inductive drun (P : ext_env → world → event → Prop) (s0 : dstate) : list obs → dstate → Prop :=
| drun_nil : drun P s0 [] s0
| drun_snoc os s E ev junk w' :
    drun P s0 os s → enabled (d_w s) ev → P E (d_w s) ev →
    run_event (E := E) ev (d_w s) = Done tt w' →
    drun P s0 (os ++ observe (d_w s) ev w' (d_got (dnext s ev junk w'))) (dnext s ev junk w').

(** * The specification *)

(** The value of block [b] of the ubi bdev. *)
Definition logical (u : ubi_bdev) (base : Z → B) (b : Z) : B :=
  if (b <? ub_image_block_count u) && negb (bool_decide (block_status u b = STRIPE_FETCHED))
  then image b else base (b + ub_data_offset_blocks u).

(** An atomic disk: its contents, and the requests that were not answered.  A
    request waits; it is a read for which the contents of the disk at one
    moment were taken, or a write that took effect, or one that left
    anything in its range. *)
Inductive progress : Type := Waiting | Taken (d : Z → B) | Written | Spoiled.
Record areq : Type := mk_areq {
  q_type : spdk_bdev_io_type;
  q_start : Z;
  q_num : Z;
  q_progress : progress
}.
Record adisk : Type := mk_adisk { a_disk : Z → B; a_reqs : Z → option areq }.

Definition with_progress (p : progress) (q : areq) : areq := mk_areq (q_type q) (q_start q) (q_num q) p.
(** A read takes the contents [d]. *)
Definition look (d : Z → B) (q : areq) : areq :=
  match q_type q with SPDK_BDEV_IO_TYPE_READ => with_progress (Taken d) q | _ => q end.

(** A read succeeds with the contents that it took, a write if it took effect;
    what took effect does not fail. *)
Definition may_answer (q : areq) (st : spdk_bdev_io_status) (data : list B) : Prop :=
  match st with
  | SPDK_BDEV_IO_STATUS_SUCCESS =>
      match q_type q with
      | SPDK_BDEV_IO_TYPE_READ => ∃ d, q_progress q = Taken d ∧ data = d <$> seqZ (q_start q) (q_num q)
      | SPDK_BDEV_IO_TYPE_WRITE => q_progress q = Written
      | SPDK_BDEV_IO_TYPE_FLUSH => True
      | _ => False
      end
  | SPDK_BDEV_IO_STATUS_FAILED => q_progress q ≠ Written
  end.

Inductive astep : adisk → list obs → adisk → Prop :=
| as_arrive a io type start num :
    astep a [ObArrive io type start num]
      (mk_adisk (a_disk a) (<[io := Some (mk_areq type start num Waiting)]> (a_reqs a)))
| as_look a (P : Z → bool) :
    astep a [] (mk_adisk (a_disk a) (λ io, if P io then look (a_disk a) <$> a_reqs a io else a_reqs a io))
| as_write a io q : a_reqs a io = Some q → q_type q = SPDK_BDEV_IO_TYPE_WRITE → q_progress q = Waiting →
    astep a [] (mk_adisk (write_range (q_start q) (q_num q) (payload io) (a_disk a))
                  (<[io := Some (with_progress Written q)]> (a_reqs a)))
| as_spoil a io q junk : a_reqs a io = Some q → q_type q = SPDK_BDEV_IO_TYPE_WRITE → q_progress q = Waiting →
    astep a [] (mk_adisk (write_range (q_start q) (q_num q) junk (a_disk a))
                  (<[io := Some (with_progress Spoiled q)]> (a_reqs a)))
| as_done a io q st data : a_reqs a io = Some q → may_answer q st data →
    astep a [ObDone io st data] (mk_adisk (a_disk a) (<[io := None]> (a_reqs a))).

Inductive arun : adisk → list obs → adisk → Prop :=
| arun_nil a : arun a [] a
| arun_cons a os1 a1 os2 a2 : astep a os1 a1 → arun a1 os2 a2 → arun a (os1 ++ os2) a2.

(** * The invariant *)

Definition holds_stripe (w : world) (buf : Z → B) (offset : Z) : Prop :=
  ∀ j, 0 ≤ j < ub_stripe_block_count (w_ub w) → buf j = image (offset `div` blen w + j).

Record dinv (s : dstate) : Prop := {
  di_inv : inv [] (d_w s);
  di_align : ub_image_block_count (w_ub (d_w s)) `mod` ub_stripe_block_count (w_ub (d_w s)) = 0;
  di_cq ch c slot n o res : w_chs (d_w s) !! ch = Some c →
    (SqeRead slot n o, res) ∈ ring_cq (ch_ring c) → 0 ≤ res →
    holds_stripe (d_w s) (d_buf s ch slot) o;
  di_write ch slot o n : RqStripeWrite ch slot o n ∈ reqs (d_w s) →
    holds_stripe (d_w s) (d_buf s ch slot) (o - UBI_METADATA_SIZE);
  di_got ch c io o res sh j : w_chs (d_w s) !! ch = Some c →
    (SqeReadv io o, res) ∈ ring_cq (ch_ring c) → 0 ≤ res → shapes (d_w s) !! io = Some sh →
    0 ≤ j < sh.2 → d_got s io j = image (o `div` blen (d_w s) + j)
}.

(** The data of the specification that corresponds to a state of the module:
    the same blocks, and for every image read on a ring the contents of a
    moment at which the blocks of its stripe had the values of the image. *)
Record sim_data (s : dstate) (a : adisk) : Prop := {
  sm_disk b : 0 ≤ b → a_disk a b = logical (w_ub (d_w s)) (d_base s) b;
  sm_snap ch c io o : w_chs (d_w s) !! ch = Some c → SqeReadv io o ∈ ring_all (ch_ring c) →
    ∃ q d, a_reqs a io = Some q ∧ q_progress q = Taken d ∧
    ∀ b, 0 ≤ b < ub_image_block_count (w_ub (d_w s)) →
      stripe_of (w_ub (d_w s)) b = stripe_of (w_ub (d_w s)) (o `div` blen (d_w s)) → d b = image b
}.

(** The open request [io] is one of the specification, which did not take
    effect. *)
Definition entry (w : world) (a : adisk) (io : Z) : Prop :=
  ∃ q, a_reqs a io = Some q ∧ shapes w !! io = Some (q_type q, q_start q, q_num q) ∧
  q_progress q ≠ Written ∧ (q_type q = SPDK_BDEV_IO_TYPE_WRITE → q_progress q = Waiting).

Record sim (s : dstate) (a : adisk) : Prop := {
  sm_data : sim_data s a;
  sm_open io : io ∈ open_ids (d_w s) → entry (d_w s) a io
}.

(** * Lemmas *)

Lemma arun_app a1 os1 a2 os2 a3 : arun a1 os1 a2 → arun a2 os2 a3 → arun a1 (os1 ++ os2) a3.
Proof.
  induction 1 as [|a osx a' osy a'' Hs _ IH]; [done|]. intros H. rewrite <-app_assoc.
  eapply arun_cons; eauto.
Qed.

Lemma arun_one a os a' : astep a os a' → arun a os a'.
Proof. intros H. rewrite <-(app_nil_r os). eapply arun_cons; [done|constructor]. Qed.

(** The logical disk depends on the parameters and on which stripes are
    fetched. *)
Lemma logical_ext u u' base b : statics u' = statics u →
  (∀ k, ub_stripe_status u' k = STRIPE_FETCHED ↔ ub_stripe_status u k = STRIPE_FETCHED) →
  logical u' base b = logical u base b.
Proof.
  intros Hs Hf. unfold logical, block_status.
  rewrite (stripe_of_statics u u') by done.
  destruct (statics_fields _ _ Hs) as (_ & _ & _ & _ & -> & -> & _).
  destruct (bool_decide_reflect (ub_stripe_status u (stripe_of u b) = STRIPE_FETCHED)) as [H|H];
    [rewrite bool_decide_eq_true_2 by by apply Hf|rewrite bool_decide_eq_false_2 by by rewrite Hf]; done.
Qed.

Lemma holds_stripe_statics w w' buf o : statics (w_ub w') = statics (w_ub w) →
  holds_stripe w buf o → holds_stripe w' buf o.
Proof.
  intros Hs H. assert (ub_stripe_block_count (w_ub w') = ub_stripe_block_count (w_ub w)) as Heq.
  { injection Hs. congruence. }
  destruct (statics_fields _ _ Hs) as (_ & _ & _ & _ & _ & _ & Hl).
  unfold holds_stripe, blen. rewrite Heq, Hl. exact H.
Qed.

(** ** Steps that leave the data alone *)

(** The open requests of [w] ask for the same in [w']. *)
Definition kept (w w' : world) : Prop := ∀ io, io ∈ open_ids w → shapes w' !! io = shapes w !! io.

Lemma open_ring w ch c io o : w_chs w !! ch = Some c → SqeReadv io o ∈ ring_all (ch_ring c) → io ∈ open_ids w.
Proof.
  intros Hc Hin. unfold open_ids, started_ids. rewrite !elem_of_app. right. right. left.
  eapply elem_over_chs; [done|]. by eapply elem_ring_ios.
Qed.
Lemma open_cq w ch c io o res : w_chs w !! ch = Some c → (SqeReadv io o, res) ∈ ring_cq (ch_ring c) → io ∈ open_ids w.
Proof.
  intros Hc Hin. eapply open_ring; [done|]. unfold ring_all. rewrite !elem_of_app. left.
  apply list_elem_of_fmap. by exists (SqeReadv io o, res).
Qed.
Lemma open_req w r io : r ∈ reqs w → req_io r = Some io → io ∈ open_ids w.
Proof.
  intros Hr Hio. unfold open_ids, started_ids. rewrite !elem_of_app. do 4 right. apply list_elem_of_omap. by exists r.
Qed.

Lemma dinv_calm s w' base' : dinv s → inv [] w' →
  statics (w_ub w') = statics (w_ub (d_w s)) → calm (d_w s) w' → kept (d_w s) w' →
  dinv (mk_dstate w' base' (d_buf s) (d_got s)).
Proof.
  intros [Hinv Hal Hcq Hw Hgot] Hinv' Hs [_ _ _ Hsw Hq] Hkept.
  assert (ub_stripe_block_count (w_ub w') = ub_stripe_block_count (w_ub (d_w s))) as Hsbc.
  { injection Hs. congruence. }
  destruct (statics_fields _ _ Hs) as (_ & _ & _ & _ & _ & Himg & Hbl).
  split; simpl; [done|by rewrite Himg, Hsbc| | |].
  - intros ch c slot n o res Hc Hin Hres. destruct (Hq ch c Hc) as (c0 & Hc0 & Hsub).
    apply holds_stripe_statics with (d_w s); [done|]. by eapply Hcq; [|apply Hsub|].
  - intros ch slot o n Hin. apply holds_stripe_statics with (d_w s); [done|].
    destruct (Hsw _ _ _ _ Hin) as [Hin'|(c & n' & o' & res & Hc & Hin' & Hres & ->)].
    + by eapply Hw.
    + replace (o' + UBI_METADATA_SIZE - UBI_METADATA_SIZE) with o' by lia. by eapply Hcq.
  - intros ch c io o res sh j Hc Hin Hres. destruct (Hq ch c Hc) as (c0 & Hc0 & Hsub). apply Hsub in Hin.
    rewrite (Hkept io) by by eapply open_cq. unfold blen. rewrite Hbl. by eapply Hgot.
Qed.

(** The pairs of the image reads on the rings, and the requests whose stripe
    is not fetched. *)
Definition ring_pairs (w : world) : list (Z * Z) :=
  over_chs (omap readv_pair ∘ ring_all ∘ ch_ring) (w_chs w).
Definition unfetched_read (w : world) (io : Z) : bool :=
  bool_decide (Exists (λ p : Z * Z, p.1 = io ∧
    block_status (w_ub w) (p.2 `div` blen w) ≠ STRIPE_FETCHED) (ring_pairs w)).

Lemma unfetched_read_spec w ch c io o : inv [] w → w_chs w !! ch = Some c →
  SqeReadv io o ∈ ring_all (ch_ring c) →
  unfetched_read w io = true ↔ block_status (w_ub w) (o `div` blen w) ≠ STRIPE_FETCHED.
Proof.
  intros Hinv Hc Hin. unfold unfetched_read. rewrite bool_decide_eq_true, Exists_exists. split.
  - intros ([io' o'] & Hp & Hio & Hst). simpl in Hio, Hst. subst io'.
    unfold ring_pairs, over_chs in Hp. apply list_elem_of_In, in_concat in Hp as (l & Hl & Hp).
    apply list_elem_of_In, list_elem_of_fmap in Hl as (c' & -> & Hc').
    apply list_elem_of_fmap in Hc' as ([ch' c''] & -> & Hc'). simpl in *.
    apply elem_of_map_to_list in Hc'. apply list_elem_of_In, readv_pair_elem in Hp.
    destruct (po_readv _ (ii_places _ _ (inv_io _ _ Hinv)) ch c io o Hc Hin) as (i & Hi & _ & _ & _ & Ho).
    destruct (po_readv _ (ii_places _ _ (inv_io _ _ Hinv)) ch' c'' io o' Hc' Hp) as (i' & Hi' & _ & _ & _ & Ho').
    simplify_eq. done.
  - intros Hst. exists (io, o). split; [|done]. eapply elem_over_chs; [done|].
    simpl. by apply readv_pair_elem.
Qed.

(** The reads of stripes that are not fetched take the contents of the disk. *)
Definition looks (w : world) (a : adisk) : adisk :=
  mk_adisk (a_disk a) (λ io, if unfetched_read w io then look (a_disk a) <$> a_reqs a io else a_reqs a io).

Lemma look_entry d q : q_progress q ≠ Written ∧ (q_type q = SPDK_BDEV_IO_TYPE_WRITE → q_progress q = Waiting) →
  let q' := look d q in q_type q' = q_type q ∧ q_start q' = q_start q ∧ q_num q' = q_num q ∧
  q_progress q' ≠ Written ∧ (q_type q' = SPDK_BDEV_IO_TYPE_WRITE → q_progress q' = Waiting).
Proof. unfold look. intros [H1 H2]. destruct (q_type q) eqn:Ht; simpl; split_and!; auto; congruence. Qed.

Lemma entry_looks w' w a io : entry w a io → entry w (looks w' a) io.
Proof.
  intros (q & Hq & Hsh & Hw). unfold entry, looks; simpl. rewrite Hq. destruct (unfetched_read w' io); [|by exists q].
  exists (look (a_disk a) q). destruct (look_entry (a_disk a) q Hw) as (-> & -> & -> & ?). done.
Qed.

Lemma sim_calm s a w' : dinv s → sim_data s a → inv [] w' →
  statics (w_ub w') = statics (w_ub (d_w s)) → rtc fstep (fview_of (d_w s)) (fview_of w') →
  calm (d_w s) w' → no_swrite (d_w s) → (∀ io, io ∈ open_ids w' → entry w' a io) →
  sim_data (mk_dstate w' (d_base s) (d_buf s) (d_got s)) (looks w' a).
Proof.
  intros Hd [Hdisk Hsnap] Hinv' Hs Hf Hc Hn Hent.
  assert (Hlog : ∀ b, logical (w_ub w') (d_base s) b = logical (w_ub (d_w s)) (d_base s) b).
  { intros b. apply logical_ext; [done|]. intros k. apply fetched_iff; [apply Hd|done..]. }
  split; simpl.
  - intros b Hb. by rewrite Hlog, Hdisk.
  - intros ch c io o Hch Hin. pose proof (unfetched_read_spec w' ch c io o Hinv' Hch Hin) as Hu.
    destruct (unfetched_read w' io).
    + destruct (Hent io) as (q & Hq & Hsh & _); [by eapply open_ring|].
      destruct (po_readv _ (ii_places _ _ (inv_io _ _ Hinv')) ch c io o Hch Hin) as (i & Hi & Ht & _).
      unfold shapes in Hsh. rewrite lookup_fmap, Hi in Hsh. injection Hsh as Htq _ _. rewrite Ht in Htq.
      rewrite Hq. unfold look. simpl. rewrite <-Htq. exists (with_progress (Taken (a_disk a)) q), (a_disk a).
      split; [done|]. split; [done|]. intros b Hb Hsame. rewrite Hdisk, <-Hlog by lia.
      unfold logical. rewrite (proj2 (Z.ltb_lt _ _)) by lia.
      rewrite bool_decide_eq_false_2; [done|]. unfold block_status. rewrite Hsame. by apply Hu.
    + destruct (cm_readv _ _ Hc Hn ch c io o Hch Hin) as [(c0 & Hc0 & Hin0)|Hst].
      2: { by apply Hu in Hst. }
      destruct (Hsnap ch c0 io o Hc0 Hin0) as (q & d & Hq & Hd0 & Heq). exists q, d. split; [done|]. split; [done|].
      destruct (statics_fields _ _ Hs) as (_ & _ & _ & _ & _ & Himg & Hl).
      unfold blen. rewrite Hl, Himg. intros b Hb. rewrite !(stripe_of_statics _ _ _ Hs). by apply Heq.
Qed.

(** Channels come and go without entries on their rings. *)
Lemma sim_chans s a w' : dinv s → sim_data s a → inv [] w' → w_ub w' = w_ub (d_w s) → w_ios w' = w_ios (d_w s) →
  reqs w' = reqs (d_w s) →
  (∀ ch c, w_chs w' !! ch = Some c → ring_all (ch_ring c) = [] ∨
     ∃ c0, w_chs (d_w s) !! ch = Some c0 ∧ ch_ring c = ch_ring c0) →
  let s' := mk_dstate w' (d_base s) (d_buf s) (d_got s) in sim_data s' a ∧ dinv s'.
Proof.
  intros [Hinv Hal Hcq Hw Hgot] [Hdisk Hsnap] Hinv' Hu Hi Hr Hch s'. unfold blen in *.
  assert (Hring : ∀ ch c x, w_chs w' !! ch = Some c → x ∈ ring_cq (ch_ring c) →
    ∃ c0, w_chs (d_w s) !! ch = Some c0 ∧ x ∈ ring_cq (ch_ring c0)).
  { intros ch c x Hc Hin. destruct (Hch ch c Hc) as [Hn|(c0 & Hc0 & Heq)].
    - apply app_eq_nil in Hn as [Hn%fmap_nil_inv _]. rewrite Hn in Hin. by apply not_elem_of_nil in Hin.
    - exists c0. by rewrite <-Heq. }
  split; split; unfold s'; cbn [d_w d_base d_buf d_got]; unfold holds_stripe, blen, shapes in *; rewrite ?Hu, ?Hi; try done.
  - intros ch c io o Hc Hin. destruct (Hch ch c Hc) as [Hn|(c0 & Hc0 & Heq)].
    + rewrite Hn in Hin. by apply not_elem_of_nil in Hin.
    + rewrite Heq in Hin. by eapply Hsnap.
  - intros ch c slot n o res Hc Hin Hres. destruct (Hring ch c _ Hc Hin) as (c0 & Hc0 & Hin0). by eapply Hcq.
  - intros ch slot o n. rewrite Hr. by apply Hw.
  - intros ch c io o res sh j Hc Hin. destruct (Hring ch c _ Hc Hin) as (c0 & Hc0 & Hin0). by eapply Hgot.
Qed.

(** ** Reads of the image *)

Lemma filter_pos {A} (Q : A → Prop) `{!∀ x, Decision (Q x)} (l : list A) x :
  x ∈ l → Q x → (1 ≤ length (filter Q l))%nat.
Proof.
  intros Hx HQ. assert (Hin : x ∈ filter Q l) by by apply list_elem_of_filter.
  destruct (filter Q l); [by apply not_elem_of_nil in Hin|simpl; lia].
Qed.

(** A slot with a read in the kernel has nothing else outstanding. *)
Lemma slot_unique w ch c slot n o : inv [] w → w_chs w !! ch = Some c →
  SqeRead slot n o ∈ ring_inflight (ch_ring c) →
  (∀ n' o' res, (SqeRead slot n' o', res) ∉ ring_cq (ch_ring c)) ∧
  (∀ o' n', RqStripeWrite ch slot o' n' ∉ reqs w).
Proof.
  intros Hinv Hc Hin. pose proof (inv_chan _ _ _ _ Hinv Hc) as Hok.
  assert (Hfin : (slot, n, o) ∈ omap fetch_of (ring_inflight (ch_ring c))).
  { apply list_elem_of_omap. by exists (SqeRead slot n o). }
  destruct (co_ring _ _ _ Hok slot n o) as (s & Hs & _).
  { simpl. unfold ring_all. rewrite !omap_app, !elem_of_app. tauto. }
  pose proof (co_outstanding _ _ _ Hok slot s Hs) as Hout.
  assert (Hle : (outstanding ch slot (fc_ring (fchan_of c)) (fv_writes (fview_of w)) ≤ 1)%nat)
    by (rewrite Hout; destruct (sf_active s); lia).
  unfold outstanding, ring_all in Hle. simpl in Hle.
  unfold ring_all in Hle. rewrite !omap_app, !filter_app, !length_app in Hle.
  pose proof (filter_pos (λ x : nat * Z * Z, x.1.1 = slot) _ _ Hfin eq_refl) as H1. split.
  - intros n' o' res Hcq.
    assert (Hin' : (slot, n', o') ∈ omap fetch_of (ring_cq (ch_ring c)).*1).
    { apply list_elem_of_omap. exists (SqeRead slot n' o'). split; [|done].
      apply list_elem_of_fmap. by exists (SqeRead slot n' o', res). }
    pose proof (filter_pos (λ x : nat * Z * Z, x.1.1 = slot) _ _ Hin' eq_refl). lia.
  - intros o' n' Hw.
    assert (Hin' : (ch, slot, o', n') ∈ omap swrite_of (reqs w)).
    { apply list_elem_of_omap. by exists (RqStripeWrite ch slot o' n'). }
    pose proof (filter_pos (λ x : Z * nat * Z * Z, x.1.1.1 = ch ∧ x.1.1.2 = slot) _ _ Hin'
      (conj eq_refl eq_refl)) as H2. unfold reqs in H2. rewrite omap_app, filter_app, length_app in H2. lia.
Qed.

Lemma blen_pos w : inv [] w → 0 < blen w.
Proof. intros Hinv. by pose proof (inv_layout _ _ Hinv) as ([Hb _ _ _ _ _ _] & _). Qed.

(** A read in the kernel is in no completion. *)
Lemma readv_unique w ch c io o ch' c' o' res : inv [] w → w_chs w !! ch = Some c →
  SqeReadv io o ∈ ring_inflight (ch_ring c) → w_chs w !! ch' = Some c' →
  (SqeReadv io o', res) ∉ ring_cq (ch_ring c').
Proof.
  intros Hinv Hc Hin Hc' Hcq.
  assert (H1 : SqeReadv io o ∈ ring_all (ch_ring c)) by (unfold ring_all; rewrite !elem_of_app; tauto).
  assert (H2 : SqeReadv io o' ∈ (ring_cq (ch_ring c')).*1) by (apply list_elem_of_fmap; by exists (SqeReadv io o', res)).
  pose proof (ii_places _ _ (inv_io _ _ Hinv)) as Hpl.
  destruct (po_readv _ Hpl ch c io o Hc H1) as (i & Hi & _ & Hch & _).
  destruct (po_readv _ Hpl ch' c' io o' Hc') as (i' & Hi' & _ & Hch' & _); [unfold ring_all; rewrite !elem_of_app; tauto|].
  simplify_eq. pose proof (ii_nodup _ _ (inv_io _ _ Hinv)) as Hnd. unfold ids, started_ids in Hnd.
  apply NoDup_app in Hnd as (_ & _ & Hnd). apply NoDup_app in Hnd as (Hnd & _). simpl in Hnd.
  apply NoDup_app in Hnd as (Hnd & _). destruct (over_chs_split (ring_ios ∘ ch_ring) _ _ _ Hc) as (rest & Hp & _).
  rewrite Hp in Hnd. apply NoDup_app in Hnd as (Hnd & _). cbn in Hnd. unfold ring_ios, ring_all in Hnd. rewrite omap_app in Hnd.
  apply NoDup_app in Hnd as (_ & Hd & _). apply (Hd io); [apply list_elem_of_omap; by exists (SqeReadv io o')|].
  rewrite omap_app. apply elem_of_app. left. apply list_elem_of_omap. by exists (SqeReadv io o).
Qed.

Lemma got_image_read s ch c e res junk ch0 c0 io o res0 sh j : dinv s → w_chs (d_w s) !! ch = Some c →
  e ∈ ring_inflight (ch_ring c) → faithful (d_w s) (EvImageRead ch e res) → w_chs (d_w s) !! ch0 = Some c0 →
  (SqeReadv io o, res0) ∈ ring_cq (ch_ring c0) ∨ (SqeReadv io o, res0) = (e, res) →
  0 ≤ res0 → shapes (d_w s) !! io = Some sh → 0 ≤ j < sh.2 →
  got_effect (d_w s) (EvImageRead ch e res) junk (d_base s) (d_got s) io j = image (o `div` blen (d_w s) + j).
Proof.
  intros [Hinv _ _ _ Hgot] Hc Hin Hfa Hc0 [Hq|Heq] Hres Hsh Hj.
  - destruct e as [|io1 o1]; [by eapply Hgot|]. cbn [got_effect]. destruct (decide (io = io1)) as [<-|]; [|by eapply Hgot].
    exfalso. exact (readv_unique _ ch c io o1 ch0 c0 o res0 Hinv Hc Hin Hc0 Hq).
  - injection Heq as <- <-. cbn [got_effect]. rewrite decide_True by done.
    destruct Hfa as [?|(i & Hi & ->)]; [lia|]. unfold shapes in Hsh. rewrite lookup_fmap, Hi in Hsh.
    injection Hsh as <-. change (0 ≤ j < io_num_blocks i) in Hj. pose proof (blen_pos _ Hinv).
    rewrite (proj2 (Z.leb_le _ _)); [done|]. nia.
Qed.

Lemma buf_effect_other w ch slot n o res buf ch' slot' : (ch', slot') ≠ (ch, slot) →
  buf_effect w (EvImageRead ch (SqeRead slot n o) res) buf ch' slot' = buf ch' slot'.
Proof. intros Hne. simpl. case_match; [done|]. rewrite decide_False; [done|]. naive_solver. Qed.

Lemma dinv_image_read s ch c e res r junk : dinv s → w_chs (d_w s) !! ch = Some c →
  e ∈ ring_inflight (ch_ring c) → ring_finish e res (ch_ring c) = Some r →
  let w' := set_ch ch (with_ring r c) (d_w s) in
  inv [] w' → faithful (d_w s) (EvImageRead ch e res) → dinv (dnext s (EvImageRead ch e res) junk w').
Proof.
  intros Hd Hc Hin Hr w' Hinv' Hfa. pose proof Hd as [Hinv Hal Hcq Hw _].
  assert (Hrcq : ring_cq r = ring_cq (ch_ring c) ++ [(e, res)]).
  { unfold ring_finish in Hr. destruct (remove_one e _); [|done]. simpl in Hr. by injection Hr as <-. }
  assert (Hold : ∀ ch0 slot o, holds_stripe (d_w s) (d_buf s ch0 slot) o →
    (∀ n' o', e = SqeRead slot n' o' → ch0 ≠ ch) →
    holds_stripe w' (buf_effect (d_w s) (EvImageRead ch e res) (d_buf s) ch0 slot) o).
  { intros ch0 slot o Hh Hne. destruct e as [slot1 n1 o1|]; [|exact Hh].
    rewrite buf_effect_other; [exact Hh|]. intros [= -> ->]. by eapply Hne. }
  split; simpl; try done.
  - intros ch0 c0 slot n o res0. destruct (decide (ch = ch0)) as [<-|Hne].
    + rewrite lookup_insert_eq. intros [= <-]. simpl. rewrite Hrcq, elem_of_app, list_elem_of_singleton.
      intros [Hq|Heq] Hres.
      * apply Hold; [by eapply Hcq|]. intros n' o' -> _.
        destruct (slot_unique _ _ _ _ _ _ Hinv Hc Hin) as [Hno _]. by eapply Hno.
      * injection Heq as <- <-. simpl in Hfa |- *. rewrite (proj2 (Z.ltb_ge _ _)) by lia. intros j Hj.
        rewrite decide_True by done. destruct Hfa as [?| ->]; [lia|].
        destruct (co_ring _ _ _ (inv_chan _ _ _ _ Hinv Hc) slot n o) as (_ & _ & -> & _);
          [simpl; apply list_elem_of_omap; exists (SqeRead slot n o); split; [unfold ring_all; rewrite !elem_of_app; tauto|done]|].
        rewrite (proj2 (Z.leb_le _ _)); [done|]. unfold fetch_bytes, blen. simpl in Hj |- *.
        pose proof (inv_layout _ _ Hinv) as ([Hbl _ _ _ Hbytes _ _] & _). simpl in Hbl, Hbytes. rewrite <-Hbytes. nia.
    + rewrite lookup_insert_ne by done. intros Hc0 Hq Hres. apply Hold; [by eapply Hcq|]. congruence.
  - intros ch0 slot o n Hin0. apply Hold; [by eapply Hw|]. intros n' o' -> ->.
    destruct (slot_unique _ _ _ _ _ _ Hinv Hc Hin) as [_ Hno]. by eapply Hno.
  - intros ch0 c0 io o res0 sh j Hc0 Hq Hres. assert (Hq' : ∃ c1, w_chs (d_w s) !! ch0 = Some c1 ∧
      ((SqeReadv io o, res0) ∈ ring_cq (ch_ring c1) ∨ (SqeReadv io o, res0) = (e, res))).
    { apply lookup_insert_Some in Hc0 as [[<- <-]|[_ Hc0]]; [|by exists c0; auto]. exists c. split; [done|].
      simpl in Hq. rewrite Hrcq, elem_of_app, list_elem_of_singleton in Hq. exact Hq. }
    destruct Hq' as (c1 & Hc1 & Hq1). by eapply (got_image_read s ch c).
Qed.

(** The blocks of a request that starts in the image. *)
Lemma io_blocks u i b : layout_ok (layout_of u) → io_ok (layout_of u) i →
  io_type i = SPDK_BDEV_IO_TYPE_READ ∨ io_type i = SPDK_BDEV_IO_TYPE_WRITE →
  io_offset_blocks i ≤ b < io_offset_blocks i + io_num_blocks i →
  0 ≤ b ∧ stripe_of u b = stripe_of u (io_offset_blocks i) ∧
  (ub_image_block_count u `mod` ub_stripe_block_count u = 0 →
   io_offset_blocks i < ub_image_block_count u → b < ub_image_block_count u).
Proof.
  intros Hl Hok Ht Hb. pose proof (iok_split _ _ Hok Ht) as Hs. pose proof (iok_offset _ _ Hok).
  rewrite !stripe_of_div by done. destruct Hl as ([_ _ Hsh Hsbc _ _ _] & _). simpl in *.
  assert (Hpos : 0 < ub_stripe_block_count u) by (rewrite Hsbc; apply Z.pow_pos_nonneg; lia).
  set (sbc := ub_stripe_block_count u) in *.
  assert (Heq : b `div` sbc = io_offset_blocks i `div` sbc).
  { pose proof (Z.div_le_mono (io_offset_blocks i) b sbc Hpos ltac:(lia)).
    pose proof (Z.div_le_mono b (io_offset_blocks i + io_num_blocks i - 1) sbc Hpos ltac:(lia)). lia. }
  split_and!; [lia|done|]. intros Hal Himg.
  pose proof (Z.div_mod (ub_image_block_count u) sbc ltac:(lia)) as Hq. rewrite Hal in Hq.
  pose proof (Z.mul_div_le (io_offset_blocks i) sbc Hpos).
  pose proof (Z.mul_succ_div_gt b sbc Hpos). rewrite Heq in *.
  set (q := ub_image_block_count u `div` sbc) in *.
  assert (io_offset_blocks i `div` sbc < q) by nia. nia.
Qed.

(** ** Answers *)

Definition ready (w : world) (got : Z → Z → B) (a : adisk) (x : Z * spdk_bdev_io_status) : Prop :=
  ∃ q, a_reqs a x.1 = Some q ∧ may_answer q x.2 (answer_data w got x.1 x.2).

Lemma answer_all w got l : ∀ a, NoDup l.*1 → (∀ x, x ∈ l → ready w got a x) →
  ∃ a', arun a (observe_done w got <$> l) a' ∧ a_disk a' = a_disk a ∧ ∀ io, io ∉ l.*1 → a_reqs a' io = a_reqs a io.
Proof.
  induction l as [|[io st] l IH]; intros a Hnd Hr; [exists a; split_and!; [constructor|done|done]|].
  apply NoDup_cons in Hnd as [Hni Hnd]. destruct (Hr (io, st)) as (q & Hq & Hmay); [left|].
  destruct (IH (mk_adisk (a_disk a) (<[io := None]> (a_reqs a)))) as (a' & Ha & Hd & Hreq); [done| |].
  { intros [io' st'] Hx. destruct (Hr (io', st')) as (q' & Hq' & Hm'); [by right|]. exists q'. split; [|done].
    cbn [a_reqs fst]. rewrite fn_lookup_insert_ne; [done|]. intros <-. apply Hni. apply list_elem_of_fmap. by exists (io, st'). }
  exists a'. split_and!; [by apply (arun_cons _ [_] _ _ _ (as_done a io q st _ Hq Hmay))|done|].
  intros io' Hio. cbn [fmap list_fmap fst] in Hio. apply not_elem_of_cons in Hio as [Hne Hio]. rewrite Hreq by done.
  cbn [a_reqs]. by rewrite fn_lookup_insert_ne.
Qed.

Lemma sim_finish s a l : sim_data s a → NoDup l.*1 →
  (∀ io, io ∈ open_ids (d_w s) → entry (d_w s) a io ∧ io ∉ l.*1) →
  (∀ x, x ∈ l → ready (d_w s) (d_got s) a x) →
  ∃ a', arun a (observe_done (d_w s) (d_got s) <$> reverse l) a' ∧ sim s a'.
Proof.
  intros [Hdisk Hsnap] Hnd Hopen Hr.
  destruct (answer_all (d_w s) (d_got s) (reverse l) a) as (a' & Ha & Hd & Hreq).
  { by rewrite fmap_reverse, reverse_Permutation. }
  { intros x Hx. rewrite elem_of_reverse in Hx. by apply Hr. }
  assert (Hsame : ∀ io, io ∈ open_ids (d_w s) → a_reqs a' io = a_reqs a io).
  { intros io Hio. apply Hreq. rewrite fmap_reverse, elem_of_reverse. by apply Hopen. }
  exists a'. split; [done|]. split; [split|].
  - by rewrite Hd.
  - intros ch c io o Hc Hin. rewrite Hsame by by eapply open_ring. by eapply Hsnap.
  - intros io Hio. unfold entry. rewrite Hsame by done. by apply Hopen.
Qed.

(** An open request may fail, and a flush may succeed. *)
Lemma entry_ready w got a io st : entry w a io →
  (st = SPDK_BDEV_IO_STATUS_SUCCESS → is_flush w io) → ready w got a (io, st).
Proof.
  intros (q & Hq & Hsh & Hw & _) Hst. exists q. split; [done|]. destruct st; cbn [may_answer snd]; [|done].
  destruct (Hst eq_refl) as (i & Hi & Ht). unfold shapes in Hsh. rewrite lookup_fmap, Hi in Hsh.
  injection Hsh as <- _ _. by rewrite Ht.
Qed.

Lemma unfetched_open w io : unfetched_read w io = true → io ∈ open_ids w.
Proof.
  unfold unfetched_read. intros ([io' o] & Hp & Hio & _)%bool_decide_eq_true%Exists_exists. simpl in Hio. subst io'.
  unfold ring_pairs, over_chs in Hp. apply list_elem_of_In, in_concat in Hp as (l & Hl & Hp).
  apply list_elem_of_In, list_elem_of_fmap in Hl as (c & -> & Hc).
  apply list_elem_of_fmap in Hc as ([ch c'] & -> & Hc). apply elem_of_map_to_list in Hc.
  apply list_elem_of_In, readv_pair_elem in Hp. by eapply open_ring.
Qed.

Lemma ready_looks w' w got a x : x.1 ∉ open_ids w' → ready w got a x → ready w got (looks w' a) x.
Proof.
  intros Hx (q & Hq & Hm). exists q. split; [|done]. unfold looks; cbn [a_reqs].
  destruct (unfetched_read w' x.1) eqn:Hu; [|done]. by apply unfetched_open in Hu.
Qed.

(** A read of the image that succeeded returns what the request took. *)
Lemma image_ready s a ch c io o res w' : dinv s → sim_data s a → w_chs (d_w s) !! ch = Some c →
  (SqeReadv io o, res) ∈ ring_cq (ch_ring c) → 0 ≤ res → shapes w' !! io = shapes (d_w s) !! io →
  entry w' a io → ready w' (d_got s) a (io, SPDK_BDEV_IO_STATUS_SUCCESS).
Proof.
  intros Hd [_ Hsnap] Hc Hq Hres Hshape (q & Hqio & Hsh & _). pose proof (di_inv _ Hd) as Hinv.
  assert (Hall : SqeReadv io o ∈ ring_all (ch_ring c)).
  { unfold ring_all. rewrite !elem_of_app. left. apply list_elem_of_fmap. by exists (SqeReadv io o, res). }
  destruct (po_readv _ (ii_places _ _ (inv_io _ _ Hinv)) ch c io o Hc Hall) as (i & Hi & Ht & _ & [Himg _] & Ho).
  destruct (Hsnap ch c io o Hc Hall) as (q' & d & Hq' & Hd0 & Heq). simplify_eq.
  assert (Hio : started (d_w s) io).
  { apply (ii_started _ _ (inv_io _ _ Hinv)). unfold started_ids. rewrite !elem_of_app. right. left.
    eapply elem_over_chs; [done|]. by eapply elem_ring_ios. }
  destruct Hio as (i' & c' & Hi' & Hok & _). simplify_eq.
  pose proof (blen_pos _ Hinv) as Hbl. change (bd_blocklen (ub_bdev (w_ub (d_w s)))) with (blen (d_w s)) in *.
  rewrite Z.div_mul in Heq by lia. pose proof Hsh as Hsh'. rewrite Hshape in Hsh'.
  pose proof (λ j, di_got _ Hd ch c io _ res _ j Hc Hq Hres Hsh') as Hgot. rewrite Z.div_mul in Hgot by lia. cbn [snd] in Hgot.
  unfold shapes in Hsh'. rewrite lookup_fmap, Hi in Hsh'. injection Hsh' as Htq Hst Hnum.
  exists q. split; [done|]. cbn [may_answer snd fst]. unfold answer_data. rewrite Hsh, <-Htq, Ht.
  exists d. split; [done|]. rewrite <-(Z.add_0_r (q_start q)), <-fmap_add_seqZ, <-list_fmap_compose. apply list_fmap_ext.
  intros k j Hj. apply list_elem_of_lookup_2, elem_of_seqZ in Hj. rewrite Hgot by lia. cbn. rewrite <-Hst.
  destruct (io_blocks _ i (io_offset_blocks i + j) (inv_layout _ _ Hinv) Hok ltac:(tauto) ltac:(lia)) as (? & Hs & Hlt).
  symmetry. apply Heq; [|done]. split; [done|]. apply Hlt; [apply Hd|done].
Qed.

Lemma sim_submit s a io type start num : inv [] (d_w s) → sim_data s a → io ∉ ids [] (d_w s) →
  sim_data s (mk_adisk (a_disk a) (<[io := Some (mk_areq type start num Waiting)]> (a_reqs a))).
Proof.
  intros Hinv [Hdisk Hsnap] Hnew. split; simpl; [done|]. intros ch c io0 o Hc Hin.
  rewrite fn_lookup_insert_ne; [by eapply Hsnap|]. intros <-. apply Hnew.
  unfold ids. rewrite (assoc_L (++)). apply elem_of_app. left. by eapply open_ring.
Qed.

Lemma sim_image_read s a ch c e res r junk : sim_data s a → w_chs (d_w s) !! ch = Some c →
  e ∈ ring_inflight (ch_ring c) → ring_finish e res (ch_ring c) = Some r →
  sim_data (dnext s (EvImageRead ch e res) junk (set_ch ch (with_ring r c) (d_w s))) a.
Proof.
  intros [Hdisk Hsnap] Hc Hin Hr.
  assert (Hrall : ring_all r ≡ₚ ring_all (ch_ring c)).
  { unfold ring_finish in Hr. destruct (remove_one_perm e _ Hin) as (l & Hrm & Hperm).
    rewrite Hrm in Hr. simpl in Hr. injection Hr as <-. unfold ring_all; simpl.
    rewrite fmap_app, Hperm. simpl. by rewrite <-!app_assoc. }
  split; simpl; [done|]. intros ch0 c0 io o. destruct (decide (ch = ch0)) as [<-|].
  - rewrite lookup_insert_eq. intros [= <-]. simpl. rewrite Hrall. exact (Hsnap ch c io o Hc).
  - rewrite lookup_insert_ne by done. by apply Hsnap.
Qed.

(** ** Completions of the base bdev *)

(** A write below the data does not change the logical disk, a write of a
    request changes its blocks. *)
Lemma logical_below u base num data b : 0 ≤ b → num ≤ ub_data_offset_blocks u →
  logical u (write_range 0 num data base) b = logical u base b.
Proof.
  intros Hb Hn. unfold logical, write_range. case_match; [done|].
  rewrite (proj2 (Z.ltb_ge (b + _) _)) by lia. by rewrite andb_false_r.
Qed.

Lemma logical_write u i data base b : layout_ok (layout_of u) → io_ok (layout_of u) i →
  io_type i = SPDK_BDEV_IO_TYPE_READ ∨ io_type i = SPDK_BDEV_IO_TYPE_WRITE →
  (io_offset_blocks i < ub_image_block_count u →
   block_status u (io_offset_blocks i) = STRIPE_FETCHED) →
  logical u (write_range (io_offset_blocks i + ub_data_offset_blocks u) (io_num_blocks i) data base) b =
  write_range (io_offset_blocks i) (io_num_blocks i) (λ b, data (b + ub_data_offset_blocks u))
    (logical u base) b.
Proof.
  intros Hl Hok Ht Hf. unfold write_range at 2.
  destruct ((io_offset_blocks i <=? b) && (b <? io_offset_blocks i + io_num_blocks i)) eqn:Hin.
  - apply andb_true_iff in Hin as [H1%Z.leb_le H2%Z.ltb_lt].
    destruct (io_blocks u i b Hl Hok Ht ltac:(lia)) as (Hb0 & Hs & _).
    assert (Hlog : ∀ base', logical u base' b = base' (b + ub_data_offset_blocks u)).
    { intros base'. unfold logical. destruct (Z.ltb_spec b (ub_image_block_count u)); [|done].
      rewrite bool_decide_eq_true_2; [done|]. unfold block_status in *. rewrite Hs. apply Hf. lia. }
    rewrite Hlog. unfold write_range.
    rewrite (proj2 (Z.leb_le _ _)), (proj2 (Z.ltb_lt _ _)) by lia. done.
  - unfold logical, write_range. case_match; [done|].
    destruct (Z.leb_spec (io_offset_blocks i + ub_data_offset_blocks u) (b + ub_data_offset_blocks u)),
      (Z.ltb_spec (b + ub_data_offset_blocks u)
         (io_offset_blocks i + ub_data_offset_blocks u + io_num_blocks i)); try done.
    rewrite (proj2 (Z.leb_le _ _)), (proj2 (Z.ltb_lt _ _)) in Hin by lia. done.
Qed.

(** A request to the base bdev has no image read. *)
Lemma ring_req_disjoint w ch c io o r : inv [] w → w_chs w !! ch = Some c →
  SqeReadv io o ∈ ring_all (ch_ring c) → r ∈ reqs w → req_io r ≠ Some io.
Proof.
  intros Hinv Hc Hin Hr Hio. pose proof (ii_nodup _ _ (inv_io _ _ Hinv)) as Hnd.
  unfold ids, started_ids in Hnd. apply NoDup_app in Hnd as (_ & _ & Hnd).
  apply NoDup_app in Hnd as (Hnd & _). simpl in Hnd. apply NoDup_app in Hnd as (_ & Hd & _).
  apply (Hd io); [eapply elem_over_chs; [done|]; by eapply elem_ring_ios|].
  apply elem_of_app. right. apply list_elem_of_omap. by exists r.
Qed.

(** A request of the base bdev that was started, and its entry. *)
Lemma base_entry s a r io : inv [] (d_w s) → sim s a → r ∈ reqs (d_w s) → rw_of r = Some io →
  ∃ i q, w_ios (d_w s) !! io = Some i ∧ io_ok (layout_of (w_ub (d_w s))) i ∧ a_reqs a io = Some q ∧
    q_type q = io_type i ∧ q_start q = io_offset_blocks i ∧ q_num q = io_num_blocks i ∧
    q_progress q ≠ Written ∧ (q_type q = SPDK_BDEV_IO_TYPE_WRITE → q_progress q = Waiting).
Proof.
  intros Hinv [_ Hopen] Hr Hrw.
  assert (Hio : req_io r = Some io) by by destruct r.
  destruct (Hopen io) as (q & Hq & Hsh & Hw); [by eapply open_req|].
  destruct (ii_started _ _ (inv_io _ _ Hinv) io) as (i & c & Hi & Hok & _).
  { unfold started_ids. rewrite !elem_of_app. do 3 right. apply list_elem_of_omap. by exists r. }
  unfold shapes in Hsh. rewrite lookup_fmap, Hi in Hsh. injection Hsh as Ht Hst Hn.
  exists i, q. destruct Hw. by split_and!.
Qed.

(** A write of the base bdev, whether it succeeds or not. *)
Lemma sim_write s a a1 i q io p (data data' : Z → B) got' : inv [] (d_w s) → sim_data s a →
  io_ok (layout_of (w_ub (d_w s))) i → io_type i = SPDK_BDEV_IO_TYPE_WRITE →
  q_start q = io_offset_blocks i → q_num q = io_num_blocks i →
  (io_offset_blocks i < ub_image_block_count (w_ub (d_w s)) →
   block_status (w_ub (d_w s)) (io_offset_blocks i) = STRIPE_FETCHED) →
  (∀ ch c o, w_chs (d_w s) !! ch = Some c → SqeReadv io o ∉ ring_all (ch_ring c)) →
  a1 = mk_adisk (write_range (q_start q) (q_num q) data' (a_disk a)) (<[io := Some (with_progress p q)]> (a_reqs a)) →
  (∀ b, data' b = data (b + ub_data_offset_blocks (w_ub (d_w s)))) →
  sim_data (mk_dstate (d_w s) (write_range (io_offset_blocks i + ub_data_offset_blocks (w_ub (d_w s)))
    (io_num_blocks i) data (d_base s)) (d_buf s) got') a1.
Proof.
  intros Hinv [Hdisk Hsnap] Hok Ht Hqs Hqn Hf Hno -> Hdata. split; simpl.
  - intros b Hb. rewrite (logical_write _ i) by first [done|exact (inv_layout _ _ Hinv)|tauto]. rewrite Hqs, Hqn.
    unfold write_range. case_match; [apply Hdata|]. by apply Hdisk.
  - intros ch c io0 o Hc Hin. rewrite fn_lookup_insert_ne; [by eapply Hsnap|]. intros <-. by eapply Hno.
Qed.

(** A read of the base bdev takes the contents of the disk. *)
Lemma sim_read s a i b : inv [] (d_w s) → sim_data s a → io_ok (layout_of (w_ub (d_w s))) i →
  io_type i = SPDK_BDEV_IO_TYPE_READ →
  (io_offset_blocks i < ub_image_block_count (w_ub (d_w s)) →
   block_status (w_ub (d_w s)) (io_offset_blocks i) = STRIPE_FETCHED) →
  io_offset_blocks i ≤ b < io_offset_blocks i + io_num_blocks i →
  d_base s (b + ub_data_offset_blocks (w_ub (d_w s))) = a_disk a b.
Proof.
  intros Hinv [Hdisk _] Hok Ht Hf Hb.
  destruct (io_blocks _ i b (inv_layout _ _ Hinv) Hok ltac:(tauto) Hb) as (Hb0 & Hs & _).
  rewrite Hdisk by done. unfold logical.
  destruct (Z.ltb_spec b (ub_image_block_count (w_ub (d_w s)))); [|done].
  rewrite bool_decide_eq_true_2; [done|]. unfold block_status in *. rewrite Hs. apply Hf. lia.
Qed.

(** The effect of a completion that is not of a stripe write, and the answer
    to a read or a write. *)
Lemma sim_base s a r success junk : inv [] (d_w s) → sim s a → r ∈ reqs (d_w s) → swrite_of r = None →
  let ev := EvBase r success in
  let base' := base_effect (d_w s) ev junk (d_buf s) (d_base s) in
  let got' := got_effect (d_w s) ev junk (d_base s) (d_got s) in
  ∃ a1, arun a [] a1 ∧ sim_data (mk_dstate (d_w s) base' (d_buf s) got') a1 ∧
    (∀ io, rw_of r = Some io → ready (d_w s) got' a1 (io, status_of success)) ∧
    ∀ io, rw_of r ≠ Some io → a_reqs a1 io = a_reqs a io.
Proof.
  intros Hinv Hsim Hr Hns ev base' got'. pose proof Hsim as [Hdata Hopen].
  pose proof (po_req _ (ii_places _ _ (inv_io _ _ Hinv)) _ Hr) as Hok.
  assert (Hno : ∀ io, req_io r = Some io → ∀ ch c o, w_chs (d_w s) !! ch = Some c → SqeReadv io o ∉ ring_all (ch_ring c)).
  { intros io Hio ch c o Hc Hin. by eapply (ring_req_disjoint _ ch c io o r). }
  assert (Hrest : sim_data (mk_dstate (d_w s) (d_base s) (d_buf s) got') a) by (destruct Hdata; by split).
  destruct (rw_of r) as [io|] eqn:Hrw.
  2: { exists a. split; [constructor|]. split; [|done]. destruct r; try done; try exact Hrest. destruct Hok as (i & Hi & Ht & -> & ->).
    destruct Hdata as [Hdisk Hsnap]. split; simpl; [|done]. intros b Hb. unfold base'. simpl. rewrite logical_below by lia. by apply Hdisk. }
  destruct (base_entry s a r io Hinv Hsim Hr Hrw) as (i & q & Hi & Hiok & Hq & Hqt & Hqs & Hqn & Hqw & Hqp).
  assert (Hsh : shapes (d_w s) !! io = Some (shape i)) by (unfold shapes; by rewrite lookup_fmap, Hi).
  destruct r as [|io' start num opts|io' start num opts| | |]; try done; injection Hrw as ->; simpl in Hok.
  - destruct Hok as (i' & Hi' & Ht & -> & -> & Hf). assert (i' = i) as -> by congruence. destruct success.
    + exists (mk_adisk (a_disk a) (λ io', if bool_decide (io' = io) then look (a_disk a) <$> a_reqs a io' else a_reqs a io')).
      split_and!.
      * apply (arun_one _ [] _ (as_look a (λ io', bool_decide (io' = io)))).
      * destruct Hdata as [Hdisk Hsnap]. split; simpl; [done|]. intros ch c io0 o Hc Hin.
        rewrite bool_decide_eq_false_2; [by eapply Hsnap|]. intros ->. by eapply (Hno io eq_refl).
      * intros io' [= <-]. exists (look (a_disk a) q). cbn [a_reqs fst]. rewrite bool_decide_eq_true_2, Hq by done.
        split; [done|]. unfold look. rewrite Hqt, Ht. cbn [may_answer status_of snd with_progress q_type q_start q_num q_progress].
        rewrite Hqt, Ht. exists (a_disk a). split; [done|]. unfold answer_data. rewrite Hsh. unfold shape. rewrite Ht.
        unfold got'. cbn [got_effect ev]. rewrite decide_True by done. rewrite Hqs, Hqn, <-(Z.add_0_r (io_offset_blocks i)), <-fmap_add_seqZ.
        rewrite <-list_fmap_compose. apply list_fmap_ext. intros k j Hj. apply list_elem_of_lookup_2, elem_of_seqZ in Hj.
        cbn. rewrite <-(sim_read s a i (io_offset_blocks i + j)) by (done || lia). f_equal. lia.
      * intros io' Hne. cbn [a_reqs]. rewrite bool_decide_eq_false_2; [done|]. congruence.
    + exists a. split_and!; [constructor|done| |done]. intros io' [= <-]. by exists q.
  - destruct Hok as (i' & Hi' & Ht & -> & -> & Hf). assert (i' = i) as -> by congruence.
    assert (Hqt' : q_type q = SPDK_BDEV_IO_TYPE_WRITE) by congruence.
    destruct success; [pose proof (as_write a io q Hq Hqt' (Hqp Hqt')) as Hs
      |pose proof (as_spoil a io q (λ b, junk (b + ub_data_offset_blocks (w_ub (d_w s)))) Hq Hqt' (Hqp Hqt')) as Hs];
      (eexists; split_and!; [exact (arun_one _ _ _ Hs)| | |by intros io' Hne; cbn [a_reqs]; rewrite fn_lookup_insert_ne by congruence]).
    1,3: eapply sim_write; try done; first [by apply Hno|intros b; simpl; by rewrite ?Z.add_simpl_r].
    all: intros io' [= <-]; eexists; cbn [a_reqs fst]; rewrite fn_lookup_insert; split; [done|].
    all: cbn [may_answer status_of snd with_progress q_type q_progress]; by rewrite ?Hqt'.
Qed.

(** The fetch of a stripe completes: its blocks keep their values. *)
Lemma logical_fetched u u' base buf k o n b : layout_ok (layout_of u) → image_stripe (layout_of u) k →
  statics u' = statics u → ub_stripe_status u' = <[k := STRIPE_FETCHED]> (ub_stripe_status u) →
  ub_stripe_status u k = STRIPE_INFLIGHT →
  ub_image_block_count u `mod` ub_stripe_block_count u = 0 →
  o = fetch_offset (layout_of u) k + UBI_METADATA_SIZE → n = fetch_bytes (layout_of u) →
  (∀ j, 0 ≤ j < ub_stripe_block_count u →
    buf j = image ((o - UBI_METADATA_SIZE) `div` bd_blocklen (ub_bdev u) + j)) → 0 ≤ b →
  let start := o `div` bd_blocklen (ub_bdev u) in
  logical u' (write_range start (n `div` bd_blocklen (ub_bdev u)) (λ b, buf (b - start)) base) b =
  logical u base b.
Proof.
  intros Hl [Hk0 Hkimg] Hs Hst Hin Hal -> -> Hbuf Hb start.
  pose proof Hl as ([Hbl _ Hsh Hsbc Hbytes Hd _] & _). simpl in *.
  set (bl := bd_blocklen (ub_bdev u)) in *. set (sbc := ub_stripe_block_count u) in *.
  assert (Hpos : 0 < sbc) by (rewrite Hsbc; apply Z.pow_pos_nonneg; lia).
  assert (Hstart : start = ub_data_offset_blocks u + k * sbc).
  { unfold start, fetch_offset. simpl. rewrite <-Hd, <-Hbytes.
    replace (sbc * bl * k + ub_data_offset_blocks u * bl) with ((ub_data_offset_blocks u + k * sbc) * bl) by lia.
    apply Z.div_mul. lia. }
  assert (Hn : fetch_bytes (layout_of u) `div` bl = sbc).
  { unfold fetch_bytes. simpl. rewrite <-Hbytes. apply Z.div_mul. lia. }
  assert (Hoff : (fetch_offset (layout_of u) k + UBI_METADATA_SIZE - UBI_METADATA_SIZE) `div` bl = k * sbc).
  { rewrite Z.add_simpl_r. unfold fetch_offset. simpl. rewrite <-Hbytes.
    replace (sbc * bl * k) with (k * sbc * bl) by lia. apply Z.div_mul. lia. }
  rewrite Hoff in Hbuf. rewrite Hn.
  destruct (statics_fields _ _ Hs) as (_ & _ & _ & _ & Hd' & Himg' & _).
  pose proof (stripe_of_statics u u' b Hs) as Hsof.
  unfold logical, block_status. rewrite Himg', Hd', Hsof, Hst.
  pose proof (stripe_of_div u b Hl) as Hdiv. fold sbc in Hdiv.
  pose proof (Z.mul_div_le b sbc Hpos). pose proof (Z.mul_succ_div_gt b sbc Hpos).
  rewrite Hdiv in *. destruct (decide (b `div` sbc = k)) as [Hbk|Hne].
  - pose proof (Z.div_mod (ub_image_block_count u) sbc ltac:(lia)) as Hq. rewrite Hal in Hq.
    set (q := ub_image_block_count u `div` sbc) in *. assert (k < q) by nia.
    rewrite (proj2 (Z.ltb_lt b _)) by nia. rewrite Hbk, Hin, fn_lookup_insert.
    cbn [bool_decide decide decide_rel stripe_status_eq_dec negb andb].
    rewrite bool_decide_eq_true_2, bool_decide_eq_false_2 by done. cbn [negb andb].
    unfold write_range. rewrite (proj2 (Z.leb_le _ _)), (proj2 (Z.ltb_lt _ _)) by nia. cbn [andb].
    rewrite Hbuf by nia. f_equal. lia.
  - rewrite fn_lookup_insert_ne by done. case_match; [done|]. unfold write_range.
    destruct (Z.leb_spec start (b + ub_data_offset_blocks u)),
      (Z.ltb_spec (b + ub_data_offset_blocks u) (start + sbc)); try done.
    exfalso. apply Hne. nia.
Qed.
End Disk.

(** * The refinement *)

Section Refinement.
Context {B : Type} (image : Z → B) (payload : Z → Z → B) (meta : ubi_metadata → Z → B).
Notation dnext := (dnext image payload meta).
Notation dinv := (dinv image).
Notation sim_data := (sim_data image).
Notation sim := (sim image).
Notation arun := (arun payload).

(** A request moved from the outstanding ones to its callback. *)
Lemma moved_data s a r l base' got' : dinv s → remove_one r (w_pend (d_w s)) = Some l →
  r ∈ w_pend (d_w s) → (∀ io, rw_of r ≠ Some io → got' io = d_got s io) →
  let w1 := with_fin (r :: w_fin (d_w s)) (with_pend l (d_w s)) in
  let s1 := mk_dstate w1 base' (d_buf s) got' in
  inv [] w1 ∧ rtc fstep (fview_of (d_w s)) (fview_of w1) ∧ dinv s1 ∧
  (sim_data (mk_dstate (d_w s) base' (d_buf s) got') a → sim_data s1 a).
Proof.
  intros Hd Hrm Hin Hgot w1 s1. destruct (remove_one_perm r _ Hin) as (l' & Hrm' & Hperm).
  assert (l' = l) as -> by congruence.
  destruct Hd as [Hinv Hal Hcq Hw Hold].
  destruct (base_done_spec (d_w s) r l Hinv Hperm) as (Hinv1 & Hf & _).
  assert (Hreqs : ∀ x, x ∈ reqs w1 → x ∈ reqs (d_w s)).
  { intros x. unfold reqs, w1; simpl. rewrite Hperm, elem_of_cons, !elem_of_app, elem_of_cons. tauto. }
  split_and!; [done|done| |].
  - split; simpl; [done|done|done| |].
    + intros ch slot o n Hx. apply (Hw ch slot o n). by apply Hreqs.
    + intros ch c io o res sh j Hc Hq Hres Hsh Hj. rewrite Hgot; [by eapply Hold|]. intros Hrw.
      apply (ring_req_disjoint (d_w s) ch c io o r Hinv Hc); [|unfold reqs; apply elem_of_app; by right|by destruct r].
      unfold ring_all. rewrite !elem_of_app. left. apply list_elem_of_fmap. by exists (SqeReadv io o, res).
  - intros [Hdisk Hsnap]. by split.
Qed.

(** The callback of a stripe write. *)
Lemma sim_stripe_write s a ch slot o n E junk w' l : dinv s → sim_data s a →
  RqStripeWrite ch slot o n ∈ w_pend (d_w s) → w_fin (d_w s) = [] →
  remove_one (RqStripeWrite ch slot o n) (w_pend (d_w s)) = Some l →
  let w1 := with_fin (RqStripeWrite ch slot o n :: w_fin (d_w s)) (with_pend l (d_w s)) in
  callback (E := E) (RqStripeWrite ch slot o n) true w1 = Done tt w' → shapes w' = shapes (d_w s) →
  let s' := dnext s (EvBase (RqStripeWrite ch slot o n) true) junk w' in
  sim_data s' a ∧ dinv s'.
Proof.
  intros Hd Hsim Hin Hfin Hrm w1 Hcb Hsh s'.
  destruct (moved_data s a _ l (d_base s) (d_got s) Hd Hrm Hin) as (Hinv1 & Hf1 & Hd1 & Hs1); [done|].
  assert (Hfin1 : w_fin w1 = [RqStripeWrite ch slot o n]) by (unfold w1; simpl; by rewrite Hfin).
  pose proof (write_stripe_spec [] w1 ch slot o n [] true Hinv1 Hfin1) as Hwp.
  unfold wp in Hwp. simpl in Hcb. rewrite Hcb in Hwp.
  destruct Hwp as ([Hinv' [_ Hstat [_ Hcalm]] _] & k & Hk & Hkin & Ho & Hn & Hst & Hcv).
  pose proof (inv_layout _ _ Hinv1) as Hl. pose proof Hd as [Hinv Hal Hcq Hw _].
  split.
  - destruct (Hs1 ltac:(destruct s; exact Hsim)) as [Hdisk Hsnap]. split; simpl in *.
    + intros b Hb. rewrite Hdisk by done. symmetry. apply (logical_fetched image (w_ub (d_w s)) (w_ub w')
        (d_base s) (d_buf s ch slot) k o n b Hl Hk Hstat Hst Hkin Hal Ho Hn); [|done].
      apply (Hw ch slot o n). unfold reqs. apply elem_of_app. by right.
    + intros ch0 c0 io o0 Hc0 Hr0. destruct (cview_lookup w1 w' ch0 c0 Hcv Hc0) as (c1 & Hc1 & [= _ _ Heq]).
      destruct (Hsnap ch0 c1 io o0 Hc1) as (q & d & Hq & Hd0 & Himg).
      { rewrite readv_pair_elem, <-Heq. by rewrite <-readv_pair_elem. }
      exists q, d. split; [done|]. split; [done|]. destruct (statics_fields _ _ Hstat) as (_ & _ & _ & _ & _ & Hi' & Hb').
      unfold blen. simpl in *. rewrite Hi', Hb'. intros b Hb. rewrite !(stripe_of_statics _ _ _ Hstat).
      by apply Himg.
  - apply (dinv_calm image (mk_dstate w1 (d_base s) (d_buf s) (d_got s)) w'); try done. intros io _. exact (f_equal (.!! io) Hsh).
Qed.

(** What an answer rests on, for every event but a read or write of the base
    bdev. *)
Lemma event_ready s a E ev w' junk : dinv s → sim_data s a → enabled (d_w s) ev →
  match ev with EvBase r _ => rw_of r = None | _ => True end →
  run_event (E := E) ev (d_w s) = Done tt w' →
  (∀ io, io ∈ open_ids (d_w s) → shapes w' !! io = shapes (d_w s) !! io) →
  ∀ io st, (io, st) ∈ new_done (d_w s) w' → entry w' a io →
  ready w' (d_got (dnext s ev junk w')) a (io, st).
Proof.
  intros Hd Hsim Hen Hrw Hrun Hkept io st Hin Hent. pose proof (di_inv _ _ Hd) as Hinv.
  destruct st; [|by apply entry_ready].
  destruct (event_answers ev (d_w s) w' Hrun) as (_ & _ & Hans).
  destruct (Hans io Hin) as [Hsucc|Hf]; [|by apply entry_ready].
  destruct ev as [|ch| |r success| | |]; try done.
  - destruct Hsucc as (c & o & res & Hc & Hq & Hres).
    change (ready w' (d_got s) a (io, SPDK_BDEV_IO_STATUS_SUCCESS)). eapply image_ready; try done.
    apply Hkept. by eapply open_cq.
  - destruct success; [|done]. apply entry_ready; [done|]. intros _. simpl in Hsucc.
    assert (Hr : r ∈ reqs (d_w s)) by (unfold reqs; apply elem_of_app; by right).
    pose proof (po_req _ (ii_places _ _ (inv_io _ _ Hinv)) _ Hr) as Hok.
    assert (Hio : is_flush (d_w s) io).
    { destruct r; try done; injection Hsucc as ->; destruct Hok as (i & Hi & Ht & _); by exists i. }
    destruct Hio as (i & Hi & Ht). pose proof (Hkept io (open_req _ _ _ Hr Hsucc)) as Hsh. unfold shapes in Hsh.
    rewrite !lookup_fmap, Hi in Hsh. destruct (w_ios w' !! io) as [i'|] eqn:Hi'; [|done].
    injection Hsh as Ht' _ _. exists i'. split; [done|]. by rewrite Ht'.
Qed.

Lemma entry_kept w w' (a a' : adisk (B := B)) io : entry w a io → shapes w' !! io = shapes w !! io → a_reqs a' io = a_reqs a io →
  entry w' a' io.
Proof. unfold entry. intros (q & ? & ? & ?) -> ->. by exists q. Qed.

Lemma ready_kept w w' got (a a' : adisk (B := B)) x : ready w got a x → shapes w' !! x.1 = shapes w !! x.1 →
  a_reqs a' x.1 = a_reqs a x.1 → ready w' got a' x.
Proof. unfold ready, answer_data. intros (q & ? & ?) -> ->. by exists q. Qed.

(** The request that an event submits arrives at the specification. *)
Lemma sim_arrive s a E ev w' : dinv s → sim s a → env_ok E → enabled (d_w s) ev →
  run_event (E := E) ev (d_w s) = Done tt w' →
  ∃ a0, arun a (arrivals ev) a0 ∧ sim_data s a0 ∧ (submitted [ev] = [] → a0 = a) ∧
    ∀ io, io ∈ submitted [ev] ++ open_ids (d_w s) → entry w' a0 io.
Proof.
  intros Hd [Hdata Hopen] HE Hen Hrun. pose proof (di_inv _ _ Hd) as Hinv.
  destruct (event_answers ev (d_w s) w' Hrun) as (_ & Hsh & _).
  destruct (event_ids ev (d_w s) w' Hinv Hen Hrun) as (Hnd & _).
  destruct ev as [ch io i| | | | | |];
    try by (exists a; split; [constructor|]; split_and!; [done|done|];
            intros io1 Hio; apply (entry_kept (d_w s) _ a); [by apply Hopen|by rewrite Hsh|done]).
  eexists. split; [apply arun_one, as_arrive|]. split; [apply sim_submit; [done|done|apply Hen]|]. split; [done|].
  intros io' Hio. simpl in Hnd. apply NoDup_cons in Hnd as [Hni _].
  destruct (decide (io' = io)) as [->|Hne].
  - eexists. cbn [a_reqs]. rewrite fn_lookup_insert. split; [done|]. rewrite Hsh, lookup_insert_eq. by split_and!.
  - simpl in Hio. apply elem_of_cons in Hio as [?|Hio]; [done|]. apply (entry_kept (d_w s) _ a); [by apply Hopen| |].
    + by rewrite Hsh, lookup_insert_ne.
    + cbn [a_reqs]. by rewrite fn_lookup_insert_ne.
Qed.

(** A state of the module and of the specification before the answers [l]. *)
Record sim_before (s : dstate) (a : adisk) (l : list (Z * spdk_bdev_io_status)) : Prop := {
  sb_data : sim_data s a;
  sb_inv : dinv s;
  sb_open io : io ∈ open_ids (d_w s) → entry (d_w s) a io ∧ io ∉ l.*1;
  sb_ready x : x ∈ l → ready (d_w s) (d_got s) a x
}.

(** Handlers that only move requests: reads whose stripe is not fetched look. *)
Lemma sim_before_calm s a w' l : dinv s → sim_data s a → inv [] w' → statics (w_ub w') = statics (w_ub (d_w s)) →
  rtc fstep (fview_of (d_w s)) (fview_of w') → calm (d_w s) w' → no_swrite (d_w s) → kept (d_w s) w' →
  (∀ io, io ∈ open_ids w' → entry w' a io ∧ io ∉ l.*1) → (∀ x, x ∈ l → ready w' (d_got s) a x) →
  ∃ a', arun a [] a' ∧ sim_before (mk_dstate w' (d_base s) (d_buf s) (d_got s)) a' l.
Proof.
  intros Hd Hsim Hinv' Hs Hf Hc Hn Hk Hopen Hr. exists (looks w' a).
  split; [apply (arun_one _ _ [] _ (as_look _ a (unfetched_read w')))|]. split.
  - apply sim_calm; try done. intros io Hio. by apply Hopen.
  - by apply dinv_calm.
  - intros io Hio. split; [apply entry_looks|]; by apply Hopen.
  - intros x Hx. apply ready_looks; [|by apply Hr]. intros Hin. apply (proj2 (Hopen _ Hin)).
    apply list_elem_of_fmap. by exists x.
Qed.

(** The completion of a request of the base bdev. *)
Lemma sim_before_base s a E r success w' junk : dinv s → w_fin (d_w s) = [] → sim s a → env_ok E →
  let ev := EvBase r success in
  enabled (d_w s) ev → faithful (d_w s) ev → run_event (E := E) ev (d_w s) = Done tt w' →
  (∀ io, io ∈ open_ids w' → io ∈ open_ids (d_w s) ∧ io ∉ (new_done (d_w s) w').*1) →
  (∀ io, io ∈ (new_done (d_w s) w').*1 → io ∈ open_ids (d_w s)) →
  ∃ a', arun a [] a' ∧ sim_before (dnext s ev junk w') a' (new_done (d_w s) w') ∧ w_fin w' = [].
Proof.
  intros Hd Hfin Hsim HE ev Hen Hfaith Hrun Hop Hnew. pose proof (di_inv _ _ Hd) as Hinv.
  destruct (event_answers ev (d_w s) w' Hrun) as (_ & Hsh & _).
  pose proof (step_spec (d_w s) ev Hinv Hen) as Hwp. unfold wp in Hwp. rewrite Hrun in Hwp.
  destruct Hwp as [Hinv' Hf Hstat _ _ Hcalm]. destruct Hcalm as (l & Hrm & Hcalm). set (w1 := with_fin _ _) in Hcalm.
  assert (Hcb : callback (E := E) r success w1 = Done tt w') by exact (base_event_done _ _ _ _ _ Hrm Hrun).
  assert (Hfin' : w_fin w' = []).
  { eapply callback_fin; [|exact Hcb]. unfold w1; simpl. by rewrite Hfin. }
  assert (Hk : ∀ io, shapes w' !! io = shapes (d_w s) !! io) by (intros io; by rewrite Hsh).
  assert (Hent : ∀ io, io ∈ open_ids (d_w s) → entry w' a io).
  { intros io Hio. apply (entry_kept (d_w s) _ a); [by apply Hsim|apply Hk|done]. }
  assert (Hready : rw_of r = None → ∀ x, x ∈ new_done (d_w s) w' → ready w' (d_got (dnext s ev junk w')) a x).
  { intros Hrw [io st] Hx. eapply event_ready; try done; [by apply Hsim|]. apply Hent, Hnew.
    apply list_elem_of_fmap. by exists (io, st). }
  destruct (swrite_of r) as [x|] eqn:Hsw.
  { destruct r as [ch slot o n| | | | |]; try done. simpl in Hfaith. subst success.
    destruct (sim_stripe_write s a ch slot o n E junk w' l) as [Hs' Hd']; try done; [by apply Hsim|].
    exists a. split_and!; [constructor| |done]. split; [done|done| |by apply Hready].
    intros io Hio. destruct (Hop io Hio). split; [by apply Hent|done]. }
  destruct (sim_base image payload meta s a r success junk Hinv Hsim) as (a1 & Ha1 & Hs1 & Hrw & Hrest); [|done|].
  { unfold reqs. apply elem_of_app. by right. }
  destruct (moved_data s a1 r l (base_effect payload meta (d_w s) ev junk (d_buf s) (d_base s))
    (got_effect image (d_w s) ev junk (d_base s) (d_got s)) Hd Hrm Hen) as (Hinv1 & Hf1 & Hd1 & Hsim1).
  { intros io Hne. destruct r; try done. cbn. rewrite decide_False; [done|]. intros ->. by apply Hne. }
  assert (Hans : ∀ io, rw_of r = Some io → new_done (d_w s) w' = [(io, status_of success)])
    by (intros io Hio; by eapply rw_answer).
  destruct (sim_before_calm _ a1 w' (new_done (d_w s) w') Hd1 (Hsim1 Hs1) Hinv') as (a' & Ha' & Hb); try done.
  - pose proof (callback_spec w1 r success Hinv1 (ex_intro _ _ eq_refl)) as Hw. unfold wp in Hw.
    rewrite Hcb in Hw. destruct Hw as (_ & [Hf' _ _] & _). exact Hf'.
  - unfold no_swrite. simpl. rewrite Hfin. simpl. by rewrite Hsw.
  - intros io _. apply Hk.
  - intros io Hio. destruct (Hop io Hio) as [Hio' Hni]. split; [|done].
    apply (entry_kept (d_w s) _ a); [by apply Hsim|apply Hk|]. apply Hrest. intros Hio0.
    apply Hni. rewrite (Hans io Hio0). left.
  - intros x Hx. destruct (rw_of r) as [io|] eqn:Hr.
    + rewrite (Hans io eq_refl) in Hx. apply list_elem_of_singleton in Hx as ->.
      eapply ready_kept; [by apply Hrw|apply Hk|done].
    + eapply (ready_kept w'); [by apply Hready|done|by apply Hrest].
  - exists a'. split_and!; [|exact Hb|done]. exact (arun_app _ _ _ _ _ _ Ha1 Ha').
Qed.

Lemma dsim_step s a E ev junk w' : dinv s → w_fin (d_w s) = [] → sim s a → env_ok E →
  enabled (d_w s) ev → faithful (d_w s) ev → run_event (E := E) ev (d_w s) = Done tt w' →
  let s' := dnext s ev junk w' in
  ∃ a', arun a (observe (d_w s) ev w' (d_got s')) a' ∧ sim s' a' ∧ dinv s' ∧ w_fin w' = [].
Proof.
  intros Hd Hfin Hsim HE Hen Hfaith Hrun s'. pose proof (di_inv _ _ Hd) as Hinv.
  destruct (event_answers ev (d_w s) w' Hrun) as (_ & Hsh & _).
  destruct (event_ids ev (d_w s) w' Hinv Hen Hrun) as (Hnd & lost & Hids).
  assert (Hnd' := Hnd). rewrite <-Hids in Hnd'. apply NoDup_app in Hnd' as (_ & _ & Hnd').
  apply NoDup_app in Hnd' as (_ & Hdis & Hndn).
  assert (Hop : ∀ io, io ∈ open_ids w' → io ∈ submitted [ev] ++ open_ids (d_w s) ∧ io ∉ (new_done (d_w s) w').*1).
  { intros io Hio. split; [rewrite <-Hids, !elem_of_app; tauto|by apply Hdis]. }
  assert (Hnew : ∀ io, io ∈ (new_done (d_w s) w').*1 → io ∈ submitted [ev] ++ open_ids (d_w s)).
  { intros io Hio. rewrite <-Hids, !elem_of_app. tauto. }
  destruct (sim_arrive s a E ev w' Hd Hsim HE Hen Hrun) as (a0 & Ha0 & Hs0 & Hsame & Hent).
  assert (∃ a1, arun a0 [] a1 ∧ sim_before s' a1 (new_done (d_w s) w') ∧ w_fin w' = [])
    as (a1 & Ha1 & [Hs1 Hd1 Hopen Hready] & Hfin').
  2: { destruct (sim_finish image payload s' a1 (new_done (d_w s) w') Hs1 Hndn Hopen Hready) as (a' & Ha' & Hs').
    exists a'. split_and!; [|done|done|done]. unfold observe. eapply arun_app; [exact Ha0|].
    exact (arun_app _ _ _ _ _ _ Ha1 Ha'). }
  assert (Hk : kept (d_w s) w').
  { intros io Hio. rewrite Hsh. destruct ev as [ch io' i| | | | | |]; try done. simpl in Hnd.
    apply NoDup_cons in Hnd as [Hni _]. apply lookup_insert_ne. congruence. }
  assert (Hready : match ev with EvBase _ _ => False | _ => True end → ∀ x, x ∈ new_done (d_w s) w' → ready w' (d_got s') a0 x).
  { intros Hne [io st] Hx. eapply event_ready; try done; [by destruct ev|]. apply Hent, Hnew. apply list_elem_of_fmap. by exists (io, st). }
  assert (Hopen : ∀ io, io ∈ open_ids w' → entry w' a0 io ∧ io ∉ (new_done (d_w s) w').*1).
  { intros io Hio. destruct (Hop io Hio) as [Hin Hni]. split; [by apply Hent|done]. }
  pose proof (step_spec (d_w s) ev Hinv Hen) as Hwp. unfold wp in Hwp. rewrite Hrun in Hwp.
  destruct Hwp as [Hinv' Hf Hstat _ _ Hcalm].
  assert (Hquiet : calm (d_w s) w' → match ev with EvBase _ _ | EvImageRead _ _ _ => False | _ => True end →
    ∃ a1, arun a0 [] a1 ∧ sim_before s' a1 (new_done (d_w s) w') ∧ w_fin w' = []).
  { intros Hc Hne. destruct (sim_before_calm s a0 w' (new_done (d_w s) w')) as (a1 & Ha1 & Hb); try done.
    - unfold no_swrite. by rewrite Hfin.
    - intros x Hx. apply Hready in Hx; [|by destruct ev]. by destruct ev.
    - exists a1. split_and!; [done| |apply suffix_nil_inv; rewrite <-Hfin; apply Hc]. by destruct ev. }
  destruct ev as [ch io i|ch|ch e res|r success|io success|ch c|ch]; simpl in Hcalm.
  1, 2, 5: by apply Hquiet.
  - destruct Hcalm as (c & r & Hc & Hr & ->). destruct Hen as (c' & Hc' & Hin).
    assert (c' = c) as -> by congruence. exists a0. split_and!; [constructor| |done]. split; [| |done|by apply Hready].
    + by eapply sim_image_read.
    + by apply dinv_image_read.
  - rewrite (Hsame eq_refl). eapply sim_before_base; done.
  - subst w'. destruct Hen as [Hn Hc]. destruct (sim_chans image s a0 (set_ch ch c (d_w s)) Hd Hs0 Hinv') as [Hs' Hd']; try done.
    { intros ch0 c0 Hc0. simpl in Hc0. apply lookup_insert_Some in Hc0 as [[<- <-]|[_ ?]]; [left; by rewrite (fc_r _ Hc)|right; by exists c0]. }
    exists a0. split_and!; [constructor| |done]. split; [done|done|done|by apply Hready].
  - subst w'. destruct (sim_chans image s a0 (drop_ch ch (d_w s)) Hd Hs0 Hinv') as [Hs' Hd']; try done.
    { intros ch0 c0 Hc0. simpl in Hc0. apply lookup_delete_Some in Hc0 as [_ ?]. right. by exists c0. }
    exists a0. split_and!; [constructor| |done]. split; [done|done|done|by apply Hready].
Qed.

Lemma drun_sim s0 os s : initial (d_w s0) →
  ub_image_block_count (w_ub (d_w s0)) `mod` ub_stripe_block_count (w_ub (d_w s0)) = 0 →
  drun image payload meta faithful_step s0 os s →
  ∃ a, arun (mk_adisk (logical image (w_ub (d_w s0)) (d_base s0)) (λ _, None)) os a ∧
       sim s a ∧ dinv s ∧ w_fin (d_w s) = [].
Proof.
  intros Hw0 Hal Hrun. induction Hrun as [|os s E ev junk w' Hrun IH Hen [HE Hfa] Hstep].
  - exists (mk_adisk (logical image (w_ub (d_w s0)) (d_base s0)) (λ _, None)).
    destruct (init_lists _ Hw0) as (Hp & Hf & _ & _).
    assert (Hq : ∀ ch c e res, w_chs (d_w s0) !! ch = Some c → (e, res) ∉ ring_cq (ch_ring c)).
    { intros ch c e res Hc. rewrite (fc_r _ (init_chs _ Hw0 ch c Hc)). apply not_elem_of_nil. }
    split_and!; [constructor| | |done].
    + split; [split; [done|]|].
      * intros ch c io o Hc. rewrite (fc_r _ (init_chs _ Hw0 ch c Hc)). by intros ?%not_elem_of_nil.
      * intros io Hio. pose proof (initial_ids _ Hw0) as Hids. unfold ids in Hids. rewrite (assoc_L (++)) in Hids.
        apply app_eq_nil in Hids as [Hids _]. unfold open_ids in Hio. rewrite Hids in Hio. by apply not_elem_of_nil in Hio.
    + split; [by apply initial_inv|done| | |].
      * intros ch c slot n o res Hc Hin. by destruct (Hq _ _ _ _ Hc Hin).
      * unfold reqs. rewrite Hp, Hf. by intros ch slot o n ?%not_elem_of_nil.
      * intros ch c io o res sh j Hc Hin. by destruct (Hq _ _ _ _ Hc Hin).
  - destruct IH as (a & Ha & Hsim & Hd & Hfin).
    destruct (dsim_step s a E ev junk w' Hd Hfin Hsim HE Hen Hfa Hstep) as (a' & Ha' & Hsim' & Hd' & Hfin').
    exists a'. split_and!; [by eapply arun_app|done|done|done].
Qed.
End Refinement.

(** ** Executable runs *)

#[export] Instance faithful_dec w ev : Decision (faithful w ev).
Proof.
  destruct ev as [| |ch [slot n o|io o] res|r b| | |]; simpl; try apply _.
  - destruct (w_ios w !! io) as [i|].
    + destruct (decide (res < 0 ∨ res = io_num_blocks i * blen w)) as [H|H].
      * left. abstract (destruct H; eauto).
      * right. abstract (intros [?|(i' & [= <-] & ?)]; apply H; tauto).
    + destruct (decide (res < 0)) as [H|H]; [left|right].
      * abstract (by left).
      * abstract (by intros [?|(i & ? & _)]).
  - destruct r; apply _.
Defined.

Fixpoint drun_events {B} (image : Z → B) (payload : Z → Z → B) (meta : ubi_metadata → Z → B)
    {E : ext_env} (P : world → event → Prop) `{!∀ w ev, Decision (P w ev)} (tr : list event) (s : dstate)
    : option (list obs * dstate) :=
  match tr with
  | [] => Some ([], s)
  | ev :: tr' =>
      if decide (enabled (d_w s) ev ∧ P (d_w s) ev) then
        match run_event ev (d_w s) with
        | Done _ w' =>
            let s1 := dnext image payload meta s ev image w' in
            '(os, s') ← drun_events image payload meta P tr' s1;
            Some (observe (d_w s) ev w' (d_got s1) ++ os, s')
        | _ => None
        end
      else None
  end.

Lemma drun_events_sound {B} (image : Z → B) payload meta {E : ext_env} (P : world → event → Prop)
    `{!∀ w ev, Decision (P w ev)} (Q : ext_env → world → event → Prop) tr : (∀ w ev, P w ev → Q E w ev) → ∀ s0 os0 s os s',
  drun image payload meta Q s0 os0 s → drun_events image payload meta P tr s = Some (os, s') →
  drun image payload meta Q s0 (os0 ++ os) s'.
Proof.
  intros HPQ. induction tr as [|ev tr IH]; intros s0 os0 s os s' Hrun Hev; simpl in Hev.
  { simplify_eq. by rewrite app_nil_r. }
  destruct (decide _) as [[Hen Hfa]|]; [|done].
  destruct (run_event ev (d_w s)) as [[] w1| |] eqn:Hs; try done.
  destruct (drun_events _ _ _ _ tr _) as [[os1 s1]|] eqn:Hrec; [|done]. simpl in Hev. simplify_eq.
  rewrite app_assoc. eapply IH; [|exact Hrec]. by eapply drun_snoc; [..|apply HPQ|].
Qed.

(** * Property *)

(** C1. The module refines an atomic disk.  The disk starts with the blocks of
    the image where stripes are not fetched and those of the base bdev
    elsewhere.  What the callers see of a run, their submissions and the calls
    of [spdk_bdev_io_complete] with the data of reads, is what they may see of
    the disk: a read that is completed with success returns the contents of
    the disk at one moment between its arrival and its completion, a write
    changes exactly its blocks, at one moment before it is completed with
    success, a request that took effect is not failed, and every request is
    completed at most once; and at the end the module stores what the disk
    does, so fetching stripes, flushing and polling change nothing.  The
    image ends at a stripe boundary, and the environment is that of
    [faithful_step]: a submission with a stripe fetch succeeds, writes of
    stripes to the base bdev succeed, and reads of the image that do not fail
    are complete; reads and writes of requests may fail. *)
Theorem disk_refinement {B} (image : Z → B) (payload : Z → Z → B) (meta : ubi_metadata → Z → B)
    (s0 s : dstate) (os : list obs) :
  initial (d_w s0) →
  ub_image_block_count (w_ub (d_w s0)) `mod` ub_stripe_block_count (w_ub (d_w s0)) = 0 →
  drun image payload meta faithful_step s0 os s →
  ∃ a, arun payload (mk_adisk (logical image (w_ub (d_w s0)) (d_base s0)) (λ _, None)) os a ∧
       ∀ b, 0 ≤ b → a_disk a b = logical image (w_ub (d_w s)) (d_base s) b.
Proof.
  intros Hw0 Hal Hrun. destruct (drun_sim image payload meta s0 os s Hw0 Hal Hrun) as (a & Ha & Hs & _).
  exists a. split; [exact Ha|]. apply Hs.
Qed.

(** The run of [System.demo_trace]: block [b] of the image is [b], of the base
    bdev [-1], and write [io] carries [1000 * io + b] for block [b]. *)
Definition demo_image (b : Z) : Z := b.
Definition demo_payload (io b : Z) : Z := 1000 * io + b.
Definition demo_meta (m : ubi_metadata) (b : Z) : Z := 0.
Definition demo_dstate : dstate := mk_dstate demo_world (λ _, -1) (λ _ _ _, -2) (λ _ _, -3).
Definition demo_obs : list (obs (B := Z)) :=
  [ObArrive 10 SPDK_BDEV_IO_TYPE_WRITE 130 8; ObArrive 11 SPDK_BDEV_IO_TYPE_WRITE 3 1;
   ObArrive 12 SPDK_BDEV_IO_TYPE_READ 3 1; ObDone 11 SPDK_BDEV_IO_STATUS_SUCCESS [];
   ObDone 10 SPDK_BDEV_IO_STATUS_SUCCESS []; ObDone 12 SPDK_BDEV_IO_STATUS_SUCCESS [11003];
   ObArrive 13 SPDK_BDEV_IO_TYPE_FLUSH 0 4096].

Lemma disk_refinement_witness : ∃ s a,
  drun demo_image demo_payload demo_meta faithful_step demo_dstate demo_obs s ∧
  arun demo_payload (mk_adisk (logical demo_image demo_ubi (λ _, -1)) (λ _, None)) demo_obs a ∧
  a_disk a 3 = 11003 ∧ a_disk a 5 = 5 ∧ a_disk a 131 = 10131 ∧ a_disk a 200 = -1.
Proof.
  assert (Hobs : (λ p : list (obs (B := Z)) * dstate, (p.1, logical demo_image (w_ub (d_w p.2)) (d_base p.2) <$> [3; 5; 131; 200])) <$>
    drun_events demo_image demo_payload demo_meta (E := demo_env) faithful demo_trace demo_dstate =
    Some (demo_obs, [11003; 5; 10131; -1])) by by vm_compute.
  destruct (drun_events demo_image demo_payload demo_meta (E := demo_env) faithful demo_trace demo_dstate)
    as [[os s]|] eqn:Hrun; [|done].
  cbn -[logical] in Hobs. injection Hobs as -> H1 H2 H3 H4.
  pose proof (drun_events_sound demo_image demo_payload demo_meta faithful faithful_step demo_trace
    (λ w ev H, conj demo_env_ok H) demo_dstate [] demo_dstate demo_obs s (drun_nil _ _ _ _ _) Hrun) as Hd.
  rewrite app_nil_l in Hd.
  destruct (disk_refinement demo_image demo_payload demo_meta demo_dstate s demo_obs) as (a & Ha & Heq).
  - exact demo_initial.
  - by vm_compute.
  - exact Hd.
  - exists s, a. rewrite !Heq by lia. by split_and!.
Defined.
