(* ===== verification/Restart.v ===== *)
(** A restart: the contents of the disk that a bdev created from the base bdev
    presents, compared with the contents before. *)
From stdpp Require Import base tactics list gmap option numbers functions strings relations.
From Stdlib Require Import ZArith Lia.
From S2P Require Import Prelude Types World Layout FetchQueue Stripe Metadata Flush IoChannel Submit.
From S2P Require Import FetchProtocol IoInv Refine System Moves Books Persist Disk.

Local Open Scope Z_scope.

(** * Lemmas *)

(** Two bdevs of one geometry present the same block where they agree whether
    its stripe is fetched. *)
Lemma logical_agree {B} (image : Z → B) u u' base b :
  ub_stripe_shift u' = ub_stripe_shift u → ub_data_offset_blocks u' = ub_data_offset_blocks u →
  ub_image_block_count u' = ub_image_block_count u →
  (ub_stripe_status u' (stripe_of u b) = STRIPE_FETCHED ↔ block_status u b = STRIPE_FETCHED) →
  logical image u' base b = logical image u base b.
Proof.
  intros Hsh Hd Hi Hst. unfold logical, block_status in *.
  assert (stripe_of u' b = stripe_of u b) as -> by (unfold stripe_of; by rewrite Hsh).
  rewrite Hd, Hi, (bool_decide_ext _ _ Hst). done.
Qed.

(** The stripe of a block of the bdev has a header. *)
Lemma block_stripe_range u b : layout_ok (layout_of u) → 0 ≤ b < bd_blockcnt (ub_bdev u) →
  0 ≤ stripe_of u b < UBI_MAX_STRIPES.
Proof.
  intros Hl Hb. rewrite stripe_of_div by done. destruct Hl as ([_ _ Hsh Hsbc _ _ _] & _ & Hmax & _).
  simpl in *. assert (0 < ub_stripe_block_count u) by (rewrite Hsbc; apply Z.pow_pos_nonneg; lia).
  split; [apply Z.div_pos; lia|]. apply Z.div_lt_upper_bound; nia.
Qed.

(** What is reloaded is what the metadata on the base bdev list. *)
Lemma reload_all m u : metadata_current m → freshly_read u m →
  ∃ u1, ubi_load_metadata u = Some (0, u1) ∧ parameters u1 = parameters u ∧
    ∀ k, 0 ≤ k < UBI_MAX_STRIPES → ub_stripe_status u1 k = STRIPE_FETCHED ↔ listed m k.
Proof.
  intros Hc Hfr. destruct (reload_listed m u 0 Hc Hfr stripe_range_0) as (u1 & Hl & _). exists u1.
  split; [done|]. split; [by eapply load_metadata_parameters|]. intros k Hk.
  destruct (reload_listed m u k Hc Hfr Hk) as (u2 & Hl2 & Hst). assert (u2 = u1) as -> by congruence.
  rewrite Hst. by case_decide.
Qed.

(** * The property *)


Definition restarted : ubi_bdev :=
  with_metadata (λ _, p_disk one_flushed) (w_ub new_world).


