(* ===== verification/Crash.v ===== *)
(** A crash: the base bdev has a volatile write cache, and what a restart finds
    after a loss of power.

    A write that completed may still be in the cache; a flush that succeeds
    makes durable, for the blocks of its range, what had been written when it
    was submitted.  The state of the module is extended with the contents of
    the base bdev at every moment so far, and for every block, those of the
    metadata included, with a moment since which its contents may be what a
    crash leaves.  A write that is outstanding at the crash may have been
    performed as well. *)
From stdpp Require Import base tactics list gmap option numbers functions strings relations.
From Stdlib Require Import ZArith Lia.
From S2P Require Import Prelude Types World Layout FetchQueue Stripe Metadata Flush IoChannel Submit.
From S2P Require Import FetchProtocol IoInv Refine System Moves Books FlushData Disk Persist Restart.

Local Open Scope Z_scope.

#[local] Opaque fetched_count header_count listed_count.

Lemma parameters_layout u u1 : parameters u1 = parameters u → layout_of u1 = layout_of u.
Proof. intros H. injection H. intros. unfold layout_of. congruence. Qed.

Section Crash.
Context {B : Type} (image : Z → B) (payload : Z → Z → B) (meta : ubi_metadata → Z → B).

(** * Runs with a write cache *)

(** The module and the base bdev at one moment: the contents of its blocks, as
    a read returns them, and its metadata. *)
Record moment : Type := mk_moment { e_w : world; e_base : Z → B; e_disk : ubi_metadata }.

(** Moments are numbered by the events before them.  [c_since b]: a crash
    leaves block [b] of the base bdev, also one of the metadata, as it was at
    that moment or later; [c_mark r]: the moment the outstanding request [r]
    was submitted. *)
Record cstate : Type := mk_cstate {
  c_now : nat;
  c_at : nat → moment;
  c_buf : Z → nat → Z → B;
  c_snap : Z → ubi_metadata;
  c_since : Z → nat;
  c_mark : base_req → nat
}.

Definition c_cur (s : cstate) : moment := c_at s (c_now s).
Definition c_w (s : cstate) : world := e_w (c_cur s).
Definition c_p (s : cstate) : pstate := mk_pstate (c_w s) (e_disk (c_cur s)) (c_snap s).

(** A flush that succeeds covers what was written when it was submitted. *)
Definition since_after (s : cstate) (ev : event) (b : Z) : nat :=
  match ev with
  | EvBase (RqDataFlush io start num as r) true | EvBase (RqMetadataFlush io start num as r) true =>
      if (start <=? b) && (b <? start + num) then (c_since s b `max` c_mark s r)%nat else c_since s b
  | _ => c_since s b
  end.

(** The requests that stay outstanding keep the moment of their submission. *)
Definition stays (w : world) (ev : event) (r : base_req) : Prop := r ∈ w_pend w ∧ ∀ b, ev ≠ EvBase r b.
#[export] Instance stays_dec w ev r : Decision (stays w ev r).
Proof.
  destruct (decide (r ∈ w_pend w)) as [H|H]; [|right; abstract (by intros [? _])].
  destruct ev as [| | |r' b| | |]; try (left; abstract (by split)).
  destruct (decide (r' = r)) as [He|He]; [right; abstract (intros [_ Hn]; apply (Hn b); congruence)|left; abstract (split; [done|intros ? [= ? _]; congruence])].
Defined.
Definition mark_after (s : cstate) (ev : event) (r : base_req) : nat :=
  if decide (stays (c_w s) ev r) then c_mark s r else S (c_now s).

Definition cnext (s : cstate) (ev : event) (junk : Z → B) (w' : world) (m' : ubi_metadata) : cstate :=
  let base' := base_effect payload meta (c_w s) ev junk (c_buf s) (e_base (c_cur s)) in
  mk_cstate (S (c_now s)) (<[S (c_now s) := mk_moment w' base' m']> (c_at s))
    (buf_effect image (c_w s) ev (c_buf s)) (snap_after (c_p s) ev)
    (since_after s ev) (mark_after s ev).

(** Runs whose steps satisfy [Q]. *)
Inductive crun (Q : world → event → Prop) (s0 : cstate) : list event → cstate → Prop :=
| crun_nil : crun Q s0 [] s0
| crun_snoc tr s E ev junk w' m' :
    crun Q s0 tr s → env_ok E → enabled (c_w s) ev → Q (c_w s) ev → run_event (E := E) ev (c_w s) = Done tt w' →
    disk_after (c_p s) ev m' → serial_flushes w' → crun Q s0 (tr ++ [ev]) (cnext s ev junk w' m').

(** A bdev that was created from what the base bdev holds, which is durable. *)
Record cinitial (s : cstate) : Prop := {
  cn_initial : pinitial (c_p s);
  cn_now : c_now s = 0%nat;
  cn_since b : c_since s b = 0%nat
}.

(** * What a crash leaves *)

(** The contents of the base bdev when the outstanding request [r] is
    performed. *)
Definition landed (s : cstate) (r : base_req) : Z → B :=
  base_effect payload meta (c_w s) (EvBase r true) (e_base (c_cur s)) (c_buf s) (e_base (c_cur s)).

(** A block of the metadata is as it was at a moment since when it is durable,
    or as an outstanding metadata write leaves it.  A header is in the block of
    its first byte; the part in front of the headers is one unit, and as old as
    the oldest of its blocks may be. *)
Record crash (s : cstate) (m : ubi_metadata) (base : Z → B) : Prop := {
  cr_block b : (∃ t, (c_since s b ≤ t ≤ c_now s)%nat ∧ base b = e_base (c_at s t) b) ∨
    ∃ r, r ∈ w_pend (c_w s) ∧ base b = landed s r b;
  cr_header k : 0 ≤ k < UBI_MAX_STRIPES →
    (∃ t, (c_since s (header_off k `div` blen (c_w s)) ≤ t ≤ c_now s)%nat ∧
       md_stripe_headers m k = md_stripe_headers (e_disk (c_at s t)) k) ∨
    ∃ io st n, RqMetadataWrite io st n ∈ w_pend (c_w s) ∧ covers_header (blen (c_w s)) st n k ∧
      (md_stripe_headers m k = md_stripe_headers (c_snap s io) k ∨
       md_stripe_headers m k = md_stripe_headers (ub_metadata (w_ub (c_w s))) k);
  cr_fixed : (∃ b t, 0 ≤ b ∧ b * blen (c_w s) < OFF_stripe_headers ∧ (c_since s b ≤ t ≤ c_now s)%nat ∧
      fixed_part m = fixed_part (e_disk (c_at s t))) ∨
    ∃ io st n, RqMetadataWrite io st n ∈ w_pend (c_w s) ∧ covers_fixed (blen (c_w s)) st n ∧
      fixed_part m = fixed_part (ub_metadata (w_ub (c_w s)))
}.

(** The contents of the ubi bdev at a moment, and those it has when an
    outstanding request is performed. *)
Definition contents (s : cstate) (t : nat) (b : Z) : B :=
  logical image (w_ub (e_w (c_at s t))) (e_base (c_at s t)) b.
Definition contents_with (s : cstate) (r : base_req) (b : Z) : B :=
  logical image (w_ub (c_w s)) (landed s r) b.

(** [v] is what block [b] held at some moment between [s1] and [s2], or what
    a request outstanding in [s2] gives it. *)
Definition held_since (s1 s2 : cstate) (b : Z) (v : B) : Prop :=
  (∃ t, (c_now s1 ≤ t ≤ c_now s2)%nat ∧ v = contents s2 t b) ∨
  ∃ r, r ∈ w_pend (c_w s2) ∧ v = contents_with s2 r b.

(** * The invariant *)

(** Time only adds: stripes become fetched and listed, and the parameters stay. *)
Record later (e e' : moment) : Prop := {
  lt_listed : list_le (e_disk e) (e_disk e');
  lt_current : metadata_current (e_disk e) → metadata_current (e_disk e');
  lt_fetched k : ub_stripe_status (w_ub (e_w e)) k = STRIPE_FETCHED → ub_stripe_status (w_ub (e_w e')) k = STRIPE_FETCHED;
  lt_statics : statics (w_ub (e_w e')) = statics (w_ub (e_w e))
}.

#[local] Instance later_preorder : PreOrder later.
Proof.
  split; [by split|]. intros e1 e2 e3 [A1 B1 C1 D1] [A2 B2 C2 D2]. split; [by transitivity (e_disk e2)|auto..|congruence].
Qed.

(** All the metadata on the base bdev are durable as they were at [t], or later. *)
Definition durable_at (s : cstate) (t : nat) : Prop :=
  (t ≤ c_now s)%nat ∧ ∀ b, 0 ≤ b < ub_data_offset_blocks (w_ub (c_w s)) → (t ≤ c_since s b)%nat.

Record cinv (s : cstate) : Prop := {
  ci_p : pinv (c_p s);
  ci_serial : serial_flushes (c_w s);
  ci_log t t' : (t ≤ t' ≤ c_now s)%nat → later (c_at s t) (c_at s t');
  ci_since b : (c_since s b ≤ c_now s)%nat;
  ci_mark r : r ∈ w_pend (c_w s) → (c_mark s r ≤ c_now s)%nat;
  ci_durable : ∃ t, durable_at s t ∧ ub_stripes_flushed (w_ub (c_w s)) ≤ listed_count (e_disk (c_at s t)) ∧
    (metadata_current (e_disk (c_at s t)) ∨ ub_stripes_flushed (w_ub (c_w s)) = 0);
  ci_mflush io st n i : mreq (c_w s) (RqMetadataFlush io st n) → w_ios (c_w s) !! io = Some i →
    let m := e_disk (c_at s (c_mark s (RqMetadataFlush io st n))) in
    uio_stripes_fetched (io_driver_ctx i) ≤ listed_count m ∧ metadata_current m
}.

Lemma cinitial_cinv s : cinitial s → cinv s.
Proof.
  intros [Hp Hn Hs]. pose proof (pinitial_pinv _ Hp) as Hpi.
  destruct (init_lists _ (pn_initial _ Hp)) as (Hpend & _). change (p_w (c_p s)) with (c_w s) in Hpend.
  split.
  - exact Hpi.
  - intros io st n io' st' n'. rewrite Hpend. by intros ?%not_elem_of_nil.
  - intros t t' Ht. assert (t = t') as -> by lia. done.
  - intros b. rewrite Hs. lia.
  - intros r. rewrite Hpend. by intros ?%not_elem_of_nil.
  - exists (c_now s). split; [split; [lia|intros b _; rewrite Hs; lia]|].
    split; [exact (pv_flushed _ Hpi)|exact (pv_disk _ Hpi)].
  - intros io st n i Hr. by apply no_mreq in Hr.
Qed.

Lemma next_cur s ev junk w' m' : c_cur (cnext s ev junk w' m') =
  mk_moment w' (base_effect payload meta (c_w s) ev junk (c_buf s) (e_base (c_cur s))) m'.
Proof. unfold c_cur. cbn. apply fn_lookup_insert. Qed.
Lemma next_at s ev junk w' m' t : (t ≤ c_now s)%nat → c_at (cnext s ev junk w' m') t = c_at s t.
Proof. intros Ht. cbn. apply fn_lookup_insert_ne. lia. Qed.
Lemma next_p s ev junk w' m' : c_p (cnext s ev junk w' m') = mk_pstate w' m' (snap_after (c_p s) ev).
Proof. unfold c_p, c_w. by rewrite next_cur. Qed.
Lemma next_w s ev junk w' m' : c_w (cnext s ev junk w' m') = w'.
Proof. unfold c_w. by rewrite next_cur. Qed.

(** ** Steps *)

(** The metadata on the base bdev grow. *)
Lemma disk_step s ev w' m' : pinv s → bstep ev (p_w s) w' → disk_after s ev m' →
  list_le (p_disk s) m' ∧ (metadata_current (p_disk s) → metadata_current m').
Proof.
  intros Hp Hb Hd. inversion Hb as [ev0 w0 w1 _ _ _ _ Hne _|ch slot o n b k w0 w1 _ _ _ _ _ _
    |io st n w0 w1 _ _ _ _ _|io st n i w0 w1 _ _ _ _ _ _|io st n b w0 w1 _ _ Hin _ _|io st n i w0 w1 _ _ _ _ _ _]; subst;
    try (cbn in Hd; by subst m').
  - assert (m' = p_disk s) as ->; [|done]. destruct ev as [| | |[] []| | |]; try exact Hd; exfalso; by eapply Hne.
  - destruct (disk_after_le s io st n b m' Hp Hin Hd) as (? & _ & ? & _). done.
Qed.

(** A flush of the metadata keeps the counter it was submitted with. *)
Lemma bstep_mflush ev w w' io st n i' : bstep ev w w' → mreq w (RqMetadataFlush io st n) → w_ios w' !! io = Some i' →
  ∃ i, w_ios w !! io = Some i ∧ uio_stripes_fetched (io_driver_ctx i') = uio_stripes_fetched (io_driver_ctx i).
Proof.
  intros Hb Hr. assert (Hin : io ∈ ids [] w) by by eapply mreq_ids.
  destruct Hb as [ev w w' _ _ Hios _ _ _|ch slot o m b k w w' _ _ _ Hios _ _|io' st' m w w' _ _ Hios _ _
    |io' st' m i w w' _ Hi Hfree Hios _ _|io' st' m b w w' _ Hios _ _ _|io' st' m i w w' _ _ _ Hios _ _];
    try (rewrite Hios; by exists i').
  - intros Hi'. destruct (Hios io i' Hin Hi') as (i & Hi & Hb). exists i. split; [done|]. unfold io_book in Hb. congruence.
  - rewrite Hios, lookup_insert_ne; [by exists i'|]. intros ->. by apply (Hfree _ Hr).
Qed.

(** The counter of flushed stripes grows only when the metadata are flushed. *)
Lemma bstep_flushed ev w w' : bstep ev w w' → ub_stripes_flushed (w_ub w') = ub_stripes_flushed (w_ub w) ∨
  ∃ io st n i, ev = EvBase (RqMetadataFlush io st n) true ∧ mreq w (RqMetadataFlush io st n) ∧ w_ios w !! io = Some i ∧
    ub_stripes_flushed (w_ub w') = ub_stripes_flushed (w_ub w) `max` uio_stripes_fetched (io_driver_ctx i).
Proof.
  intros [ev' v v' Hu|ch slot o m b k v v' _ _ ->|io st m v v' ->|io st m i v v' ->|io st m b v v' ->|io st m i v v' Hr Hi ->];
    [left; unfold ub_book in Hu; congruence|by left..|right; by exists io, st, m, i].
Qed.

(** The facts about one step that the invariants use. *)
Lemma cstep s E ev junk w' m' : cinv s → env_ok E → enabled (c_w s) ev → run_event (E := E) ev (c_w s) = Done tt w' →
  disk_after (c_p s) ev m' → bstep ev (c_w s) w' ∧ pinv (mk_pstate w' m' (snap_after (c_p s) ev)) ∧
  later (c_cur s) (c_cur (cnext s ev junk w' m')).
Proof.
  intros Hc HE Hen Hs Hd. pose proof (ci_p s Hc) as Hp.
  destruct (prun_step (c_p s) E ev w' Hp HE Hen Hs) as (Hinv & Hfin & Hb & Hmono).
  pose proof (step_spec (c_w s) ev (pv_inv _ Hp) Hen) as Hwp. unfold wp in Hwp. rewrite Hs in Hwp.
  destruct Hwp as [_ _ Hst _ _ _]. split; [exact Hb|]. split; [apply pinv_bstep; [exact Hp|exact (ci_serial s Hc)|assumption..]|].
  destruct (disk_step (c_p s) ev w' m' Hp Hb Hd) as [Hle Hcur]. rewrite next_cur. by split.
Qed.

Lemma since_le s ev b : cinv s → enabled (c_w s) ev → (c_since s b ≤ since_after s ev b ≤ c_now s)%nat.
Proof.
  intros Hc Hen. pose proof (ci_since s Hc b). unfold since_after. destruct ev as [| | |[] []| | |]; try lia; pose proof (ci_mark s Hc _ Hen); case_match; lia.
Qed.

(** What is durable stays so, and a metadata flush makes durable what was
    written when it was submitted. *)
Lemma durable_step s E ev junk w' m' t : cinv s → env_ok E → enabled (c_w s) ev →
  run_event (E := E) ev (c_w s) = Done tt w' → disk_after (c_p s) ev m' → durable_at s t →
  durable_at (cnext s ev junk w' m') t ∧
  ∀ io st n, ev = EvBase (RqMetadataFlush io st n) true →
    durable_at (cnext s ev junk w' m') (t `max` c_mark s (RqMetadataFlush io st n)).
Proof.
  intros Hc HE Hen Hs Hd [Ht Hb]. destruct (cstep s E ev junk w' m' Hc HE Hen Hs Hd) as (_ & _ & Hlater).
  assert (Hoff : ub_data_offset_blocks (w_ub w') = ub_data_offset_blocks (w_ub (c_w s))).
  { pose proof (lt_statics _ _ Hlater) as Hst. rewrite next_cur in Hst. by apply statics_fields in Hst as (_ & _ & _ & _ & ? & _). }
  unfold durable_at. rewrite next_w, Hoff. cbn [c_now c_since cnext]. split; [split; [lia|]|].
  - intros b Hb0. pose proof (Hb b Hb0). pose proof (since_le s ev b Hc Hen). lia.
  - intros io st n ->. pose proof (ci_mark s Hc _ Hen). split; [lia|]. intros b Hb0. pose proof (Hb b Hb0).
    destruct (covers_all (c_w s) (RqMetadataFlush io st n) (pv_inv _ (ci_p s Hc))) as (io' & n' & _ & Hn & [?|[= _ -> ->]] & _);
      [apply elem_of_app; right; exact Hen|done|done|]. cbn [since_after].
    rewrite (proj2 (Z.leb_le _ _)), (proj2 (Z.ltb_lt _ _)) by lia. cbn [andb]. lia.
Qed.

Lemma later_listed e e' : later e e' → listed_count (e_disk e) ≤ listed_count (e_disk e').
Proof. intros H. apply listed_count_mono. exact (lt_listed _ _ H). Qed.

Lemma cinv_step s E ev junk w' m' : cinv s → env_ok E → enabled (c_w s) ev →
  run_event (E := E) ev (c_w s) = Done tt w' → disk_after (c_p s) ev m' → serial_flushes w' →
  cinv (cnext s ev junk w' m').
Proof.
  intros Hc HE Hen Hs Hd Hser. destruct (cstep s E ev junk w' m' Hc HE Hen Hs Hd) as (Hb & Hp' & Hlater).
  split; rewrite ?next_w, ?next_p; cbn [c_now c_since c_mark cnext].
  - exact Hp'.
  - exact Hser.
  - intros t t' Ht. destruct (decide (t' = S (c_now s))) as [->|].
    + change (c_at (cnext s ev junk w' m') (S (c_now s))) with (c_cur (cnext s ev junk w' m')).
      destruct (decide (t = S (c_now s))) as [->|]; [done|]. rewrite next_at by lia.
      transitivity (c_cur s); [|exact Hlater]. apply (ci_log s Hc). lia.
    + rewrite !next_at by lia. apply (ci_log s Hc). lia.
  - intros b. pose proof (since_le s ev b Hc Hen). lia.
  - intros r Hr. unfold mark_after. case_decide as Hst; [|lia]. pose proof (ci_mark s Hc r (proj1 Hst)). lia.
  - destruct (ci_durable s Hc) as (t & Hdu & Hfl & Hcur).
    destruct (durable_step s E ev junk w' m' t Hc HE Hen Hs Hd Hdu) as [Hdu1 Hdu2].
    assert (Hkeep : ∀ t', (t ≤ t' ≤ c_now s)%nat → later (c_at s t) (c_at (cnext s ev junk w' m') t')).
    { intros t' Ht'. rewrite next_at by lia. by apply (ci_log s Hc). }
    destruct (bstep_flushed _ _ _ Hb) as [-> |(io & st & n & i & -> & Hr & Hi & ->)].
    + exists t. split; [done|]. rewrite next_at by apply Hdu. done.
    + pose proof (ci_mark s Hc _ Hen) as Hmk. destruct (ci_mflush s Hc io st n i Hr Hi) as [Hu Hcu].
      exists (t `max` c_mark s (RqMetadataFlush io st n))%nat. split; [by apply Hdu2|]. destruct Hdu as [Ht _].
      pose proof (later_listed _ _ (Hkeep (t `max` c_mark s (RqMetadataFlush io st n))%nat ltac:(lia))).
      assert (Hl2 : later (c_at s (c_mark s (RqMetadataFlush io st n)))
        (c_at (cnext s (EvBase (RqMetadataFlush io st n) true) junk w' m') (t `max` c_mark s (RqMetadataFlush io st n))))
        by (rewrite next_at by lia; apply (ci_log s Hc); lia).
      pose proof (later_listed _ _ Hl2). split; [lia|]. left. by apply (lt_current _ _ Hl2).
  - intros io st n i' Hr Hi'. unfold mark_after. case_decide as Hst.
    + assert (Hr0 : mreq (c_w s) (RqMetadataFlush io st n)) by (split; [done|exact (proj1 Hst)]).
      destruct (bstep_mflush _ _ _ io st n i' Hb Hr0 Hi') as (i & Hi & ->).
      rewrite next_at by (pose proof (ci_mark s Hc _ (proj1 Hst)); lia). exact (ci_mflush s Hc io st n i Hr0 Hi).
    + change (c_at (cnext s ev junk w' m') (S (c_now s))) with (c_cur (cnext s ev junk w' m')).
      rewrite next_cur. exact (pv_mflush _ Hp' io st n i' Hr Hi').
Qed.

Lemma crun_cinv Q s1 tr s2 : cinv s1 → crun Q s1 tr s2 → cinv s2 ∧ (c_now s1 ≤ c_now s2)%nat ∧
  ∀ t, (t ≤ c_now s1)%nat → c_at s2 t = c_at s1 t.
Proof.
  intros H1 Hrun. induction Hrun as [|tr s E ev junk w' m' Hrun (Hc & Hle & Hlog) HE Hen HQ Hs Hd Hser]; [done|].
  split; [by eapply cinv_step|]. split; [cbn; lia|]. intros t Ht. rewrite next_at by lia. by apply Hlog.
Qed.

(** The metadata on the base bdev list at most what is in memory. *)
Lemma log_listed s t : cinv s → (t ≤ c_now s)%nat → list_le (e_disk (c_at s t)) (ub_metadata (w_ub (c_w s))).
Proof.
  intros Hc Ht. transitivity (e_disk (c_cur s)); [|exact (pv_listed _ (ci_p s Hc))]. apply (ci_log s Hc). lia.
Qed.

(** * What a flush promises for the metadata *)

(** A metadata flush is outstanding no more when it is done. *)
Lemma mflush_gone {E : ext_env} w w' io st n b : inv [] w → w_fin w = [] → enabled w (EvBase (RqMetadataFlush io st n) b) →
  run_event (EvBase (RqMetadataFlush io st n) b) w = Done tt w' → RqMetadataFlush io st n ∉ w_pend w'.
Proof.
  intros Hinv Hfin Hen Hs. destruct (remove_one_perm _ _ Hen) as (l & Hrm & Hp).
  apply (base_event_done _ _ _ _ _ Hrm) in Hs. set (w1 := with_fin _ _) in Hs.
  assert (Hl : RqMetadataFlush io st n ∉ l) by (intros Hin; by apply (req_unique w _ _ l io Hinv Hfin Hp Hin)).
  apply (metadata_flush_done w1 w' (w_fin w)) in Hs as [[_ ->]|[_ (i & _ & ->)]]; done.
Qed.

(** Durable metadata list the stripe [k], or the flush [io] has
    not succeeded and makes such metadata durable when it does. *)
Definition cpromise (k io : Z) (s : cstate) : Prop :=
  let lists m := listed m k ∧ metadata_current m in
  (∃ t, durable_at s t ∧ lists (e_disk (c_at s t))) ∨
  ((io ∈ wins (c_w s) → ∀ i, w_ios (c_w s) !! io = Some i → io_type i ≠ SPDK_BDEV_IO_TYPE_FLUSH) ∧
   (∀ st n, mreq (c_w s) (RqMetadataFlush io st n) → lists (e_disk (c_at s (c_mark s (RqMetadataFlush io st n))))) ∧
   (∀ st n, mreq (c_w s) (RqMetadataWrite io st n) → listed (c_snap s io) k)).

Lemma later_lists e e' k : later e e' → 0 ≤ k < UBI_MAX_STRIPES →
  listed (e_disk e) k ∧ metadata_current (e_disk e) → listed (e_disk e') k ∧ metadata_current (e_disk e').
Proof. intros [Hl Hc _ _] Hk [? ?]. split; [by apply Hl|by apply Hc]. Qed.

(** The snapshots list what is in memory when they are taken. *)
Lemma snap_lists s ev io k : listed (ub_metadata (w_ub (p_w s))) k → listed (p_snap s io) k →
  listed (snap_after s ev io) k.
Proof.
  intros Hm Hs. unfold snap_after. destruct ev as [| | |[] []| | |]; try done.
  destruct (decide (io0 = io)) as [->|]; [by rewrite fn_lookup_insert|by rewrite fn_lookup_insert_ne].
Qed.

(** The metadata flushes that stay, and those that are new. *)
Lemma promise_mflush s ev junk w' m' io k : cinv s →
  (∀ st n, mreq (c_w s) (RqMetadataFlush io st n) →
     let m := e_disk (c_at s (c_mark s (RqMetadataFlush io st n))) in listed m k ∧ metadata_current m) →
  (∀ st n, mreq w' (RqMetadataFlush io st n) → stays (c_w s) ev (RqMetadataFlush io st n) ∨ listed m' k ∧ metadata_current m') →
  let s' := cnext s ev junk w' m' in
  ∀ st n, mreq (c_w s') (RqMetadataFlush io st n) →
    let m := e_disk (c_at s' (c_mark s' (RqMetadataFlush io st n))) in listed m k ∧ metadata_current m.
Proof.
  intros Hc Hold Hnew s' st n Hr. unfold s' in Hr. rewrite next_w in Hr. specialize (Hnew st n Hr).
  unfold s'. cbn [c_mark cnext]. unfold mark_after. case_decide as Hst.
  - rewrite next_at by (exact (ci_mark s Hc _ (proj1 Hst))). apply Hold. split; [done|exact (proj1 Hst)].
  - destruct Hnew as [|Hm]; [done|]. cbn [c_at cnext]. by rewrite fn_lookup_insert.
Qed.

Lemma cpromise_step s k io E ev junk w' m' : cinv s → env_ok E → enabled (c_w s) ev →
  run_event (E := E) ev (c_w s) = Done tt w' → disk_after (c_p s) ev m' → serial_flushes w' →
  0 ≤ k < UBI_MAX_STRIPES → ub_stripe_status (w_ub (c_w s)) k = STRIPE_FETCHED →
  cpromise k io s → cpromise k io (cnext s ev junk w' m').
Proof.
  intros Hc HE Hen Hs Hd Hser Hk Hst Hpr.
  destruct (cstep s E ev junk w' m' Hc HE Hen Hs Hd) as (Hb & Hp' & Hlater). pose proof (ci_p s Hc) as Hp.
  assert (Hup : ∀ t, durable_at (cnext s ev junk w' m') t → (t ≤ c_now s)%nat →
    (let m := e_disk (c_at s t) in listed m k ∧ metadata_current m) → cpromise k io (cnext s ev junk w' m')).
  { intros t Hdu Ht m. left. exists t. split; [done|]. by rewrite next_at by lia. }
  destruct (ci_durable s Hc) as (t0 & Hdu0 & Hfl0 & Hcur0).
  destruct Hpr as [(t & Hdu & Hl)|(Hw & Hfl & Hwr)].
  { apply (Hup t); [by apply (durable_step s E ev junk w' m' t Hc HE Hen Hs Hd Hdu)|apply Hdu|done]. }
  assert (Hmem : listed (ub_metadata (w_ub (c_w s))) k) by by apply (listed_sync _ _ (pv_sync _ Hp) Hk).
  assert (Hgone : ∀ st n, mreq w' (RqMetadataFlush io st n) → mreq (c_w s) (RqMetadataFlush io st n) →
    stays (c_w s) ev (RqMetadataFlush io st n)).
  { intros st n [_ Hr'] [_ Hr]. split; [exact Hr|]. intros b ->.
    by apply (mflush_gone (c_w s) w' io st n b (pv_inv _ Hp) (pv_fin _ Hp) Hen Hs). }
  assert (Hgoal : (io ∈ wins w' → ∀ i, w_ios w' !! io = Some i → io_type i ≠ SPDK_BDEV_IO_TYPE_FLUSH) →
    (∀ st n, mreq w' (RqMetadataFlush io st n) → mreq (c_w s) (RqMetadataFlush io st n) ∨ listed m' k ∧ metadata_current m') →
    (∀ st n, mreq w' (RqMetadataWrite io st n) → mreq (c_w s) (RqMetadataWrite io st n) ∨
       ∃ st n, ev = EvBase (RqDataFlush io st n) true) → cpromise k io (cnext s ev junk w' m')).
  { intros HW HF HM. right. split_and!; [by rewrite next_w| |].
    - apply promise_mflush; [done|done|]. intros st n Hr. destruct (HF st n Hr) as [Hr0|?]; [left; by apply Hgone|by right].
    - intros st n Hr. rewrite next_w in Hr. cbn [c_snap cnext].
      destruct (HM st n Hr) as [Hr0|(st' & n' & ->)]; [apply snap_lists; [done|by apply (Hwr st n)]|].
      cbn [snap_after]. by rewrite fn_lookup_insert. }
  inversion Hb as [ev0 w0 w1 Hu Hsf Hios Hreq Hne Hwi|ch slot o n b j w0 w1 _ _ Hu Hios Hreq Hwi
    |io' st n w0 w1 Hu Hf Hios Hreq Hwi|io' st n i w0 w1 Hu Hi Hfree Hios Hreq Hwi
    |io' st n b w0 w1 Hu Hios Hin Hreq Hwi|io' st n i w0 w1 Hin Hi Hu Hios Hreq Hwi]; subst.
  - apply Hgoal; [|by left; apply Hreq|by left; apply Hreq]. intros Hin i' Hi'.
    assert (Hids : io ∈ ids [] (c_w s)) by (destruct (Hwi _ Hin) as [?%wins_ids|[? _]]; done).
    destruct (Hios io i' Hids Hi') as (i & Hi & [= -> _ _ _]).
    destruct (Hwi _ Hin) as [?|[_ Ht]]; [by apply Hw|by apply Ht].
  - apply Hgoal; [|by left; apply Hreq|by left; apply Hreq]. by rewrite Hwi, Hios.
  - apply (Hup t0); [by apply (durable_step s E _ junk w' m' t0 Hc HE Hen Hs Hd Hdu0)|apply Hdu0|].
    exact (all_listed _ (w_ub (c_w s)) k (log_listed s t0 Hc (proj1 Hdu0)) (pv_sync _ Hp) Hk Hst (pv_fetched _ Hp) Hf Hfl0 Hcur0).
  - apply Hgoal.
    + rewrite Hwi, Hios. intros Hin i' Hi'. destruct (decide (io' = io)) as [->|Hne].
      * rewrite lookup_insert_eq in Hi'. injection Hi' as <-. exact (Hw Hin i Hi).
      * rewrite lookup_insert_ne in Hi' by done. by apply Hw.
    + intros st' n' Hr. left. by destruct (Hreq _ Hr) as [?|[? ?]].
    + intros st' n' Hr. destruct (Hreq _ Hr) as [?|[nb [= -> _ _]]]; [by left|right; by eexists _, _].
  - destruct (disk_after_le (c_p s) io' st n b m' Hp Hin Hd) as (_ & _ & _ & H4). apply Hgoal.
    + by rewrite Hwi, Hios.
    + intros st' n' Hr. destruct (Hreq _ Hr) as [[? _]|[-> [nb [= -> _ _]]]]; [by left|right].
      destruct (H4 eq_refl) as [Hle ?]. split; [|done]. apply Hle; [done|]. by apply (Hwr st n).
    + intros st' n' Hr. left. by destruct (Hreq _ Hr) as [[? _]|[_ [? ?]]].
  - destruct (decide (io' = io)) as [->|Hne].
    + pose proof (ci_mark s Hc _ Hen) as Hmk. destruct Hdu0 as [Ht0 Hdu0].
      apply (Hup (t0 `max` c_mark s (RqMetadataFlush io st n))%nat); [|lia|].
      * by apply (durable_step s E _ junk w' m' t0 Hc HE Hen Hs Hd (conj Ht0 Hdu0)).
      * apply (later_lists (c_at s (c_mark s (RqMetadataFlush io st n)))); [apply (ci_log s Hc); lia|done|by apply Hfl].
    + apply Hgoal; [|by left; apply Hreq|by left; apply Hreq]. rewrite Hwi, Hios, elem_of_cons. intros [->|?]; [done|by apply Hw].
Qed.

Lemma cpromise_new s k io : io ∉ ids [] (c_w s) → cpromise k io s.
Proof.
  intros Hnew. right. split_and!.
  - intros Hw. by apply wins_ids in Hw.
  - intros st n Hr. exfalso. by apply Hnew, (mreq_ids _ _ _ Hr).
  - intros st n Hr. exfalso. by apply Hnew, (mreq_ids _ _ _ Hr).
Qed.

(** A flush that arrived after [k] was fetched and succeeded: what a crash
    leaves lists [k]. *)
Lemma crun_promise Q s1 tr s2 k io i : cinv s1 → crun Q s1 tr s2 → 0 ≤ k < UBI_MAX_STRIPES →
  ub_stripe_status (w_ub (c_w s1)) k = STRIPE_FETCHED → io ∉ ids [] (c_w s1) → io ∈ wins (c_w s2) →
  w_ios (c_w s2) !! io = Some i → io_type i = SPDK_BDEV_IO_TYPE_FLUSH →
  ∃ t, durable_at s2 t ∧ listed (e_disk (c_at s2 t)) k ∧ metadata_current (e_disk (c_at s2 t)).
Proof.
  intros H1 Hrun Hk Hst Hnew.
  assert (cpromise k io s2) as [Hl|(Hw & _)]; [|done|intros Hin Hi Ht; by destruct (Hw Hin i Hi)].
  induction Hrun as [|tr s E ev junk w' m' Hrun IH HE Hen HQ Hs Hd Hser]; [by apply cpromise_new|].
  destruct (crun_cinv Q s1 tr s H1 Hrun) as (Hc & Hle & Hlog). eapply cpromise_step; try done.
  refine (lt_fetched _ _ (ci_log s Hc (c_now s1) (c_now s) _) k _); [lia|]. by rewrite Hlog.
Qed.

(** A crash leaves at least what was durable. *)
Lemma crash_disk s m base t : cinv s → crash s m base → durable_at s t →
  list_le (e_disk (c_at s t)) m ∧ (metadata_current (e_disk (c_at s t)) → metadata_current m).
Proof.
  intros Hc [_ Hh Hf] [Ht Hdu]. pose proof (ci_p s Hc) as Hp.
  assert (Hlog : ∀ t', (t ≤ t' ≤ c_now s)%nat → later (c_at s t) (c_at s t')) by (intros t' Ht'; apply (ci_log s Hc); lia).
  assert (Hcur : later (c_at s t) (c_cur s)) by (apply Hlog; lia).
  pose proof (inv_layout _ _ (pv_inv _ Hp)) as ([Hbl _ _ _ _ Hd _] & _). simpl in Hbl, Hd.
  change (0 < blen (c_w s)) in Hbl. change (ub_data_offset_blocks (w_ub (c_w s)) * blen (c_w s) = UBI_METADATA_SIZE) in Hd.
  assert (Hblock : ∀ off, 0 ≤ off < UBI_METADATA_SIZE → (t ≤ c_since s (off `div` blen (c_w s)))%nat).
  { intros off Hoff. apply Hdu. split; [apply Z.div_pos; lia|]. apply Z.div_lt_upper_bound; lia. }
  split.
  - intros k Hk Hl. unfold listed. destruct (Hh k Hk) as [(t' & Ht' & ->)|(io & st & n & Hr & _ & Hor)].
    + pose proof (Hblock _ (header_off_range k Hk)). by apply (lt_listed _ _ (Hlog t' ltac:(lia))).
    + assert (Hmr : mreq (p_w (c_p s)) (RqMetadataWrite io st n)) by done.
      destruct (pv_mwrite _ Hp io st n Hmr) as (H1 & H2 & _). apply (lt_listed _ _ Hcur) in Hl; [|done].
      apply H1 in Hl; [|done]. destruct Hor as [-> | ->]; [done|by apply H2].
  - intros Hms. destruct Hf as [(b & t' & Hb0 & Hb & Ht' & Hfix)|(io & st & n & _ & _ & Hfix)].
    + assert (Hoff : 0 ≤ b * blen (c_w s) < UBI_METADATA_SIZE).
      { split; [nia|]. eapply Z.lt_trans; [exact Hb|done]. }
      pose proof (Hblock _ Hoff) as Hle. rewrite Z.div_mul in Hle by lia.
      eapply current_fixed; [exact Hfix|]. by apply (lt_current _ _ (Hlog t' ltac:(lia))).
    + eapply current_fixed; [exact Hfix|]. exact (pv_current _ Hp).
Qed.

(** * What it promises for the data *)

Definition in_range (i : spdk_bdev_io) (b : Z) : Prop := io_offset_blocks i ≤ b < io_offset_blocks i + io_num_blocks i.

(** The data flush of [io] was submitted at the moment [T] or later, and what
    it covered is durable since then. *)
Record dpromise (T : nat) (io : Z) (s : cstate) : Prop := {
  dp_flush st n : RqDataFlush io st n ∈ w_pend (c_w s) → (T ≤ c_mark s (RqDataFlush io st n))%nat;
  dp_past i b : past_data (c_w s) io i → in_range i b → (T ≤ c_since s (b + ub_data_offset_blocks (w_ub (c_w s))))%nat
}.

Lemma dpromise_step T s io E ev junk w' m' : cinv s → env_ok E → enabled (c_w s) ev →
  run_event (E := E) ev (c_w s) = Done tt w' → disk_after (c_p s) ev m' → (T ≤ c_now s)%nat →
  dpromise T io s → dpromise T io (cnext s ev junk w' m').
Proof.
  intros Hc HE Hen Hs Hd HT [Hfl Hpast]. destruct (cstep s E ev junk w' m' Hc HE Hen Hs Hd) as (Hb & _ & Hlater).
  assert (Hoff : ub_data_offset_blocks (w_ub w') = ub_data_offset_blocks (w_ub (c_w s))).
  { pose proof (lt_statics _ _ Hlater) as Hst. rewrite next_cur in Hst. by apply statics_fields in Hst as (_ & _ & _ & _ & ? & _). }
  split.
  - intros st n Hr. cbn [c_mark cnext]. unfold mark_after. case_decide as Hst; [apply Hfl, Hst|lia].
  - rewrite next_w, Hoff. intros i' b Hp Hr. cbn [c_since cnext].
    pose proof (since_le s ev (b + ub_data_offset_blocks (w_ub (c_w s))) Hc Hen) as Hle.
    destruct (past_data_step ev (c_w s) w' io i' Hb Hp) as (i & (_ & Ho & Hn) & Hi & Hor).
    unfold in_range in *. rewrite Ho, Hn in Hr. destruct Hor as [Hp0|(st & n & ->)]; [specialize (Hpast i b Hp0 Hr); lia|].
    destruct (data_flush_range (c_w s) io st n i (pv_inv _ (ci_p s Hc)) Hen Hi) as [-> ->].
    pose proof (Hfl _ _ Hen) as Hm. cbn [since_after].
    rewrite (proj2 (Z.leb_le _ _)), (proj2 (Z.ltb_lt _ _)) by lia. cbn [andb]. lia.
Qed.

Lemma crun_dpromise Q s1 tr s2 io : cinv s1 → crun Q s1 tr s2 → io ∉ ids [] (c_w s1) → dpromise (c_now s1) io s2.
Proof.
  intros H1 Hrun Hnew. induction Hrun as [|tr s E ev junk w' m' Hrun IH HE Hen HQ Hs Hd Hser].
  - split; [intros st n Hr; exfalso; by apply Hnew, (req_in_ids [] (c_w s1) (RqDataFlush io st n))|].
    intros i b Hp. by apply past_data_ids in Hp.
  - destruct (crun_cinv Q s1 tr s H1 Hrun) as (Hc & Hle & _). by eapply dpromise_step.
Qed.

(** * Blocks after a crash *)

(** The block of a stripe that is fetched, or beyond the image, is that of the
    base bdev. *)
Lemma logical_base u base b : block_status u b = STRIPE_FETCHED ∨ ub_image_block_count u ≤ b →
  logical image u base b = base (b + ub_data_offset_blocks u).
Proof.
  intros [H|H]; unfold logical.
  - rewrite bool_decide_eq_true_2 by done. by rewrite andb_false_r.
  - by rewrite (proj2 (Z.ltb_ge _ _)).
Qed.

Lemma contents_base e e' b : later e e' →
  block_status (w_ub (e_w e)) b = STRIPE_FETCHED ∨ ub_image_block_count (w_ub (e_w e)) ≤ b →
  logical image (w_ub (e_w e')) (e_base e') b = e_base e' (b + ub_data_offset_blocks (w_ub (e_w e))).
Proof.
  intros [_ _ Hf Hs] H. destruct (statics_fields _ _ Hs) as (_ & _ & _ & _ & <- & Hi & _).
  apply logical_base. rewrite Hi. destruct H as [H|H]; [left|by right].
  unfold block_status in *. rewrite (stripe_of_statics _ _ _ Hs). by apply Hf.
Qed.

(** What a crash leaves of such a block is one of its contents since. *)
Lemma crash_block s1 s2 m base b : cinv s2 → crash s2 m base → (c_now s1 ≤ c_now s2)%nat →
  c_at s2 (c_now s1) = c_cur s1 →
  block_status (w_ub (c_w s1)) b = STRIPE_FETCHED ∨ ub_image_block_count (w_ub (c_w s1)) ≤ b →
  (c_now s1 ≤ c_since s2 (b + ub_data_offset_blocks (w_ub (c_w s1))))%nat →
  held_since s1 s2 b (base (b + ub_data_offset_blocks (w_ub (c_w s1)))).
Proof.
  intros Hc [Hb _ _] Hle Hlog H Hsince.
  destruct (Hb (b + ub_data_offset_blocks (w_ub (c_w s1)))) as [(t & Ht & ->)|(r & Hr & ->)].
  - left. exists t. split; [lia|]. unfold contents. symmetry. apply (contents_base (c_cur s1)); [|exact H].
    rewrite <-Hlog. apply (ci_log s2 Hc). lia.
  - right. exists r. split; [done|]. unfold contents_with. symmetry.
    apply (contents_base (c_cur s1) (mk_moment (c_w s2) (landed s2 r) (e_disk (c_cur s2)))); [|exact H].
    rewrite <-Hlog. destruct (ci_log s2 Hc (c_now s1) (c_now s2) ltac:(lia)) as [? ? ? ?]. by split.
Qed.

(** * Flushes that stripe writes do not run into *)

(** While a flush waits for its data or writes the metadata, no write of a
    stripe is completed, and flushes cover the whole bdev. *)
Definition exclusive_flushes (w : world) (ev : event) : Prop :=
  match ev with
  | EvBase (RqStripeWrite _ _ _ _) _ => ∀ io st n, RqDataFlush io st n ∉ w_pend w ∧ RqMetadataWrite io st n ∉ w_pend w
  | EvBase (RqDataFlush _ st n) _ => st = ub_data_offset_blocks (w_ub w) ∧ n = bd_blockcnt (ub_bdev (w_ub w))
  | _ => True
  end.

Definition fetched_at (s : cstate) (t : nat) (k : Z) : Prop :=
  ub_stripe_status (w_ub (e_w (c_at s t))) k = STRIPE_FETCHED.

(** What a crash leaves of the stripe [k] was written after it was fetched. *)
Definition durable_stripe (s : cstate) (k : Z) : Prop := ∀ b, 0 ≤ b < bd_blockcnt (ub_bdev (w_ub (c_w s))) →
  stripe_of (w_ub (c_w s)) b = k → fetched_at s (c_since s (b + ub_data_offset_blocks (w_ub (c_w s)))) k.

Record qinv (s : cstate) : Prop := {
  qi_disk k : 0 ≤ k < UBI_MAX_STRIPES → listed (e_disk (c_cur s)) k → durable_stripe s k;
  qi_write io st n k : RqMetadataWrite io st n ∈ w_pend (c_w s) → 0 ≤ k < UBI_MAX_STRIPES →
    ub_stripe_status (w_ub (c_w s)) k = STRIPE_FETCHED → durable_stripe s k;
  qi_flush io st n k : RqDataFlush io st n ∈ w_pend (c_w s) →
    ub_stripe_status (w_ub (c_w s)) k = STRIPE_FETCHED → fetched_at s (c_mark s (RqDataFlush io st n)) k
}.

Lemma bstep_fetched ev w w' : bstep ev w w' → same_fetched w w' ∨ (∃ ch slot o n b, ev = EvBase (RqStripeWrite ch slot o n) b).
Proof.
  intros [ev' v v' _ Hs|ch slot o m b k v v'|io st m v v' Hu|io st m i v v' Hu|io st m b v v' Hu|io st m i v v' _ _ Hu];
    [by left|right; by eexists _, _, _, _, _|left; intros k; by rewrite Hu..].
Qed.

Lemma bstep_mwrite ev w w' io st n : bstep ev w w' → mreq w' (RqMetadataWrite io st n) →
  mreq w (RqMetadataWrite io st n) ∨ ∃ st' n', ev = EvBase (RqDataFlush io st' n') true.
Proof.
  intros [ev' v v' _ _ _ Hr _ _|ch slot o m b k v v' _ _ _ _ Hr _|io' st' m v v' _ _ _ Hr _|io' st' m i v v' _ _ _ _ Hr _
    |io' st' m b v v' _ _ _ Hr _|io' st' m i v v' _ _ _ _ Hr _] Hin; try (left; by apply Hr).
  - destruct (Hr _ Hin) as [?|[nb [= -> _ _]]]; [by left|right; by eexists _, _].
  - destruct (Hr _ Hin) as [[? _]|[_ [nb ?]]]; [by left|done].
Qed.

(** New headers on the base bdev come from a metadata write. *)
Lemma disk_new s ev w' m' k : pinv s → bstep ev (p_w s) w' → disk_after s ev m' → 0 ≤ k < UBI_MAX_STRIPES →
  listed m' k → listed (p_disk s) k ∨ listed (ub_metadata (w_ub (p_w s))) k ∧ ∃ io st n, mreq (p_w s) (RqMetadataWrite io st n).
Proof.
  intros Hp Hb Hd Hk Hl. inversion Hb as [ev0 w0 w1 _ _ _ _ Hne _|ch slot o n b j w0 w1 _ _ _ _ _ _
    |io st n w0 w1 _ _ _ _ _|io st n i w0 w1 _ _ _ _ _ _|io st n b w0 w1 _ _ Hin _ _|io st n i w0 w1 _ _ _ _ _ _]; subst;
    try (cbn in Hd; subst m'; by left).
  - assert (m' = p_disk s) as ->; [|by left]. destruct ev as [| | |[] []| | |]; try exact Hd; exfalso; by eapply Hne.
  - right. destruct (disk_after_le s io st n b m' Hp Hin Hd) as (_ & Hle & _). split; [by apply Hle|by eexists _, _, _].
Qed.

Lemma same_block e e' : later e e' →
  bd_blockcnt (ub_bdev (w_ub (e_w e'))) = bd_blockcnt (ub_bdev (w_ub (e_w e))) ∧
  ub_data_offset_blocks (w_ub (e_w e')) = ub_data_offset_blocks (w_ub (e_w e)) ∧
  ∀ b, stripe_of (w_ub (e_w e')) b = stripe_of (w_ub (e_w e)) b.
Proof.
  intros [_ _ _ Hs]. split_and!; [by injection Hs|by injection Hs|]. intros b. by apply stripe_of_statics.
Qed.

Lemma cinitial_qinv s : cinitial s → qinv s.
Proof.
  intros [Hp Hn Hs]. destruct (init_lists _ (pn_initial _ Hp)) as (Hpend & _). change (p_w (c_p s)) with (c_w s) in Hpend.
  split; rewrite ?Hpend; try (intros io st n k ?%not_elem_of_nil; done).
  intros k Hk Hl b _ _. unfold fetched_at. rewrite Hs, <-Hn. by apply (pn_disk _ Hp k Hk).
Qed.

Lemma qinv_step s E ev junk w' m' : cinv s → env_ok E → enabled (c_w s) ev → exclusive_flushes (c_w s) ev →
  run_event (E := E) ev (c_w s) = Done tt w' → disk_after (c_p s) ev m' → qinv s → qinv (cnext s ev junk w' m').
Proof.
  intros Hc HE Hen HQ Hs Hd [Hdisk Hwr Hfl].
  destruct (cstep s E ev junk w' m' Hc HE Hen Hs Hd) as (Hb & _ & Hlater). pose proof (ci_p s Hc) as Hp.
  set (s' := cnext s ev junk w' m') in *.
  assert (Hat : ∀ t k, (t ≤ c_now s)%nat → fetched_at s t k → ∀ t', (t ≤ t' ≤ c_now s)%nat → fetched_at s' t' k).
  { intros t k Ht Hf t' Ht'. unfold fetched_at, s'. rewrite next_at by lia.
    by apply (lt_fetched _ _ (ci_log s Hc t t' Ht')). }
  destruct (same_block _ _ Hlater) as (Hcnt & Hoff & Hstr).
  assert (Hsafe : ∀ k, durable_stripe s k → durable_stripe s' k).
  { intros k Hd0 b Hb0 Hk. unfold c_w in Hb0, Hk |- *. rewrite Hcnt in Hb0. rewrite Hstr in Hk. rewrite Hoff.
    pose proof (since_le s ev (b + ub_data_offset_blocks (w_ub (c_w s))) Hc Hen) as Hle.
    apply (Hat _ k (ci_since s Hc _) (Hd0 b Hb0 Hk)). exact Hle. }
  assert (Hsame : (∃ io st n, RqDataFlush io st n ∈ w_pend (c_w s) ∨ RqMetadataWrite io st n ∈ w_pend (c_w s)) →
    same_fetched (c_w s) w').
  { intros (io & st & n & Hin). destruct (bstep_fetched _ _ _ Hb) as [?|(ch & slot & o & nb & b & ->)]; [done|].
    destruct (HQ io st n) as [H1 H2]. by destruct Hin. }
  split.
  - intros k Hk Hl. unfold s' in Hl. rewrite next_cur in Hl. apply Hsafe.
    destruct (disk_new (c_p s) ev w' m' k Hp Hb Hd Hk Hl) as [?|[Hm (io & st & n & [_ Hr])]]; [by apply Hdisk|].
    apply (Hwr io st n k Hr Hk). by apply (listed_sync _ _ (pv_sync _ Hp) Hk).
  - intros io st n k. unfold s'. rewrite next_w. fold s'. intros Hr Hk Hf.
    destruct (bstep_mwrite ev _ w' io st n Hb (conj eq_refl Hr)) as [[_ Hr0]|(st' & n' & ->)].
    + apply Hsafe, (Hwr io st n k Hr0 Hk). apply Hsame; [by exists io, st, n; right|done].
    + assert (Hf0 : ub_stripe_status (w_ub (c_w s)) k = STRIPE_FETCHED).
      { apply Hsame; [exists io, st', n'; left; exact Hen|done]. }
      pose proof (Hfl io st' n' k Hen Hf0) as Hmk. destruct HQ as [-> ->]. intros b Hb0 Hsk.
      unfold c_w in Hb0 |- *. rewrite Hcnt in Hb0. rewrite Hoff. pose proof (ci_mark s Hc _ Hen) as Hle.
      pose proof (ci_since s Hc (b + ub_data_offset_blocks (w_ub (e_w (c_cur s))))) as Hle2.
      apply (Hat _ k Hle Hmk). cbn [c_since cnext s' since_after]. unfold c_w.
      rewrite (proj2 (Z.leb_le _ _)), (proj2 (Z.ltb_lt _ _)) by lia. cbn [andb]. unfold c_w in Hle. lia.
  - intros io st n k. unfold s'. rewrite next_w. fold s'. intros Hr Hf. cbn [c_mark cnext s']. unfold mark_after.
    case_decide as Hst.
    + apply (Hat _ k (ci_mark s Hc _ (proj1 Hst))); [|pose proof (ci_mark s Hc _ (proj1 Hst)); lia].
      apply (Hfl _ _ _ _ (proj1 Hst)). apply Hsame; [exists io, st, n; left; exact (proj1 Hst)|done].
    + unfold fetched_at. cbn [c_at s' cnext]. by rewrite fn_lookup_insert.
Qed.

Lemma crun_qinv s1 tr s2 : cinv s1 → qinv s1 → crun exclusive_flushes s1 tr s2 → qinv s2.
Proof.
  intros H1 Hq Hrun. induction Hrun as [|tr s E ev junk w' m' Hrun IH HE Hen HQ Hs Hd Hser]; [done|].
  destruct (crun_cinv _ s1 tr s H1 Hrun) as [Hc _]. by eapply qinv_step.
Qed.

(** What a crash leaves lists only stripes that are durable. *)
Lemma crash_durable s m base k : cinv s → qinv s → crash s m base → 0 ≤ k < UBI_MAX_STRIPES → listed m k →
  durable_stripe s k.
Proof.
  intros Hc [Hdisk Hwr _] [_ Hh _] Hk Hl. pose proof (ci_p s Hc) as Hp. unfold listed in Hl.
  destruct (Hh k Hk) as [(t & Ht & Heq)|(io & st & n & Hr & _ & Hor)].
  - rewrite Heq in Hl. apply Hdisk; [done|]. apply (lt_listed _ _ (ci_log s Hc t (c_now s) ltac:(lia)) k Hk Hl).
  - apply (Hwr io st n k Hr Hk). apply (listed_sync _ _ (pv_sync _ Hp) Hk).
    assert (Hmr : mreq (p_w (c_p s)) (RqMetadataWrite io st n)) by done.
    destruct (pv_mwrite _ Hp io st n Hmr) as (_ & H2 & _).
    destruct Hor as [Heq|Heq]; rewrite Heq in Hl; [by apply H2|done].
Qed.

(** * Creating the bdev again from what a crash leaves *)

Lemma logical_same u u1 base b : layout_of u1 = layout_of u →
  (ub_stripe_status u1 (stripe_of u b) = STRIPE_FETCHED ∨ ub_image_block_count u ≤ b) →
  logical image u1 base b = base (b + ub_data_offset_blocks u).
Proof.
  unfold layout_of. intros Hl H.
  assert (ub_data_offset_blocks u1 = ub_data_offset_blocks u ∧ ub_image_block_count u1 = ub_image_block_count u ∧
    stripe_of u1 b = stripe_of u b) as (<- & Hi & Hs) by (unfold stripe_of; split_and!; congruence).
  apply logical_base. unfold block_status. rewrite Hi, Hs. exact H.
Qed.

(** A flush that arrived after [s1], covers block [b] and has succeeded in
    [s2]; then a crash leaves [m] and [base], and the bdev [u] is created from
    them. *)
Record crash_after_flush (Q : world → event → Prop) (s0 s1 s2 : cstate) (io b : Z)
    (m : ubi_metadata) (base : Z → B) (u : ubi_bdev) : Prop := {
  cf_initial : cinitial s0;
  cf_before : ∃ tr, crun Q s0 tr s1;
  cf_after : ∃ tr, crun Q s1 tr s2;
  cf_new : io ∉ ids [] (c_w s1);
  cf_flush : ∃ i, w_ios (c_w s2) !! io = Some i ∧ io_type i = SPDK_BDEV_IO_TYPE_FLUSH ∧ in_range i b;
  cf_success : (io, SPDK_BDEV_IO_STATUS_SUCCESS) ∈ w_done (c_w s2);
  cf_block : 0 ≤ b < bd_blockcnt (ub_bdev (w_ub (c_w s2)));
  cf_crash : crash s2 m base;
  cf_read : freshly_read u m;
  cf_layout : layout_of u = layout_of (w_ub (c_w s2))
}.

Section AfterFlush.
Context (Q : world → event → Prop) (s0 s1 s2 : cstate) (io b : Z) (m : ubi_metadata) (base : Z → B) (u : ubi_bdev).
Context (Hcf : crash_after_flush Q s0 s1 s2 io b m base u).
Let k := stripe_of (w_ub (c_w s2)) b.

Lemma cf_facts : cinv s1 ∧ cinv s2 ∧ (c_now s1 ≤ c_now s2)%nat ∧ c_at s2 (c_now s1) = c_cur s1 ∧
  later (c_cur s1) (c_cur s2) ∧ 0 ≤ k < UBI_MAX_STRIPES ∧
  (c_now s1 ≤ c_since s2 (b + ub_data_offset_blocks (w_ub (c_w s2))))%nat.
Proof using Hcf.
  destruct Hcf as [H0 [tr1 H1] [tr2 H2] Hnew (i & Hi & Ht & Hr) Hok Hb _ _ _].
  destruct (crun_cinv Q s0 tr1 s1 (cinitial_cinv s0 H0) H1) as [Hc1 _].
  destruct (crun_cinv Q s1 tr2 s2 Hc1 H2) as (Hc2 & Hle & Hlog). pose proof (Hlog (c_now s1) ltac:(lia)) as Hcur.
  split; [done|]. split; [done|]. split; [done|]. split; [exact Hcur|]. split.
  { unfold c_cur at 1. rewrite <-Hcur. apply (ci_log s2 Hc2). lia. }
  split; [apply block_stripe_range; [exact (inv_layout _ _ (pv_inv _ (ci_p s2 Hc2)))|done]|].
  apply (dp_past _ _ _ (crun_dpromise Q s1 tr2 s2 io Hc1 H2 Hnew) i b); [|done].
  split; [done|]. split; [done|]. left. by apply success_wins.
Qed.

(** The metadata list the stripe when it was fetched. *)
Lemma cf_listed : ub_stripe_status (w_ub (c_w s1)) k = STRIPE_FETCHED → listed m k ∧ metadata_current m.
Proof using Hcf.
  intros Hf. destruct cf_facts as (Hc1 & Hc2 & _ & _ & _ & Hk & _).
  destruct Hcf as [H0 [tr1 H1] [tr2 H2] Hnew (i & Hi & Ht & Hr) Hok Hb Hcr _ _].
  destruct (crun_promise Q s1 tr2 s2 k io i Hc1 H2 Hk Hf Hnew (success_wins _ _ Hok) Hi Ht) as (t & Hdu & Hl & Hm).
  destruct (crash_disk s2 m base t Hc2 Hcr Hdu) as [Hle Hcur]. split; [by apply Hle|by apply Hcur].
Qed.

Lemma cf_reload : metadata_current m → ∃ u1, ubi_load_metadata u = Some (0, u1) ∧
  layout_of u1 = layout_of (w_ub (c_w s2)) ∧ (ub_stripe_status u1 k = STRIPE_FETCHED ↔ listed m k).
Proof using Hcf.
  intros Hm. destruct cf_facts as (_ & _ & _ & _ & _ & Hk & _).
  destruct (reload_all m u Hm (cf_read _ _ _ _ _ _ _ _ _ Hcf)) as (u1 & Hload & Hpar & Hst). exists u1.
  split; [done|]. split; [|by apply Hst]. rewrite <-(cf_layout _ _ _ _ _ _ _ _ _ Hcf).
  by apply parameters_layout.
Qed.

(** Blocks of the base bdev from the start on. *)
Lemma cf_base : block_status (w_ub (c_w s1)) b = STRIPE_FETCHED ∨ ub_image_block_count (w_ub (c_w s2)) ≤ b ∧ metadata_current m →
  ∃ u1, ubi_load_metadata u = Some (0, u1) ∧ held_since s1 s2 b (logical image u1 base b).
Proof using Hcf.
  intros Hb. destruct cf_facts as (Hc1 & Hc2 & Hle & Hlog & Hlater & Hk & Hsince).
  destruct (statics_fields _ _ (lt_statics _ _ Hlater)) as (_ & _ & _ & _ & Hoff & Himg & _).
  destruct (same_block _ _ Hlater) as (_ & _ & Hstr). fold (c_w s1) (c_w s2) in *.
  assert (Hst : block_status (w_ub (c_w s1)) b = ub_stripe_status (w_ub (c_w s1)) k).
  { unfold block_status, k. by rewrite Hstr. }
  assert (Hm : metadata_current m) by (destruct Hb as [Hf|[_ ?]]; [rewrite Hst in Hf; by apply cf_listed|done]).
  destruct (cf_reload Hm) as (u1 & Hload & Hlay & Hu1). exists u1. split; [done|].
  rewrite (logical_same (w_ub (c_w s2)) u1 base b Hlay).
  - rewrite Hoff in *. apply (crash_block s1 s2 m); [done|exact (cf_crash _ _ _ _ _ _ _ _ _ Hcf)|done|done| |done].
    rewrite Himg in Hb. destruct Hb as [?|[? _]]; auto.
  - destruct Hb as [Hf|[Hi _]]; [left|by right]. apply Hu1. rewrite Hst in Hf. by apply cf_listed.
Qed.

(** The other blocks, when the stripes that the metadata list are durable. *)
Lemma cf_fetched_later : block_status (w_ub (c_w s1)) b ≠ STRIPE_FETCHED → b < ub_image_block_count (w_ub (c_w s2)) →
  metadata_current m → qinv s2 →
  ∃ u1, ubi_load_metadata u = Some (0, u1) ∧ held_since s1 s2 b (logical image u1 base b).
Proof using Hcf.
  intros Hn Himgb Hm Hq. destruct cf_facts as (Hc1 & Hc2 & Hle & Hlog & Hlater & Hk & Hsince).
  destruct (statics_fields _ _ (lt_statics _ _ Hlater)) as (_ & _ & _ & _ & Hoff & Himg & _).
  destruct (same_block _ _ Hlater) as (_ & _ & Hstr). fold (c_w s1) (c_w s2) in *.
  assert (Hst : block_status (w_ub (c_w s1)) b = ub_stripe_status (w_ub (c_w s1)) k).
  { unfold block_status, k. by rewrite Hstr. }
  pose proof (cf_crash _ _ _ _ _ _ _ _ _ Hcf) as Hcr. pose proof (cf_block _ _ _ _ _ _ _ _ _ Hcf) as Hb.
  destruct (cf_reload Hm) as (u1 & Hload & Hlay & Hu1). exists u1. split; [done|].
  destruct (decide (listed m k)) as [Hl|Hnl].
  - pose proof (crash_durable s2 m base k Hc2 Hq Hcr Hk Hl b Hb eq_refl) as Hd.
    rewrite (logical_same (w_ub (c_w s2)) u1 base b Hlay) by (left; by apply Hu1).
    pose proof (ci_since s2 Hc2 (b + ub_data_offset_blocks (w_ub (c_w s2)))) as Hnow.
    assert (Hbase : ∀ e, later (c_at s2 (c_since s2 (b + ub_data_offset_blocks (w_ub (c_w s2))))) e →
      later e (c_cur s2) → e_base e (b + ub_data_offset_blocks (w_ub (c_w s2))) = logical image (w_ub (e_w e)) (e_base e) b).
    { intros e He1 He2. destruct (same_block _ _ He2) as (_ & Ho & Hs). unfold c_w. rewrite Ho. symmetry.
      apply logical_base. left. unfold block_status. rewrite <-Hs. by apply (lt_fetched _ _ He1). }
    destruct (cr_block _ _ _ Hcr (b + ub_data_offset_blocks (w_ub (c_w s2)))) as [(t & Ht & ->)|(r & Hr & ->)].
    + left. exists t. split; [lia|]. apply Hbase; apply (ci_log s2 Hc2); lia.
    + right. exists r. split; [done|]. apply (Hbase (mk_moment (c_w s2) (landed s2 r) (e_disk (c_cur s2))));
        [destruct (ci_log s2 Hc2 _ (c_now s2) (conj Hnow (le_n _))) as [? ? ? ?]; by split|by split].
  - left. exists (c_now s1). split; [lia|]. unfold contents. rewrite Hlog. fold (c_w s1).
    transitivity (image b); [|symmetry]; unfold logical, block_status.
    + unfold layout_of in Hlay. assert (ub_image_block_count u1 = ub_image_block_count (w_ub (c_w s2)) ∧
        stripe_of u1 b = k) as [-> ->] by (unfold k, stripe_of; split; congruence).
      rewrite (proj2 (Z.ltb_lt _ _)) by done. rewrite bool_decide_eq_false_2; [done|]. by rewrite Hu1.
    + rewrite <-Himg, (proj2 (Z.ltb_lt _ _)) by done. by rewrite bool_decide_eq_false_2.
Qed.
End AfterFlush.
End Crash.

(** * Executable runs *)

Definition flushing (r : base_req) : bool :=
  match r with RqDataFlush _ _ _ | RqMetadataWrite _ _ _ => true | _ => false end.

#[export] Instance exclusive_flushes_dec w ev : Decision (exclusive_flushes w ev).
Proof.
  destruct ev as [| | |r b| | |]; try (left; exact I). destruct r as [ch slot o m| | |io st n| |]; try (left; exact I).
  - destruct (decide (Forall (λ r, flushing r = false) (w_pend w))) as [H|H].
    + left. abstract (rewrite Forall_forall in H; intros io st n; split; intros Hin; discriminate (H _ Hin)).
    + right. abstract (intros Hq; apply H, Forall_forall; intros [] Hin; try reflexivity; exfalso;
        destruct (Hq io start num) as [H1 H2]; auto).
  - cbn. apply _.
Defined.

Section Exec.
Context {B : Type} (image : Z → B) (payload : Z → Z → B) (meta : ubi_metadata → Z → B).
Context {E : ext_env} `{!env_ok E} (Q : world → event → Prop) `{!∀ w ev, Decision (Q w ev)}.

Fixpoint crun_events (tr : list event) (s : cstate) : option (cstate (B := B)) :=
  match tr with
  | [] => Some s
  | ev :: tr' =>
      if decide (enabled (c_w s) ev ∧ Q (c_w s) ev) then
        match run_event ev (c_w s) with
        | Done _ w' =>
            if disk_step_ok (c_p s) ev && bool_decide (serial_flushes w')
            then crun_events tr' (cnext image payload meta s ev image w' (submitted_disk (c_p s) ev)) else None
        | _ => None
        end
      else None
  end.

Lemma crun_events_sound tr : ∀ s0 tr0 s s', crun image payload meta Q s0 tr0 s → crun_events tr s = Some s' →
  crun image payload meta Q s0 (tr0 ++ tr) s'.
Proof using env_ok0.
  induction tr as [|ev tr IH]; intros s0 tr0 s s' Hrun Hev; cbn [crun_events] in Hev.
  { injection Hev as <-. by rewrite app_nil_r. }
  destruct (decide _) as [[Hen HQ]|]; [|done]. destruct (run_event ev (c_w s)) as [[] w1| |] eqn:Hs; try done.
  destruct (disk_step_ok (c_p s) ev) eqn:Hd; [|done]. destruct (bool_decide_reflect (serial_flushes w1)) as [Hser|]; [|done].
  replace (tr0 ++ ev :: tr) with ((tr0 ++ [ev]) ++ tr) by by rewrite <-app_assoc.
  refine (IH s0 _ _ _ (crun_snoc image payload meta Q s0 tr0 s E ev image w1 _ Hrun env_ok0 Hen HQ Hs (disk_step_sound (c_p s) ev Hd) Hser) Hev).
Qed.

(** A crash that loses what block [b0] was given after the moment [t]. *)
Lemma crash_loses s b0 t : cinv s → (c_since s b0 ≤ t ≤ c_now s)%nat →
  crash payload meta s (e_disk (c_cur s)) (λ b, if b =? b0 then e_base (c_at s t) b else e_base (c_cur s) b).
Proof.
  intros Hc Ht. split.
  - intros b. left. destruct (Z.eqb_spec b b0) as [->|]; [by exists t|]. exists (c_now s).
    split; [|done]. pose proof (ci_since s Hc b). lia.
  - intros k _. left. exists (c_now s). split; [|done]. pose proof (ci_since s Hc (header_off k `div` blen (c_w s))). lia.
  - left. exists 0, (c_now s). pose proof (ci_since s Hc 0). split; [done|]. split; [done|]. split; [lia|done].
Qed.
End Exec.

(** ** The new disk of [Persist.new_disk]

    Block [b] of the image is [b], of the base bdev [-1], and write [io]
    carries [1000 * io + b] for block [b]. *)
Definition new_moment : moment := mk_moment new_world (λ _, -1) metadata_zero.
Definition new_cache : cstate :=
  mk_cstate 0 (λ _, new_moment) (λ _ _ _, -2) (λ _, metadata_zero) (λ _, 0%nat) (λ _, 0%nat).
Definition any_order (w : world) (ev : event) : Prop := True.
#[export] Instance any_order_dec w ev : Decision (any_order w ev) := left I.

Lemma new_cache_initial : cinitial new_cache.
Proof. split; [exact new_disk_initial|done..]. Qed.

Definition cend (Q : world → event → Prop) `{!∀ w ev, Decision (Q w ev)} (tr : list event) (s : cstate) : cstate :=
  default s (crun_events demo_image demo_payload demo_meta (E := demo_env) Q tr s).
#[local] Notation demo_crun := (crun demo_image demo_payload demo_meta).

Lemma cend_run Q `{!∀ w ev, Decision (Q w ev)} tr s :
  bool_decide (is_Some (crun_events demo_image demo_payload demo_meta (E := demo_env) Q tr s)) = true →
  demo_crun Q s tr (cend Q tr s).
Proof.
  intros [s' Hs']%bool_decide_eq_true. unfold cend. rewrite Hs'. cbn [default from_option id].
  exact (crun_events_sound _ _ _ (E := demo_env) Q tr s [] s s' (crun_nil _ _ _ Q s) Hs').
Qed.

(** The first stripe is fetched by a write.  Then a flush arrives, and the
    second stripe is fetched before the flush, or while it waits for its data. *)
Definition arrive_flush (io : Z) : list event := [EvSubmit 1 io (demo_io SPDK_BDEV_IO_TYPE_FLUSH 0 4096); EvPoll 1].
Definition before_flush : list event := fetch_event 10 130 0 1 ++ flush_data 20 ++ flush_metadata 20.
Definition during_flush : list event :=
  arrive_flush 20 ++ fetch_event 10 130 0 1 ++ [EvBase (RqDataFlush 20 16384 4096) true] ++ flush_metadata 20.
Definition cache_fetched (Q : world → event → Prop) `{!∀ w ev, Decision (Q w ev)} : cstate := cend Q (fetch_event 11 3 0 0) new_cache.
Definition cache_before : cstate := cend exclusive_flushes before_flush (cache_fetched exclusive_flushes).
Definition cache_during : cstate := cend any_order during_flush (cache_fetched any_order).

Lemma cache_fetched_any : demo_crun any_order new_cache (fetch_event 11 3 0 0) (cache_fetched any_order).
Proof. apply cend_run. by vm_compute. Qed.
Lemma cache_fetched_exclusive : demo_crun exclusive_flushes new_cache (fetch_event 11 3 0 0) (cache_fetched exclusive_flushes).
Proof. apply cend_run. by vm_compute. Qed.
Lemma cache_before_run : demo_crun exclusive_flushes (cache_fetched exclusive_flushes) before_flush cache_before.
Proof. apply cend_run. by vm_compute. Qed.
Lemma cache_during_run : demo_crun any_order (cache_fetched any_order) during_flush cache_during.
Proof. apply cend_run. by vm_compute. Qed.

(** The crash loses what the block 131 was given after the moment [t]. *)
Definition lost_base (s : cstate) (t : nat) : Z → Z :=
  λ b, if b =? 131 + 16384 then e_base (c_at s t) b else e_base (c_cur s) b.
Definition recreated (s : cstate (B := Z)) : ubi_bdev :=
  with_metadata (λ _, e_disk (c_cur s)) (w_ub new_world).

Lemma demo_crash Q s1 tr1 s2 tr2 i b t :
  demo_crun Q new_cache tr1 s1 → demo_crun Q s1 tr2 s2 → bool_decide (20 ∉ ids [] (c_w s1)) = true →
  w_ios (c_w s2) !! 20 = Some i → io_type i = SPDK_BDEV_IO_TYPE_FLUSH → in_range i b →
  bool_decide ((20, SPDK_BDEV_IO_STATUS_SUCCESS) ∈ w_done (c_w s2)) = true →
  0 ≤ b < bd_blockcnt (ub_bdev (w_ub (c_w s2))) → layout_of (w_ub new_world) = layout_of (w_ub (c_w s2)) →
  (c_since s2 (131 + 16384) ≤ t ≤ c_now s2)%nat →
  crash_after_flush demo_image demo_payload demo_meta Q new_cache s1 s2 20 b (e_disk (c_cur s2)) (lost_base s2 t) (recreated s2).
Proof.
  intros H1 H2 Hnew%bool_decide_eq_true Hi Ht Hr Hok%bool_decide_eq_true Hb Hl Hsince.
  destruct (crun_cinv _ _ _ Q _ _ _ (cinitial_cinv new_cache new_cache_initial) H1) as [Hc1 _].
  destruct (crun_cinv _ _ _ Q _ _ _ Hc1 H2) as [Hc2 _].
  split; [exact new_cache_initial|by exists tr1|by exists tr2|exact Hnew|by exists i|exact Hok|exact Hb
    |by apply crash_loses| |exact Hl].
  split; [reflexivity|intros k; reflexivity|reflexivity|reflexivity].
Qed.

Lemma demo_flush_type (s : cstate (B := Z)) i : w_ios (c_w s) !! 20 = Some i →
  io_type <$> w_ios (c_w s) !! 20 = Some SPDK_BDEV_IO_TYPE_FLUSH → io_type i = SPDK_BDEV_IO_TYPE_FLUSH.
Proof. intros ->. by intros [= ->]. Qed.
Lemma demo_flush_range (s : cstate (B := Z)) i b : w_ios (c_w s) !! 20 = Some i →
  (λ i, (io_offset_blocks i, io_num_blocks i)) <$> w_ios (c_w s) !! 20 = Some (0, 4096) → 0 ≤ b < 4096 → in_range i b.
Proof. intros ->. intros [= Ho Hn]. unfold in_range. lia. Qed.

(** * The properties *)





(** C32. When a write of a stripe is completed while a flush waits for its data,
    the stripe is recorded as fetched before its data are durable.  In a run
    in which no request fails and the metadata writes do not overlap, a flush
    of the whole bdev succeeds, nothing is outstanding, and a block that no
    caller ever wrote had the contents of the image at every moment; a bdev
    created after a crash presents what the base bdev held before. *)
Theorem unflushed_stripe_recorded : ∃ s1 s2 io b m base u,
  crash_after_flush demo_image demo_payload demo_meta any_order new_cache s1 s2 io b m base u ∧
  w_pend (c_w s2) = [] ∧ (∀ t, (t ≤ c_now s2)%nat → contents demo_image s2 t b = demo_image b) ∧
  ∃ u1, ubi_load_metadata u = Some (0, u1) ∧ logical demo_image u1 base b = -1 ∧ demo_image b ≠ -1.
Proof.
  destruct (w_ios (c_w cache_during) !! 20) as [i|] eqn:Hi; [|vm_compute in Hi; discriminate Hi].
  exists (cache_fetched any_order), cache_during, 20, 131, (e_disk (c_cur cache_during)), (lost_base cache_during 10),
    (recreated cache_during). split; [|split; [|split]].
  - apply (demo_crash any_order _ _ _ _ i 131 10 cache_fetched_any cache_during_run).
    + vm_compute. reflexivity.
    + exact Hi.
    + exact (demo_flush_type cache_during i Hi ltac:(vm_compute; reflexivity)).
    + exact (demo_flush_range cache_during i 131 Hi ltac:(vm_compute; reflexivity) ltac:(lia)).
    + vm_compute. reflexivity.
    + vm_compute. split; [discriminate|reflexivity].
    + vm_compute. reflexivity.
    + vm_compute. split; repeat constructor.
  - vm_compute. reflexivity.
  - assert (Hall : Forall (λ t, contents demo_image cache_during t 131 = demo_image 131) (seq 0 (S (c_now cache_during))))
      by (apply (bool_decide_unpack _); vm_compute; exact I).
    rewrite Forall_forall in Hall. intros t Ht. apply Hall, elem_of_seq. lia.
  - destruct (reload_all (e_disk (c_cur cache_during)) (recreated cache_during)) as (u1 & Hload & Hpar & Hst).
    + split; [|split]; [split; [|split]|..]; vm_compute; reflexivity.
    + split; [reflexivity|intros k; reflexivity|reflexivity|reflexivity].
    + exists u1. split; [exact Hload|]. split; [|discriminate].
      rewrite (logical_same demo_image (w_ub new_world) u1).
      * vm_compute. reflexivity.
      * exact (parameters_layout _ _ Hpar).
      * left. apply Hst; [exact stripe_range_1|]. vm_compute. reflexivity.
Qed.
