(* ===== verification/Flaws.v ===== *)
(** What the assumptions of the theorems are needed for: runs in which the image
    does not end at a stripe boundary, or in which [io_uring_submit] fails, and
    data are lost without an error, or a handler is undefined. *)
From stdpp Require Import base tactics list gmap option numbers functions strings relations.
From Stdlib Require Import ZArith Lia.
From S2P Require Import Prelude Types World Layout FetchQueue Stripe Metadata Flush IoChannel Submit.
From S2P Require Import FetchProtocol IoInv Refine System Moves Outcome Books Disk Persist.

Local Open Scope Z_scope.

(** * Environments *)

(** A read of a stripe may end at the end of the image file. *)
Definition short_reads (w : world) (ev : event) : Prop :=
  match ev with EvImageRead _ (SqeRead _ nbytes _) res => res ≤ nbytes | _ => faithful w ev end.
Definition short_read_step (E : ext_env) (w : world) (ev : event) : Prop := env_ok E ∧ short_reads w ev.

#[export] Instance short_reads_dec w ev : Decision (short_reads w ev).
Proof. destruct ev as [| |ch [slot n o|io o] res| | | |]; cbn [short_reads]; apply _. Defined.

(** [io_uring_submit] may fail, also when a stripe fetch was prepared. *)
Record submit_may_fail (E : ext_env) : Prop := {
  sf_get_sqe w ch c : w_chs w !! ch = Some c → Z.of_nat (length (ring_sq (ch_ring c))) < UBI_URING_QUEUE_SIZE →
    @ext_result E w (CallGetSqe ch) ≠ 0;
  sf_submit w ch c : w_chs w !! ch = Some c → 0 ≤ @ext_result E w (CallUringSubmit ch) →
    @ext_result E w (CallUringSubmit ch) = Z.of_nat (length (ring_sq (ch_ring c)))
}.
Definition may_fail_step (E : ext_env) (w : world) (ev : event) : Prop := submit_may_fail E ∧ faithful w ev.

(** No write is submitted that has the block [b] in its range. *)
Definition untouched (b : Z) (os : list obs) : Prop :=
  Forall (λ o : obs (B := Z), match o with
    | ObArrive _ SPDK_BDEV_IO_TYPE_WRITE start num => b < start ∨ start + num ≤ b
    | _ => True end) os.
(** The caller is told that its write of block [b] was done. *)
Definition wrote (io b : Z) (os : list obs) : Prop :=
  ObArrive io SPDK_BDEV_IO_TYPE_WRITE b 1 ∈ os ∧ ObDone (B := Z) io SPDK_BDEV_IO_STATUS_SUCCESS [] ∈ os.
#[export] Instance untouched_dec b os : Decision (untouched b os).
Proof. unfold untouched. apply Forall_dec. intros [? [] ? ?|]; apply _. Defined.

(** * Running a trace *)

Definition demo_drun := drun demo_image demo_payload demo_meta.
Definition dend {E : ext_env} (P : world → event → Prop) `{!∀ w ev, Decision (P w ev)} (tr : list event)
    (s : dstate (B := Z)) : list obs * dstate :=
  default ([], s) (drun_events demo_image demo_payload demo_meta P tr s).

Lemma dend_run {E : ext_env} (P : world → event → Prop) `{!∀ w ev, Decision (P w ev)}
    (Q : ext_env → world → event → Prop) tr s0 os0 s :
  (∀ w ev, P w ev → Q E w ev) → demo_drun Q s0 os0 s →
  bool_decide (is_Some (drun_events demo_image demo_payload demo_meta P tr s)) = true →
  demo_drun Q s0 (os0 ++ (dend P tr s).1) (dend P tr s).2.
Proof.
  intros HPQ Hrun [[os s'] Hs']%bool_decide_eq_true. unfold dend. rewrite Hs'. cbn [default from_option id fst snd].
  exact (drun_events_sound demo_image demo_payload demo_meta P Q tr HPQ s0 os0 s os s' Hrun Hs').
Qed.

Lemma dend_start {E : ext_env} (P : world → event → Prop) `{!∀ w ev, Decision (P w ev)}
    (Q : ext_env → world → event → Prop) tr s :
  (∀ w ev, P w ev → Q E w ev) →
  bool_decide (is_Some (drun_events demo_image demo_payload demo_meta P tr s)) = true →
  demo_drun Q s (dend P tr s).1 (dend P tr s).2.
Proof. intros HPQ Hs. rewrite <-(app_nil_l (dend P tr s).1). apply dend_run; [done|constructor|done]. Qed.

(** * An image that ends inside a stripe *)

(** The image has one stripe and a half. *)
Definition half_ubi : ubi_bdev :=
  mk_ubi_bdev demo_bdev (mk_base_info None None) "/image" 64 128 7 16384 192 4096
    false true true (λ _, STRIPE_NOT_FETCHED) metadata_zero 0 0 0.
Definition half_disk : dstate := mk_dstate (mk_world half_ubi {[ 1 := demo_channel ]} ∅ [] [] [] [] 0) (λ _, -1) (λ _ _ _, -2) (λ _ _, -3).

(** A block beyond the image is written; then a write to the last stripe of the
    image fetches it. *)
Definition write_beyond : list event :=
  [EvSubmit 1 30 (demo_io SPDK_BDEV_IO_TYPE_WRITE 200 1); EvPoll 1;
   EvBase (RqWrite 30 (200 + 16384) 1 (mk_ext_opts 0 0 0)) true].
Definition fetch_last : list event :=
  [EvSubmit 1 31 (demo_io SPDK_BDEV_IO_TYPE_WRITE 130 1); EvPoll 1;
   EvImageRead 1 (SqeRead 0 65536 65536) 32768; EvPoll 1;
   EvBase (RqStripeWrite 1 0 (65536 + UBI_METADATA_SIZE) 65536) true; EvPoll 1;
   EvBase (RqWrite 31 (130 + 16384) 1 (mk_ext_opts 0 0 0)) true].

Definition half_written : dstate := (dend (E := demo_env) short_reads write_beyond half_disk).2.
Definition half_lost : dstate := (dend (E := demo_env) short_reads fetch_last half_written).2.

Lemma half_initial : initial (d_w half_disk).
Proof.
  destruct demo_initial as [_ _ Hc Hq]. split; [|by right|exact Hc|exact Hq].
  split_and!; [split|..]; cbn; unfold UBI_STRIPE_SIZE_MIN, UBI_STRIPE_SIZE_MAX, UBI_METADATA_SIZE, UBI_MAX_STRIPES; try lia; done.
Qed.

(** * A submission that fails *)

Definition failing_env : ext_env := λ w c, match c with CallUringSubmit _ => -16 | _ => demo_env w c end.
Definition stale_disk : dstate := mk_dstate new_world (λ _, -1) (λ _ _ _, -2) (λ _ _, -3).

(** The submission of the fetch of the first stripe fails, and the write that
    waited for it is failed.  A write to the second stripe fetches that one, in
    the same slot; the submission takes the old entry along. *)
Definition submit_first : list event := [EvSubmit 1 40 (demo_io SPDK_BDEV_IO_TYPE_WRITE 3 1)].
Definition fetch_second : list event :=
  [EvSubmit 1 41 (demo_io SPDK_BDEV_IO_TYPE_WRITE 130 1); EvPoll 1;
   EvImageRead 1 (SqeRead 0 65536 0) 65536; EvPoll 1;
   EvBase (RqStripeWrite 1 0 (65536 + UBI_METADATA_SIZE) 65536) true; EvPoll 1;
   EvBase (RqWrite 41 (130 + 16384) 1 (mk_ext_opts 0 0 0)) true].
(** The read of the second stripe is done. *)
Definition second_read : list event :=
  [EvImageRead 1 (SqeRead 0 65536 65536) 65536; EvPoll 1;
   EvBase (RqStripeWrite 1 0 (65536 + UBI_METADATA_SIZE) 65536) true].

Definition stale_submitted : list obs * dstate := dend (E := demo_env) faithful submit_first stale_disk.
Definition stale_failed : list obs * dstate := dend (E := failing_env) faithful [EvPoll 1] stale_submitted.2.
Definition stale_served : list obs * dstate := dend (E := demo_env) faithful fetch_second stale_failed.2.
Definition stale_lost : list obs * dstate := dend (E := demo_env) faithful second_read stale_served.2.

Lemma demo_may_fail w ev : faithful w ev → may_fail_step demo_env w ev.
Proof.
  split; [|done]. split; [done|]. intros w0 ch c Hc _. unfold ext_result, demo_env. by rewrite Hc.
Qed.
Lemma failing_may_fail w ev : faithful w ev → may_fail_step failing_env w ev.
Proof. split; [|done]. split; [done|]. intros w0 ch c _ Hge. unfold ext_result, failing_env in Hge. lia. Qed.

Lemma demo_short w ev : short_reads w ev → short_read_step demo_env w ev.
Proof. intros H. split; [apply _|exact H]. Qed.

Definition half_written_obs : list obs := (dend (E := demo_env) short_reads write_beyond half_disk).1.
Definition half_lost_obs : list obs := (dend (E := demo_env) short_reads fetch_last half_written).1.

Lemma half_written_run : demo_drun short_read_step half_disk half_written_obs half_written.
Proof.
  unfold half_written_obs, half_written. apply dend_start; [exact demo_short|]. vm_compute. reflexivity.
Qed.
Lemma half_lost_run : demo_drun short_read_step half_written half_lost_obs half_lost.
Proof.
  unfold half_lost_obs, half_lost. apply dend_start; [exact demo_short|]. vm_compute. reflexivity.
Qed.

Lemma stale_served_run : demo_drun may_fail_step stale_disk ((stale_submitted.1 ++ stale_failed.1) ++ stale_served.1) stale_served.2.
Proof.
  unfold stale_served. apply dend_run; [exact demo_may_fail| |vm_compute; reflexivity].
  unfold stale_failed. apply dend_run; [exact failing_may_fail| |vm_compute; reflexivity].
  unfold stale_submitted. apply dend_start; [exact demo_may_fail|]. vm_compute. reflexivity.
Qed.
Lemma stale_lost_run : demo_drun may_fail_step stale_served.2 stale_lost.1 stale_lost.2.
Proof.
  unfold stale_lost. apply dend_start; [exact demo_may_fail|]. vm_compute. reflexivity.
Qed.

(** * Submissions that fail until the ring is full *)

(** [io_uring_get_sqe] has an entry while there is room, and
    [io_uring_submit] always fails. *)
Definition full_env : ext_env := λ w c,
  match c with
  | CallUringSubmit _ => -16
  | CallGetSqe ch => match w_chs w !! ch with
                     | Some c => if Z.of_nat (length (ring_sq (ch_ring c))) <? UBI_URING_QUEUE_SIZE then 1 else 0
                     | None => 0 end
  | _ => demo_env w c
  end.
Definition may_fail (E : ext_env) (ev : event) : Prop := submit_may_fail E.

Lemma full_may_fail : submit_may_fail full_env.
Proof.
  split.
  - intros w ch c Hc Hroom. unfold ext_result, full_env. rewrite Hc. by rewrite (proj2 (Z.ltb_lt _ _) Hroom).
  - intros w ch c _ Hge. unfold ext_result, full_env in Hge. lia.
Qed.

(** An image of 64 stripes, none of them fetched. *)
Definition large_world : world :=
  mk_world (mk_ubi_bdev (mk_bdev 1 (Some "ubi0") 512 8192 true "Ubi disk" 128 true 12) (mk_base_info None None)
    "/image" 64 128 7 16384 8192 4096 false true true (λ _, STRIPE_NOT_FETCHED) metadata_zero 0 0 0)
    {[ 1 := demo_channel ]} ∅ [] [] [] [] 0.

Lemma large_initial : initial large_world.
Proof.
  destruct demo_initial as [_ _ Hc Hq]. split; [|by right|exact Hc|exact Hq].
  split_and!; [split|..]; cbn; unfold UBI_STRIPE_SIZE_MIN, UBI_STRIPE_SIZE_MAX, UBI_METADATA_SIZE, UBI_MAX_STRIPES; try lia; done.
Qed.

(** A write to each of the first [n] stripes, and a poll after each. *)
Fixpoint write_stripes (n : nat) : list event :=
  match n with
  | O => []
  | S n' => write_stripes n' ++ [EvSubmit 1 (Z.of_nat n') (demo_io SPDK_BDEV_IO_TYPE_WRITE (128 * Z.of_nat n') 1); EvPoll 1]
  end.
Definition fill_ring : list event := write_stripes 32 ++ [EvSubmit 1 32 (demo_io SPDK_BDEV_IO_TYPE_WRITE 4096 1)].
Definition full_world : world := default large_world (run_events (E := full_env) fill_ring large_world).

Lemma full_run : run may_fail large_world fill_ring full_world.
Proof.
  assert (Hs : bool_decide (is_Some (run_events (E := full_env) fill_ring large_world)) = true) by (vm_compute; reflexivity).
  apply bool_decide_eq_true in Hs as [w Hw]. unfold full_world. rewrite Hw. cbn [default from_option id].
  eapply (run_events_sound may_fail fill_ring large_world []); [apply run_nil| |exact Hw]. intros. exact full_may_fail.
Qed.

(** * The properties *)

(** C34. When the image does not end at a stripe boundary, fetching its last
    stripe destroys what was written behind the image: a write of a block
    beyond the image is completed with success and the block has its data; later
    the stripe that the block belongs to is fetched, as a whole, and the block
    has what the buffer held, though nothing was written to it.  Only the read
    that reaches the end of the file is short, and nothing fails. *)
Theorem unaligned_image_loses_write : ∃ s0 s1 s2 os1 os2 io b,
  initial (d_w s0) ∧ ub_image_block_count (w_ub (d_w s0)) `mod` ub_stripe_block_count (w_ub (d_w s0)) ≠ 0 ∧
  demo_drun short_read_step s0 os1 s1 ∧ demo_drun short_read_step s1 os2 s2 ∧
  wrote io b os1 ∧ open_ids (d_w s1) = [] ∧ logical demo_image (w_ub (d_w s1)) (d_base s1) b = demo_payload io b ∧
  untouched b os2 ∧ w_pend (d_w s2) = [] ∧
  logical demo_image (w_ub (d_w s2)) (d_base s2) b ≠ demo_payload io b.
Proof.
  exists half_disk, half_written, half_lost, half_written_obs, half_lost_obs, 30, 200.
  split; [exact half_initial|]. split; [vm_compute; discriminate|].
  split; [exact half_written_run|]. split; [exact half_lost_run|].
  split; [split; apply list_elem_of_In; vm_compute; tauto|]. split; [vm_compute; reflexivity|]. split; [vm_compute; reflexivity|].
  split; [apply (bool_decide_unpack _); vm_compute; exact I|]. split; [vm_compute; reflexivity|].
  vm_compute. discriminate.
Qed.

(** C35. When [io_uring_submit] fails in [ubi_start_fetch_stripe], the entry it
    prepared stays on the ring while its slot is free again.  The next fetch
    takes the slot, and the completion of the old read is taken for its own:
    the second stripe gets the contents of the first one and counts as
    fetched, and a write to it that is completed with success is undone when the
    read of the second stripe completes. *)
Theorem stale_fetch_entry : ∃ s0 s1 s2 os1 os2 io b b',
  initial (d_w s0) ∧ ub_image_block_count (w_ub (d_w s0)) `mod` ub_stripe_block_count (w_ub (d_w s0)) = 0 ∧
  demo_drun may_fail_step s0 os1 s1 ∧ demo_drun may_fail_step s1 os2 s2 ∧
  untouched b' os1 ∧ logical demo_image (w_ub (d_w s0)) (d_base s0) b' = demo_image b' ∧
  logical demo_image (w_ub (d_w s1)) (d_base s1) b' = demo_image (b' - ub_stripe_block_count (w_ub (d_w s1))) ∧
  wrote io b os1 ∧ open_ids (d_w s1) = [] ∧ logical demo_image (w_ub (d_w s1)) (d_base s1) b = demo_payload io b ∧
  untouched b os2 ∧ logical demo_image (w_ub (d_w s2)) (d_base s2) b ≠ demo_payload io b.
Proof.
  exists stale_disk, stale_served.2, stale_lost.2, ((stale_submitted.1 ++ stale_failed.1) ++ stale_served.1), stale_lost.1, 41, 130, 131.
  assert (H0 : initial new_world) by exact (pn_initial _ new_disk_initial).
  split; [exact H0|]. split; [vm_compute; reflexivity|].
  split; [exact stale_served_run|]. split; [exact stale_lost_run|].
  split; [apply (bool_decide_unpack _); vm_compute; exact I|]. split; [vm_compute; reflexivity|].
  split; [vm_compute; reflexivity|]. split; [split; apply list_elem_of_In; vm_compute; tauto|]. split; [vm_compute; reflexivity|]. split; [vm_compute; reflexivity|].
  split; [apply (bool_decide_unpack _); vm_compute; exact I|]. vm_compute. discriminate.
Qed.

(** C37. When [io_uring_submit] fails, as liburing documents that it may, the
    entries it left on the ring use up the submission queue, and then
    [ubi_start_fetch_stripe] writes through the NULL pointer that
    [io_uring_get_sqe] returns: after 32 submissions of stripe fetches that
    failed, each of which failed the write that waited for it, a poll of the
    channel is undefined, though nothing but submissions failed. *)
Theorem failed_submissions_undefined : ∃ w0 w tr ch c E,
  initial w0 ∧ run may_fail w0 tr w ∧ w_chs w !! ch = Some c ∧
  Z.of_nat (length (ring_sq (ch_ring c))) = UBI_URING_QUEUE_SIZE ∧ ring_inflight (ch_ring c) = [] ∧
  (w_done w).*2 = replicate 32 SPDK_BDEV_IO_STATUS_FAILED ∧
  submit_may_fail E ∧ (∀ w', w_chs w' !! ch = Some c → @ext_result E w' (CallGetSqe ch) = 0) ∧ enabled w (EvPoll ch) ∧ run_event (E := E) (EvPoll ch) w = Undef.
Proof.
  destruct (w_chs full_world !! 1) as [c|] eqn:Hc; [|vm_compute in Hc; discriminate Hc].
  exists large_world, full_world, fill_ring, 1, c, full_env.
  split; [exact large_initial|]. split; [exact full_run|]. split; [exact Hc|].
  assert (Hsq : Z.of_nat (length (ring_sq (ch_ring c))) = UBI_URING_QUEUE_SIZE) by (vm_compute in Hc; injection Hc as <-; reflexivity).
  split; [exact Hsq|]. split; [vm_compute in Hc; injection Hc as <-; reflexivity|].
  split; [vm_compute; reflexivity|]. split; [exact full_may_fail|]. split.
  { intros w' Hw'. unfold ext_result, full_env. rewrite Hw', Hsq. reflexivity. }
  split; [by exists c|]. vm_compute. reflexivity.
Qed.
