(* ===== verification/Lifecycle.v ===== *)
(** The life cycle of a ubi bdev: creation, deletion and the events of its
    base bdev, from [src/lib/bdev_ubi.c].

    [mstate] is the state of the module ([g_ubi_bdev_head], the test
    switches), the memory it allocates, and what SPDK holds on its behalf:
    descriptors, claims, channel references, registered devices and the
    callbacks that are due.  Every acquisition adds to a field and every
    release removes from it; releasing what is not held, and using memory
    that is not allocated, is [Undef]. *)
From stdpp Require Import base tactics list gmap option numbers functions strings.
From Stdlib Require Import ZArith Lia.
From S2P Require Import Prelude Types World Layout Stripe Metadata.

Local Open Scope Z_scope.

(** * Data *)

(** [struct spdk_ubi_bdev_opts]; a NULL string is [None]. *)
Record spdk_ubi_bdev_opts : Type := mk_opts {
  op_name : option string;
  op_image_path : option string;
  op_base_bdev_name : option string;
  op_stripe_size_kb : Z;
  op_no_sync : bool;
  op_copy_on_read : bool;
  op_directio : bool
}.

(** [struct ubi_create_context]; [done_fn] is the callback of [callbacks]. *)
Record ubi_create_context : Type := mk_context {
  cc_done_arg : Z;
  cc_ubi_bdev : option Z;
  cc_registered_io_device : bool;
  cc_base_ch : option Z
}.

(** The metadata read in progress: the thread that submitted it, the bdev
    whose [metadata] is the destination, the descriptor, and the blocks. *)
Record base_read : Type := mk_base_read {
  br_thread : Z;
  br_dest : Z;
  br_desc : Z;
  br_offset : Z;
  br_blocks : Z
}.

(** What is sent to the caller of an RPC method. *)
Inductive response : Type :=
| RespError (code : Z)
| RespErrorFmt (code status : Z)
| RespString (s : string)
| RespBool (b : bool).

Inductive spdk_bdev_event_type : Type :=
| SPDK_BDEV_EVENT_REMOVE
| SPDK_BDEV_EVENT_OTHER (n : Z).

(** * State *)

Record mstate : Type := mk_mstate {
  (** allocated [struct ubi_bdev]s, by address *)
  m_bdevs : gmap Z ubi_bdev;
  (** the bdevs whose duplicated name is allocated *)
  m_names : gset Z;
  (** allocated contexts, by address *)
  m_ctxs : gmap Z ubi_create_context;
  (** strings allocated by the JSON decoder *)
  m_strs : list Z;
  (** [g_ubi_bdev_head] *)
  m_head : list Z;
  (** [g_fail_calloc_ubi_bdev] *)
  m_fail_calloc : bool;
  (** [g_fail_create_channel_for_metadata_read] *)
  m_fail_channel : bool;
  (** the running thread and the application thread; 0 is NULL *)
  m_thread : Z;
  m_app_thread : Z;
  (** open descriptors with their bdev and the thread that opened them *)
  m_descs : gmap Z (spdk_bdev * Z);
  (** the bdevs the module has claimed, by address *)
  m_claims : gset Z;
  (** references to channels of base bdevs *)
  m_refs : list Z;
  (** registered I/O devices and registered bdevs *)
  m_iodevs : gset Z;
  m_regs : gset Z;
  (** metadata reads in progress, by context *)
  m_reads : gmap Z base_read;
  (** messages [ubi_close_base_bdev(desc)] sent to a thread *)
  m_msgs : list (Z * Z);
  (** bdevs being unregistered, with the argument of the callback *)
  m_unregs : list (Z * option Z);
  (** devices whose [_device_unregister_cb] is due *)
  m_devcbs : list Z;
  (** responses to RPC requests, the latest first *)
  m_resp : list (Z * response)
}.

Definition on_bdevs (f : (gmap Z ubi_bdev) → (gmap Z ubi_bdev)) (s : mstate) : mstate :=
  mk_mstate (f (m_bdevs s)) (m_names s) (m_ctxs s) (m_strs s) (m_head s)
    (m_fail_calloc s) (m_fail_channel s) (m_thread s) (m_app_thread s) (m_descs s)
    (m_claims s) (m_refs s) (m_iodevs s) (m_regs s) (m_reads s) (m_msgs s) (m_unregs s)
    (m_devcbs s) (m_resp s).
Definition on_names (f : (gset Z) → (gset Z)) (s : mstate) : mstate :=
  mk_mstate (m_bdevs s) (f (m_names s)) (m_ctxs s) (m_strs s) (m_head s)
    (m_fail_calloc s) (m_fail_channel s) (m_thread s) (m_app_thread s) (m_descs s)
    (m_claims s) (m_refs s) (m_iodevs s) (m_regs s) (m_reads s) (m_msgs s) (m_unregs s)
    (m_devcbs s) (m_resp s).
Definition on_ctxs (f : (gmap Z ubi_create_context) → (gmap Z ubi_create_context)) (s : mstate) : mstate :=
  mk_mstate (m_bdevs s) (m_names s) (f (m_ctxs s)) (m_strs s) (m_head s)
    (m_fail_calloc s) (m_fail_channel s) (m_thread s) (m_app_thread s) (m_descs s)
    (m_claims s) (m_refs s) (m_iodevs s) (m_regs s) (m_reads s) (m_msgs s) (m_unregs s)
    (m_devcbs s) (m_resp s).
Definition on_strs (f : (list Z) → (list Z)) (s : mstate) : mstate :=
  mk_mstate (m_bdevs s) (m_names s) (m_ctxs s) (f (m_strs s)) (m_head s)
    (m_fail_calloc s) (m_fail_channel s) (m_thread s) (m_app_thread s) (m_descs s)
    (m_claims s) (m_refs s) (m_iodevs s) (m_regs s) (m_reads s) (m_msgs s) (m_unregs s)
    (m_devcbs s) (m_resp s).
Definition on_head (f : (list Z) → (list Z)) (s : mstate) : mstate :=
  mk_mstate (m_bdevs s) (m_names s) (m_ctxs s) (m_strs s) (f (m_head s))
    (m_fail_calloc s) (m_fail_channel s) (m_thread s) (m_app_thread s) (m_descs s)
    (m_claims s) (m_refs s) (m_iodevs s) (m_regs s) (m_reads s) (m_msgs s) (m_unregs s)
    (m_devcbs s) (m_resp s).
Definition on_fail_calloc (f : bool → bool) (s : mstate) : mstate :=
  mk_mstate (m_bdevs s) (m_names s) (m_ctxs s) (m_strs s) (m_head s)
    (f (m_fail_calloc s)) (m_fail_channel s) (m_thread s) (m_app_thread s) (m_descs s)
    (m_claims s) (m_refs s) (m_iodevs s) (m_regs s) (m_reads s) (m_msgs s) (m_unregs s)
    (m_devcbs s) (m_resp s).
Definition on_fail_channel (f : bool → bool) (s : mstate) : mstate :=
  mk_mstate (m_bdevs s) (m_names s) (m_ctxs s) (m_strs s) (m_head s) (m_fail_calloc s)
    (f (m_fail_channel s)) (m_thread s) (m_app_thread s) (m_descs s) (m_claims s)
    (m_refs s) (m_iodevs s) (m_regs s) (m_reads s) (m_msgs s) (m_unregs s) (m_devcbs s)
    (m_resp s).
Definition on_thread (f : Z → Z) (s : mstate) : mstate :=
  mk_mstate (m_bdevs s) (m_names s) (m_ctxs s) (m_strs s) (m_head s) (m_fail_calloc s)
    (m_fail_channel s) (f (m_thread s)) (m_app_thread s) (m_descs s) (m_claims s)
    (m_refs s) (m_iodevs s) (m_regs s) (m_reads s) (m_msgs s) (m_unregs s) (m_devcbs s)
    (m_resp s).
Definition on_app_thread (f : Z → Z) (s : mstate) : mstate :=
  mk_mstate (m_bdevs s) (m_names s) (m_ctxs s) (m_strs s) (m_head s) (m_fail_calloc s)
    (m_fail_channel s) (m_thread s) (f (m_app_thread s)) (m_descs s) (m_claims s)
    (m_refs s) (m_iodevs s) (m_regs s) (m_reads s) (m_msgs s) (m_unregs s) (m_devcbs s)
    (m_resp s).
Definition on_descs (f : (gmap Z (spdk_bdev * Z)) → (gmap Z (spdk_bdev * Z))) (s : mstate) : mstate :=
  mk_mstate (m_bdevs s) (m_names s) (m_ctxs s) (m_strs s) (m_head s) (m_fail_calloc s)
    (m_fail_channel s) (m_thread s) (m_app_thread s) (f (m_descs s)) (m_claims s)
    (m_refs s) (m_iodevs s) (m_regs s) (m_reads s) (m_msgs s) (m_unregs s) (m_devcbs s)
    (m_resp s).
Definition on_claims (f : (gset Z) → (gset Z)) (s : mstate) : mstate :=
  mk_mstate (m_bdevs s) (m_names s) (m_ctxs s) (m_strs s) (m_head s) (m_fail_calloc s)
    (m_fail_channel s) (m_thread s) (m_app_thread s) (m_descs s) (f (m_claims s))
    (m_refs s) (m_iodevs s) (m_regs s) (m_reads s) (m_msgs s) (m_unregs s) (m_devcbs s)
    (m_resp s).
Definition on_refs (f : (list Z) → (list Z)) (s : mstate) : mstate :=
  mk_mstate (m_bdevs s) (m_names s) (m_ctxs s) (m_strs s) (m_head s) (m_fail_calloc s)
    (m_fail_channel s) (m_thread s) (m_app_thread s) (m_descs s) (m_claims s)
    (f (m_refs s)) (m_iodevs s) (m_regs s) (m_reads s) (m_msgs s) (m_unregs s)
    (m_devcbs s) (m_resp s).
Definition on_iodevs (f : (gset Z) → (gset Z)) (s : mstate) : mstate :=
  mk_mstate (m_bdevs s) (m_names s) (m_ctxs s) (m_strs s) (m_head s) (m_fail_calloc s)
    (m_fail_channel s) (m_thread s) (m_app_thread s) (m_descs s) (m_claims s) (m_refs s)
    (f (m_iodevs s)) (m_regs s) (m_reads s) (m_msgs s) (m_unregs s) (m_devcbs s)
    (m_resp s).
Definition on_regs (f : (gset Z) → (gset Z)) (s : mstate) : mstate :=
  mk_mstate (m_bdevs s) (m_names s) (m_ctxs s) (m_strs s) (m_head s) (m_fail_calloc s)
    (m_fail_channel s) (m_thread s) (m_app_thread s) (m_descs s) (m_claims s) (m_refs s)
    (m_iodevs s) (f (m_regs s)) (m_reads s) (m_msgs s) (m_unregs s) (m_devcbs s)
    (m_resp s).
Definition on_reads (f : (gmap Z base_read) → (gmap Z base_read)) (s : mstate) : mstate :=
  mk_mstate (m_bdevs s) (m_names s) (m_ctxs s) (m_strs s) (m_head s) (m_fail_calloc s)
    (m_fail_channel s) (m_thread s) (m_app_thread s) (m_descs s) (m_claims s) (m_refs s)
    (m_iodevs s) (m_regs s) (f (m_reads s)) (m_msgs s) (m_unregs s) (m_devcbs s)
    (m_resp s).
Definition on_msgs (f : (list (Z * Z)) → (list (Z * Z))) (s : mstate) : mstate :=
  mk_mstate (m_bdevs s) (m_names s) (m_ctxs s) (m_strs s) (m_head s) (m_fail_calloc s)
    (m_fail_channel s) (m_thread s) (m_app_thread s) (m_descs s) (m_claims s) (m_refs s)
    (m_iodevs s) (m_regs s) (m_reads s) (f (m_msgs s)) (m_unregs s) (m_devcbs s)
    (m_resp s).
Definition on_unregs (f : (list (Z * option Z)) → (list (Z * option Z))) (s : mstate) : mstate :=
  mk_mstate (m_bdevs s) (m_names s) (m_ctxs s) (m_strs s) (m_head s) (m_fail_calloc s)
    (m_fail_channel s) (m_thread s) (m_app_thread s) (m_descs s) (m_claims s) (m_refs s)
    (m_iodevs s) (m_regs s) (m_reads s) (m_msgs s) (f (m_unregs s)) (m_devcbs s)
    (m_resp s).
Definition on_devcbs (f : (list Z) → (list Z)) (s : mstate) : mstate :=
  mk_mstate (m_bdevs s) (m_names s) (m_ctxs s) (m_strs s) (m_head s) (m_fail_calloc s)
    (m_fail_channel s) (m_thread s) (m_app_thread s) (m_descs s) (m_claims s) (m_refs s)
    (m_iodevs s) (m_regs s) (m_reads s) (m_msgs s) (m_unregs s) (f (m_devcbs s))
    (m_resp s).
Definition on_resp (f : (list (Z * response)) → (list (Z * response))) (s : mstate) : mstate :=
  mk_mstate (m_bdevs s) (m_names s) (m_ctxs s) (m_strs s) (m_head s) (m_fail_calloc s)
    (m_fail_channel s) (m_thread s) (m_app_thread s) (m_descs s) (m_claims s) (m_refs s)
    (m_iodevs s) (m_regs s) (m_reads s) (m_msgs s) (m_unregs s) (m_devcbs s)
    (f (m_resp s)).

(** * The environment

    Results of the calls to the C library and to SPDK, in the state the call
    is made in. *)
Class mod_env : Type := {
  (** [calloc] of a [ubi_bdev] and of a context, [strdup]: NULL is [None] or
      [false] *)
  me_calloc : mstate → option Z;
  me_calloc_context : mstate → option Z;
  me_strdup : mstate → bool;
  (** [stat] on a path: the size, or failure *)
  me_stat : mstate → string → option Z;
  (** [spdk_bdev_open_ext]: an error, or the descriptor and its bdev *)
  me_open : mstate → option string → Z + Z * spdk_bdev;
  me_claim : mstate → Z → Z;
  me_get_channel : mstate → Z → option Z;
  me_read_blocks : mstate → base_read → Z;
  me_register : mstate → Z → Z;
  (** [spdk_bdev_unregister_by_name]: an error, or the bdev found *)
  me_unregister_by_name : mstate → option string → Z + Z;
  me_u32log2 : Z → Z
}.

(** The completion callbacks that the RPC layer passes in: [done_fn] of a
    context, with its argument, the bdev (a pointer, which may be NULL or
    dangling when the status is an error) and the status; and the callback of
    a deletion. *)
Class callbacks : Type := {
  done_fn : Z → option Z → Z → M mstate unit;
  delete_fn : Z → Z → M mstate unit
}.

(** * Field updates *)

Definition with_bdev (f : spdk_bdev → spdk_bdev) (u : ubi_bdev) : ubi_bdev :=
  mk_ubi_bdev (f (ub_bdev u)) (ub_base_bdev_info u) (ub_image_path u)
    (ub_stripe_size_kb u) (ub_stripe_block_count u) (ub_stripe_shift u)
    (ub_data_offset_blocks u) (ub_image_block_count u) (ub_alignment_bytes u)
    (ub_no_sync u) (ub_copy_on_read u) (ub_directio u) (ub_stripe_status u)
    (ub_metadata u) (ub_stripes_fetched u) (ub_stripes_flushed u) (ub_thread u).
Definition with_base_info (i : ubi_base_bdev_info) (u : ubi_bdev) : ubi_bdev :=
  mk_ubi_bdev (ub_bdev u) i (ub_image_path u)
    (ub_stripe_size_kb u) (ub_stripe_block_count u) (ub_stripe_shift u)
    (ub_data_offset_blocks u) (ub_image_block_count u) (ub_alignment_bytes u)
    (ub_no_sync u) (ub_copy_on_read u) (ub_directio u) (ub_stripe_status u)
    (ub_metadata u) (ub_stripes_fetched u) (ub_stripes_flushed u) (ub_thread u).
Definition with_thread (t : Z) (u : ubi_bdev) : ubi_bdev :=
  mk_ubi_bdev (ub_bdev u) (ub_base_bdev_info u) (ub_image_path u)
    (ub_stripe_size_kb u) (ub_stripe_block_count u) (ub_stripe_shift u)
    (ub_data_offset_blocks u) (ub_image_block_count u) (ub_alignment_bytes u)
    (ub_no_sync u) (ub_copy_on_read u) (ub_directio u) (ub_stripe_status u)
    (ub_metadata u) (ub_stripes_fetched u) (ub_stripes_flushed u) t.
Definition with_alignment_bytes (n : Z) (u : ubi_bdev) : ubi_bdev :=
  mk_ubi_bdev (ub_bdev u) (ub_base_bdev_info u) (ub_image_path u)
    (ub_stripe_size_kb u) (ub_stripe_block_count u) (ub_stripe_shift u)
    (ub_data_offset_blocks u) (ub_image_block_count u) n
    (ub_no_sync u) (ub_copy_on_read u) (ub_directio u) (ub_stripe_status u)
    (ub_metadata u) (ub_stripes_fetched u) (ub_stripes_flushed u) (ub_thread u).
Definition with_bd_name (name : option string) (b : spdk_bdev) : spdk_bdev :=
  mk_bdev (bd_addr b) name (bd_blocklen b) (bd_blockcnt b) (bd_write_cache b)
    (bd_product_name b) (bd_optimal_io_boundary b)
    (bd_split_on_optimal_io_boundary b) (bd_required_alignment b).

(** The structure [calloc] returns; [bdev] is its first member. *)
Definition ubi_bdev_calloc (p : Z) : ubi_bdev :=
  mk_ubi_bdev (mk_bdev p None 0 0 false "" 0 false 0) (mk_base_info None None)
    "" 0 0 0 0 0 0 false false false (λ _, STRIPE_NOT_FETCHED)
    (mk_metadata (replicate 9 0) [0; 0] [0; 0] 0 (λ _, (0, 0)) (λ _, 0)) 0 0 0.

(** [strncpy(dst, src, UBI_PATH_LEN); dst[UBI_PATH_LEN - 1] = 0]. *)
Definition copy_path (src : string) : string :=
  String.substring 0 (Z.to_nat (UBI_PATH_LEN - 1)) src.

(** The options, and the image path, copied into the bdev. *)
Definition with_options (o : spdk_ubi_bdev_opts) (image_path : string) (u : ubi_bdev)
    : ubi_bdev :=
  mk_ubi_bdev (ub_bdev u) (ub_base_bdev_info u) (copy_path image_path)
    (op_stripe_size_kb o) (ub_stripe_block_count u) (ub_stripe_shift u)
    (ub_data_offset_blocks u) (ub_image_block_count u) (ub_alignment_bytes u)
    (op_no_sync o) (op_copy_on_read o) (op_directio o) (ub_stripe_status u)
    (ub_metadata u) (ub_stripes_fetched u) (ub_stripes_flushed u) (ub_thread u).

Definition with_cc_ubi_bdev (p : Z) (c : ubi_create_context) : ubi_create_context :=
  mk_context (cc_done_arg c) (Some p) (cc_registered_io_device c) (cc_base_ch c).
Definition with_cc_registered (c : ubi_create_context) : ubi_create_context :=
  mk_context (cc_done_arg c) (cc_ubi_bdev c) true (cc_base_ch c).
Definition with_cc_base_ch (r : option Z) (c : ubi_create_context) : ubi_create_context :=
  mk_context (cc_done_arg c) (cc_ubi_bdev c) (cc_registered_io_device c) r.

(** * Memory *)

Definition require (P : Prop) `{Decision P} : M mstate unit :=
  if decide P then mret tt else undef.

Definition get_bdev (p : Z) : M mstate ubi_bdev :=
  s ← gets id; of_option (m_bdevs s !! p).
Definition put_bdev (p : Z) (u : ubi_bdev) : M mstate unit :=
  modify (on_bdevs <[p := u]>).
Definition upd_bdev (p : Z) (f : ubi_bdev → ubi_bdev) : M mstate unit :=
  u ← get_bdev p; put_bdev p (f u).
Definition get_ctx (ctx : Z) : M mstate ubi_create_context :=
  s ← gets id; of_option (m_ctxs s !! ctx).
Definition upd_ctx (ctx : Z) (f : ubi_create_context → ubi_create_context) : M mstate unit :=
  c ← get_ctx ctx; modify (on_ctxs <[ctx := f c]>).

(** A function on the bdev at an address. *)
Definition in_bdev {A} (p : Z) (m : M ubi_bdev A) : M mstate A :=
  u ← get_bdev p;
  match m u with
  | Done a u' => put_bdev p u';; mret a
  | Undef => undef
  | NoFuel => nofuel
  end.

Definition free_bdev (p : Z) : M mstate unit :=
  _ ← get_bdev p; modify (on_bdevs (delete p)).
(** [free(ubi_bdev->bdev.name)]; [free(NULL)] does nothing. *)
Definition free_name (p : Z) : M mstate unit :=
  u ← get_bdev p;
  match bd_name (ub_bdev u) with
  | None => mret tt
  | Some _ =>
      s ← gets id; require (p ∈ m_names s);; modify (on_names (λ l, l ∖ {[ p ]}))
  end.
Definition free_context (ctx : Z) : M mstate unit :=
  _ ← get_ctx ctx; modify (on_ctxs (delete ctx)).

(** * Calls to the C library and SPDK *)

Section Lifecycle.
Context {E : mod_env} {CB : callbacks}.

Definition calloc_ubi_bdev : M mstate (option Z) :=
  s ← gets id;
  match me_calloc s with
  | None => mret None
  | Some p => put_bdev p (ubi_bdev_calloc p);; mret (Some p)
  end.

(** [ubi_bdev->bdev.name = strdup(name)]: the value assigned. *)
Definition strdup_name (p : Z) (name : string) : M mstate (option string) :=
  s ← gets id;
  if me_strdup s then modify (on_names ({[ p ]} ∪.));; mret (Some name) else mret None.

Definition spdk_bdev_open_ext (name : option string) : M mstate (Z + Z * spdk_bdev) :=
  s ← gets id;
  match me_open s name with
  | inl rc => mret (inl rc)
  | inr (desc, bdev) =>
      modify (on_descs <[desc := (bdev, m_thread s)]>);; mret (inr (desc, bdev))
  end.

(** A descriptor is closed on the thread that opened it. *)
Definition spdk_bdev_close (desc : option Z) : M mstate unit :=
  desc ← of_option desc;
  s ← gets id;
  d ← of_option (m_descs s !! desc);
  require (d.2 = m_thread s);;
  modify (on_descs (delete desc)).

Definition spdk_bdev_module_claim_bdev (bdev : spdk_bdev) : M mstate Z :=
  s ← gets id;
  let rc := me_claim s (bd_addr bdev) in
  if rc =? 0 then modify (on_claims ({[ bd_addr bdev ]} ∪.));; mret rc else mret rc.

Definition spdk_bdev_module_release_bdev (bdev : option spdk_bdev) : M mstate unit :=
  bdev ← of_option bdev;
  s ← gets id;
  require (bd_addr bdev ∈ m_claims s);;
  modify (on_claims (λ l, l ∖ {[ bd_addr bdev ]})).

Definition spdk_bdev_get_io_channel (desc : option Z) : M mstate (option Z) :=
  desc ← of_option desc;
  s ← gets id;
  require (is_Some (m_descs s !! desc));;
  match me_get_channel s desc with
  | None => mret None
  | Some r => modify (on_refs (r ::.));; mret (Some r)
  end.

Definition spdk_put_io_channel (r : option Z) : M mstate unit :=
  r ← of_option r;
  s ← gets id;
  l ← of_option (remove_one r (m_refs s));
  modify (on_refs (λ _, l)).

(** [spdk_bdev_read_blocks] into the metadata of [p], callback
    [ubi_finish_read_metadata] with argument [ctx]. *)
Definition spdk_bdev_read_blocks (ctx : Z) (p : Z) (desc : option Z) (offset blocks : Z)
    : M mstate Z :=
  desc ← of_option desc;
  s ← gets id;
  let r := mk_base_read (m_thread s) p desc offset blocks in
  let rc := me_read_blocks s r in
  if rc =? 0 then modify (on_reads <[ctx := r]>);; mret rc else mret rc.

(** [spdk_bdev_free_io] of the completed metadata read of [ctx]. *)
Definition spdk_bdev_free_read (ctx : Z) : M mstate unit :=
  s ← gets id;
  require (is_Some (m_reads s !! ctx));;
  modify (on_reads (delete ctx)).

Definition spdk_io_device_register (p : Z) : M mstate unit :=
  modify (on_iodevs ({[ p ]} ∪.)).

(** [has_cb]: whether [_device_unregister_cb] is to be called. *)
Definition spdk_io_device_unregister (p : Z) (has_cb : bool) : M mstate unit :=
  s ← gets id;
  require (p ∈ m_iodevs s);;
  modify (on_iodevs (λ l, l ∖ {[ p ]}));;
  if has_cb then modify (on_devcbs (p ::.)) else mret tt.

Definition spdk_bdev_register (p : Z) : M mstate Z :=
  s ← gets id;
  let rc := me_register s p in
  if rc =? 0 then modify (on_regs ({[ p ]} ∪.));; mret rc else mret rc.

(** An unregistration is started once: a later one without a callback has no
    effect. *)
Definition spdk_bdev_unregister (p : Z) : M mstate unit :=
  s ← gets id;
  require (p ∈ m_regs s);;
  if decide (p ∈ (m_unregs s).*1) then mret tt
  else modify (on_unregs ((p, None) ::.)).

Definition spdk_bdev_unregister_by_name (name : option string) (cb_arg : Z) : M mstate Z :=
  s ← gets id;
  match me_unregister_by_name s name with
  | inl rc => mret rc
  | inr p => modify (on_unregs ((p, Some cb_arg) ::.));; mret 0
  end.

(** * Functions of [bdev_ubi.c] *)

(** [configure_base_bdev(name, write, &ubi_bdev->base_bdev_info)] for the bdev
    at [p]; the assertion is that of the source.  A call of
    [spdk_bdev_open_ext] that returned 0 has set [desc]. *)
Definition configure_base_bdev (name : option string) (p : Z) : M mstate Z :=
  s ← gets id;
  require (m_thread s = m_app_thread s);;
  r ← spdk_bdev_open_ext name;
  match r with
  | inl rc => require (rc ≠ 0);; mret rc
  | inr (desc, bdev) =>
      rc ← spdk_bdev_module_claim_bdev bdev;
      if c_true rc then spdk_bdev_close (Some desc);; mret rc
      else
        upd_bdev p (with_base_info (mk_base_info (Some bdev) (Some desc)));; mret 0
  end.

Definition ubi_finish_create (status : Z) (ctx : Z) : M mstate unit :=
  c ← get_ctx ctx;
  status ← (if status =? 0 then
      p ← of_option (cc_ubi_bdev c);
      _ ← get_bdev p;
      rc ← spdk_bdev_register p;
      if c_true rc then mret rc
      else modify (on_head (.++ [p]));; mret rc
    else mret status);
  (if c_true status then
     match cc_ubi_bdev c with
     | None => mret tt
     | Some p =>
         u ← get_bdev p;
         (if decide (is_Some (bi_desc (ub_base_bdev_info u))) then
            spdk_bdev_module_release_bdev (bi_bdev (ub_base_bdev_info u));;
            spdk_bdev_close (bi_desc (ub_base_bdev_info u))
          else mret tt);;
         (if cc_registered_io_device c then spdk_io_device_unregister p false else mret tt);;
         free_name p;;
         free_bdev p
     end
   else mret tt);;
  done_fn (cc_done_arg c) (cc_ubi_bdev c) status;;
  free_context ctx.

Definition ubi_start_read_metadata (p : Z) (ctx : Z) : M mstate unit :=
  u ← get_bdev p;
  let base_desc := bi_desc (ub_base_bdev_info u) in
  fail ← gets m_fail_channel;
  base_ch ← (if fail : bool then mret None else spdk_bdev_get_io_channel base_desc);
  upd_ctx ctx (with_cc_base_ch base_ch);;
  match base_ch with
  | None => ubi_finish_create (- ENOMEM) ctx
  | Some _ =>
      require (bd_blocklen (ub_bdev u) ≠ 0);;
      let block_cnt := i32 (UBI_METADATA_SIZE `div` bd_blocklen (ub_bdev u)) in
      ret ← spdk_bdev_read_blocks ctx p base_desc 0 block_cnt;
      if c_true ret then ubi_finish_create ret ctx else mret tt
  end.

(** The properties taken over from the base bdev, and the ones set. *)
Definition setup_bdev (base : spdk_bdev) (u : ubi_bdev) : ubi_bdev :=
  let u := with_bdev (λ b, mk_bdev (bd_addr b) (bd_name b) (bd_blocklen base)
      (u64 (bd_blockcnt base - ub_data_offset_blocks u)) (bd_write_cache base) "Ubi disk"
      (ub_stripe_block_count u) true (bd_required_alignment b)) u in
  let u := with_alignment_bytes 4096 u in
  with_bdev (λ b, mk_bdev (bd_addr b) (bd_name b) (bd_blocklen b) (bd_blockcnt b)
      (bd_write_cache b) (bd_product_name b) (bd_optimal_io_boundary b)
      (bd_split_on_optimal_io_boundary b) (me_u32log2 (ub_alignment_bytes u))) u.

Definition bdev_ubi_create (opts : option spdk_ubi_bdev_opts) (ctx : Z) : M mstate unit :=
  match opts with
  | None => ubi_finish_create (- EINVAL) ctx
  | Some o =>
      fail ← gets m_fail_calloc;
      ubi_bdev ← (if fail : bool then mret None else calloc_ubi_bdev);
      match ubi_bdev with
      | None => ubi_finish_create (- ENOMEM) ctx
      | Some p =>
          upd_ctx ctx (with_cc_ubi_bdev p);;
          name ← (match op_name o with Some n => strdup_name p n | None => mret None end);
          upd_bdev p (with_bdev (with_bd_name name));;
          match name with
          | None => ubi_finish_create (- ENOMEM) ctx
          | Some _ =>
              t ← gets m_thread;
              upd_bdev p (with_thread t);;
              rc ← configure_base_bdev (op_base_bdev_name o) p;
              if c_true rc then ubi_finish_create rc ctx
              else
                image_path ← of_option (op_image_path o);
                upd_bdev p (with_options o image_path);;
                u ← get_bdev p;
                s ← gets id;
                rc ← in_bdev p (ubi_init_layout_params (me_stat s (ub_image_path u)));
                if c_true rc then ubi_finish_create rc ctx
                else
                  base ← of_option (bi_bdev (ub_base_bdev_info u));
                  upd_bdev p (setup_bdev base);;
                  spdk_io_device_register p;;
                  upd_ctx ctx with_cc_registered;;
                  ubi_start_read_metadata p ctx
          end
      end
  end.

Definition ubi_finish_read_metadata (success : bool) (ctx : Z) : M mstate unit :=
  spdk_bdev_free_read ctx;;
  c ← get_ctx ctx;
  spdk_put_io_channel (cc_base_ch c);;
  if negb success then ubi_finish_create (- EIO) ctx
  else
    p ← of_option (cc_ubi_bdev c);
    u ← get_bdev p;
    '(status, u') ← of_option (ubi_load_metadata u);
    put_bdev p u';;
    ubi_finish_create status ctx.

(** [bdev_ubi_delete(bdev_name, cb_fn, cb_arg)]. *)
Definition bdev_ubi_delete (bdev_name : option string) (cb_arg : Z) : M mstate unit :=
  rc ← spdk_bdev_unregister_by_name bdev_name cb_arg;
  if c_true rc then delete_fn cb_arg rc else mret tt.

Definition device_unregister_cb (p : Z) : M mstate unit :=
  free_name p;; free_bdev p.

Definition ubi_close_base_bdev (desc : option Z) : M mstate unit := spdk_bdev_close desc.

Definition ubi_destruct (p : Z) : M mstate Z :=
  u ← get_bdev p;
  s ← gets id;
  l ← of_option (remove_one p (m_head s));
  modify (on_head (λ _, l));;
  spdk_bdev_module_release_bdev (bi_bdev (ub_base_bdev_info u));;
  (if c_true (ub_thread u) && negb (ub_thread u =? m_thread s) then
     desc ← of_option (bi_desc (ub_base_bdev_info u));
     modify (on_msgs (.++ [(ub_thread u, desc)]))
   else ubi_close_base_bdev (bi_desc (ub_base_bdev_info u)));;
  spdk_io_device_unregister p true;;
  mret 0.

(** [ubi_bdev_find_by_base_bdev]: the first bdev of the list over the base bdev
    at [base]. *)
Fixpoint find_by_base_bdev (base : Z) (l : list Z) : M mstate (option Z) :=
  match l with
  | [] => mret None
  | p :: l' =>
      u ← get_bdev p;
      if decide (bd_addr <$> bi_bdev (ub_base_bdev_info u) = Some base)
      then mret (Some p) else find_by_base_bdev base l'
  end.
Definition ubi_bdev_find_by_base_bdev (base : Z) : M mstate (option Z) :=
  l ← gets m_head; find_by_base_bdev base l.

Definition ubi_handle_base_bdev_remove_event (base : Z) : M mstate unit :=
  r ← ubi_bdev_find_by_base_bdev base;
  match r with
  | None => mret tt
  | Some p => spdk_bdev_unregister p
  end.

Definition ubi_handle_base_bdev_event (type : spdk_bdev_event_type) (base : Z) : M mstate unit :=
  match type with
  | SPDK_BDEV_EVENT_REMOVE => ubi_handle_base_bdev_remove_event base
  | SPDK_BDEV_EVENT_OTHER _ => mret tt
  end.

(** The switches of [include/bdev_ubi_test_control.h]. *)
Definition ubi_fail_create_channel_for_metadata_read (fail : bool) : M mstate unit :=
  modify (on_fail_channel (λ _, fail)).
Definition ubi_fail_calloc_ubi_bdev (fail : bool) : M mstate unit :=
  modify (on_fail_calloc (λ _, fail)).
End Lifecycle.
