(* ===== verification/Rpc.v ===== *)
(** The JSON-RPC interface: [src/lib/bdev_ubi_rpc.c], and
    [ubi_write_config_json] of [src/lib/bdev_ubi.c].

    SPDK's JSON decoder is a parameter, [json_decoder]; the tables of field
    decoders it is given are those of the source. *)
From stdpp Require Import base tactics list gmap option numbers functions strings.
From Stdlib Require Import ZArith Lia.
From S2P Require Import Prelude Types World Lifecycle.

Local Open Scope Z_scope.

(** * Data *)

(** JSON values of the parameters, and the members of a JSON object. *)
Inductive json : Type :=
| JString (s : string)
| JNumber (n : Z)
| JBool (b : bool).
Notation json_object := (list (string * json)) (only parsing).

(** A string the decoder allocated: its address and its characters. *)
Notation c_string := (option (Z * string)) (only parsing).

Record rpc_construct_ubi : Type := mk_construct {
  rc_name : c_string;
  rc_image_path : c_string;
  rc_base_bdev_name : c_string;
  rc_stripe_size_kb : Z;
  rc_no_sync : bool;
  rc_copy_on_read : bool;
  rc_directio : bool
}.

(** The members a decoder writes ([offsetof]), and the decoding functions. *)
Inductive rpc_field : Type :=
| F_name | F_image_path | F_base_bdev_name | F_stripe_size_kb
| F_no_sync | F_copy_on_read | F_directio.
Inductive decode_func : Type :=
| spdk_json_decode_string | spdk_json_decode_uint32 | spdk_json_decode_bool.

(** [struct spdk_json_object_decoder]. *)
Record spdk_json_object_decoder : Type := mk_decoder {
  dec_name : string;
  dec_field : rpc_field;
  dec_func : decode_func;
  dec_optional : bool
}.

Definition rpc_construct_ubi_decoders : list spdk_json_object_decoder :=
  [mk_decoder "name" F_name spdk_json_decode_string false;
   mk_decoder "image_path" F_image_path spdk_json_decode_string false;
   mk_decoder "base_bdev" F_base_bdev_name spdk_json_decode_string false;
   mk_decoder "stripe_size_kb" F_stripe_size_kb spdk_json_decode_uint32 false;
   mk_decoder "no_sync" F_no_sync spdk_json_decode_bool true;
   mk_decoder "copy_on_read" F_copy_on_read spdk_json_decode_bool true;
   mk_decoder "directio" F_directio spdk_json_decode_bool true].

(** [struct rpc_delete_ubi] is its only member [name]. *)
Definition rpc_delete_ubi_decoders : list spdk_json_object_decoder :=
  [mk_decoder "name" F_name spdk_json_decode_string false].

(** JSON-RPC error codes. *)
Definition SPDK_JSONRPC_ERROR_INVALID_PARAMS : Z := -32602.
Definition SPDK_JSONRPC_ERROR_INTERNAL_ERROR : Z := -32603.

(** [spdk_json_decode_object] on a table, the parameters and the structure:
    the return code and the structure afterwards. *)
Class json_decoder : Type :=
  spdk_json_decode_object : list spdk_json_object_decoder → json_object →
    rpc_construct_ubi → Z * rpc_construct_ubi.

(** * Functions of the source *)

Definition respond (request : Z) (r : response) : M mstate unit :=
  modify (on_resp ((request, r) ::.)).

(** [bdev] is dereferenced only when the status is 0. *)
Definition bdev_ubi_create_done (request : Z) (bdev : option Z) (status : Z) : M mstate unit :=
  if status <? 0 then respond request (RespError status)
  else if 0 <? status then
    respond request (RespErrorFmt SPDK_JSONRPC_ERROR_INVALID_PARAMS status)
  else
    p ← of_option bdev;
    u ← get_bdev p;
    name ← of_option (bd_name (ub_bdev u));
    respond request (RespString name).

Definition rpc_bdev_ubi_delete_cb (request : Z) (bdeverrno : Z) : M mstate unit :=
  if bdeverrno =? 0 then respond request (RespBool true)
  else respond request (RespError bdeverrno).

#[export] Instance rpc_callbacks : callbacks := {
  done_fn := bdev_ubi_create_done;
  delete_fn := rpc_bdev_ubi_delete_cb
}.

(** The strings a structure owns, as their addresses; [struct rpc_delete_ubi]
    has only the name. *)
Definition owned_name (req : rpc_construct_ubi) : list Z := option_list (fst <$> rc_name req).
Definition owned_strings (req : rpc_construct_ubi) : list Z :=
  option_list (fst <$> rc_name req) ++ option_list (fst <$> rc_image_path req) ++
  option_list (fst <$> rc_base_bdev_name req).

(** [free] of a decoded string. *)
Definition free_string (s : c_string) : M mstate unit :=
  match s with
  | None => mret tt
  | Some (a, _) =>
      s ← gets id;
      l ← of_option (remove_one a (m_strs s));
      modify (on_strs (λ _, l))
  end.

Definition free_rpc_construct_ubi (req : rpc_construct_ubi) : M mstate unit :=
  free_string (rc_name req);;
  free_string (rc_image_path req);;
  free_string (rc_base_bdev_name req).

Section Rpc.
Context {E : mod_env} {J : json_decoder}.

(** [owned]: the strings of the structure that is decoded into. *)
Definition decode_object (owned : rpc_construct_ubi → list Z)
    (table : list spdk_json_object_decoder) (params : json_object)
    (req : rpc_construct_ubi) : M mstate (Z * rpc_construct_ubi) :=
  let r := spdk_json_decode_object table params req in
  modify (on_strs (owned r.2 ++.));; mret r.

(** [calloc] of a context with its two members set; NULL is not checked. *)
Definition calloc_context (done_arg : Z) : M mstate Z :=
  s ← gets id;
  ctx ← of_option (me_calloc_context s);
  modify (on_ctxs <[ctx := mk_context done_arg None false None]>);;
  mret ctx.

(** The defaults of the optional parameters. *)
Definition construct_defaults : rpc_construct_ubi :=
  mk_construct None None None 0 false true true.

Definition opts_of (req : rpc_construct_ubi) : spdk_ubi_bdev_opts :=
  mk_opts (snd <$> rc_name req) (snd <$> rc_image_path req) (snd <$> rc_base_bdev_name req)
    (rc_stripe_size_kb req) (rc_no_sync req) (rc_copy_on_read req) (rc_directio req).

Definition rpc_bdev_ubi_create (request : Z) (params : json_object) : M mstate unit :=
  '(rc, req) ← decode_object owned_strings rpc_construct_ubi_decoders params
                 construct_defaults;
  if c_true rc then
    respond request (RespError SPDK_JSONRPC_ERROR_INTERNAL_ERROR);;
    free_rpc_construct_ubi req
  else
    context ← calloc_context request;
    bdev_ubi_create (Some (opts_of req)) context;;
    free_rpc_construct_ubi req.

Definition rpc_bdev_ubi_delete (request : Z) (params : json_object) : M mstate unit :=
  '(rc, req) ← decode_object owned_name rpc_delete_ubi_decoders params
                 (mk_construct None None None 0 false false false);
  if c_true rc then
    respond request (RespError SPDK_JSONRPC_ERROR_INTERNAL_ERROR)
  else
    bdev_ubi_delete (snd <$> rc_name req) request;;
    free_string (rc_name req).

(** [ubi_write_config_json]: the method and the parameters it writes; [None]
    when it reads through a NULL pointer. *)
Definition ubi_write_config_json (u : ubi_bdev) : option (string * json_object) :=
  name ← bd_name (ub_bdev u);
  base ← bi_bdev (ub_base_bdev_info u);
  base_name ← bd_name base;
  Some ("bdev_ubi_create"%string,
    [("name"%string, JString name);
     ("base_bdev"%string, JString base_name);
     ("image_path"%string, JString (ub_image_path u));
     ("stripe_size_kb"%string, JNumber (ub_stripe_size_kb u));
     ("copy_on_read"%string, JBool (ub_copy_on_read u));
     ("directio"%string, JBool (ub_directio u));
     ("no_sync"%string, JBool (ub_no_sync u))]).
End Rpc.

(** * The decoder's documented behaviour *)

Definition no_nul (s : string) : bool :=
  forallb (λ c, negb (Ascii.eqb c Ascii.zero)) (String.list_ascii_of_string s).

Definition json_has_kind (f : decode_func) (v : json) : bool :=
  match f, v with
  | spdk_json_decode_string, JString s => no_nul s
  | spdk_json_decode_uint32, JNumber n => (0 <=? n) && (n <? 2 ^ 32)
  | spdk_json_decode_bool, JBool _ => true
  | _, _ => false
  end.

(** The value of a member; a NULL string is [None]. *)
Definition get_field (f : rpc_field) (r : rpc_construct_ubi) : option json :=
  match f with
  | F_name => JString ∘ snd <$> rc_name r
  | F_image_path => JString ∘ snd <$> rc_image_path r
  | F_base_bdev_name => JString ∘ snd <$> rc_base_bdev_name r
  | F_stripe_size_kb => Some (JNumber (rc_stripe_size_kb r))
  | F_no_sync => Some (JBool (rc_no_sync r))
  | F_copy_on_read => Some (JBool (rc_copy_on_read r))
  | F_directio => Some (JBool (rc_directio r))
  end.

Fixpoint json_lookup (k : string) (o : json_object) : option json :=
  match o with
  | [] => None
  | (k', v) :: o => if decide (k' = k) then Some v else json_lookup k o
  end.

(** The objects a table describes: known keys, each at most once and with a
    value its function decodes, and the keys that are not optional. *)
Definition table_accepts (table : list spdk_json_object_decoder) (o : json_object) : Prop :=
  NoDup o.*1 ∧
  Forall (λ p, Exists (λ d, dec_name d = p.1 ∧ json_has_kind (dec_func d) p.2 = true) table) o ∧
  Forall (λ d, dec_optional d = true ∨ dec_name d ∈ o.*1) table.
#[export] Instance table_accepts_dec table o : Decision (table_accepts table o).
Proof. unfold table_accepts. apply _. Defined.

Definition rpc_tables : list (list spdk_json_object_decoder) :=
  [rpc_construct_ubi_decoders; rpc_delete_ubi_decoders].

(** The decoder succeeds exactly on those, writing the members of the keys
    that are present and leaving the others alone. *)
Class json_decoder_ok (J : json_decoder) : Prop := {
  jd_accepts table o r : table ∈ rpc_tables →
    (spdk_json_decode_object table o r).1 = 0 ↔ table_accepts table o;
  jd_field table o r d : table ∈ rpc_tables → d ∈ table →
    (spdk_json_decode_object table o r).1 = 0 →
    get_field (dec_field d) (spdk_json_decode_object table o r).2 =
    match json_lookup (dec_name d) o with
    | Some v => Some v
    | None => get_field (dec_field d) r
    end
}.
