(* ===== verification/LifeSpec.v ===== *)
(** Exact effects of the operations of [Lifecycle] and [Rpc]: a creation that
    fails gives back everything it took, a creation that succeeds holds a
    name, a descriptor, a claim and an I/O device, and a deletion releases
    them. *)
From stdpp Require Import base tactics list gmap option numbers functions strings sets.
From Stdlib Require Import ZArith Lia.
From S2P Require Import Prelude Types World Layout Stripe Metadata Lifecycle Rpc.

Local Open Scope Z_scope.

(** * The environment's documented behaviour *)

(** A base bdev that can be opened. *)
Definition base_ok (b : spdk_bdev) : Prop :=
  0 < bd_blocklen b < 2 ^ 32 ∧ 0 ≤ bd_blockcnt b ∧ bd_blockcnt b * bd_blocklen b < 2 ^ 63.

(** Allocations and descriptors are fresh, an exclusive claim is given once,
    errors are not 0, and [calloc] of a context succeeds (its result is not
    checked). *)
Class mod_env_ok (E : mod_env) : Prop := {
  mo_calloc s p : me_calloc s = Some p → m_bdevs s !! p = None;
  mo_context s : ∃ ctx, me_calloc_context s = Some ctx ∧ m_ctxs s !! ctx = None;
  mo_open_err s n rc : me_open s n = inl rc → rc ≠ 0;
  mo_open s n d b : me_open s n = inr (d, b) → m_descs s !! d = None ∧ base_ok b;
  mo_claim s a : me_claim s a = 0 → a ∉ m_claims s;
  mo_stat s path n : me_stat s path = Some n → 0 ≤ n < 2 ^ 62;
  mo_by_name_err s n rc : me_unregister_by_name s n = inl rc → rc ≠ 0;
  mo_by_name s n p : me_unregister_by_name s n = inr p → p ∈ m_regs s ∧ p ∉ (m_unregs s).*1
}.

(** * Rules of the accesses and calls *)

Lemma mstate_ext s1 s2 :
  m_bdevs s1 = m_bdevs s2 → m_names s1 = m_names s2 → m_ctxs s1 = m_ctxs s2 →
  m_strs s1 = m_strs s2 → m_head s1 = m_head s2 → m_fail_calloc s1 = m_fail_calloc s2 →
  m_fail_channel s1 = m_fail_channel s2 → m_thread s1 = m_thread s2 →
  m_app_thread s1 = m_app_thread s2 → m_descs s1 = m_descs s2 → m_claims s1 = m_claims s2 →
  m_refs s1 = m_refs s2 → m_iodevs s1 = m_iodevs s2 → m_regs s1 = m_regs s2 →
  m_reads s1 = m_reads s2 → m_msgs s1 = m_msgs s2 → m_unregs s1 = m_unregs s2 →
  m_devcbs s1 = m_devcbs s2 → m_resp s1 = m_resp s2 → s1 = s2.
Proof. destruct s1, s2. simpl. intros. by subst. Qed.

(** The fields of an updated state. *)
Ltac mcbn :=
  cbn [m_bdevs m_names m_ctxs m_strs m_head m_fail_calloc m_fail_channel m_thread m_app_thread
       m_descs m_claims m_refs m_iodevs m_regs m_reads m_msgs m_unregs m_devcbs m_resp
       on_bdevs on_names on_ctxs on_strs on_head on_fail_calloc on_fail_channel on_thread
       on_app_thread on_descs on_claims on_refs on_iodevs on_regs on_reads on_msgs on_unregs
       on_devcbs on_resp fst snd] in *.

Section Rules.
Context {E : mod_env}.
Implicit Types (s : mstate) (u : ubi_bdev).

Lemma wp_require (P : Prop) `{Decision P} s (Q : unit → mstate → Prop) :
  P → Q tt s → wp (require P) s Q.
Proof. intros HP HQ. unfold require. by rewrite decide_True. Qed.
Lemma wp_get_bdev p u s Q : m_bdevs s !! p = Some u → Q u s → wp (get_bdev p) s Q.
Proof. intros Hu HQ. apply wp_bind, wp_gets. by eapply wp_of_option. Qed.
Lemma wp_put_bdev p u s (Q : unit → mstate → Prop) :
  Q tt (on_bdevs <[p := u]> s) → wp (put_bdev p u) s Q.
Proof. done. Qed.
Lemma wp_upd_bdev p f u s (Q : unit → mstate → Prop) :
  m_bdevs s !! p = Some u → Q tt (on_bdevs <[p := f u]> s) → wp (upd_bdev p f) s Q.
Proof. intros Hu HQ. apply wp_bind. by apply wp_get_bdev with u. Qed.
Lemma wp_get_ctx ctx c s Q : m_ctxs s !! ctx = Some c → Q c s → wp (get_ctx ctx) s Q.
Proof. intros Hu HQ. apply wp_bind, wp_gets. by eapply wp_of_option. Qed.
Lemma wp_upd_ctx ctx f c s (Q : unit → mstate → Prop) :
  m_ctxs s !! ctx = Some c → Q tt (on_ctxs <[ctx := f c]> s) → wp (upd_ctx ctx f) s Q.
Proof. intros Hu HQ. apply wp_bind. by apply wp_get_ctx with c. Qed.
Lemma wp_in_bdev {A} p (m : M ubi_bdev A) u s (Q : A → mstate → Prop) :
  m_bdevs s !! p = Some u → wp m u (λ a u', Q a (on_bdevs <[p := u']> s)) →
  wp (in_bdev p m) s Q.
Proof.
  intros Hu HQ. apply wp_bind, wp_get_bdev with u; [done|]. unfold wp in *.
  by destruct (m u).
Qed.
End Rules.

Ltac m_look :=
  mcbn; rewrite ?lookup_insert_eq;
  first [eassumption | reflexivity | by simplify_map_eq | idtac].

(** [m_step] applies the rule of the first operation. *)
Ltac m_step :=
  lazymatch goal with
  | |- wp (mbind _ _) _ _ => apply wp_bind; m_step
  | |- wp (mret _) _ _ => apply wp_ret
  | |- wp (gets _) _ _ => apply wp_gets; unfold id
  | |- wp (modify _) _ _ => apply wp_modify
  | |- wp (require _) _ _ => apply wp_require; [mcbn|]
  | |- wp (get_bdev _) _ _ => eapply wp_get_bdev; [m_look|]
  | |- wp (put_bdev _ _) _ _ => apply wp_put_bdev
  | |- wp (upd_bdev _ _) _ _ => eapply wp_upd_bdev; [m_look|]
  | |- wp (get_ctx _) _ _ => eapply wp_get_ctx; [m_look|]
  | |- wp (upd_ctx _ _) _ _ => eapply wp_upd_ctx; [m_look|]
  | |- wp (of_option _) _ _ => eapply wp_of_option; [m_look|]
  end.

(** [to_state s']: the state the goal ends with is [s'], field by field. *)
Ltac to_state s' :=
  lazymatch goal with |- _ ?s => replace s with s' by
    (apply mstate_ext; done) end.

(** * Failure of a creation *)

(** The response to a creation that failed. *)
Definition error_response (status : Z) : response :=
  if status <? 0 then RespError status
  else RespErrorFmt SPDK_JSONRPC_ERROR_INVALID_PARAMS status.

(** What [ubi_finish_create] releases of the bdev [u] at [p]. *)
Definition release_base (u : ubi_bdev) (s : mstate) : mstate :=
  match ub_base_bdev_info u with
  | mk_base_info (Some b) (Some d) =>
      on_descs (delete d) (on_claims (λ l, l ∖ {[ bd_addr b ]}) s)
  | _ => s
  end.
Definition release_device (registered : bool) (p : Z) (s : mstate) : mstate :=
  if registered then on_iodevs (λ l, l ∖ {[ p ]}) s else s.
Definition release_name (u : ubi_bdev) (p : Z) (s : mstate) : mstate :=
  match bd_name (ub_bdev u) with
  | Some _ => on_names (λ l, l ∖ {[ p ]}) s
  | None => s
  end.
Definition release (u : ubi_bdev) (registered : bool) (p : Z) (s : mstate) : mstate :=
  on_bdevs (delete p) (release_name u p (release_device registered p (release_base u s))).

(** The bdev's resources are held, and may be released on this thread. *)
Record held_by (u : ubi_bdev) (registered : bool) (p : Z) (s : mstate) : Prop := {
  hb_bdev : m_bdevs s !! p = Some u;
  hb_base : ub_base_bdev_info u = mk_base_info None None ∨
    ∃ b d, ub_base_bdev_info u = mk_base_info (Some b) (Some d) ∧ bd_addr b ∈ m_claims s ∧
           m_descs s !! d = Some (b, m_thread s);
  hb_device : registered = true → p ∈ m_iodevs s;
  hb_name : is_Some (bd_name (ub_bdev u)) → p ∈ m_names s
}.

(** The request of context [ctx] is answered with an error. *)
Definition failed (ctx arg status : Z) (s : mstate) : mstate :=
  on_ctxs (delete ctx) (on_resp ((arg, error_response status) ::.) s).

Section ReleaseFields.
Context (u : ubi_bdev) (reg : bool) (p : Z) (s : mstate).
Lemma release_name_bdevs : m_bdevs (release_name u p s) = m_bdevs s.
Proof. unfold release_name. by destruct (bd_name _). Qed.
Lemma release_name_ctxs : m_ctxs (release_name u p s) = m_ctxs s.
Proof. unfold release_name. by destruct (bd_name _). Qed.
Lemma release_device_bdevs : m_bdevs (release_device reg p s) = m_bdevs s.
Proof. by destruct reg. Qed.
Lemma release_device_ctxs : m_ctxs (release_device reg p s) = m_ctxs s.
Proof. by destruct reg. Qed.
Lemma release_base_ctxs : m_ctxs (release_base u s) = m_ctxs s.
Proof. unfold release_base. by destruct (ub_base_bdev_info u) as [[?|] [?|]]. Qed.
(** Releasing touches no request. *)
Lemma release_frame : m_resp (release u reg p s) = m_resp s ∧
  m_unregs (release u reg p s) = m_unregs s ∧ m_strs (release u reg p s) = m_strs s.
Proof.
  unfold release, release_name, release_device, release_base.
  by destruct (bd_name _), (ub_base_bdev_info u) as [[?|] [?|]], reg.
Qed.
End ReleaseFields.

Section Failure.
Context {E : mod_env}.

Lemma wp_done_error arg bdev status s (Q : unit → mstate → Prop) : status ≠ 0 →
  Q tt (on_resp ((arg, error_response status) ::.) s) →
  wp (done_fn arg bdev status) s Q.
Proof.
  intros Hne HQ. simpl. unfold bdev_ubi_create_done, error_response in *.
  destruct (Z.ltb_spec status 0); [exact HQ|].
  destruct (Z.ltb_spec 0 status); [exact HQ|lia].
Qed.

Lemma wp_free_name p u s (Q : unit → mstate → Prop) :
  m_bdevs s !! p = Some u → (is_Some (bd_name (ub_bdev u)) → p ∈ m_names s) →
  Q tt (release_name u p s) → wp (free_name p) s Q.
Proof.
  intros Hu Hn HQ. unfold free_name, release_name in *. m_step.
  destruct (bd_name (ub_bdev u)); [|by m_step]. do 2 m_step; [by apply Hn|]. by m_step.
Qed.

Lemma wp_free_bdev p u s (Q : unit → mstate → Prop) :
  m_bdevs s !! p = Some u → Q tt (on_bdevs (delete p) s) → wp (free_bdev p) s Q.
Proof. intros Hu HQ. unfold free_bdev. m_step. by m_step. Qed.

Lemma wp_free_context ctx c s (Q : unit → mstate → Prop) :
  m_ctxs s !! ctx = Some c → Q tt (on_ctxs (delete ctx) s) → wp (free_context ctx) s Q.
Proof. intros Hu HQ. unfold free_context. m_step. by m_step. Qed.

Lemma wp_release_bdev b s (Q : unit → mstate → Prop) : bd_addr b ∈ m_claims s →
  Q tt (on_claims (λ l, l ∖ {[ bd_addr b ]}) s) →
  wp (spdk_bdev_module_release_bdev (Some b)) s Q.
Proof. intros Hb HQ. unfold spdk_bdev_module_release_bdev. do 3 m_step; [done|]. by m_step. Qed.

Lemma wp_close d b s (Q : unit → mstate → Prop) : m_descs s !! d = Some (b, m_thread s) →
  Q tt (on_descs (delete d) s) → wp (spdk_bdev_close (Some d)) s Q.
Proof. intros Hd HQ. unfold spdk_bdev_close. do 4 m_step; [done|]. by m_step. Qed.

Lemma wp_release_base u reg p s : held_by u reg p s →
  wp (if decide (is_Some (bi_desc (ub_base_bdev_info u))) then
        spdk_bdev_module_release_bdev (bi_bdev (ub_base_bdev_info u));;
        spdk_bdev_close (bi_desc (ub_base_bdev_info u))
      else mret tt) s
    (λ _ s', s' = release_base u s ∧ m_bdevs s' = m_bdevs s ∧ m_names s' = m_names s ∧
             m_iodevs s' = m_iodevs s).
Proof.
  intros [_ [Hb|(b & d & Hb & Hcl & Hd)] _ _]; unfold release_base; rewrite Hb; cbn [bi_desc bi_bdev].
  - rewrite decide_False by (by intros [? ?]). by m_step.
  - rewrite decide_True by done. apply wp_bind, wp_release_bdev; [done|].
    by apply wp_close with b.
Qed.

Lemma wp_release_device (reg : bool) p s (Q : unit → mstate → Prop) :
  (reg = true → p ∈ m_iodevs s) → Q tt (release_device reg p s) →
  wp (if reg then spdk_io_device_unregister p false else mret tt) s Q.
Proof.
  intros Hp HQ. destruct reg; [|done]. unfold spdk_io_device_unregister.
  do 2 m_step; [by apply Hp|]. m_step. by m_step.
Qed.

(** A failing status before there is a bdev. *)
Lemma wp_finish_error_early status ctx c s (Q : unit → mstate → Prop) :
  status ≠ 0 → m_ctxs s !! ctx = Some c → cc_ubi_bdev c = None →
  Q tt (failed ctx (cc_done_arg c) status s) → wp (ubi_finish_create status ctx) s Q.
Proof.
  intros Hne Hc Hp HQ. unfold ubi_finish_create. m_step.
  rewrite (proj2 (Z.eqb_neq status 0)) by done. m_step.
  unfold c_true. rewrite (proj2 (Z.eqb_neq status 0)) by done. cbn [negb]. rewrite Hp. m_step.
  apply wp_bind, wp_done_error; [done|]. by apply wp_free_context with c.
Qed.

(** What is left to do once the status is known to be an error. *)
Lemma wp_finish_release status ctx c p u s (Q : unit → mstate → Prop) :
  status ≠ 0 → m_ctxs s !! ctx = Some c → cc_ubi_bdev c = Some p →
  held_by u (cc_registered_io_device c) p s →
  Q tt (failed ctx (cc_done_arg c) status (release u (cc_registered_io_device c) p s)) →
  wp (ubi_finish_create status ctx) s Q.
Proof.
  intros Hne Hc Hp [Hu Hbase Hdev Hname] HQ. unfold ubi_finish_create. m_step.
  rewrite (proj2 (Z.eqb_neq status 0)) by done. m_step.
  unfold c_true. rewrite (proj2 (Z.eqb_neq status 0)) by done. cbn [negb]. rewrite Hp.
  apply wp_bind. m_step. apply wp_bind.
  eapply wp_mono; [by eapply wp_release_base|]. intros [] s1 (-> & Hb1 & Hn1 & Hi1).
  apply wp_bind. eapply wp_mono.
  { apply wp_release_device with (Q := λ _ s2, s2 = release_device (cc_registered_io_device c) p
      (release_base u s)); [|done]. by rewrite Hi1. }
  intros [] s2 ->. apply wp_bind, wp_free_name with u.
  { unfold release_device. destruct (cc_registered_io_device c); mcbn; by rewrite Hb1. }
  { unfold release_device. destruct (cc_registered_io_device c); mcbn; by rewrite Hn1. }
  apply wp_free_bdev with u.
  { by rewrite release_name_bdevs, release_device_bdevs, Hb1. }
  apply wp_bind, wp_done_error; [done|]. apply wp_free_context with c; [|exact HQ].
  mcbn. by rewrite release_name_ctxs, release_device_ctxs, release_base_ctxs.
Qed.
End Failure.

(** * Creation *)

(** The bdev when its base bdev is open and the options are copied, and when
    the layout is computed. *)
Definition configured (o : spdk_ubi_bdev_opts) (p : Z) (name path : string) (t : Z)
    (b : spdk_bdev) (d : Z) : ubi_bdev :=
  with_options o path
    (with_base_info (mk_base_info (Some b) (Some d))
       (with_thread t (with_bdev (with_bd_name (Some name)) (ubi_bdev_calloc p)))).

(** The reasons for which a creation fails. *)
Inductive create_error {E : mod_env} (o : spdk_ubi_bdev_opts) : Z → Prop :=
| CE_memory : create_error o (- ENOMEM)
| CE_open s rc : me_open s (op_base_bdev_name o) = inl rc → create_error o rc
| CE_claim s a : me_claim s a ≠ 0 → create_error o (me_claim s a)
| CE_stat s path : me_stat s path = None → create_error o (- EINVAL)
| CE_layout s path size p name t b d : me_stat s (copy_path path) = Some size →
    layout_accepts (configured o p name path t b d) b size = false →
    create_error o (- EINVAL)
| CE_read s r : me_read_blocks s r ≠ 0 → create_error o (me_read_blocks s r).

(** The bdev [bdev_ubi_create] leaves for the metadata read. *)
Record created {E : mod_env} (o : spdk_ubi_bdev_opts) (t p : Z) (b : spdk_bdev) (d : Z)
    (u : ubi_bdev) : Prop := {
  cr_fresh : freshly_read u (ub_metadata (ubi_bdev_calloc p));
  cr_addr : bd_addr (ub_bdev u) = p;
  cr_name : bd_name (ub_bdev u) = op_name o ∧ is_Some (op_name o);
  cr_thread : ub_thread u = t;
  cr_base : ub_base_bdev_info u = mk_base_info (Some b) (Some d);
  cr_base_ok : base_ok b;
  cr_options : ub_stripe_size_kb u = op_stripe_size_kb o ∧ ub_no_sync u = op_no_sync o ∧
    ub_copy_on_read u = op_copy_on_read o ∧ ub_directio u = op_directio o ∧
    Some (ub_image_path u) = copy_path <$> op_image_path o;
  cr_bdev : bd_blocklen (ub_bdev u) = bd_blocklen b ∧
    bd_blockcnt (ub_bdev u) = bd_blockcnt b - ub_data_offset_blocks u ∧
    bd_write_cache (ub_bdev u) = bd_write_cache b ∧
    bd_optimal_io_boundary (ub_bdev u) = ub_stripe_block_count u ∧
    bd_split_on_optimal_io_boundary (ub_bdev u) = true;
  cr_geometry : ub_geometry u (bd_blocklen b);
  cr_size : ub_data_offset_blocks u + ub_image_block_count u ≤ bd_blockcnt b
}.

(** The state with everything a started creation holds. *)
Definition started (p : Z) (u : ubi_bdev) (b : spdk_bdev) (d ctx : Z)
    (c : ubi_create_context) (ref : Z) (r : base_read) (s : mstate) : mstate :=
  on_reads <[ctx := r]> (on_refs (ref ::.) (on_ctxs <[ctx := c]>
    (on_iodevs ({[ p ]} ∪.) (on_claims ({[ bd_addr b ]} ∪.)
      (on_descs <[d := (b, m_thread s)]> (on_names ({[ p ]} ∪.) (on_bdevs <[p := u]> s))))))).

Inductive create_post {E : mod_env} (o : spdk_ubi_bdev_opts) (ctx arg : Z) (s : mstate)
    : mstate → Prop :=
| CP_failed status : status ≠ 0 → create_error o status →
    create_post o ctx arg s (failed ctx arg status s)
| CP_leaked s0 r ref : me_read_blocks s0 r ≠ 0 →
    create_post o ctx arg s (failed ctx arg (me_read_blocks s0 r) (on_refs (ref ::.) s))
| CP_started p u b d ref :
    m_bdevs s !! p = None → m_descs s !! d = None → bd_addr b ∉ m_claims s →
    created o (m_thread s) p b d u →
    create_post o ctx arg s
      (started p u b d ctx (mk_context arg (Some p) true (Some ref)) ref
         (mk_base_read (m_thread s) p d 0 (ub_data_offset_blocks u)) s).

(** Names and I/O devices belong to bdevs. *)
Definition resources_ok (s : mstate) : Prop :=
  m_names s ⊆ dom (m_bdevs s) ∧ m_iodevs s ⊆ dom (m_bdevs s).

(** Releasing what was just acquired. *)
Lemma set_add_remove (a : Z) (X : gset Z) : a ∉ X → ({[ a ]} ∪ X) ∖ {[ a ]} = X.
Proof. set_solver. Qed.

Ltac restored :=
  apply mstate_ext; mcbn; rewrite ?insert_insert_eq, ?delete_insert_eq, ?delete_delete_eq;
  rewrite ?set_add_remove by done;
  rewrite ?delete_id by done; try done.

(** [gives_back s']: the bdev is released by [ubi_finish_create], which leaves
    exactly the state [s']. *)
Ltac gives_back final :=
  eapply wp_finish_release;
    [done|by m_look|done
    |split; mcbn;
      [apply lookup_insert_eq
      |first [by left|right; eexists _, _; split_and!; [done|set_solver|apply lookup_insert_eq]]
      |done
      |first [by intros [? ?]|set_solver]]
    |eassert (failed _ _ _ _ = final) as ->; [unfold failed, release; cbn; restored|]].

Section Create.
Context {E : mod_env} `{!mod_env_ok E}.

Lemma wp_configure name p (o : spdk_ubi_bdev_opts) s (Q : Z → mstate → Prop) :
  m_thread s = m_app_thread s →
  op_base_bdev_name o = name → is_Some (m_bdevs s !! p) →
  (∀ rc, rc ≠ 0 → create_error o rc → Q rc s) →
  (∀ b d u, m_descs s !! d = None → base_ok b → bd_addr b ∉ m_claims s →
     m_bdevs s !! p = Some u →
     Q 0 (on_bdevs <[p := with_base_info (mk_base_info (Some b) (Some d)) u]>
            (on_claims ({[ bd_addr b ]} ∪.) (on_descs <[d := (b, m_thread s)]> s)))) →
  wp (configure_base_bdev name p) s Q.
Proof.
  intros Ht <- [u Hu] Herr Hok. unfold configure_base_bdev. do 2 m_step; [done|].
  unfold spdk_bdev_open_ext. m_step.
  destruct (me_open s (op_base_bdev_name o)) as [rc|[d b]] eqn:Ho.
  - do 2 m_step; [by eapply mo_open_err|]. m_step.
    apply Herr; [by eapply mo_open_err|by eapply CE_open].
  - destruct (mo_open _ _ _ _ Ho) as [Hd Hb]. do 2 m_step.
    unfold spdk_bdev_module_claim_bdev. m_step. mcbn.
    set (s1 := on_descs _ s). destruct (Z.eqb_spec (me_claim s1 (bd_addr b)) 0) as [Hc|Hc].
    + do 2 m_step. unfold c_true. rewrite Hc. cbn [Z.eqb negb]. do 2 m_step.
      apply Hok; [done..| |done]. apply (mo_claim s1 _ Hc).
    + m_step. unfold c_true. rewrite (proj2 (Z.eqb_neq _ 0)) by done. cbn [negb].
      apply wp_bind, wp_close with b; [by m_look|]. m_step.
      replace (on_descs (delete d) s1) with s; [apply Herr; [done|by apply CE_claim]|].
      subst s1. restored.
Qed.

(** The layout step on the configured bdev. *)
Lemma wp_layout o p name path t b d s (Q : Z → mstate → Prop) :
  let u := configured o p name path t b d in
  base_ok b → 0 ≤ op_stripe_size_kb o < 2 ^ 32 → m_bdevs s !! p = Some u →
  (create_error o (- EINVAL) → Q (- EINVAL) s) →
  (∀ sbc shift doff img,
     geometry (bd_blocklen b) (op_stripe_size_kb o) sbc shift doff img →
     doff + img ≤ bd_blockcnt b →
     Q 0 (on_bdevs <[p := with_layout sbc shift doff img u]> s)) →
  wp (in_bdev p (ubi_init_layout_params (me_stat s (ub_image_path u)))) s Q.
Proof.
  intros u (Hbl & Hcnt & Hsz) Hkb Hu Herr Hok. apply wp_in_bdev with u; [done|].
  assert (Hsame : on_bdevs <[p := u]> s = s) by (apply mstate_ext; mcbn; by rewrite ?insert_id).
  destruct (me_stat s (ub_image_path u)) as [size|] eqn:Hst.
  2: { change (Q (- EINVAL) (on_bdevs <[p := u]> s)). rewrite Hsame. apply Herr. by eapply CE_stat. }
  pose proof (mo_stat _ _ _ Hst) as Hsize.
  pose proof (layout_outcome u b size eq_refl Hbl Hcnt Hsz Hsize Hkb) as Hout.
  eapply wp_mono; [exact Hout|]. simpl. intros rc u'.
  destruct (layout_accepts u b size) eqn:Hacc.
  - intros (-> & shift & -> & Hgeo). apply Hok; [exact Hgeo|].
    apply (layout_params_size u b size); [lia|lia|exact (geo_data_offset _ _ _ _ _ _ Hgeo)|reflexivity|done].
  - intros [-> ->]. rewrite Hsame. apply Herr.
    by apply (CE_layout o s path size p name t b d).
Qed.

(** The metadata fills the blocks before the data area. *)
Lemma metadata_block_count u b :
  ub_geometry u (bd_blocklen b) → bd_blocklen (ub_bdev u) = bd_blocklen b →
  i32 (UBI_METADATA_SIZE `div` bd_blocklen (ub_bdev u)) = ub_data_offset_blocks u.
Proof.
  intros [Hb _ _ _ _ Hd _] ->. rewrite <-Hd, Z.div_mul by lia. apply i32_small.
  unfold UBI_METADATA_SIZE in Hd. nia.
Qed.

(** The state of a creation at the start of the metadata read. *)
Definition reading (p : Z) (u : ubi_bdev) (b : spdk_bdev) (d ctx arg : Z) (s : mstate) : mstate :=
  on_ctxs <[ctx := mk_context arg (Some p) true None]>
    (on_iodevs ({[ p ]} ∪.) (on_claims ({[ bd_addr b ]} ∪.)
      (on_descs <[d := (b, m_thread s)]> (on_names ({[ p ]} ∪.) (on_bdevs <[p := u]> s))))).

Lemma wp_start_read o p u b d ctx arg s :
  resources_ok s → is_Some (m_ctxs s !! ctx) →
  m_bdevs s !! p = None → m_descs s !! d = None → bd_addr b ∉ m_claims s →
  created o (m_thread s) p b d u →
  wp (ubi_start_read_metadata p ctx) (reading p u b d ctx arg s)
    (λ _, create_post o ctx arg s).
Proof.
  intros [Hnm Hio] Hctx Hp Hd Hcl Hcr. pose proof Hcr as [_ _ [Hname Hsome] _ Hbase _ _ (Hbl & _) Hgeo _].
  assert (Hpd : p ∉ dom (m_bdevs s)) by by apply not_elem_of_dom.
  assert (Hpn : p ∉ m_names s) by set_solver.
  assert (Hpi : p ∉ m_iodevs s) by set_solver.
  set (s1 := reading p u b d ctx arg s).
  assert (Hheld : ∀ c r, held_by u true p (on_ctxs c (on_refs r s1))).
  { intros c r. split; subst s1; unfold reading; mcbn.
    - apply lookup_insert_eq.
    - right. exists b, d. split_and!; [done|set_solver|apply lookup_insert_eq].
    - set_solver.
    - set_solver. }
  assert (Hrel : ∀ status c r, failed ctx arg status (release u true p (on_ctxs <[ctx := c]> (on_refs r s1))) =
    failed ctx arg status (on_refs r s)).
  { intros st c r. unfold failed, release, release_name, release_device, release_base.
    rewrite Hbase, Hname. destruct Hsome as [n ->]. subst s1. unfold reading. restored. }
  assert (Hfail : ∀ status r0 r, status ≠ 0 → 
    create_post o ctx arg s (failed ctx arg status (on_refs r s)) →
    wp (ubi_finish_create status ctx) (on_ctxs <[ctx := mk_context arg (Some p) true r0]> (on_refs r s1))
      (λ _, create_post o ctx arg s)).
  { intros st r0 r Hst Hpost. eapply wp_finish_release; [done|by m_look|done|apply Hheld|].
    cbn [cc_registered_io_device cc_done_arg]. by rewrite Hrel. }
  assert (Hs1 : on_refs (λ l, l) s1 = s1) by by destruct s1.
  unfold ubi_start_read_metadata. eapply wp_bind, wp_get_bdev; [apply lookup_insert_eq|].
  m_step. rewrite Hbase. cbn [bi_desc]. apply wp_bind.
  assert (Hmem : wp (ubi_finish_create (- ENOMEM) ctx)
    (on_ctxs <[ctx := mk_context arg (Some p) true None]> s1) (λ _, create_post o ctx arg s)).
  { rewrite <-Hs1. apply Hfail; [done|].
    replace (on_refs (λ l, l) s) with s by by destruct s. constructor; [done|apply CE_memory]. }
  set (s2 := on_ctxs _ s1) in Hmem.
  assert (Hmem' : wp (upd_ctx ctx (with_cc_base_ch None);; ubi_finish_create (- ENOMEM) ctx) s1
    (λ _, create_post o ctx arg s)).
  { apply wp_bind. eapply wp_upd_ctx; [apply lookup_insert_eq|exact Hmem]. }
  destruct (m_fail_channel s1); [by m_step|].
  unfold spdk_bdev_get_io_channel. do 3 m_step; [subst s1; unfold reading; m_look; eauto|].
  destruct (me_get_channel s1 d) as [ref|]; [|by m_step].
  do 2 m_step. apply wp_bind. eapply wp_upd_ctx; [apply lookup_insert_eq|].
  m_step; [rewrite Hbl; pose proof (geo_blocklen _ _ _ _ _ _ Hgeo); lia|].
  rewrite (metadata_block_count u b Hgeo Hbl). unfold spdk_bdev_read_blocks.
  do 2 m_step. set (s3 := on_ctxs _ _). change (m_thread s3) with (m_thread s).
  destruct (Z.eqb_spec (me_read_blocks s3 (mk_base_read (m_thread s) p d 0 (ub_data_offset_blocks u))) 0)
    as [Hz|Hnz].
  - do 2 m_step. rewrite Hz. apply wp_ret.
    assert (Heq : on_reads <[ctx := mk_base_read (m_thread s) p d 0 (ub_data_offset_blocks u)]> s3 =
      started p u b d ctx (mk_context arg (Some p) true (Some ref)) ref
        (mk_base_read (m_thread s) p d 0 (ub_data_offset_blocks u)) s).
    { subst s3 s1. unfold reading, started. restored. }
    rewrite Heq. by apply CP_started.
  - m_step. unfold c_true. rewrite (proj2 (Z.eqb_neq _ 0)) by done. cbn [negb].
    assert (Heq : s3 = on_ctxs <[ctx := mk_context arg (Some p) true (Some ref)]> (on_refs (ref ::.) s1)).
    { done. }
    rewrite Heq. apply Hfail; [by rewrite <-Heq|]. by apply CP_leaked.
Qed.

(** The bdev with the layout and the properties of the base bdev. *)
Lemma created_setup o p name path t b d sbc shift doff img :
  op_name o = Some name → op_image_path o = Some path → base_ok b →
  geometry (bd_blocklen b) (op_stripe_size_kb o) sbc shift doff img → doff + img ≤ bd_blockcnt b →
  created o t p b d (setup_bdev b (with_layout sbc shift doff img (configured o p name path t b d))).
Proof.
  intros Hn Hp Hb Hgeo Hfit. pose proof Hb as (Hbl & Hcnt & Hsz).
  pose proof (geo_image _ _ _ _ _ _ Hgeo). pose proof (geo_data_offset _ _ _ _ _ _ Hgeo).
  assert (0 ≤ doff) by (unfold UBI_METADATA_SIZE in *; nia).
  split; simpl; rewrite ?Hn, ?Hp; try done.
  split_and!; try done. apply u64_small. nia.
Qed.

(** [bdev_ubi_create] answers with an error and gives everything back, but for
    the channel when the read is refused, or starts reading the metadata. *)
Lemma wp_bdev_ubi_create o ctx arg s :
  resources_ok s → m_thread s = m_app_thread s → is_Some (op_image_path o) →
  0 ≤ op_stripe_size_kb o < 2 ^ 32 → m_ctxs s !! ctx = Some (mk_context arg None false None) →
  wp (bdev_ubi_create (Some o) ctx) s (λ _, create_post o ctx arg s).
Proof.
  intros Hres Ht [path Hpath] Hkb Hctx. pose proof Hres as [Hnm Hio]. unfold bdev_ubi_create.
  assert (Hmem : create_post o ctx arg s (failed ctx arg (- ENOMEM) s)).
  { constructor; [done|apply CE_memory]. }
  assert (Hearly : wp (ubi_finish_create (- ENOMEM) ctx) s (λ _, create_post o ctx arg s)).
  { by eapply wp_finish_error_early. }
  m_step. apply wp_bind. destruct (m_fail_calloc s); [by m_step|].
  unfold calloc_ubi_bdev. m_step. destruct (me_calloc s) as [p|] eqn:Hcalloc; [|by m_step].
  pose proof (mo_calloc _ _ Hcalloc) as Hp. do 2 m_step.
  m_step. apply wp_bind.
  assert (Hpd : p ∉ dom (m_bdevs s)) by by apply not_elem_of_dom.
  assert (Hpn : p ∉ m_names s) by set_solver.
  assert (Hpi : p ∉ m_iodevs s) by set_solver.
  set (ctx1 := with_cc_ubi_bdev p _).
  assert (Hnoname : wp
    (upd_bdev p (with_bdev (with_bd_name None));; ubi_finish_create (- ENOMEM) ctx)
    (on_ctxs <[ctx := ctx1]> (on_bdevs <[p := ubi_bdev_calloc p]> s)) (λ _, create_post o ctx arg s)).
  { m_step. gives_back (failed ctx arg (- ENOMEM) s). done. }
  destruct (op_name o) as [name|] eqn:Hname; [|by m_step].
  unfold strdup_name. m_step. destruct (me_strdup _); [|by m_step].
  do 5 m_step. set (u1 := with_thread _ _). 
  set (s1 := on_bdevs _ _). apply wp_bind.
  assert (Hs1 : s1 = on_ctxs <[ctx := ctx1]> (on_names ({[ p ]} ∪.) (on_bdevs <[p := u1]> s))).
  { subst s1. restored. }
  apply wp_configure with o; [done|done|subst s1; by m_look|..].
  { intros rc Hrc Herr. unfold c_true. rewrite (proj2 (Z.eqb_neq rc 0)) by done. cbn [negb].
    rewrite Hs1. gives_back (failed ctx arg rc s). by constructor. }
  intros b d u Hd Hb Hcl Hu.
  assert (u = u1) as ->. { rewrite Hs1 in Hu. mcbn. rewrite lookup_insert_eq in Hu. by injection Hu. }
  assert (Hcl' : bd_addr b ∉ m_claims s) by (rewrite Hs1 in Hcl; exact Hcl).
  assert (Hd' : m_descs s !! d = None) by (rewrite Hs1 in Hd; exact Hd).
  cbn [c_true Z.eqb negb]. rewrite Hpath. do 4 m_step. apply wp_bind.
  set (u2 := with_options o path _). set (s2 := on_bdevs <[p := u2]> _).
  assert (Hs2 : s2 = on_ctxs <[ctx := ctx1]> (on_claims ({[ bd_addr b ]} ∪.)
     (on_descs <[d := (b, m_thread s)]> (on_names ({[ p ]} ∪.) (on_bdevs <[p := u2]> s))))).
  { subst s2. rewrite Hs1. restored. }
  apply wp_layout with (name := name) (t := m_thread s) (b := b) (d := d); [done|done|apply lookup_insert_eq|..].
  { intros Herr. cbn [c_true]. rewrite Hs2. gives_back (failed ctx arg (- EINVAL) s).
    by constructor. }
  intros sbc shift doff img Hgeo Hfit. cbn [c_true Z.eqb negb].
  apply wp_bind. eapply wp_of_option; [done|]. m_step. apply wp_bind, wp_modify. m_step.
  set (u3 := setup_bdev b _). set (s3 := on_ctxs _ _).
  assert (Hs3 : s3 = reading p u3 b d ctx arg s).
  { subst s3. unfold reading. rewrite Hs2. restored. }
  rewrite Hs3. apply (wp_start_read o); [done|by rewrite Hctx|done..|].
  by apply created_setup.
Qed.
End Create.

(** * The end of a creation *)

Lemma load_metadata_total u : metadata_wf (ub_metadata u) →
  ∃ st u', ubi_load_metadata u = Some (st, u').
Proof.
  intros (_ & Hj & Hn). unfold ubi_load_metadata.
  generalize (load_stripes (Z.to_nat UBI_MAX_STRIPES) 0 u). intros v.
  destruct (ubi_new_disk _); [by eexists _, _|].
  destruct (negb (bool_decide _)); [by eexists _, _|].
  destruct (list_2 _ Hj) as (a & b & Ha), (list_2 _ Hn) as (a' & b' & Ha').
  unfold ubi_get_version. rewrite Ha, Ha'. simpl. destruct (_ || _); by eexists _, _.
Qed.

(** The state of a bdev that is registered. *)
Definition opened (ctx arg p : Z) (u : ubi_bdev) (name : string) (s : mstate) : mstate :=
  on_ctxs (delete ctx) (on_resp ((arg, RespString name) ::.)
    (on_head (.++ [p]) (on_regs ({[ p ]} ∪.) (on_bdevs <[p := u]> s)))).

(** The metadata read is over and its channel given back. *)
Definition read_over (ctx : Z) (refs : list Z) (s : mstate) : mstate :=
  on_refs (λ _, refs) (on_reads (delete ctx) s).

(** The status of a creation that fails after the read was submitted: the read
    failed, the metadata are not accepted, or the registration failed. *)
Definition finish_error (u : ubi_bdev) (success : bool) (status : Z) : Prop :=
  status ≠ 0 ∧
  if success then ∃ st u', ubi_load_metadata u = Some (st, u') ∧ (st = status ∨ st = 0)
  else status = - EIO.

Inductive finish_post (ctx arg p : Z) (u : ubi_bdev) (success : bool) (s : mstate)
    : mstate → Prop :=
| FP_failed status : finish_error u success status →
    finish_post ctx arg p u success s (failed ctx arg status (release u true p s))
| FP_opened u' name : success = true → ubi_load_metadata u = Some (0, u') →
    bd_name (ub_bdev u) = Some name →
    finish_post ctx arg p u success s (opened ctx arg p u' name s).

(** What releases of a bdev does not depend on its metadata. *)
Lemma release_parameters u u' p s : parameters u' = parameters u →
  release u' true p (on_bdevs <[p := u']> s) = release u true p s.
Proof.
  intros (Hbdev & Hbase & _)%parameters_fields.
  unfold release, release_name, release_device, release_base. rewrite Hbdev, Hbase.
  destruct (ub_base_bdev_info u) as [[b|] [d|]]; destruct (bd_name (ub_bdev u)); restored.
Qed.

Section Finish.
Context {E : mod_env} `{!mod_env_ok E}.

Lemma bind_returns {A B} (m : M mstate A) (f : A → M mstate B) s a s' :
  m s = Done a s' → mbind f m s = f a s'.
Proof. unfold mbind, M_bind. by intros ->. Qed.

Lemma get_ctx_done ctx c s : m_ctxs s !! ctx = Some c → get_ctx ctx s = Done c s.
Proof. intros Hc. unfold get_ctx, mbind, M_bind, gets, id. by rewrite Hc. Qed.
Lemma get_bdev_done p u s : m_bdevs s !! p = Some u → get_bdev p s = Done u s.
Proof. intros Hc. unfold get_bdev, mbind, M_bind, gets, id. by rewrite Hc. Qed.

(** A registration that fails is a failure with its code. *)
Lemma finish_register_error ctx c p u s :
  m_ctxs s !! ctx = Some c → cc_ubi_bdev c = Some p → m_bdevs s !! p = Some u →
  me_register s p ≠ 0 →
  ubi_finish_create 0 ctx s = ubi_finish_create (me_register s p) ctx s.
Proof.
  intros Hc Hp Hu Hr. unfold ubi_finish_create.
  rewrite !(bind_returns (get_ctx ctx) _ _ c s) by by apply get_ctx_done.
  assert (Hne : (me_register s p =? 0) = false) by by apply Z.eqb_neq.
  rewrite (bind_returns (if 0 =? 0 then _ else _) _ _ (me_register s p) s).
  2: { cbn [Z.eqb]. rewrite Hp. rewrite (bind_returns (of_option (Some p)) _ _ p s) by done.
       rewrite (bind_returns (get_bdev p) _ _ u s) by by apply get_bdev_done.
       assert (Hreg : spdk_bdev_register p s = Done (me_register s p) s).
       { unfold spdk_bdev_register, mbind, M_bind, gets, id. by rewrite Hne. }
       rewrite (bind_returns _ _ _ _ _ Hreg). unfold c_true. by rewrite Hne. }
  rewrite (bind_returns (if me_register s p =? 0 then _ else _) _ _ (me_register s p) s); [done|].
  by rewrite Hne.
Qed.

Lemma wp_done_success arg p u name s (Q : unit → mstate → Prop) :
  m_bdevs s !! p = Some u → bd_name (ub_bdev u) = Some name →
  Q tt (on_resp ((arg, RespString name) ::.) s) → wp (done_fn arg (Some p) 0) s Q.
Proof. intros Hu Hn HQ. simpl. unfold bdev_ubi_create_done. cbn [Z.ltb Z.compare]. do 3 m_step. exact HQ. Qed.

Lemma wp_finish_success ctx arg ref p u u' name s (Q : unit → mstate → Prop) :
  m_ctxs s !! ctx = Some (mk_context arg (Some p) true ref) →
  parameters u' = parameters u → bd_name (ub_bdev u) = Some name → held_by u true p s →
  (∀ status, status ≠ 0 → Q tt (failed ctx arg status (release u true p s))) →
  Q tt (opened ctx arg p u' name s) →
  wp (put_bdev p u';; ubi_finish_create 0 ctx) s Q.
Proof.
  intros Hctx Hpar Hname [_ Hb Hdev Hnm] Herr Hok.
  pose proof (parameters_fields _ _ Hpar) as (Hbdev & Hbase & _).
  m_step. set (s1 := on_bdevs _ s).
  assert (Hu1 : m_bdevs s1 !! p = Some u') by apply lookup_insert_eq.
  destruct (Z.eqb_spec (me_register s1 p) 0) as [Hz|Hnz].
  - unfold ubi_finish_create. m_step. cbn [Z.eqb cc_ubi_bdev cc_done_arg]. apply wp_bind.
    do 2 m_step. unfold spdk_bdev_register. m_step. rewrite Hz. cbn [Z.eqb].
    do 2 m_step. cbn [c_true Z.eqb negb]. do 2 m_step.
    apply wp_bind. cbn [c_true Z.eqb negb]. m_step.
    apply wp_bind, wp_done_success with u' name; [done|by rewrite Hbdev|].
    by eapply wp_free_context.
  - unfold wp. erewrite finish_register_error by done. change (wp (ubi_finish_create (me_register s1 p) ctx) s1 Q).
    eapply wp_finish_release; [done|done|done|split|].
    + done.
    + by rewrite Hbase.
    + exact Hdev.
    + by rewrite Hbdev.
    + cbn [cc_registered_io_device cc_done_arg]. subst s1. rewrite (release_parameters u u') by done. by apply Herr.
Qed.

Lemma wp_finish_read ctx arg ref refs p u name success s :
  is_Some (m_reads s !! ctx) → remove_one ref (m_refs s) = Some refs →
  m_ctxs s !! ctx = Some (mk_context arg (Some p) true (Some ref)) →
  bd_name (ub_bdev u) = Some name → metadata_wf (ub_metadata u) →
  held_by u true p s →
  wp (ubi_finish_read_metadata success ctx) s
    (λ _, finish_post ctx arg p u success (read_over ctx refs s)).
Proof.
  intros Hr Hrefs Hctx Hname Hwf Hheld. unfold ubi_finish_read_metadata, spdk_bdev_free_read.
  do 2 m_step; [done|]. do 2 m_step. cbn [cc_base_ch]. unfold spdk_put_io_channel. do 3 m_step.
  m_step. mcbn. fold (read_over ctx refs s).
  assert (Hheld' : held_by u true p (read_over ctx refs s)) by (destruct Hheld; by split).
  assert (Hu : m_bdevs (read_over ctx refs s) !! p = Some u) by apply Hheld'.
  destruct success; cbn [negb].
  - cbn [cc_ubi_bdev]. do 2 m_step.
    destruct (load_metadata_total u Hwf) as (st & u' & Hload).
    pose proof (load_metadata_parameters _ _ _ Hload) as Hpar.
    apply wp_bind, wp_of_option with (st, u'); [done|].
    destruct (decide (st = 0)) as [->|Hst].
    + eapply wp_finish_success; [done..| |].
      * intros status Hne. apply FP_failed. split; [done|]. exists 0, u'. auto.
      * by apply FP_opened.
    + m_step. eapply wp_finish_release; [done..|split|].
      * apply lookup_insert_eq.
      * destruct (parameters_fields _ _ Hpar) as (_ & -> & _). apply Hheld'.
      * apply Hheld'.
      * destruct (parameters_fields _ _ Hpar) as (-> & _ & _). apply Hheld'.
      * cbn [cc_registered_io_device cc_done_arg]. rewrite (release_parameters u u') by done.
        apply FP_failed. split; [done|]. exists st, u'. auto.
  - eapply wp_finish_release; [done..|exact Hheld'|]. by apply FP_failed.
Qed.
End Finish.

(** * RPC methods *)

Section Rpc.
Context {E : mod_env} `{!mod_env_ok E} {J : json_decoder} `{!json_decoder_ok J}.

Lemma wp_free_string (c : option (Z * string)) l s (Q : unit → mstate → Prop) :
  m_strs s = option_list (fst <$> c) ++ l → Q tt (on_strs (λ _, l) s) → wp (free_string c) s Q.
Proof.
  intros Hs HQ. destruct c as [[a str]|]; simpl in *.
  - unfold free_string. do 2 m_step; [rewrite Hs; apply remove_one_head|]. by m_step.
  - assert (s = on_strs (λ _, l) s) as -> by by apply mstate_ext. exact HQ.
Qed.

Lemma wp_free_construct r l s (Q : unit → mstate → Prop) :
  m_strs s = owned_strings r ++ l → Q tt (on_strs (λ _, l) s) →
  wp (free_rpc_construct_ubi r) s Q.
Proof.
  intros Hs HQ. unfold owned_strings in Hs. rewrite <-!app_assoc in Hs. unfold free_rpc_construct_ubi.
  eapply wp_bind, wp_free_string; [exact Hs|]. eapply wp_bind, wp_free_string; [done|].
  by eapply wp_free_string.
Qed.

(** What the decoder gives [bdev_ubi_create]. *)
Definition decoded (params : list (string * json)) : Z * rpc_construct_ubi :=
  spdk_json_decode_object rpc_construct_ubi_decoders params construct_defaults.

Lemma json_lookup_elem k (o : list (string * json)) v : json_lookup k o = Some v → (k, v) ∈ o.
Proof.
  induction o as [|[k' v'] o IH]; [done|]. simpl. destruct (decide (k' = k)) as [->|].
  - intros [= ->]. left.
  - intros Hl. right. by apply IH.
Qed.
Lemma json_lookup_in k (o : list (string * json)) : k ∈ o.*1 → is_Some (json_lookup k o).
Proof.
  induction o as [|[k' v'] o IH]; [by intros ?%not_elem_of_nil|]. simpl.
  intros [->|Hin]%elem_of_cons; [by rewrite decide_True|]. destruct (decide (k' = k)); [done|auto].
Qed.

(** A required parameter is present, with a value of its kind. *)
Lemma decoded_required d params : (decoded params).1 = 0 →
  d ∈ rpc_construct_ubi_decoders → dec_optional d = false →
  ∃ v, get_field (dec_field d) (decoded params).2 = Some v ∧
       ∃ d', d' ∈ rpc_construct_ubi_decoders ∧ dec_name d' = dec_name d ∧
             json_has_kind (dec_func d') v = true.
Proof.
  intros Hrc Hd Hopt. assert (Ht : rpc_construct_ubi_decoders ∈ rpc_tables) by left.
  pose proof (proj1 (jd_accepts _ _ _ Ht) Hrc) as (_ & Hk & Hr).
  rewrite Forall_forall in Hr. destruct (Hr d Hd) as [?|Hin]; [congruence|].
  destruct (json_lookup_in _ _ Hin) as [v Hv]. exists v. split.
  - pose proof (jd_field _ _ _ _ Ht Hd Hrc) as Hf. rewrite Hv in Hf. exact Hf.
  - apply json_lookup_elem in Hv. rewrite Forall_forall in Hk. specialize (Hk _ Hv).
    rewrite Exists_exists in Hk. destruct Hk as (d' & ? & ? & ?). by exists d'.
Qed.

Lemma decoded_opts_ok params : (decoded params).1 = 0 →
  is_Some (op_image_path (opts_of (decoded params).2)) ∧
  0 ≤ op_stripe_size_kb (opts_of (decoded params).2) < 2 ^ 32.
Proof.
  intros Hrc. split.
  - destruct (decoded_required (mk_decoder "image_path" F_image_path spdk_json_decode_string false)
      params Hrc) as (v & Hv & _); [right; left|done|].
    simpl in *. destruct (rc_image_path _); [done|]. by simpl in Hv.
  - destruct (decoded_required (mk_decoder "stripe_size_kb" F_stripe_size_kb spdk_json_decode_uint32 false)
      params Hrc) as (v & Hv & d' & Hd' & Hn & Hkind); [do 3 right; left|done|].
    simpl in Hv. injection Hv as <-.
    assert (dec_func d' = spdk_json_decode_uint32) as Hf.
    { clear -Hd' Hn. unfold rpc_construct_ubi_decoders in Hd'.
      repeat (apply elem_of_cons in Hd' as [->|Hd']; [done|]). by apply not_elem_of_nil in Hd'. }
    rewrite Hf in Hkind. cbn [json_has_kind] in Hkind. apply andb_true_iff in Hkind as [?%Z.leb_le ?%Z.ltb_lt].
    by split.
Qed.

(** The strings of the request are freed in every case. *)
Inductive rpc_create_post (request : Z) (params : list (string * json)) (s : mstate)
    : mstate → Prop :=
| RC_decode : (decoded params).1 ≠ 0 →
    rpc_create_post request params s
      (on_resp ((request, RespError SPDK_JSONRPC_ERROR_INTERNAL_ERROR) ::.) s)
| RC_create ctx s' : (decoded params).1 = 0 → m_ctxs s !! ctx = None →
    create_post (opts_of (decoded params).2) ctx request
      (on_ctxs <[ctx := mk_context request None false None]> s) s' →
    rpc_create_post request params s s'.

Lemma create_post_strs o ctx arg f s s' :
  create_post o ctx arg (on_strs f s) s' →
  m_strs s' = f (m_strs s) ∧ create_post o ctx arg s (on_strs (λ _, m_strs s) s').
Proof.
  destruct 1 as [status ? ?|s0 r ref ?|p u b d ref ? ? ? ?]; (split; [done|]).
  - to_state (failed ctx arg status s). by constructor.
  - to_state (failed ctx arg (me_read_blocks s0 r) (on_refs (ref ::.) s)). by constructor.
  - to_state (started p u b d ctx (mk_context arg (Some p) true (Some ref)) ref
      (mk_base_read (m_thread s) p d 0 (ub_data_offset_blocks u)) s). by constructor.
Qed.

Lemma wp_rpc_create request params s :
  resources_ok s → m_thread s = m_app_thread s →
  wp (rpc_bdev_ubi_create request params) s (λ _, rpc_create_post request params s).
Proof.
  intros Hres Ht. unfold rpc_bdev_ubi_create, decode_object. fold (decoded params).
  destruct (decoded params) as [rc req] eqn:Hdec. do 2 m_step. cbn [fst snd].
  unfold c_true. destruct (Z.eqb_spec rc 0) as [->|Hrc]; cbn [negb].
  - destruct (decoded_opts_ok params) as [Hp Hkb]; [by rewrite Hdec|].
    destruct (mo_context (on_strs (owned_strings req ++.) s)) as (ctx & Hctx & Hnew).
    unfold calloc_context. do 4 m_step. apply wp_bind.
    eapply wp_mono.
    { apply wp_bdev_ubi_create with (arg := request); [done|done|..].
      + by rewrite Hdec in Hp.
      + by rewrite Hdec in Hkb.
      + mcbn. by rewrite lookup_insert_eq. }
    intros [] s2 Hpost.
    apply (create_post_strs _ _ _ (owned_strings req ++.)
      (on_ctxs <[ctx := mk_context request None false None]> s)) in Hpost as [Hs2 Hpost].
    eapply wp_free_construct; [exact Hs2|]. apply RC_create with ctx; rewrite ?Hdec; done.
  - apply wp_bind, wp_modify. eapply wp_free_construct; [done|].
    to_state (on_resp ((request, RespError SPDK_JSONRPC_ERROR_INTERNAL_ERROR) ::.) s).
    apply RC_decode. by rewrite Hdec.
Qed.

(** The answer to a deletion; a request that cannot be decoded leaks what the
    decoder allocated. *)
Definition delete_decoded (params : list (string * json)) : Z * rpc_construct_ubi :=
  spdk_json_decode_object rpc_delete_ubi_decoders params
    (mk_construct None None None 0 false false false).

Inductive rpc_delete_post (request : Z) (params : list (string * json)) (s : mstate)
    : mstate → Prop :=
| RD_decode : (delete_decoded params).1 ≠ 0 →
    rpc_delete_post request params s
      (on_resp ((request, RespError SPDK_JSONRPC_ERROR_INTERNAL_ERROR) ::.)
         (on_strs (owned_name (delete_decoded params).2 ++.) s))
| RD_error rc : rc ≠ 0 →
    rpc_delete_post request params s (on_resp ((request, RespError rc) ::.) s)
| RD_started p : p ∈ m_regs s → p ∉ (m_unregs s).*1 →
    rpc_delete_post request params s (on_unregs ((p, Some request) ::.) s).

Lemma wp_rpc_delete request params s :
  wp (rpc_bdev_ubi_delete request params) s (λ _, rpc_delete_post request params s).
Proof.
  unfold rpc_bdev_ubi_delete, decode_object. fold (delete_decoded params).
  destruct (delete_decoded params) as [rc req] eqn:Hdec. do 2 m_step. cbn [fst snd].
  unfold c_true. destruct (Z.eqb_spec rc 0) as [->|Hrc]; cbn [negb].
  - set (s1 := on_strs _ s). unfold bdev_ubi_delete, spdk_bdev_unregister_by_name. m_step.
    destruct (me_unregister_by_name s1 _) as [e|p] eqn:Hn.
    + m_step. pose proof (mo_by_name_err _ _ _ Hn) as He. unfold c_true.
      rewrite (proj2 (Z.eqb_neq e 0)) by done. cbn [negb]. simpl. unfold rpc_bdev_ubi_delete_cb.
      rewrite (proj2 (Z.eqb_neq e 0)) by done. apply wp_modify.
      eapply wp_free_string; [done|].
      to_state (on_resp ((request, RespError e) ::.) s). by apply RD_error.
    + destruct (mo_by_name _ _ _ Hn) as [Hr Hu]. do 2 m_step. apply wp_ret. eapply wp_free_string; [done|].
      to_state (on_unregs ((p, Some request) ::.) s). by apply RD_started.
  - apply wp_modify.
    change req with (rc, req).2. rewrite <-Hdec. apply RD_decode. by rewrite Hdec.
Qed.
End Rpc.

(** * Deletion *)

Section Delete.
Context {E : mod_env}.

Lemma wp_device_unregister p u s (Q : unit → mstate → Prop) :
  m_bdevs s !! p = Some u → (is_Some (bd_name (ub_bdev u)) → p ∈ m_names s) →
  Q tt (on_bdevs (delete p) (release_name u p s)) → wp (device_unregister_cb p) s Q.
Proof.
  intros Hu Hn HQ. apply wp_bind, wp_free_name with u; [done..|].
  apply wp_free_bdev with u; [by rewrite release_name_bdevs|done].
Qed.

(** The descriptor is closed here or by a message to the thread that opened
    it. *)
Definition close_on (t d : Z) (s : mstate) : mstate :=
  if decide (t = m_thread s) then on_descs (delete d) s else on_msgs (.++ [(t, d)]) s.

Definition destructed (p : Z) (u : ubi_bdev) (b : spdk_bdev) (d : Z) (head : list Z) (s : mstate)
    : mstate :=
  on_devcbs (p ::.) (on_iodevs (λ l, l ∖ {[ p ]})
    (close_on (ub_thread u) d
      (on_claims (λ l, l ∖ {[ bd_addr b ]}) (on_head (λ _, head) s)))).

Lemma destructed_frame p u b d head s :
  m_resp (destructed p u b d head s) = m_resp s ∧
  m_unregs (destructed p u b d head s) = m_unregs s ∧
  m_strs (destructed p u b d head s) = m_strs s.
Proof. unfold destructed, close_on. by destruct (decide _). Qed.

Lemma wp_destruct p u b d head s (Q : Z → mstate → Prop) :
  m_bdevs s !! p = Some u → ub_base_bdev_info u = mk_base_info (Some b) (Some d) →
  m_descs s !! d = Some (b, ub_thread u) → bd_addr b ∈ m_claims s → p ∈ m_iodevs s →
  remove_one p (m_head s) = Some head → ub_thread u ≠ 0 →
  Q 0 (destructed p u b d head s) → wp (ubi_destruct p) s Q.
Proof.
  intros Hu Hb Hd Hc Hi Hh Ht HQ. unfold ubi_destruct. do 4 m_step.
  rewrite Hb. cbn [bi_bdev bi_desc]. apply wp_bind, wp_release_bdev; [done|].
  set (s1 := on_claims _ _). unfold c_true. rewrite (proj2 (Z.eqb_neq (ub_thread u) 0)) by done.
  cbn [negb andb]. unfold destructed in HQ. fold s1 in HQ. unfold close_on in HQ.
  change (m_thread s1) with (m_thread s) in HQ.
  assert (Hun : ∀ s2, m_iodevs s2 = m_iodevs s →
    Q 0 (on_devcbs (p ::.) (on_iodevs (λ l, l ∖ {[ p ]}) s2)) →
    wp (spdk_io_device_unregister p true;; mret 0) s2 Q).
  { intros s2 Hs2 HQ2. unfold spdk_io_device_unregister. do 2 m_step; [by rewrite Hs2|].
    do 2 m_step. by m_step. }
  destruct (Z.eqb_spec (ub_thread u) (m_thread s)) as [Heq|Hne]; cbn [negb].
  - rewrite decide_True in HQ by done. apply wp_bind.
    apply wp_close with b; [subst s1; mcbn; by rewrite Hd, Heq|]. by apply Hun.
  - rewrite decide_False in HQ by done. do 2 m_step. by apply Hun.
Qed.

Lemma wp_find_by_base base l s (Q : option Z → mstate → Prop) :
  (∀ p, p ∈ l → is_Some (m_bdevs s !! p)) →
  (∀ r, (∀ p, r = Some p → p ∈ l ∧ ∃ u, m_bdevs s !! p = Some u ∧
           bd_addr <$> bi_bdev (ub_base_bdev_info u) = Some base) →
        (r = None → ∀ p u, p ∈ l → m_bdevs s !! p = Some u →
           bd_addr <$> bi_bdev (ub_base_bdev_info u) ≠ Some base) → Q r s) →
  wp (find_by_base_bdev base l) s Q.
Proof.
  induction l as [|p l IH]; intros Hl HQ; cbn [find_by_base_bdev].
  { apply wp_ret, HQ; [done|]. by intros _ p u ?%not_elem_of_nil. }
  destruct (Hl p) as [u Hu]; [left|]. m_step. case_decide as Hb.
  - apply wp_ret, HQ; [|done]. intros p' [= <-]. split; [left|]. by exists u.
  - apply IH; [intros p' ?; apply Hl; by right|]. intros r Hsome Hnone. apply HQ.
    + intros p' Hp'. destruct (Hsome p' Hp') as [? ?]. split; [by right|done].
    + intros Hr p' u' [->|Hin]%elem_of_cons Hu'; [congruence|by apply (Hnone Hr p')].
Qed.
End Delete.
