(* ===== verification/Ownership.v ===== *)
(** The module as a whole: the events that call into it, and an abstract
    machine of its bdevs that says who holds what.

    A bdev of the abstract machine is being created ([a_reading]), open
    ([a_open]; [a_closing] names those that are being unregistered, with the
    request that waits for it) or destructed ([a_dying]); a descriptor whose close message is on its way is an orphan.  Its steps
    ([astep]) are labelled with the events and guarded: what a step may take,
    give back, answer or lose is fixed by the event and the state, and a
    channel reference or a string is lost in one step each.  [holds] computes
    every field of the concrete state from the abstract one, so a simulation of
    the events by the abstract machine is an account of every resource. *)
From stdpp Require Import base tactics list gmap option numbers functions strings sets fin_maps.
From Stdlib Require Import ZArith Lia.
From S2P Require Import Prelude Types World Layout Stripe Metadata Lifecycle Rpc LifeSpec.

Local Open Scope Z_scope.

(** * Events *)

Inductive mevent : Type :=
| MCreate (request : Z) (params : list (string * json))
| MDelete (request : Z) (params : list (string * json))
(** the metadata read of a context completes with the bytes on the disk *)
| MReadDone (ctx : Z) (success : bool) (bytes : Z → Z)
(** SPDK destroys a bdev that is being unregistered, on a thread *)
| MDestruct (p : Z) (cb : option Z) (t : Z)
(** a message is delivered; the callback of a device that was unregistered *)
| MMessage (t d : Z)
| MDeviceUnregistered (p : Z)
| MBaseEvent (type : spdk_bdev_event_type) (base : Z).

Definition on_this_thread (t : Z) : M mstate unit := modify (on_thread (λ _, t)).
Definition on_app : M mstate unit := t ← gets m_app_thread; on_this_thread t.

Section Run.
Context {E : mod_env} {J : json_decoder}.

(** An event as SPDK delivers it: on the thread it belongs to, with what SPDK
    does before and after the call. *)
Definition run_mevent (ev : mevent) : M mstate unit :=
  match ev with
  | MCreate request params => on_app;; rpc_bdev_ubi_create request params
  | MDelete request params => on_app;; rpc_bdev_ubi_delete request params
  | MReadDone ctx success bytes =>
      s ← gets id;
      r ← of_option (m_reads s !! ctx);
      on_this_thread (br_thread r);;
      upd_bdev (br_dest r) (with_metadata (λ _, metadata_of_bytes bytes));;
      ubi_finish_read_metadata success ctx
  | MDestruct p cb t =>
      on_this_thread t;;
      modify (on_regs (λ l, l ∖ {[ p ]}));;
      modify (on_unregs (filter (λ q, q.1 ≠ p)));;
      rc ← ubi_destruct p;
      match cb with Some arg => delete_fn arg rc | None => mret tt end
  | MMessage t d =>
      on_this_thread t;;
      s ← gets id;
      l ← of_option (remove_one (t, d) (m_msgs s));
      modify (on_msgs (λ _, l));;
      ubi_close_base_bdev (Some d)
  | MDeviceUnregistered p =>
      s ← gets id;
      l ← of_option (remove_one p (m_devcbs s));
      modify (on_devcbs (λ _, l));;
      device_unregister_cb p
  | MBaseEvent type base => on_app;; ubi_handle_base_bdev_event type base
  end.
End Run.

Definition menabled (s : mstate) (ev : mevent) : Prop :=
  match ev with
  | MCreate _ _ | MDelete _ _ | MBaseEvent _ _ => True
  | MReadDone ctx _ _ => is_Some (m_reads s !! ctx)
  | MDestruct p cb _ => (p, cb) ∈ m_unregs s
  | MMessage t d => (t, d) ∈ m_msgs s
  | MDeviceUnregistered p => p ∈ m_devcbs s
  end.
#[export] Instance menabled_dec s ev : Decision (menabled s ev).
Proof. destruct ev; simpl; apply _. Defined.

(** * The abstract machine *)

(** A bdev and its base bdev, descriptor and thread. *)
Record owner : Type := mk_owner {
  o_p : Z;
  o_base : spdk_bdev;
  o_desc : Z;
  o_thread : Z;
  o_name : string
}.

(** A creation waiting for its metadata: the context, the request to answer,
    the channel, and the bdev. *)
Record creation : Type := mk_creation {
  c_ctx : Z;
  c_arg : Z;
  c_ref : Z;
  c_blocks : Z;
  c_owner : owner
}.

Record astate : Type := mk_astate {
  a_reading : list creation;
  a_open : list owner;
  (** bdevs that are being unregistered, and the request to answer *)
  a_closing : list (Z * option Z);
  a_dying : list Z;
  a_orphans : list owner;
  (** requests that took a channel which was never given back, and the channel *)
  a_leaked : list (Z * Z);
  (** strings of requests that were never freed *)
  a_strs : list Z;
  a_resp : list (Z * response)
}.
(** The module when it is loaded; [strs] are the strings of others. *)
Definition no_owner (strs : list Z) : astate := mk_astate [] [] [] [] [] [] strs [].

Definition with_reading (l : list creation) (a : astate) : astate :=
  mk_astate l (a_open a) (a_closing a) (a_dying a) (a_orphans a) (a_leaked a) (a_strs a) (a_resp a).
Definition with_closing (l : list (Z * option Z)) (a : astate) : astate :=
  mk_astate (a_reading a) (a_open a) l (a_dying a) (a_orphans a) (a_leaked a) (a_strs a) (a_resp a).
Definition leak (request ref : Z) (a : astate) : astate :=
  mk_astate (a_reading a) (a_open a) (a_closing a) (a_dying a) (a_orphans a) ((request, ref) :: a_leaked a)
    (a_strs a) (a_resp a).
Definition leak_strings (l : list Z) (a : astate) : astate :=
  mk_astate (a_reading a) (a_open a) (a_closing a) (a_dying a) (a_orphans a) (a_leaked a) (l ++ a_strs a) (a_resp a).
Definition answer (request : Z) (r : response) (a : astate) : astate :=
  mk_astate (a_reading a) (a_open a) (a_closing a) (a_dying a) (a_orphans a) (a_leaked a) (a_strs a)
    ((request, r) :: a_resp a).

Definition live (a : astate) : list owner := (c_owner <$> a_reading a) ++ a_open a.
Definition all_bdevs (a : astate) : list Z := (o_p <$> live a) ++ a_dying a.

Definition creation_read (c : creation) : base_read :=
  mk_base_read (o_thread (c_owner c)) (o_p (c_owner c)) (o_desc (c_owner c)) 0 (c_blocks c).
Definition creation_context (c : creation) : ubi_create_context :=
  mk_context (c_arg c) (Some (o_p (c_owner c))) true (Some (c_ref c)).

Definition base_addr (o : owner) : Z := bd_addr (o_base o).
Definition is_error (r : response) : Prop :=
  match r with RespError _ | RespErrorFmt _ _ => True | RespString _ | RespBool _ => False end.

(** Nobody uses what the creation [c] takes. *)
Record unused (app : Z) (c : creation) (a : astate) : Prop := {
  un_p : o_p (c_owner c) ∉ all_bdevs a;
  un_base : base_addr (c_owner c) ∉ base_addr <$> live a;
  un_desc : o_desc (c_owner c) ∉ o_desc <$> live a ++ a_orphans a;
  un_ctx : c_ctx c ∉ c_ctx <$> a_reading a;
  un_thread : o_thread (c_owner c) = app
}.

(** A bdev that was destructed on the thread [t]: its descriptor is closed
    there or becomes an orphan, and whoever deleted the bdev is answered. *)
Definition destruct_owner (o : owner) (l1 l2 : list owner) (cb : option Z) (t : Z) (a : astate) : astate :=
  mk_astate (a_reading a) (l1 ++ l2) (filter (λ q, q.1 ≠ o_p o) (a_closing a)) (o_p o :: a_dying a)
    (if decide (o_thread o = t) then a_orphans a else a_orphans a ++ [o]) (a_leaked a) (a_strs a)
    (match cb with Some arg => (arg, RespBool true) :: a_resp a | None => a_resp a end).

(** The machine: what an event may do in a state, the owners it makes and
    ends, what it leaks and which request it answers with what.  A channel
    leaks only where the base bdev of [E] refuses a metadata read, strings only
    where the decoder [J] refuses a delete request. *)
Inductive astep (E : mod_env) (J : json_decoder) (app : Z) : mevent → astate → astate → Prop :=
| ARefused request params r a : is_error r →
    astep E J app (MCreate request params) a (answer request r a)
| ALeaked request params s0 r ref a : me_read_blocks s0 r ≠ 0 →
    astep E J app (MCreate request params) a
      (answer request (error_response (me_read_blocks s0 r)) (leak request ref a))
| AStarted request params c a : c_arg c = request → unused app c a → (decoded params).1 = 0 →
    op_name (opts_of (decoded params).2) = Some (o_name (c_owner c)) →
    astep E J app (MCreate request params) a (with_reading (c :: a_reading a) a)
| AUndecoded request params a : (delete_decoded params).1 ≠ 0 →
    astep E J app (MDelete request params) a
      (answer request (RespError SPDK_JSONRPC_ERROR_INTERNAL_ERROR)
         (leak_strings (owned_name (delete_decoded params).2) a))
| ANotFound request params rc a : rc ≠ 0 →
    astep E J app (MDelete request params) a (answer request (RespError rc) a)
| ADeleted request params o a : o ∈ a_open a → o_p o ∉ (a_closing a).*1 →
    astep E J app (MDelete request params) a (with_closing ((o_p o, Some request) :: a_closing a) a)
| AFailed c reading success bytes status a : a_reading a ≡ₚ c :: reading → status ≠ 0 →
    astep E J app (MReadDone (c_ctx c) success bytes) a
      (answer (c_arg c) (error_response status) (with_reading reading a))
| AOpened c reading bytes a : a_reading a ≡ₚ c :: reading →
    astep E J app (MReadDone (c_ctx c) true bytes) a
      (answer (c_arg c) (RespString (o_name (c_owner c)))
        (mk_astate reading (a_open a ++ [c_owner c]) (a_closing a) (a_dying a) (a_orphans a) (a_leaked a)
           (a_strs a) (a_resp a)))
| ADestructed o l1 l2 cb t a : a_open a = l1 ++ o :: l2 → (o_p o, cb) ∈ a_closing a →
    astep E J app (MDestruct (o_p o) cb t) a (destruct_owner o l1 l2 cb t a)
| AClosed o l1 l2 a : a_orphans a = l1 ++ o :: l2 →
    astep E J app (MMessage (o_thread o) (o_desc o)) a
      (mk_astate (a_reading a) (a_open a) (a_closing a) (a_dying a) (l1 ++ l2) (a_leaked a) (a_strs a) (a_resp a))
| AFreed p dying a : a_dying a ≡ₚ p :: dying →
    astep E J app (MDeviceUnregistered p) a
      (mk_astate (a_reading a) (a_open a) (a_closing a) dying (a_orphans a) (a_leaked a) (a_strs a) (a_resp a))
| ABaseRemoved o a : o ∈ a_open a → o_p o ∉ (a_closing a).*1 →
    astep E J app (MBaseEvent SPDK_BDEV_EVENT_REMOVE (base_addr o)) a
      (with_closing ((o_p o, None) :: a_closing a) a)
| AIgnored type base a :
    (type = SPDK_BDEV_EVENT_REMOVE → ∀ o, o ∈ a_open a → base_addr o = base → o_p o ∈ (a_closing a).*1) →
    astep E J app (MBaseEvent type base) a a.

(** * The account of the resources *)

(** The bdev in memory is the one its owner record describes. *)
Definition owns (o : owner) (u : ubi_bdev) : Prop :=
  ub_base_bdev_info u = mk_base_info (Some (o_base o)) (Some (o_desc o)) ∧
  ub_thread u = o_thread o ∧ bd_name (ub_bdev u) = Some (o_name o).

Definition desc_entry (o : owner) : Z * (spdk_bdev * Z) := (o_desc o, (o_base o, o_thread o)).

(** What the bdevs [lv] in use, the ones being freed and the orphaned
    descriptors account for. *)
Record account (lv : list owner) (dying : list Z) (orphans : list owner) (s : mstate) : Prop := {
  h_nodup : NoDup ((o_p <$> lv) ++ dying);
  h_nodup_base : NoDup (base_addr <$> lv);
  h_nodup_desc : NoDup (o_desc <$> lv ++ orphans);
  h_bdevs : dom (m_bdevs s) = list_to_set ((o_p <$> lv) ++ dying);
  h_names : m_names s = list_to_set ((o_p <$> lv) ++ dying);
  h_live o : o ∈ lv → ∃ u, m_bdevs s !! o_p o = Some u ∧ owns o u;
  h_dying p : p ∈ dying → ∃ u, m_bdevs s !! p = Some u ∧ is_Some (bd_name (ub_bdev u));
  h_thread o : o ∈ lv → o_thread o = m_app_thread s;
  h_iodevs : m_iodevs s = list_to_set (o_p <$> lv);
  h_claims : m_claims s = list_to_set (base_addr <$> lv);
  h_descs : m_descs s = list_to_map (desc_entry <$> lv ++ orphans)
}.

Record holds (a : astate) (s : mstate) : Prop := {
  h_account : account (live a) (a_dying a) (a_orphans a) s;
  h_app : m_app_thread s ≠ 0;
  h_nodup_ctx : NoDup (c_ctx <$> a_reading a);
  h_head : m_head s = o_p <$> a_open a;
  h_regs : m_regs s = list_to_set (o_p <$> a_open a);
  h_reads : m_reads s = list_to_map ((λ c, (c_ctx c, creation_read c)) <$> a_reading a);
  h_ctxs : m_ctxs s = list_to_map ((λ c, (c_ctx c, creation_context c)) <$> a_reading a);
  h_refs : m_refs s ≡ₚ (a_leaked a).*2 ++ (c_ref <$> a_reading a);
  h_msgs : m_msgs s = (λ o, (o_thread o, o_desc o)) <$> a_orphans a;
  h_devcbs : m_devcbs s = a_dying a;
  h_closing : m_unregs s = a_closing a;
  h_unregs : NoDup (a_closing a).*1;
  h_unreg p : p ∈ (a_closing a).*1 → p ∈ o_p <$> a_open a;
  h_strs : m_strs s = a_strs a;
  h_resp : m_resp s = a_resp a
}.

(** Requests that will be answered later. *)
Definition pending (a : astate) : list Z := (c_arg <$> a_reading a) ++ omap snd (a_closing a).

Definition requests_of (ev : mevent) : list Z :=
  match ev with MCreate r _ | MDelete r _ => [r] | _ => [] end.

(** * Lists, sets and maps *)

Lemma list_to_set_remove (x : Z) (l : list Z) : x ∉ l →
  (list_to_set (x :: l) : gset Z) ∖ {[ x ]} = list_to_set l.
Proof. intros Hx. simpl. apply set_add_remove. by rewrite elem_of_list_to_set. Qed.

Lemma list_to_map_remove {V} (k : Z) (v : V) (l : list (Z * V)) : k ∉ l.*1 →
  delete k (list_to_map ((k, v) :: l) : gmap Z V) = list_to_map l.
Proof. intros Hk. cbn [list_to_map]. apply delete_insert_id. by apply not_elem_of_list_to_map_1. Qed.

Lemma remove_one_middle {A} `{EqDecision A} (x : A) l1 l2 : x ∉ l1 →
  remove_one x (l1 ++ x :: l2) = Some (l1 ++ l2).
Proof.
  induction l1 as [|y l1 IH]; intros Hx; simpl; [by rewrite decide_True|].
  rewrite decide_False by (intros ->; apply Hx; left).
  rewrite IH; [done|]. intros Hin. apply Hx. by right.
Qed.

Lemma filter_key_perm {B} (p : Z) (v : B) (l : list (Z * B)) :
  NoDup l.*1 → (p, v) ∈ l → l ≡ₚ (p, v) :: filter (λ q, q.1 ≠ p) l.
Proof.
  induction l as [|[q w] l IH]; [by intros _ ?%not_elem_of_nil|].
  intros Hnd Hin. rewrite fmap_cons in Hnd. inversion Hnd as [|? ? Hq Hnd']; subst.
  cbn [fst] in Hq. apply elem_of_cons in Hin as [[= <- <-]|Hin].
  - rewrite filter_cons_False by (cbn; tauto). rewrite filter_all; [done|].
    intros [q' w'] Hin' Heq. apply Hq. cbn in Heq. subst. by apply (list_elem_of_fmap_2 fst _ (p, w')).
  - rewrite filter_cons_True.
    + rewrite (IH Hnd' Hin) at 1. apply Permutation_swap.
    + cbn. intros ->. apply Hq. by apply (list_elem_of_fmap_2 fst _ (p, v)).
Qed.

Lemma NoDup_filter_keys {B} (P : Z * B → Prop) `{!∀ q, Decision (P q)} (l : list (Z * B)) :
  NoDup l.*1 → NoDup (filter P l).*1.
Proof.
  intros Hnd. apply sublist_NoDup with l.*1; [done|]. induction l as [|q l IH]; [constructor|].
  inversion Hnd; subst. rewrite filter_cons. destruct (decide (P q)); cbn; constructor; auto.
Qed.

Lemma list_to_set_middle_remove (x : Z) (l1 l2 : list Z) : x ∉ l1 ++ l2 →
  (list_to_set (l1 ++ x :: l2) : gset Z) ∖ {[ x ]} = list_to_set (l1 ++ l2).
Proof.
  intros Hx. rewrite (list_to_set_perm_L (l1 ++ x :: l2) (x :: l1 ++ l2))
    by by rewrite Permutation_middle.
  by apply list_to_set_remove.
Qed.

(** * Changes of the account *)

Section Account.
Implicit Types (lv orphans : list owner) (dying : list Z) (s : mstate).

Lemma account_perm lv lv' dying orphans s :
  lv ≡ₚ lv' → account lv dying orphans s → account lv' dying orphans s.
Proof.
  intros Hp [H1 H2 H3 Hb Hn Hl Hd Ht Hi Hc Hds].
  assert (Hps : o_p <$> lv ≡ₚ o_p <$> lv') by by rewrite Hp.
  assert (Hnd : NoDup (desc_entry <$> lv ++ orphans).*1) by by rewrite <-list_fmap_compose.
  split.
  - by rewrite <-Hp.
  - by rewrite <-Hp.
  - by rewrite <-Hp.
  - rewrite Hb. apply list_to_set_perm_L. by rewrite Hps.
  - rewrite Hn. apply list_to_set_perm_L. by rewrite Hps.
  - intros o. rewrite <-Hp. apply Hl.
  - done.
  - intros o. rewrite <-Hp. apply Ht.
  - rewrite Hi. by apply list_to_set_perm_L.
  - rewrite Hc. apply list_to_set_perm_L. by rewrite Hp.
  - rewrite Hds. apply list_to_map_proper; [done|]. by rewrite Hp.
Qed.

(** The account depends on the fields it speaks of. *)
Lemma account_ext lv dying orphans s s' :
  m_bdevs s' = m_bdevs s → m_names s' = m_names s → m_iodevs s' = m_iodevs s →
  m_claims s' = m_claims s → m_descs s' = m_descs s → m_app_thread s' = m_app_thread s →
  account lv dying orphans s → account lv dying orphans s'.
Proof.
  intros E1 E2 E3 E4 E5 E6 [? ? ? ? ? ? ? ? ? ? ?].
  split; rewrite ?E1, ?E2, ?E3, ?E4, ?E5, ?E6; done.
Qed.

(** The contents of a bdev change, its resources do not. *)
Lemma account_update lv dying orphans s o u :
  o ∈ lv → owns o u → account lv dying orphans s →
  account lv dying orphans (on_bdevs <[o_p o := u]> s).
Proof.
  intros Ho Hu [H1 H2 H3 Hb Hn Hl Hd Ht Hi Hc Hds]. split; mcbn; try done.
  - rewrite dom_insert_L, Hb. apply subseteq_union_1_L, singleton_subseteq_l.
    apply elem_of_list_to_set, elem_of_app. left. by apply list_elem_of_fmap_2.
  - intros o' Ho'. destruct (decide (o_p o' = o_p o)) as [Heq|Hne].
    + rewrite Heq, lookup_insert_eq. exists u. split; [done|].
      apply NoDup_app in H1 as (H1 & _ & _).
      assert (o' = o) as ->; [|done]. by apply (NoDup_fmap_key o_p lv).
    + rewrite lookup_insert_ne by done. by apply Hl.
  - intros p Hp. rewrite lookup_insert_ne; [by apply Hd|]. intros <-.
    apply NoDup_app in H1 as (_ & H1 & _). apply (H1 (o_p o)); [|done]. by apply list_elem_of_fmap_2.
Qed.

(** A creation takes a name, a device, a claim and a descriptor. *)
Lemma account_add lv dying orphans s o u :
  account lv dying orphans s → m_bdevs s !! o_p o = None → m_descs s !! o_desc o = None →
  base_addr o ∉ m_claims s → o_thread o = m_app_thread s → owns o u →
  account (o :: lv) dying orphans
    (on_iodevs ({[ o_p o ]} ∪.) (on_claims ({[ base_addr o ]} ∪.)
      (on_descs <[o_desc o := (o_base o, o_thread o)]> (on_names ({[ o_p o ]} ∪.)
        (on_bdevs <[o_p o := u]> s))))).
Proof.
  intros [H1 H2 H3 Hb Hn Hl Hd Ht Hi Hc Hds] Hp Hdesc Hcl Hth Ho.
  assert (Hfresh : o_p o ∉ (o_p <$> lv) ++ dying).
  { rewrite <-(elem_of_list_to_set (C := gset Z)), <-Hb. by apply not_elem_of_dom. }
  split; mcbn.
  - by constructor.
  - constructor; [|done]. rewrite Hc in Hcl. by rewrite elem_of_list_to_set in Hcl.
  - cbn. constructor; [|done]. intros (o' & Heq & Ho')%list_elem_of_fmap.
    rewrite Hds in Hdesc. apply not_elem_of_list_to_map_2 in Hdesc. apply Hdesc.
    rewrite <-list_fmap_compose. rewrite Heq. by apply (list_elem_of_fmap_2 (fst ∘ desc_entry)).
  - rewrite dom_insert_L, Hb. done.
  - by rewrite Hn.
  - intros o' [->|Ho']%elem_of_cons; [rewrite lookup_insert_eq; by exists u|].
    destruct (Hl o' Ho') as (u' & Hu' & ?). exists u'. rewrite lookup_insert_ne; [done|]. congruence.
  - intros p Hpd. destruct (Hd p Hpd) as (u' & Hu' & ?). exists u'.
    rewrite lookup_insert_ne; [done|]. congruence.
  - intros o' [->|Ho']%elem_of_cons; [done|]. by apply Ht.
  - by rewrite Hi.
  - by rewrite Hc.
  - by rewrite Hds.
Qed.

(** The bdev goes away with everything it holds. *)
Lemma account_remove lv dying orphans s o u :
  account (o :: lv) dying orphans s → m_bdevs s !! o_p o = Some u → owns o u →
  account lv dying orphans (release u true (o_p o) s).
Proof.
  intros [H1 H2 H3 Hb Hn Hl Hd Ht Hi Hc Hds] Hu (Hbase & _ & Hname).
  unfold release, release_name, release_device, release_base. rewrite Hbase, Hname.
  cbn in H1, H2, H3. inversion H1 as [|? ? Hx1 Hnd1]; inversion H2 as [|? ? Hx2 Hnd2];
    inversion H3 as [|? ? Hx3 Hnd3]; subst.
  split; mcbn; try done.
  - rewrite dom_delete_L, Hb. by apply list_to_set_remove.
  - rewrite Hn. by apply list_to_set_remove.
  - intros o' Ho'. destruct (Hl o') as (u' & Hu' & ?); [by right|]. exists u'.
    rewrite lookup_delete_ne; [done|]. intros Heq. apply Hx1, elem_of_app. left. rewrite Heq.
    by apply list_elem_of_fmap_2.
  - intros p Hp. destruct (Hd p Hp) as (u' & Hu' & ?). exists u'.
    rewrite lookup_delete_ne; [done|]. intros Heq. apply Hx1, elem_of_app. right. by rewrite Heq.
  - intros o' Ho'. apply Ht. by right.
  - rewrite Hi. apply list_to_set_remove. intros Hin. apply Hx1, elem_of_app. by left.
  - rewrite Hc. by apply list_to_set_remove.
  - rewrite Hds. change (o :: lv) with ([o] ++ lv). cbn. apply list_to_map_remove.
    by rewrite <-list_fmap_compose.
Qed.

(** A destructed bdev keeps its memory and name until the device is gone. *)
Lemma account_destruct lv dying orphans s o :
  account (o :: lv) dying orphans s →
  account lv (o_p o :: dying) orphans
    (on_iodevs (λ l, l ∖ {[ o_p o ]}) (on_descs (delete (o_desc o))
      (on_claims (λ l, l ∖ {[ base_addr o ]}) s))).
Proof.
  intros [H1 H2 H3 Hb Hn Hl Hd Ht Hi Hc Hds].
  cbn in H1, H2, H3. inversion H1 as [|? ? Hx1 Hnd1]; inversion H2 as [|? ? Hx2 Hnd2];
    inversion H3 as [|? ? Hx3 Hnd3]; subst.
  assert (Hperm : (o_p <$> o :: lv) ++ dying ≡ₚ (o_p <$> lv) ++ o_p o :: dying).
  { cbn. by rewrite Permutation_middle. }
  split; mcbn; try done.
  - by rewrite <-Hperm.
  - rewrite Hb. by apply list_to_set_perm_L.
  - rewrite Hn. by apply list_to_set_perm_L.
  - intros o' Ho'. apply Hl. by right.
  - intros p [->|Hp]%elem_of_cons; [|by apply Hd].
    destruct (Hl o) as (u & Hu & _ & _ & Hname); [left|]. exists u. by rewrite Hname.
  - intros o' Ho'. apply Ht. by right.
  - rewrite Hi. apply list_to_set_remove. intros Hin. apply Hx1, elem_of_app. by left.
  - rewrite Hc. by apply list_to_set_remove.
  - rewrite Hds. cbn. apply list_to_map_remove. by rewrite <-list_fmap_compose.
Qed.

(** The same with the descriptor left to a message. *)
Lemma account_orphan lv dying orphans s o :
  account (o :: lv) dying orphans s →
  account lv (o_p o :: dying) (orphans ++ [o])
    (on_iodevs (λ l, l ∖ {[ o_p o ]}) (on_claims (λ l, l ∖ {[ base_addr o ]}) s)).
Proof.
  intros Hacc. pose proof (account_destruct _ _ _ _ _ Hacc) as [H1 H2 _ Hb Hn Hl Hd Ht Hi Hc _].
  destruct Hacc as [_ _ H3 _ _ _ _ _ _ _ Hds].
  assert (Hperm : (o :: lv) ++ orphans ≡ₚ lv ++ orphans ++ [o]).
  { cbn. rewrite app_assoc. apply Permutation_cons_append. }
  split; mcbn; try done.
  - by rewrite <-Hperm.
  - rewrite Hds. apply list_to_map_proper; [by rewrite <-list_fmap_compose|by rewrite Hperm].
Qed.

Lemma account_close lv dying l1 l2 s o :
  account lv dying (l1 ++ o :: l2) s →
  account lv dying (l1 ++ l2) (on_descs (delete (o_desc o)) s).
Proof.
  intros [H1 H2 H3 Hb Hn Hl Hd Ht Hi Hc Hds].
  assert (Hperm : lv ++ l1 ++ o :: l2 ≡ₚ o :: lv ++ l1 ++ l2).
  { rewrite !app_assoc. by rewrite <-Permutation_middle. }
  assert (Hnd : NoDup (desc_entry <$> lv ++ l1 ++ o :: l2).*1) by by rewrite <-list_fmap_compose.
  rewrite Hperm in H3. cbn in H3. inversion H3; subst.
  split; mcbn; try done.
  rewrite Hds, (list_to_map_proper _ (desc_entry <$> o :: lv ++ l1 ++ l2)) by (done || by rewrite Hperm).
  apply list_to_map_remove. by rewrite <-list_fmap_compose.
Qed.

Lemma account_free lv dying orphans s p u :
  account lv (p :: dying) orphans s → m_bdevs s !! p = Some u →
  account lv dying orphans (on_bdevs (delete p) (release_name u p s)).
Proof.
  intros [H1 H2 H3 Hb Hn Hl Hd Ht Hi Hc Hds] Hu.
  destruct (Hd p) as (u' & Hu' & [name Hname]); [left|].
  assert (u' = u) as -> by congruence. unfold release_name. rewrite Hname.
  assert (Hperm : (o_p <$> lv) ++ p :: dying ≡ₚ p :: (o_p <$> lv) ++ dying).
  { by rewrite <-Permutation_middle. }
  rewrite Hperm in H1. inversion H1 as [|? ? Hx Hnd]; subst.
  split; mcbn; try done.
  - rewrite dom_delete_L, Hb, (list_to_set_perm_L _ _ Hperm). by apply list_to_set_remove.
  - rewrite Hn, (list_to_set_perm_L _ _ Hperm). by apply list_to_set_remove.
  - intros o Ho. rewrite lookup_delete_ne; [by apply Hl|]. intros ->. apply Hx, elem_of_app. left.
    by apply list_elem_of_fmap_2.
  - intros q Hq. rewrite lookup_delete_ne; [apply Hd; by right|]. intros ->.
    apply Hx, elem_of_app. by right.
Qed.
End Account.

(** * Simulation *)

(** Equality of states that go through [failed] or [started]; [to_state] up to
    it. *)
Ltac state_ctx_eq :=
  apply mstate_ext; unfold failed, started; mcbn;
  rewrite ?insert_insert_eq, ?delete_insert_eq; rewrite ?delete_id by done; done.
Ltac to_state_ctx s' :=
  lazymatch goal with |- _ ?s => replace s with s' by state_ctx_eq end.

Lemma holds_reading_perm a s reading : a_reading a ≡ₚ reading → holds a s → holds (with_reading reading a) s.
Proof.
  intros Hp [Hacc ? Hnd ? ? Hr Hc Hrefs ? ? ? ? ? ? ?]. split; cbn; try done.
  - eapply account_perm; [|exact Hacc]. unfold live. cbn. by rewrite Hp.
  - by rewrite <-Hp.
  - rewrite Hr. apply list_to_map_proper; [by rewrite <-list_fmap_compose|by rewrite Hp].
  - rewrite Hc. apply list_to_map_proper; [by rewrite <-list_fmap_compose|by rewrite Hp].
  - by rewrite Hrefs, Hp.
Qed.

(** Fields [holds] does not speak of: the running thread and the switches. *)
Lemma holds_ext a s s' : holds a s → m_bdevs s' = m_bdevs s → m_names s' = m_names s →
  m_ctxs s' = m_ctxs s → m_head s' = m_head s → m_app_thread s' = m_app_thread s →
  m_descs s' = m_descs s → m_claims s' = m_claims s → m_refs s' = m_refs s →
  m_iodevs s' = m_iodevs s → m_regs s' = m_regs s → m_reads s' = m_reads s →
  m_msgs s' = m_msgs s → m_unregs s' = m_unregs s → m_devcbs s' = m_devcbs s →
  m_strs s' = m_strs s → m_resp s' = m_resp s → holds a s'.
Proof.
  intros [Hacc ? ? ? ? ? ? ? ? ? ? ? ? ? ?] E1 E2 E3 E4 E5 E6 E7 E8 E9 E10 E11 E12 E13 E14 E15 E16.
  split; rewrite ?E3, ?E4, ?E5, ?E8, ?E10, ?E11, ?E12, ?E13, ?E14, ?E15, ?E16; try done.
  by eapply account_ext.
Qed.

(** A response. *)
Lemma holds_answer a s q r : holds a s → holds (answer q r a) (on_resp ((q, r) ::.) s).
Proof.
  intros [Hacc ? ? ? ? ? ? ? ? ? ? ? ? ? Hresp]. split; mcbn; try done.
  - eapply account_ext; [..|exact Hacc]; done.
  - cbn. by rewrite Hresp.
Qed.

(** A bdev of the list starts to be unregistered. *)
Lemma holds_closing a s p cb : holds a s → p ∈ o_p <$> a_open a → p ∉ (a_closing a).*1 →
  holds (with_closing ((p, cb) :: a_closing a) a) (on_unregs ((p, cb) ::.) s).
Proof.
  intros [Hacc ? ? ? ? ? ? ? ? ? Hcl Hu1 Hu2 ? ?] Hp Hnew. split; mcbn; try done.
  - eapply account_ext; [..|exact Hacc]; done.
  - cbn. by rewrite Hcl.
  - cbn. by constructor.
  - cbn. intros q [->|Hq]%elem_of_cons; [done|by apply Hu2].
Qed.

Lemma holds_resources a s : holds a s → resources_ok s.
Proof.
  intros [Hacc _ _ _ _ _ _ _ _ _ _ _ _ _ _]. destruct Hacc as [_ _ _ Hb Hn _ _ _ Hi _ _].
  unfold resources_ok. rewrite Hb, Hn, Hi, list_to_set_app. set_solver.
Qed.

(** ** What the machine promises *)

(** Events that are callbacks of what was started before, and how many of them
    are due at most. *)
Definition is_callback (ev : mevent) : bool :=
  match ev with
  | MReadDone _ _ _ | MDestruct _ _ _ | MMessage _ _ | MDeviceUnregistered _ => true
  | MCreate _ _ | MDelete _ _ | MBaseEvent _ _ => false
  end.
Definition due (a : astate) : nat :=
  (length (a_reading a) + 3 * length (a_closing a) + length (a_orphans a) + length (a_dying a))%nat.

(** Every request of an event is answered now or waits. *)
Lemma astep_replies E J app ev a a' : NoDup (a_closing a).*1 → astep E J app ev a a' →
  (a_resp a').*1 ++ pending a' ≡ₚ requests_of ev ++ (a_resp a).*1 ++ pending a.
Proof.
  intros Hnd Hs. unfold pending. destruct Hs as [| |request params c a <- _ _ _|request params a _|request params rc a _
    |request params o a _ _|c reading success bytes status a Hp _|c reading bytes a Hp|o l1 l2 cb t a _ Hin| | | |]; try done.
  - cbn. symmetry. exact (Permutation_middle (a_resp a).*1 _ (c_arg c)).
  - cbn. rewrite !app_assoc. symmetry. apply Permutation_middle.
  - cbn. rewrite Hp. apply Permutation_middle.
  - cbn. rewrite Hp. apply Permutation_middle.
  - cbn. rewrite (filter_key_perm _ _ _ Hnd Hin) at 2. destruct cb as [arg|]; [|done].
    cbn. rewrite !app_assoc. apply Permutation_middle.
Qed.

(** A callback leaves fewer of them due. *)
Lemma astep_due E J app ev a a' : NoDup (a_closing a).*1 → astep E J app ev a a' → is_callback ev = true →
  (due a' < due a)%nat.
Proof.
  intros Hnd Hs Hcb. unfold due. destruct Hs as [| | | | | |c reading success bytes status a Hp _|c reading bytes a Hp
    |o l1 l2 cb t a _ Hin|o l1 l2 a Ho|p dying a Hp| |]; try done; cbn.
  - rewrite Hp. cbn. lia.
  - rewrite Hp. cbn. lia.
  - assert (length (if decide (o_thread o = t) then a_orphans a else a_orphans a ++ [o]) ≤
            length (a_orphans a) + 1)%nat by (destruct (decide _); rewrite ?length_app; cbn; lia).
    pose proof (Permutation_length (filter_key_perm _ _ _ Hnd Hin)) as Hlen. cbn [length] in Hlen. lia.
  - rewrite Ho, !length_app. cbn. lia.
  - rewrite Hp. cbn. lia.
Qed.

(** Channels leak only where a metadata read was refused, each with the request
    that is answered with the error. *)
Lemma astep_leaked E J app ev a a' : astep E J app ev a a' →
  a_leaked a' = a_leaked a ∨ ∃ request params ref st s r, ev = MCreate request params ∧
    st = me_read_blocks s r ∧ st ≠ 0 ∧ a_leaked a' = (request, ref) :: a_leaked a ∧
    a_resp a' = (request, error_response st) :: a_resp a.
Proof. destruct 1; try (by left). right. by eexists _, _, _, _, _, _. Qed.

Lemma astep_resp E J app ev a a' : astep E J app ev a a' → a_resp a `suffix_of` a_resp a'.
Proof. destruct 1 as [| | | | | | | |o l1 l2 cb t a _ _| | | |]; try done; try by apply suffix_cons_r. destruct cb; [by apply suffix_cons_r|done]. Qed.

(** Strings leak only where a delete request does not decode. *)
Lemma astep_strs E J app ev a a' : astep E J app ev a a' →
  a_strs a' = a_strs a ∨ ∃ request params, ev = MDelete request params ∧ (delete_decoded params).1 ≠ 0 ∧
    a_strs a' = owned_name (delete_decoded params).2 ++ a_strs a.
Proof. destruct 1; try (by left). right. by eexists _, _. Qed.

(** A bdev is unregistered once. *)
Lemma astep_closing E J app ev a a' : astep E J app ev a a' → NoDup (a_closing a).*1 → NoDup (a_closing a').*1.
Proof.
  destruct 1 as [| | | | |request params o a _ Hn| | |o l1 l2 cb t a _ _| | |o a _ Hn|]; try done; cbn.
  - by constructor.
  - by apply NoDup_filter_keys.
  - by constructor.
Qed.

(** Runs of the machine along a trace of events. *)
Inductive arun (P : mod_env → mevent → Prop) (app : Z) (a0 : astate) : list mevent → astate → Prop :=
| arun_nil : arun P app a0 [] a0
| arun_snoc tr a E J ev a' :
    arun P app a0 tr a → mod_env_ok E → json_decoder_ok J → P E ev → astep E J app ev a a' →
    arun P app a0 (tr ++ [ev]) a'.

(** Requests that were received. *)
Definition received (tr : list mevent) : list Z := tr ≫= requests_of.

Lemma received_snoc tr ev : received (tr ++ [ev]) = received tr ++ requests_of ev.
Proof. unfold received. rewrite bind_app. cbn. by rewrite app_nil_r. Qed.

Section Runs.
Context (P : mod_env → mevent → Prop) (app : Z) (a0 : astate).
Hypothesis Hnd : NoDup (a_closing a0).*1.

Lemma arun_closing tr a : arun P app a0 tr a → NoDup (a_closing a).*1.
Proof. induction 1; [done|]. by eapply astep_closing. Qed.

Lemma arun_replies tr a : arun P app a0 tr a →
  (a_resp a).*1 ++ pending a ≡ₚ received tr ++ (a_resp a0).*1 ++ pending a0.
Proof.
  induction 1 as [|tr a E J ev a' Hrun IH _ _ _ Hs]; [done|].
  rewrite (astep_replies _ _ _ _ _ _ (arun_closing _ _ Hrun) Hs), IH, received_snoc.
  rewrite !(assoc_L (++)). do 2 f_equiv. apply Permutation_app_comm.
Qed.

Lemma arun_due tr a : arun P app a0 tr a → (∀ ev, ev ∈ tr → is_callback ev = true) →
  (length tr + due a ≤ due a0)%nat.
Proof.
  induction 1 as [|tr a E J ev a' Hrun IH _ _ _ Hs]; intros Hcb; [cbn; lia|].
  rewrite length_app. cbn.
  pose proof (astep_due _ _ _ _ _ _ (arun_closing _ _ Hrun) Hs (Hcb ev ltac:(apply elem_of_app; right; left))).
  assert (length tr + due a ≤ due a0)%nat; [|lia]. apply IH. intros ev' Hev'. apply Hcb, elem_of_app. by left.
Qed.

(** One channel at most for every creation, and only for those that were
    answered with the error of the base bdev. *)
Lemma arun_leaked tr a : arun P app a0 tr a → a_leaked a0 = [] →
  (a_leaked a).*1 ⊆+ received tr ∧
  ∀ request, request ∈ (a_leaked a).*1 → ∃ E ev s r, P E ev ∧ me_read_blocks s r ≠ 0 ∧
    (request, error_response (me_read_blocks s r)) ∈ a_resp a.
Proof.
  intros Hrun Hn. induction Hrun as [|tr a E J ev a' Hrun [IHs IHr] _ _ HP Hs].
  { rewrite Hn. split; [apply submseteq_nil_l|]. by intros request ?%not_elem_of_nil. }
  pose proof (astep_resp _ _ _ _ _ _ Hs) as [new Hresp].
  assert (Hold : ∀ x, x ∈ a_resp a → x ∈ a_resp a') by (intros x Hx; rewrite Hresp; apply elem_of_app; by right).
  assert (Hkeep : ∀ request, request ∈ (a_leaked a).*1 → ∃ E ev s r, P E ev ∧ me_read_blocks s r ≠ 0 ∧
    (request, error_response (me_read_blocks s r)) ∈ a_resp a').
  { intros request Hreq. destruct (IHr request Hreq) as (E0 & ev0 & s & r & ? & ? & ?). exists E0, ev0, s, r. auto. }
  rewrite received_snoc. destruct (astep_leaked _ _ _ _ _ _ Hs) as [->|(request & params & ref & st & s & r & -> & -> & Hst & Hl & Hr)].
  - split; [|done]. by apply submseteq_inserts_r.
  - rewrite Hl, Hr. cbn. split.
    + rewrite (comm (++)). cbn. by apply submseteq_skip.
    + intros request' [->|Hin]%elem_of_cons; [|rewrite <-Hr; by apply Hkeep].
      exists E, (MCreate request params), s, r. split_and!; [done|done|left].
Qed.

Lemma arun_strs tr a : arun P app a0 tr a →
  (∀ request params, MDelete request params ∈ tr → table_accepts rpc_delete_ubi_decoders params) →
  a_strs a = a_strs a0.
Proof.
  induction 1 as [|tr a E J ev a' Hrun IH _ HJ _ Hs]; intros Hacc; [done|].
  rewrite <-IH by (intros request params ?; eapply Hacc, elem_of_app; by left).
  destruct (astep_strs _ _ _ _ _ _ Hs) as [?|(request & params & -> & Hdec & _)]; [done|]. exfalso. apply Hdec.
  apply jd_accepts; [right; left|]. eapply Hacc. apply elem_of_app. right. left.
Qed.
End Runs.

(** ** The steps *)

(** What an event does. *)
Record msim (E : mod_env) (J : json_decoder) (ev : mevent) (a a' : astate) (s s' : mstate) : Prop := {
  ms_step : astep E J (m_app_thread s) ev a a';
  ms_holds : holds a' s';
  ms_app : m_app_thread s' = m_app_thread s
}.

Section Simulation.
Context {E : mod_env} `{!mod_env_ok E} {J : json_decoder} `{!json_decoder_ok J}.
Implicit Types (a : astate) (s : mstate).

(** A response at once. *)
Lemma msim_respond ev a s request r s1 : astep E J (m_app_thread s) ev a (answer request r a) → holds a s →
  s1 = on_thread (λ _, m_app_thread s) s → msim E J ev a (answer request r a) s (on_resp ((request, r) ::.) s1).
Proof.
  intros Hs Hh ->. split; [done| |done]. apply holds_answer. by eapply holds_ext.
Qed.

Lemma account_unused lv dying orphans s p : account lv dying orphans s → m_bdevs s !! p = None →
  p ∉ (o_p <$> lv) ++ dying.
Proof. intros Hacc Hp. rewrite <-(elem_of_list_to_set (C := gset Z)), <-(h_bdevs _ _ _ _ Hacc). by apply not_elem_of_dom. Qed.

(** What a creation takes is in no one's use. *)
Lemma holds_unused a s c : holds a s → m_ctxs s !! c_ctx c = None →
  m_bdevs s !! o_p (c_owner c) = None → m_descs s !! o_desc (c_owner c) = None →
  base_addr (c_owner c) ∉ m_claims s → o_thread (c_owner c) = m_app_thread s → unused (m_app_thread s) c a.
Proof.
  intros Hh Hctx Hp Hd Hcl Ht. pose proof (h_account _ _ Hh) as Hacc. split; [..|done].
  - unfold all_bdevs. by apply (account_unused _ _ _ _ _ Hacc).
  - rewrite (h_claims _ _ _ _ Hacc), elem_of_list_to_set in Hcl. done.
  - intros (o' & Heq & Ho')%list_elem_of_fmap. rewrite (h_descs _ _ _ _ Hacc) in Hd.
    apply not_elem_of_list_to_map_2 in Hd. apply Hd. rewrite <-list_fmap_compose, Heq.
    by apply (list_elem_of_fmap_2 (fst ∘ desc_entry)).
  - rewrite (h_ctxs _ _ Hh) in Hctx. apply not_elem_of_list_to_map_2 in Hctx.
    by rewrite <-list_fmap_compose in Hctx.
Qed.

Lemma holds_start a s ctx arg ref p b d u name :
  holds a s → m_thread s = m_app_thread s → m_ctxs s !! ctx = None →
  m_bdevs s !! p = None → m_descs s !! d = None → bd_addr b ∉ m_claims s →
  owns (mk_owner p b d (m_thread s) name) u →
  let c := mk_creation ctx arg ref (ub_data_offset_blocks u) (mk_owner p b d (m_thread s) name) in
  unused (m_app_thread s) c a ∧
  holds (with_reading (c :: a_reading a) a) (started p u b d ctx (creation_context c) ref (creation_read c) s).
Proof.
  intros Hh Ht Hctx Hp Hdesc Hcl Hu c.
  assert (Hun : unused (m_app_thread s) c a) by by apply (holds_unused a s c).
  destruct Hh as [Hacc Happ Hnd Hh Hrg Hr Hc Hrefs Hm Hd Hu0 Hu1 Hu2 Hstr Hrs]. split; [done|].
  split; unfold started; mcbn; cbn [a_reading a_open a_dying a_orphans a_leaked a_closing a_strs a_resp with_reading]; try done.
  - pose proof (account_add _ _ _ _ (mk_owner p b d (m_thread s) name) u Hacc Hp Hdesc Hcl Ht Hu) as Hadd.
    eapply account_ext; [..|exact Hadd]; done.
  - constructor; [apply Hun|done].
  - by rewrite Hr.
  - by rewrite Hc.
  - cbn. rewrite Hrefs. by rewrite Permutation_middle.
Qed.

Lemma sim_create request params a s : holds a s →
  wp (run_mevent (MCreate request params)) s (λ _ s', ∃ a', msim E J (MCreate request params) a a' s s').
Proof.
  intros Hh. cbn [run_mevent]. unfold on_app, on_this_thread. do 2 m_step.
  set (s0 := on_thread _ s). assert (Hh0 : holds a s0) by by eapply holds_ext.
  assert (Hrefused : ∀ r, is_error r → ∃ a', msim E J (MCreate request params) a a' s (on_resp ((request, r) ::.) s0)).
  { intros r Hr. eexists. apply msim_respond; [by apply ARefused|done|done]. }
  eapply wp_mono; [by apply wp_rpc_create; [eapply holds_resources|]|].
  intros [] s' [Hdec|ctx s1 Hdec Hctx Hpost]; [by apply Hrefused|].
  destruct Hpost as [status Hst _|s2 r ref Hr|p u b d ref Hp Hd Hcl Hcr].
  - destruct (Hrefused (error_response status)) as [a' Hm]; [unfold error_response; by destruct (status <? 0)|].
    exists a'. by to_state_ctx (on_resp ((request, error_response status) ::.) s0).
  - set (st := me_read_blocks s2 r) in *.
    exists (answer request (error_response st) (leak request ref a)).
    to_state_ctx (on_resp ((request, error_response st) ::.) (on_refs (ref ::.) s0)). split; [by apply (ALeaked _ _ _ _ _ s2 r ref)| |done]. apply holds_answer.
    destruct Hh0 as [Hacc ? ? ? ? ? ? Hrefs ? ? ? ? ? ? ?].
    split; try done; [eapply account_ext; [..|exact Hacc]; done|].
    by apply Permutation_skip.
  - mcbn. destruct Hcr as [_ _ [Hn [name Hs]] Ht Hb _ _ _ _ _].
    set (c := mk_creation ctx request ref (ub_data_offset_blocks u) (mk_owner p b d (m_thread s0) name)).
    exists (with_reading (c :: a_reading a) a).
    to_state_ctx (started p u b d ctx (creation_context c) ref (creation_read c) s0).
    destruct (holds_start a s0 ctx request ref p b d u name) as [Hun Hh']; [done..| |].
    { split_and!; [done|done|by rewrite Hn]. }
    split; [by apply AStarted|done|done].
Qed.

Lemma sim_delete request params a s : holds a s →
  wp (run_mevent (MDelete request params)) s (λ _ s', ∃ a', msim E J (MDelete request params) a a' s s').
Proof.
  intros Hh. cbn [run_mevent]. unfold on_app, on_this_thread. do 2 m_step.
  set (s0 := on_thread _ s). assert (Hh0 : holds a s0) by by eapply holds_ext.
  eapply wp_mono; [apply wp_rpc_delete|].
  intros [] s' [Hdec|rc Hrc|p Hp Hnew].
  - eexists. split; [by apply AUndecoded| |done]. apply holds_answer. destruct Hh0. split; mcbn; try done.
    + eapply account_ext; [..|eassumption]; done.
    + cbn. by f_equal.
  - eexists. apply msim_respond; [by apply ANotFound|done|done].
  - pose proof (h_regs _ _ Hh0) as Hrg. rewrite Hrg in Hp. apply elem_of_list_to_set in Hp.
    rewrite (h_closing _ _ Hh0) in Hnew. pose proof Hp as Hp'. apply list_elem_of_fmap in Hp' as (o & -> & Ho).
    eexists. split; [by apply ADeleted| |done]. by apply holds_closing.
Qed.

(** The bdev whose metadata was read is given up, or opened. *)
Lemma holds_failed a s c reading refs u status :
  a_reading a = c :: reading → holds a s → m_refs s ≡ₚ c_ref c :: refs →
  m_bdevs s !! o_p (c_owner c) = Some u → owns (c_owner c) u →
  holds (answer (c_arg c) (error_response status) (with_reading reading a))
    (failed (c_ctx c) (c_arg c) status
       (release u true (o_p (c_owner c)) (read_over (c_ctx c) refs s))).
Proof.
  intros Hrd [Hacc Happ Hnd Hh Hrg Hr Hc Hrefs Hm Hd Hu0 Hu1 Hu2 Hstr Hrs] Hperm Hu Hown.
  unfold live in Hacc. rewrite Hrd in *. cbn in Hacc, Hnd, Hrefs. inversion Hnd as [|? ? Hx Hnd']; subst.
  assert (Hacc' : account ((c_owner <$> reading) ++ a_open a) (a_dying a) (a_orphans a)
      (release u true (o_p (c_owner c)) (read_over (c_ctx c) refs s))).
  { eapply account_remove; [|exact Hu|exact Hown]. eapply account_ext; [..|exact Hacc]; done. }
  assert (Hkeys : ∀ V (f : creation → V), c_ctx c ∉ ((λ c, (c_ctx c, f c)) <$> reading).*1).
  { intros V f. by rewrite <-list_fmap_compose. }
  split; cbn [a_reading a_open a_dying a_orphans a_leaked a_closing a_strs a_resp answer with_reading].
  1: eapply account_ext; [..|exact Hacc']; done.
  all: destruct Hown as (Hbase & _ & Hname); unfold failed, release, release_name,
    release_device, release_base, read_over; rewrite ?Hbase, ?Hname; mcbn; try done.
  - rewrite Hr. by apply list_to_map_remove.
  - rewrite Hc. by apply list_to_map_remove.
  - apply (Permutation_cons_inv (a := c_ref c)). rewrite <-Hperm, Hrefs.
    by rewrite <-Permutation_middle.
  - by rewrite Hrs.
Qed.

Lemma holds_opened a s c reading refs u u' :
  a_reading a = c :: reading → holds a s → m_refs s ≡ₚ c_ref c :: refs →
  m_bdevs s !! o_p (c_owner c) = Some u → owns (c_owner c) u → parameters u' = parameters u →
  holds (answer (c_arg c) (RespString (o_name (c_owner c)))
      (mk_astate reading (a_open a ++ [c_owner c]) (a_closing a) (a_dying a) (a_orphans a) (a_leaked a)
         (a_strs a) (a_resp a)))
    (opened (c_ctx c) (c_arg c) (o_p (c_owner c)) u' (o_name (c_owner c)) (read_over (c_ctx c) refs s)).
Proof.
  intros Hrd [Hacc Happ Hnd Hh Hrg Hr Hc Hrefs Hm Hd Hu0 Hu1 Hu2 Hstr Hrs] Hperm Hu Hown Hpar.
  unfold live in Hacc. rewrite Hrd in *. cbn in Hacc, Hnd, Hrefs. inversion Hnd as [|? ? Hx Hnd']; subst.
  assert (Hown' : owns (c_owner c) u').
  { destruct (parameters_fields _ _ Hpar) as (Hb & Hi & Ht), Hown as (? & ? & ?).
    unfold owns. by rewrite Hb, Hi, Ht. }
  assert (Hkeys : ∀ V (f : creation → V), c_ctx c ∉ ((λ c, (c_ctx c, f c)) <$> reading).*1).
  { intros V f. by rewrite <-list_fmap_compose. }
  split; unfold opened, read_over; mcbn;
    cbn [a_reading a_open a_dying a_orphans a_leaked a_closing a_strs a_resp answer]; try done.
  - eapply account_perm with (c_owner c :: (c_owner <$> reading) ++ a_open a).
    { unfold live. cbn. rewrite app_assoc. apply Permutation_cons_append. }
    eapply account_ext; [..|eapply (account_update _ _ _ _ (c_owner c)); [left|exact Hown'|exact Hacc]]; done.
  - by rewrite Hh, fmap_app.
  - rewrite Hrg, fmap_app, list_to_set_app_L. cbn. set_solver.
  - rewrite Hr. by apply list_to_map_remove.
  - rewrite Hc. by apply list_to_map_remove.
  - apply (Permutation_cons_inv (a := c_ref c)). rewrite <-Hperm, Hrefs.
    by rewrite <-Permutation_middle.
  - intros p Hp. rewrite fmap_app. apply elem_of_app. left. by apply Hu2.
  - by rewrite Hrs.
Qed.

(** A creation that reads is found by its context. *)
Lemma holds_read a s ctx r : holds a s → m_reads s !! ctx = Some r →
  ∃ c reading, a_reading a ≡ₚ c :: reading ∧ c_ctx c = ctx ∧ r = creation_read c.
Proof.
  intros Hh Hl. rewrite (h_reads _ _ Hh) in Hl. apply elem_of_list_to_map_2 in Hl.
  apply list_elem_of_fmap in Hl as (c & [= -> ->] & Hc).
  apply elem_of_Permutation in Hc as (reading & Hp). by exists c, reading.
Qed.

(** What the creation holds, with the read metadata in place. *)
Lemma holds_held a s o u : o ∈ live a → holds a s → m_thread s = o_thread o →
  m_bdevs s !! o_p o = Some u → owns o u → held_by u true (o_p o) s.
Proof.
  intros Ho Hh Ht Hu (Hbase & Hth & Hn). pose proof (h_account _ _ Hh) as Hacc.
  destruct Hacc as [H1 H2 H3 Hb Hnm Hl Hd Hth' Hi Hc Hds]. split; [done|..].
  - right. exists (o_base o), (o_desc o). split_and!; [done|..].
    + rewrite Hc. apply elem_of_list_to_set. by apply (list_elem_of_fmap_2 base_addr).
    + rewrite Hds, Ht. apply elem_of_list_to_map_1; [by rewrite <-list_fmap_compose|].
      apply (list_elem_of_fmap_2 desc_entry), elem_of_app. by left.
  - intros _. rewrite Hi. apply elem_of_list_to_set. by apply list_elem_of_fmap_2.
  - intros _. rewrite Hnm. apply elem_of_list_to_set, elem_of_app. left. by apply list_elem_of_fmap_2.
Qed.

Lemma sim_metadata_read ctx success bytes a s : holds a s → is_Some (m_reads s !! ctx) →
  wp (run_mevent (MReadDone ctx success bytes)) s
    (λ _ s', ∃ a', msim E J (MReadDone ctx success bytes) a a' s s').
Proof.
  intros Hh [r Hr]. destruct (holds_read a s ctx r Hh Hr) as (c & reading & Hperm & <- & ->).
  pose proof (holds_reading_perm a s _ Hperm Hh) as Hh1.
  set (a1 := with_reading _ _) in Hh1. set (o := c_owner c).
  assert (Ho : o ∈ live a1) by left.
  destruct (h_live _ _ _ _ (h_account _ _ Hh1) o Ho) as (u & Hu & Hown).
  cbn [run_mevent]. unfold on_this_thread. do 4 m_step. cbn [br_dest br_thread creation_read].
  set (u1 := with_metadata _ u). set (s1 := on_bdevs _ _).
  assert (Hown1 : owns o u1) by apply Hown.
  assert (Hh2 : holds a1 s1).
  { destruct Hh1 as [Hacc ? ? ? ? ? ? ? ? ? ? ? ? ? ?]. split; try done.
    eapply account_ext; [..|eapply (account_update _ _ _ _ o u1 Ho Hown1 Hacc)]; done. }
  assert (Hu1 : m_bdevs s1 !! o_p o = Some u1) by apply lookup_insert_eq.
  destruct (remove_one_perm (c_ref c) (m_refs s1)) as (refs & Hrem & Hrp).
  { rewrite (h_refs _ _ Hh2). apply elem_of_app. right. left. }
  pose proof Hown1 as (Hb1 & Ht1 & Hname).
  eapply wp_mono.
  { eapply (wp_finish_read (c_ctx c) (c_arg c) (c_ref c) refs (o_p o) u1 (o_name o) success s1); [done|done| |done|done|].
    - pose proof (h_ctxs _ _ Hh2) as Hc. rewrite Hc. apply lookup_insert_eq.
    - by apply (holds_held a1). }
  destruct (release_frame u1 true (o_p o) (read_over (c_ctx c) refs s1)) as (E1 & E2 & E3).
  intros [] s' [status Hst|u' name' Hsucc Hload Hname'].
  - eexists. split.
    + by apply (AFailed _ _ _ c reading success bytes status); [|destruct Hst].
    + by apply (holds_failed a1).
    + unfold failed. mcbn. unfold release, release_name, release_device, release_base. rewrite Hb1, Hname. done.
  - assert (name' = o_name o) as -> by congruence. subst success. eexists. split.
    + by apply (AOpened _ _ _ c reading bytes).
    + apply (holds_opened a1 s1 c reading refs u1); try done. by eapply load_metadata_parameters.
    + done.
Qed.

(** The effect of a destruction on the account, on either thread. *)
Lemma holds_destruct a s o l1 l2 u cb t :
  a_open a = l1 ++ o :: l2 → holds a s → m_bdevs s !! o_p o = Some u → owns o u →
  let s1 := on_unregs (filter (λ q, q.1 ≠ o_p o))
              (on_regs (λ l, l ∖ {[ o_p o ]}) (on_thread (λ _, t) s)) in
  let s2 := destructed (o_p o) u (o_base o) (o_desc o) (o_p <$> l1 ++ l2) s1 in
  holds (destruct_owner o l1 l2 cb t a)
    (match cb with Some arg => on_resp ((arg, RespBool true) ::.) s2 | None => s2 end).
Proof.
  intros Hop Hh Hu (Hbase & Hth & Hn) s1 s2.
  assert (Hlive : live a ≡ₚ o :: (c_owner <$> a_reading a) ++ l1 ++ l2).
  { unfold live. rewrite Hop, !app_assoc. by rewrite <-Permutation_middle. }
  destruct Hh as [Hacc Happ Hnd Hhd Hrg Hr Hc Hrefs Hm Hd Hu0 Hu1 Hu2 Hstr Hrs].
  apply (account_perm _ _ _ _ _ Hlive) in Hacc.
  assert (Hnotin : o_p o ∉ o_p <$> l1 ++ l2).
  { pose proof (h_nodup _ _ _ _ Hacc) as Hx. cbn in Hx. inversion Hx as [|? ? Hx' _]; subst.
    rewrite fmap_app in Hx'. intros Hin. apply Hx'. rewrite !elem_of_app. auto. }
  assert (Hunreg : ∀ p, p ∈ (filter (λ q : Z * option Z, q.1 ≠ o_p o) (a_closing a)).*1 → p ∈ o_p <$> l1 ++ l2).
  { intros p (q & -> & [Hne Hin]%list_elem_of_filter)%list_elem_of_fmap.
    specialize (Hu2 q.1 (list_elem_of_fmap_2 fst _ _ Hin)). rewrite Hop in Hu2.
    rewrite !fmap_app, fmap_cons in *. rewrite !elem_of_app, elem_of_cons in *. tauto. }
  assert (Hh2 : holds (destruct_owner o l1 l2 None t a) s2).
  { assert (Hacc' : account ((c_owner <$> a_reading a) ++ l1 ++ l2) (o_p o :: a_dying a)
      (if decide (o_thread o = t) then a_orphans a else a_orphans a ++ [o]) s2).
    { unfold s2, destructed, close_on. rewrite Hth. change (m_thread (on_claims _ _)) with t. destruct (decide _).
      - eapply account_ext; [..|eapply account_destruct; exact Hacc]; done.
      - eapply account_ext; [..|eapply account_orphan; exact Hacc]; done. }
    split; [exact Hacc'|..]; unfold destruct_owner, s2, destructed, close_on; rewrite ?Hth;
      try change (m_thread (on_claims _ _)) with t;
      destruct (decide (o_thread o = t)); subst s1; mcbn; try done.
    1-2: rewrite Hrg, Hop; cbn [a_open]; rewrite !fmap_app in *; by apply list_to_set_middle_remove.
    - cbn [a_orphans]. by rewrite Hm, fmap_app.
    - by rewrite Hd.
    - by rewrite Hd.
    - by rewrite Hu0.
    - by rewrite Hu0.
    - by apply NoDup_filter_keys.
    - by apply NoDup_filter_keys. }
  destruct cb as [arg|]; [|exact Hh2]. exact (holds_answer _ _ arg (RespBool true) Hh2).
Qed.

Lemma sim_destruct p cb t a s : holds a s → (p, cb) ∈ m_unregs s →
  wp (run_mevent (MDestruct p cb t)) s (λ _ s', ∃ a', msim E J (MDestruct p cb t) a a' s s').
Proof.
  intros Hh Hin. rewrite (h_closing _ _ Hh) in Hin. pose proof (h_account _ _ Hh) as Hacc. pose proof (h_head _ _ Hh) as Hhd.
  assert (Hop : p ∈ o_p <$> a_open a) by by apply (h_unreg _ _ Hh), (list_elem_of_fmap_2 fst _ (p, cb)).
  apply list_elem_of_fmap in Hop as (o & -> & Ho).
  apply list_elem_of_split in Ho as (l1 & l2 & Hop).
  assert (Hol : o ∈ live a) by (unfold live; rewrite Hop, !elem_of_app, elem_of_cons; auto).
  destruct (h_live _ _ _ _ Hacc o Hol) as (u & Hu & Hown).
  pose proof (holds_destruct a s o l1 l2 u cb t Hop Hh Hu Hown) as Hholds.
  cbv zeta in Hholds. set (s1 := on_unregs _ _) in Hholds.
  pose proof (h_nodup _ _ _ _ Hacc) as Hnd. unfold live in Hnd.
  rewrite Hop, !fmap_app, fmap_cons in Hnd.
  apply NoDup_app in Hnd as (Hnd & _ & _). apply NoDup_app in Hnd as (_ & _ & Hnd).
  apply NoDup_app in Hnd as (_ & Hnd & _).
  destruct Hown as (Hbase & Hth & Hn).
  pose proof (h_thread _ _ _ _ Hacc o Hol) as Hot.
  cbn [run_mevent]. unfold on_this_thread. do 3 m_step. fold s1. apply wp_bind.
  eapply (wp_destruct (o_p o) u (o_base o) (o_desc o) (o_p <$> l1 ++ l2)); [done|done|..].
  - subst s1. mcbn. rewrite (h_descs _ _ _ _ Hacc), Hth.
    apply elem_of_list_to_map_1; [rewrite <-list_fmap_compose; apply (h_nodup_desc _ _ _ _ Hacc)|].
    apply (list_elem_of_fmap_2 desc_entry), elem_of_app. by left.
  - subst s1. mcbn. rewrite (h_claims _ _ _ _ Hacc). apply elem_of_list_to_set.
    by apply (list_elem_of_fmap_2 base_addr).
  - subst s1. mcbn. rewrite (h_iodevs _ _ _ _ Hacc). apply elem_of_list_to_set.
    by apply list_elem_of_fmap_2.
  - subst s1. mcbn. rewrite Hhd, Hop, !fmap_app, fmap_cons. apply remove_one_middle.
    intros Hx. apply (Hnd (o_p o)); [done|left].
  - rewrite Hth, Hot. apply (h_app _ _ Hh).
  - assert (Hfin : msim E J (MDestruct (o_p o) cb t) a (destruct_owner o l1 l2 cb t a) s
      (match cb with Some arg => on_resp ((arg, RespBool true) ::.)
           (destructed (o_p o) u (o_base o) (o_desc o) (o_p <$> l1 ++ l2) s1)
       | None => destructed (o_p o) u (o_base o) (o_desc o) (o_p <$> l1 ++ l2) s1 end)).
    { split; [by apply ADestructed|exact Hholds|]. destruct cb; mcbn; unfold destructed, close_on; by destruct (decide _). }
    destruct cb; [|by eexists]. unfold delete_fn. by eexists.
Qed.

Lemma sim_message t d a s : holds a s → (t, d) ∈ m_msgs s →
  wp (run_mevent (MMessage t d)) s (λ _ s', ∃ a', msim E J (MMessage t d) a a' s s').
Proof.
  intros Hh Hin. pose proof (h_account _ _ Hh) as Hacc. pose proof (h_msgs _ _ Hh) as Hm.
  rewrite Hm in Hin. apply list_elem_of_fmap in Hin as (o & [= -> ->] & Ho).
  pose proof (h_nodup_desc _ _ _ _ Hacc) as Hnd. rewrite fmap_app in Hnd.
  apply NoDup_app in Hnd as (_ & _ & Hnd).
  apply list_elem_of_split in Ho as (l1 & l2 & Ho). rewrite Ho in Hnd.
  rewrite fmap_app, fmap_cons in Hnd. apply NoDup_app in Hnd as (_ & Hnd & _).
  cbn [run_mevent]. unfold on_this_thread. do 2 m_step.
  apply wp_bind, wp_of_option with ((λ o, (o_thread o, o_desc o)) <$> l1 ++ l2).
  { mcbn. rewrite Hm, Ho, !fmap_app, fmap_cons. apply remove_one_middle.
    intros (o' & [= _ Heq] & Ho')%list_elem_of_fmap. apply (Hnd (o_desc o)); [|left].
    rewrite Heq. by apply list_elem_of_fmap_2. }
  m_step. apply wp_close with (o_base o).
  { mcbn. rewrite (h_descs _ _ _ _ Hacc).
    apply elem_of_list_to_map_1; [rewrite <-list_fmap_compose; apply (h_nodup_desc _ _ _ _ Hacc)|].
    apply (list_elem_of_fmap_2 desc_entry). rewrite Ho, !elem_of_app, elem_of_cons. auto. }
  eexists. split; [by apply (AClosed _ _ _ o l1 l2)| |done].
  rewrite Ho in Hacc. apply account_close in Hacc. destruct Hh.
  split; mcbn; try done. eapply account_ext; [..|exact Hacc]; done.
Qed.

Lemma sim_freed p a s : holds a s → p ∈ m_devcbs s →
  wp (run_mevent (MDeviceUnregistered p)) s (λ _ s', ∃ a', msim E J (MDeviceUnregistered p) a a' s s').
Proof.
  intros Hh Hin. pose proof (h_account _ _ Hh) as Hacc. pose proof (h_devcbs _ _ Hh) as Hd.
  destruct (remove_one_perm p _ Hin) as (dying & Hrem & Hperm). rewrite Hd in Hperm.
  assert (Hacc' : account (live a) (p :: dying) (a_orphans a) s).
  { destruct Hacc as [H1 H2 H3 Hb Hn Hl Hdy Ht Hi Hc Hds].
    assert (Hp : (o_p <$> live a) ++ a_dying a ≡ₚ (o_p <$> live a) ++ p :: dying) by by rewrite Hperm.
    split; try done.
    - by rewrite <-Hp.
    - rewrite Hb. by apply list_to_set_perm_L.
    - rewrite Hn. by apply list_to_set_perm_L.
    - intros q Hq. apply Hdy. by rewrite Hperm. }
  destruct (h_dying _ _ _ _ Hacc' p) as (u & Hu & Hname); [left|].
  cbn [run_mevent]. do 3 m_step. apply wp_device_unregister with u; [done|..].
  { intros _. mcbn. rewrite (h_names _ _ _ _ Hacc'). apply elem_of_list_to_set, elem_of_app. right. left. }
  eexists. destruct Hname as [name Hname]. unfold release_name. rewrite Hname.
  split; [exact (AFreed _ _ _ p dying a Hperm)| |done].
  pose proof (account_free _ _ _ _ _ _ Hacc' Hu) as Hfree. unfold release_name in Hfree. rewrite Hname in Hfree.
  destruct Hh. split; mcbn; try done. eapply account_ext; [..|exact Hfree]; done.
Qed.

Lemma sim_base_event type base a s : holds a s →
  wp (run_mevent (MBaseEvent type base)) s (λ _ s', ∃ a', msim E J (MBaseEvent type base) a a' s s').
Proof.
  intros Hh. pose proof (h_account _ _ Hh) as Hacc. pose proof (h_head _ _ Hh) as Hhd.
  cbn [run_mevent]. unfold on_app, on_this_thread. do 2 m_step. set (s0 := on_thread _ s).
  assert (Hh0 : holds a s0) by by eapply holds_ext.
  assert (Hopen : ∀ o, o ∈ a_open a → ∃ u, m_bdevs s0 !! o_p o = Some u ∧
    bd_addr <$> bi_bdev (ub_base_bdev_info u) = Some (base_addr o)).
  { intros o Ho. destruct (h_live _ _ _ _ Hacc o) as (u & Hu & Hb & _); [apply elem_of_app; by right|].
    exists u. split; [done|]. by rewrite Hb. }
  assert (Hsame : (type = SPDK_BDEV_EVENT_REMOVE → ∀ o, o ∈ a_open a → base_addr o = base → o_p o ∈ (a_closing a).*1) →
    ∃ a', msim E J (MBaseEvent type base) a a' s s0) by (intros Hno; exists a; split; [by apply AIgnored|done|done]).
  destruct type as [|n]; [|apply wp_ret; by apply Hsame].
  cbn [ubi_handle_base_bdev_event]. unfold ubi_handle_base_bdev_remove_event, ubi_bdev_find_by_base_bdev.
  m_step. apply wp_find_by_base.
  { intros p Hp. change (m_head s0) with (m_head s) in Hp. rewrite Hhd in Hp. apply list_elem_of_fmap in Hp as (o & -> & Ho).
    destruct (Hopen o Ho) as (u & Hu & _). by exists u. }
  change (m_head s0) with (m_head s). rewrite Hhd. intros [p|] Hsome Hnone.
  2: { apply wp_ret, Hsame. intros _ o Ho <-. exfalso. destruct (Hopen o Ho) as (u & Hu & Hb).
    by apply (Hnone eq_refl (o_p o) u); [by apply list_elem_of_fmap_2|..]. }
  destruct (Hsome p eq_refl) as [(o & -> & Ho)%list_elem_of_fmap (u & Hu & Hb)].
  destruct (Hopen o Ho) as (u' & Hu' & Hb'). assert (base = base_addr o) as -> by congruence.
  unfold spdk_bdev_unregister. do 2 m_step.
  { change (m_regs s0) with (m_regs s). rewrite (h_regs _ _ Hh). apply elem_of_list_to_set. by apply list_elem_of_fmap_2. }
  case_decide as Hin; change (m_unregs s0) with (m_unregs s) in Hin; rewrite (h_closing _ _ Hh) in Hin.
  - apply wp_ret, Hsame. intros _ o' Ho' Heq.
    assert (o' = o) as ->; [|done].
    apply (NoDup_fmap_key base_addr (live a)); [apply (h_nodup_base _ _ _ _ Hacc)|apply elem_of_app; by right..|done].
  - apply wp_modify. eexists. split; [by apply ABaseRemoved| |done].
    apply holds_closing; [done|by apply list_elem_of_fmap_2|done].
Qed.

(** Every event that SPDK may deliver runs without undefined behaviour, and is
    a step of the abstract machine. *)
Lemma msimulation ev a s : holds a s → menabled s ev →
  wp (run_mevent ev) s (λ _ s', ∃ a', msim E J ev a a' s s').
Proof.
  intros Hh Hen. destruct ev; simpl in Hen.
  - by apply sim_create.
  - by apply sim_delete.
  - by apply sim_metadata_read.
  - by apply sim_destruct.
  - by apply sim_message.
  - by apply sim_freed.
  - by apply sim_base_event.
Qed.
End Simulation.
