(* ===== verification/Channel.v ===== *)
(** Creation and destruction of a per-thread channel:
    [ubi_create_channel_cb] and [ubi_destroy_channel_cb] of
    [src/lib/bdev_ubi_io_channel.c], with the poller, the channel of the base
    bdev, the file descriptor of the image and the io_uring they acquire and
    release. *)
From stdpp Require Import base tactics list gmap option numbers functions strings sets.
From Stdlib Require Import ZArith Lia.
From S2P Require Import Prelude Types World.

Local Open Scope Z_scope.

(** * State *)

(** The members of [struct ubi_io_channel] that are pointers to SPDK objects
    ([None] and [false] are NULL), and the others. *)
Record channel_ctx : Type := mk_channel_ctx {
  cx_poller : bool;
  cx_base_channel : option Z;
  cx_channel : ubi_io_channel
}.

Record channel_flags : Type := mk_flags {
  g_fail_register_poller : bool;
  g_fail_create_base_ch : bool;
  g_fail_image_file_open : bool;
  g_fail_uring_queue_init : bool
}.

Record cstate : Type := mk_cstate {
  (** the context buffers SPDK allocated, by address *)
  cs_ctxs : gmap Z channel_ctx;
  (** registered pollers and initialised rings, by the channel they are for *)
  cs_pollers : gset Z;
  cs_rings : gset Z;
  (** references to channels of the base bdev, open files *)
  cs_refs : list Z;
  cs_fds : gset Z;
  cs_flags : channel_flags
}.

Definition on_cs_ctxs (f : gmap Z channel_ctx → gmap Z channel_ctx) (s : cstate) : cstate :=
  mk_cstate (f (cs_ctxs s)) (cs_pollers s) (cs_rings s) (cs_refs s) (cs_fds s) (cs_flags s).
Definition on_cs_pollers (f : gset Z → gset Z) (s : cstate) : cstate :=
  mk_cstate (cs_ctxs s) (f (cs_pollers s)) (cs_rings s) (cs_refs s) (cs_fds s) (cs_flags s).
Definition on_cs_rings (f : gset Z → gset Z) (s : cstate) : cstate :=
  mk_cstate (cs_ctxs s) (cs_pollers s) (f (cs_rings s)) (cs_refs s) (cs_fds s) (cs_flags s).
Definition on_cs_refs (f : list Z → list Z) (s : cstate) : cstate :=
  mk_cstate (cs_ctxs s) (cs_pollers s) (cs_rings s) (f (cs_refs s)) (cs_fds s) (cs_flags s).
Definition on_cs_fds (f : gset Z → gset Z) (s : cstate) : cstate :=
  mk_cstate (cs_ctxs s) (cs_pollers s) (cs_rings s) (cs_refs s) (f (cs_fds s)) (cs_flags s).
Definition on_cs_flags (f : channel_flags → channel_flags) (s : cstate) : cstate :=
  mk_cstate (cs_ctxs s) (cs_pollers s) (cs_rings s) (cs_refs s) (cs_fds s) (f (cs_flags s)).

(** Results of the calls to SPDK, the kernel and liburing. *)
Class channel_env : Type := {
  ce_poller_register : cstate → Z → bool;
  ce_get_io_channel : cstate → option Z → option Z;
  (** [open(path, O_RDONLY)], with [O_DIRECT] when the flag is set *)
  ce_open : cstate → string → bool → Z;
  ce_uring_queue_init : cstate → Z → Z → Z
}.

(** * Calls *)

Section Channel.
Context {E : channel_env}.

Definition crequire (P : Prop) `{Decision P} : M cstate unit :=
  if decide P then mret tt else undef.
Definition get_cx (ch : Z) : M cstate channel_ctx :=
  s ← gets id; of_option (cs_ctxs s !! ch).
Definition upd_cx (ch : Z) (f : channel_ctx → channel_ctx) : M cstate unit :=
  c ← get_cx ch; modify (on_cs_ctxs <[ch := f c]>).
Definition with_cx_poller (b : bool) (c : channel_ctx) : channel_ctx :=
  mk_channel_ctx b (cx_base_channel c) (cx_channel c).
Definition with_cx_base_channel (r : option Z) (c : channel_ctx) : channel_ctx :=
  mk_channel_ctx (cx_poller c) r (cx_channel c).
Definition on_cx_channel (f : ubi_io_channel → ubi_io_channel) (c : channel_ctx) : channel_ctx :=
  mk_channel_ctx (cx_poller c) (cx_base_channel c) (f (cx_channel c)).
Definition with_fd (fd : Z) (c : ubi_io_channel) : ubi_io_channel :=
  mk_channel (ch_blocks_read c) (ch_blocks_written c) (ch_stripes_fetched c)
    (ch_active_reads c) (ch_stripe_fetches c) (ch_queue c) fd (ch_ring c)
    (ch_has_reads c) (ch_io c).

(** [ch->poller = spdk_poller_register(ubi_io_poll, ch, 0)]. *)
Definition register_poller (ch : Z) : M cstate bool :=
  s ← gets id;
  let ok := negb (g_fail_register_poller (cs_flags s)) && ce_poller_register s ch in
  upd_cx ch (with_cx_poller ok);;
  if ok then modify (on_cs_pollers ({[ ch ]} ∪.));; mret true else mret false.

(** [spdk_poller_unregister(&ch->poller)] sets the pointer to NULL. *)
Definition spdk_poller_unregister (ch : Z) : M cstate unit :=
  c ← get_cx ch;
  if cx_poller c then
    s ← gets id;
    crequire (ch ∈ cs_pollers s);;
    modify (on_cs_pollers (λ l, l ∖ {[ ch ]}));;
    upd_cx ch (with_cx_poller false)
  else mret tt.

Definition get_base_channel (u : ubi_bdev) (ch : Z) : M cstate (option Z) :=
  s ← gets id;
  let r := if g_fail_create_base_ch (cs_flags s) then None
           else ce_get_io_channel s (bi_desc (ub_base_bdev_info u)) in
  upd_cx ch (with_cx_base_channel r);;
  match r with
  | Some a => modify (on_cs_refs (a ::.));; mret r
  | None => mret r
  end.

Definition put_base_channel (ch : Z) : M cstate unit :=
  c ← get_cx ch;
  r ← of_option (cx_base_channel c);
  s ← gets id;
  l ← of_option (remove_one r (cs_refs s));
  modify (on_cs_refs (λ _, l)).

Definition open_image (u : ubi_bdev) (ch : Z) : M cstate Z :=
  s ← gets id;
  let fd := if g_fail_image_file_open (cs_flags s) then -1
            else ce_open s (ub_image_path u) (ub_directio u) in
  upd_cx ch (on_cx_channel (with_fd fd));;
  if fd <? 0 then mret fd else modify (on_cs_fds ({[ fd ]} ∪.));; mret fd.

Definition close_fd (ch : Z) : M cstate unit :=
  c ← get_cx ch;
  s ← gets id;
  crequire (ch_image_file_fd (cx_channel c) ∈ cs_fds s);;
  modify (on_cs_fds (λ l, l ∖ {[ ch_image_file_fd (cx_channel c) ]})).

(** [io_uring_queue_init(UBI_URING_QUEUE_SIZE, &ch->image_file_ring, 0)]. *)
Definition init_ring (ch : Z) : M cstate Z :=
  s ← gets id;
  let rc := if g_fail_uring_queue_init (cs_flags s) then -1
            else ce_uring_queue_init s UBI_URING_QUEUE_SIZE ch in
  if rc =? 0 then
    modify (on_cs_rings ({[ ch ]} ∪.));;
    upd_cx ch (on_cx_channel (with_ring (mk_ring [] [] [])));; mret rc
  else mret rc.

Definition io_uring_queue_exit (ch : Z) : M cstate unit :=
  s ← gets id;
  crequire (ch ∈ cs_rings s);;
  modify (on_cs_rings (λ l, l ∖ {[ ch ]})).

(** * Functions of the source *)

Definition reset_queue (c : ubi_io_channel) : ubi_io_channel :=
  with_queue (mk_queue (q_entries (ch_queue c)) 0 0) c.
Definition reset_fetches (c : ubi_io_channel) : ubi_io_channel :=
  with_stripe_fetches (with_active false <$> ch_stripe_fetches c) c.

Definition ubi_create_channel_cb (u : ubi_bdev) (ch : Z) : M cstate Z :=
  upd_cx ch (on_cx_channel (with_io []));;
  poller ← register_poller ch;
  if negb poller then mret (- ENOMEM)
  else
    base_channel ← get_base_channel u ch;
    match base_channel with
    | None => spdk_poller_unregister ch;; mret (- ENOMEM)
    | Some _ =>
        upd_cx ch (on_cx_channel reset_queue);;
        upd_cx ch (on_cx_channel reset_fetches);;
        fd ← open_image u ch;
        if fd <? 0 then
          spdk_poller_unregister ch;;
          put_base_channel ch;;
          mret (- EINVAL)
        else
          rc ← init_ring ch;
          if c_true rc then
            spdk_poller_unregister ch;;
            put_base_channel ch;;
            close_fd ch;;
            mret (- EINVAL)
          else mret 0
    end.

(** The result is the statistics that are logged. *)
Definition ubi_destroy_channel_cb (ch : Z) : M cstate (Z * Z * Z) :=
  spdk_poller_unregister ch;;
  close_fd ch;;
  c ← get_cx ch;
  io_uring_queue_exit ch;;
  put_base_channel ch;;
  mret (ch_blocks_read (cx_channel c), ch_blocks_written (cx_channel c),
        ch_stripes_fetched (cx_channel c)).

(** * Channels in SPDK *)

(** The context buffer of a channel is zeroed; the buffers of the stripe
    fetches are part of it. *)
Definition zero_channel (bufs : list Z) : channel_ctx :=
  mk_channel_ctx false None
    (mk_channel 0 0 0 0 ((λ b, mk_stripe_fetch UBI_BDEV_IO false 0 b 0) <$> bufs)
       (mk_queue (λ _, 0) 0 0) 0 (mk_ring [] [] []) 0 []).

(** [spdk_get_io_channel] allocates the context at [ch], and frees it again when
    the callback fails; the last [spdk_put_io_channel] destroys it. *)
Definition open_channel (u : ubi_bdev) (ch : Z) (bufs : list Z) : M cstate Z :=
  modify (on_cs_ctxs <[ch := zero_channel bufs]>);;
  rc ← ubi_create_channel_cb u ch;
  if c_true rc then modify (on_cs_ctxs (delete ch));; mret rc else mret rc.
Definition close_channel (ch : Z) : M cstate (Z * Z * Z) :=
  r ← ubi_destroy_channel_cb ch;
  modify (on_cs_ctxs (delete ch));; mret r.

(** The switches of [include/bdev_ubi_test_control.h]. *)
Definition ubi_io_channel_fail_register_poller (fail : bool) : M cstate unit :=
  modify (on_cs_flags (λ f, mk_flags fail (g_fail_create_base_ch f)
                              (g_fail_image_file_open f) (g_fail_uring_queue_init f))).
Definition ubi_io_channel_fail_create_base_ch (fail : bool) : M cstate unit :=
  modify (on_cs_flags (λ f, mk_flags (g_fail_register_poller f) fail
                              (g_fail_image_file_open f) (g_fail_uring_queue_init f))).
Definition ubi_io_channel_fail_image_file_open (fail : bool) : M cstate unit :=
  modify (on_cs_flags (λ f, mk_flags (g_fail_register_poller f) (g_fail_create_base_ch f)
                              fail (g_fail_uring_queue_init f))).
Definition ubi_io_channel_fail_uring_queue_init (fail : bool) : M cstate unit :=
  modify (on_cs_flags (λ f, mk_flags (g_fail_register_poller f) (g_fail_create_base_ch f)
                              (g_fail_image_file_open f) fail)).
End Channel.

(** * Rules *)

Lemma cstate_ext s1 s2 :
  cs_ctxs s1 = cs_ctxs s2 → cs_pollers s1 = cs_pollers s2 → cs_rings s1 = cs_rings s2 →
  cs_refs s1 = cs_refs s2 → cs_fds s1 = cs_fds s2 → cs_flags s1 = cs_flags s2 → s1 = s2.
Proof. destruct s1, s2. simpl. intros. by subst. Qed.

Ltac ccbn :=
  cbn [cs_ctxs cs_pollers cs_rings cs_refs cs_fds cs_flags on_cs_ctxs on_cs_pollers on_cs_rings
       on_cs_refs on_cs_fds on_cs_flags cx_poller cx_base_channel cx_channel with_cx_poller
       with_cx_base_channel on_cx_channel ch_image_file_fd with_fd with_ring] in *.

Section ChannelRules.
Implicit Types (s : cstate).
Lemma wp_crequire (P : Prop) `{Decision P} s (Q : unit → cstate → Prop) :
  P → Q tt s → wp (crequire P) s Q.
Proof. intros HP HQ. unfold crequire. by rewrite decide_True. Qed.
Lemma wp_get_cx ch c s Q : cs_ctxs s !! ch = Some c → Q c s → wp (get_cx ch) s Q.
Proof. intros Hu HQ. apply wp_bind, wp_gets. by eapply wp_of_option. Qed.
Lemma wp_upd_cx ch f c s (Q : unit → cstate → Prop) :
  cs_ctxs s !! ch = Some c → Q tt (on_cs_ctxs <[ch := f c]> s) → wp (upd_cx ch f) s Q.
Proof. intros Hu HQ. apply wp_bind. by apply wp_get_cx with c. Qed.
End ChannelRules.

Ltac c_step :=
  lazymatch goal with
  | |- wp (mbind _ _) _ _ => apply wp_bind; c_step
  | |- wp (mret _) _ _ => apply wp_ret
  | |- wp (gets _) _ _ => apply wp_gets; unfold id
  | |- wp (modify _) _ _ => apply wp_modify
  | |- wp (crequire _) _ _ => apply wp_crequire; [ccbn; set_solver|]
  | |- wp (get_cx _) _ _ => eapply wp_get_cx; [ccbn; apply lookup_insert_eq|]
  | |- wp (upd_cx _ _) _ _ => eapply wp_upd_cx; [ccbn; apply lookup_insert_eq|]
  | |- wp (of_option _) _ _ => eapply wp_of_option; [ccbn; first [done|apply remove_one_head]|]
  end.

(** The state in which the channel [ch] has the context [c]. *)
Definition with_channel (ch : Z) (c : channel_ctx) (s : cstate) : cstate :=
  on_cs_ctxs <[ch := c]> s.

(** Everything an open channel holds. *)
Definition channel_held (ch : Z) (c : channel_ctx) (ref fd : Z) (s : cstate) : cstate :=
  on_cs_fds ({[ fd ]} ∪.) (on_cs_refs (ref ::.) (on_cs_rings ({[ ch ]} ∪.)
    (on_cs_pollers ({[ ch ]} ∪.) (with_channel ch c s)))).

Record channel_fresh (ch : Z) (s : cstate) : Prop := {
  cf_ctx : cs_ctxs s !! ch = None;
  cf_poller : ch ∉ cs_pollers s;
  cf_ring : ch ∉ cs_rings s
}.

(** A file descriptor the kernel returns is not in use. *)
Class channel_env_ok (E : channel_env) : Prop :=
  ce_open_fresh s path direct : 0 ≤ ce_open s path direct → ce_open s path direct ∉ cs_fds s.

Section ChannelSpec.
Context {E : channel_env} `{!channel_env_ok E}.
Implicit Types (s : cstate).

(** A state reached by updates of the context and of sets that were undone. *)
Lemma add_remove (a : Z) (X : gset Z) : a ∉ X → ({[ a ]} ∪ X) ∖ {[ a ]} = X.
Proof. set_solver. Qed.

Ltac c_restored :=
  apply cstate_ext; ccbn; rewrite ?insert_insert_eq, ?delete_insert_eq;
  rewrite ?add_remove by done; rewrite ?delete_id by done; try done.

Ltac c_final st :=
  lazymatch goal with |- ?P ?s => replace s with st by c_restored end.

(** The context once the channel is created. *)
Definition created_channel (bufs : list Z) (ref fd : Z) : channel_ctx :=
  mk_channel_ctx true (Some ref)
    (with_ring (mk_ring [] [] []) (with_fd fd (reset_fetches (reset_queue
      (with_io [] (cx_channel (zero_channel bufs))))))).

(** [spdk_get_io_channel] gives an error and holds nothing, or everything. *)
Inductive open_post (ch : Z) (bufs : list Z) (s : cstate) : Z → cstate → Prop :=
| OP_error rc : rc = - ENOMEM ∨ rc = - EINVAL → open_post ch bufs s rc s
| OP_created ref fd : fd ∉ cs_fds s → 0 ≤ fd →
    open_post ch bufs s 0 (channel_held ch (created_channel bufs ref fd) ref fd s).

Lemma wp_unregister ch c s (Q : unit → cstate → Prop) :
  ch ∉ cs_pollers s → cx_poller c = true →
  Q tt (on_cs_ctxs <[ch := with_cx_poller false c]> s) →
  wp (spdk_poller_unregister ch) (on_cs_ctxs <[ch := c]> (on_cs_pollers ({[ ch ]} ∪.) s)) Q.
Proof.
  intros Hn Hc HQ. unfold spdk_poller_unregister. c_step. rewrite Hc. do 4 c_step.
  c_final (on_cs_ctxs <[ch := with_cx_poller false c]> s). exact HQ.
Qed.

(** [gives_up s]: the callback failed, SPDK frees the context, and the state is
    [s] again. *)
Ltac gives_up s :=
  lazymatch goal with
  | |- wp (if c_true ?rc then _ else _) _ _ =>
      change (c_true rc) with true; cbv iota; do 2 c_step;
      c_final s; apply OP_error; first [by left|by right]
  end.

Lemma wp_open_channel u ch bufs s : channel_fresh ch s →
  wp (open_channel u ch bufs) s (open_post ch bufs s).
Proof.
  intros [Hc Hp Hr]. unfold open_channel, ubi_create_channel_cb, register_poller.
  do 4 c_step. destruct (negb _ && _); cbn [negb].
  2: { c_step. cbn [negb]. c_step. gives_up s. }
  do 2 c_step. cbn [negb]. unfold get_base_channel. do 2 c_step.
  destruct (if g_fail_create_base_ch _ then _ else _) as [ref|].
  2: { c_step. unfold spdk_poller_unregister. c_step. ccbn. do 4 c_step. c_step. gives_up s. }
  do 4 c_step. unfold open_image. c_step. c_step.
  set (st := on_cs_ctxs _ _). set (fd := if g_fail_image_file_open _ then _ else _).
  destruct (Z.ltb_spec fd 0) as [Hlt|Hge].
  { c_step. rewrite (proj2 (Z.ltb_lt fd 0)) by done. unfold spdk_poller_unregister. c_step. ccbn.
    do 4 c_step. unfold put_base_channel. do 5 c_step. c_step. subst st. gives_up s. }
  do 2 c_step. rewrite (proj2 (Z.ltb_ge fd 0)) by done. unfold init_ring. c_step.
  assert (Hfd : fd ∉ cs_fds s).
  { subst fd. destruct (g_fail_image_file_open (cs_flags st)); [lia|].
    by apply ce_open_fresh in Hge. }
  match goal with |- context [if ?x =? 0 then _ else _] =>
    set (rc := x); destruct (Z.eqb_spec rc 0) as [Hz|Hnz] end.
  - rewrite Hz. do 3 c_step. cbn [c_true Z.eqb negb]. c_step. cbn [c_true Z.eqb negb]. c_step. cbn [c_true Z.eqb negb].
    subst st. c_final (channel_held ch (created_channel bufs ref fd) ref fd s). by apply OP_created.
  - c_step. assert (c_true rc = true) as -> by (unfold c_true; by rewrite (proj2 (Z.eqb_neq rc 0))).
    unfold spdk_poller_unregister. c_step. ccbn. do 4 c_step. unfold put_base_channel. do 5 c_step.
    unfold close_fd. do 4 c_step. c_step. subst st. gives_up s.
Qed.

(** Destroying a channel that holds [ref], [fd], a poller and a ring gives
    everything back, whatever the channel did meanwhile. *)
Lemma wp_close_channel ch c ref fd s :
  channel_fresh ch s → fd ∉ cs_fds s → cx_poller c = true → cx_base_channel c = Some ref →
  ch_image_file_fd (cx_channel c) = fd →
  wp (close_channel ch) (channel_held ch c ref fd s) (λ _ s', s' = s).
Proof.
  intros [Hc Hp Hr] Hfd Hpo Hb Hf. unfold close_channel, ubi_destroy_channel_cb, channel_held, with_channel.
  unfold spdk_poller_unregister. c_step. rewrite Hpo. do 4 c_step.
  unfold close_fd. do 4 c_step.
  c_step. unfold io_uring_queue_exit. do 3 c_step.
  unfold put_base_channel. c_step. apply wp_bind. eapply wp_of_option; [done|]. do 4 c_step.
  c_step. ccbn. rewrite Hf. c_restored.
Qed.
End ChannelSpec.
