(* ===== verification/LifeProps.v ===== *)
(** Properties of the life cycle of bdevs, of the RPC interface and of channel
    creation, over all runs of the module. *)
From stdpp Require Import base tactics list gmap option numbers functions strings sets fin_maps.
From Stdlib Require Import ZArith Lia.
From S2P Require Import Prelude Types World Layout Stripe Metadata FetchProtocol System.
From S2P Require Import Lifecycle Rpc LifeSpec Ownership Channel.

Local Open Scope Z_scope.

(** * Runs *)

(** The module when it is loaded. *)
Record module_loaded (s : mstate) : Prop := {
  ml_bdevs : m_bdevs s = ∅;
  ml_names : m_names s = ∅;
  ml_ctxs : m_ctxs s = ∅;
  ml_head : m_head s = [];
  ml_app : m_app_thread s ≠ 0;
  ml_descs : m_descs s = ∅;
  ml_claims : m_claims s = ∅;
  ml_refs : m_refs s = [];
  ml_iodevs : m_iodevs s = ∅;
  ml_regs : m_regs s = ∅;
  ml_reads : m_reads s = ∅;
  ml_msgs : m_msgs s = [];
  ml_unregs : m_unregs s = [];
  ml_devcbs : m_devcbs s = [];
  ml_resp : m_resp s = []
}.

(** Runs in environments that behave as documented, whose steps satisfy [P]. *)
Inductive mrun (P : mod_env → mevent → Prop) (s0 : mstate) : list mevent → mstate → Prop :=
| mrun_nil : mrun P s0 [] s0
| mrun_snoc tr s1 E J ev s2 :
    mrun P s0 tr s1 → mod_env_ok E → json_decoder_ok J → P E ev → menabled s1 ev →
    run_mevent (E := E) (J := J) ev s1 = Done tt s2 → mrun P s0 (tr ++ [ev]) s2.

Definition any_mstep (E : mod_env) (ev : mevent) : Prop := True.
(** The base bdev accepts the metadata reads. *)
Definition reads_accepted (E : mod_env) (ev : mevent) : Prop :=
  ∀ s r, me_read_blocks s r = 0.
Definition callbacks_only (E : mod_env) (ev : mevent) : Prop := is_callback ev = true.

Lemma loaded_holds s : module_loaded s → holds (no_owner (m_strs s)) s.
Proof.
  intros [Hb Hn Hc Hh Ha Hd Hcl Hrf Hi Hrg Hr Hm Hu Hdv Hrs].
  split; cbn; rewrite ?Hb, ?Hn, ?Hc, ?Hh, ?Hd, ?Hcl, ?Hrf, ?Hi, ?Hrg, ?Hr, ?Hm, ?Hu, ?Hdv; try done.
  - split; cbn; rewrite ?Hb, ?Hn, ?Hd, ?Hcl, ?Hi; try done; try constructor.
    + by intros o ?%not_elem_of_nil.
    + by intros o ?%not_elem_of_nil.
    + by intros o ?%not_elem_of_nil.
  - constructor.
  - constructor.
Qed.

(** Requests still to be answered. *)
Definition unanswered (s : mstate) : list Z :=
  (cc_done_arg ∘ snd <$> map_to_list (m_ctxs s)) ++ omap snd (m_unregs s).

Lemma pending_unanswered a s : holds a s → pending a ≡ₚ unanswered s.
Proof.
  intros Hh. unfold pending, unanswered. rewrite (h_ctxs _ _ Hh), (h_closing _ _ Hh).
  rewrite map_to_list_to_map by (rewrite <-list_fmap_compose; apply (h_nodup_ctx _ _ Hh)).
  by rewrite <-list_fmap_compose.
Qed.

(** Callbacks that are due. *)
Definition callbacks_due (s : mstate) : nat :=
  (size (m_reads s) + 3 * length (m_unregs s) + length (m_msgs s) + length (m_devcbs s))%nat.

Lemma due_callbacks a s : holds a s → due a = callbacks_due s.
Proof.
  intros Hh. unfold due, callbacks_due. rewrite (h_msgs _ _ Hh), (h_devcbs _ _ Hh), (h_closing _ _ Hh), length_fmap.
  rewrite (h_reads _ _ Hh), <-length_map_to_list, map_to_list_to_map
    by (rewrite <-list_fmap_compose; apply (h_nodup_ctx _ _ Hh)).
  by rewrite length_fmap.
Qed.

(** A run of the module is one of the abstract machine, with the same events. *)
Lemma mrun_simulated P a0 s0 tr s : holds a0 s0 → mrun P s0 tr s →
  ∃ a, arun P (m_app_thread s0) a0 tr a ∧ holds a s ∧ m_app_thread s = m_app_thread s0.
Proof.
  intros Hh0 Hrun. induction Hrun as [|tr s1 E J ev s2 Hrun (a1 & Ha & Hh & Happ) HE HJ HP Hen Hstep].
  { exists a0. split; [constructor|done]. }
  pose proof (msimulation (E := E) (J := J) ev a1 s1 Hh Hen) as Hwp.
  unfold wp in Hwp. rewrite Hstep in Hwp. destruct Hwp as (a2 & [Hst Hh2 Happ2]).
  exists a2. split; [|split; [done|congruence]]. rewrite Happ in Hst. by eapply arun_snoc.
Qed.

Lemma mrun_reachable P s0 tr s : module_loaded s0 → mrun P s0 tr s →
  ∃ a, arun P (m_app_thread s0) (no_owner (m_strs s0)) tr a ∧ holds a s.
Proof.
  intros Hl Hrun. destruct (mrun_simulated P _ s0 tr s (loaded_holds _ Hl) Hrun) as (a & ? & ? & _). by exists a.
Qed.

Lemma no_owner_closing strs : NoDup (a_closing (no_owner strs)).*1.
Proof. constructor. Qed.

Lemma mrun_events (Q : mevent → Prop) P s0 tr s :
  (∀ E ev, P E ev → Q ev) → mrun P s0 tr s → ∀ ev, ev ∈ tr → Q ev.
Proof.
  intros HPQ Hrun. induction Hrun as [|tr s1 E J ev s2 _ IH _ _ HP _ _]; intros ev'.
  - by intros ?%not_elem_of_nil.
  - intros [?|He]%elem_of_app; [by apply IH|]. apply list_elem_of_singleton in He as ->. by eapply HPQ.
Qed.

Lemma received_callbacks tr : (∀ ev, ev ∈ tr → is_callback ev = true) → received tr = [].
Proof.
  induction tr as [|ev tr IH]; [done|]. intros Hcb. unfold received. cbn. fold (received tr).
  rewrite IH by (intros ev' ?; apply Hcb; by right).
  specialize (Hcb ev ltac:(left)). by destruct ev.
Qed.

(** When no callback is due, no request waits. *)
Lemma quiet_reading a s : holds a s → m_reads s = ∅ → a_reading a = [].
Proof.
  intros Hh He. rewrite (h_reads _ _ Hh) in He.
  destruct (a_reading a) as [|c l]; [done|]. exfalso.
  by apply (insert_non_empty (M := gmap Z) _ _ _ He).
Qed.

Lemma quiet_answered a s : holds a s →
  (∀ ev, is_callback ev = true → ¬ menabled s ev) → unanswered s = [].
Proof.
  intros Hh Hnone. assert (Hr : m_reads s = ∅).
  { apply map_eq. intros ctx. rewrite lookup_empty. destruct (m_reads s !! ctx) eqn:Hl; [|done].
    exfalso. apply (Hnone (MReadDone ctx true (λ _, 0))); [done|]. by simpl; rewrite Hl. }
  assert (Hu : m_unregs s = []).
  { destruct (m_unregs s) as [|[p cb] l] eqn:Hl; [done|]. exfalso.
    apply (Hnone (MDestruct p cb 0)); [done|]. simpl. rewrite Hl. left. }
  unfold unanswered. rewrite Hu, (h_ctxs _ _ Hh), (quiet_reading a s Hh Hr). done.
Qed.

(** ** Executable runs *)

Fixpoint run_mevents {E : mod_env} {J : json_decoder} (tr : list mevent) (s : mstate) : option mstate :=
  match tr with
  | [] => Some s
  | ev :: tr' =>
      if decide (menabled s ev) then
        match run_mevent ev s with Done _ s' => run_mevents tr' s' | _ => None end
      else None
  end.

Lemma run_mevents_sound {E : mod_env} {J : json_decoder} P tr :
  mod_env_ok E → json_decoder_ok J → ∀ s0 tr0 s s',
  mrun P s0 tr0 s → (∀ ev, ev ∈ tr → P E ev) → run_mevents tr s = Some s' →
  mrun P s0 (tr0 ++ tr) s'.
Proof.
  intros HE HJ. induction tr as [|ev tr IH]; intros s0 tr0 s s' Hrun HP Hev; simpl in Hev.
  { injection Hev as <-. by rewrite app_nil_r. }
  destruct (decide (menabled s ev)) as [Hen|]; [|done].
  destruct (run_mevent ev s) as [[] s1| |] eqn:Hs; try done.
  change (ev :: tr) with ([ev] ++ tr). rewrite app_assoc. eapply IH; [|..|exact Hev].
  - eapply mrun_snoc; [done..| |done|done]. apply HP. left.
  - intros ev' Hev'. apply HP. by right.
Qed.

(** *** A concrete environment *)

Definition next_key {V} (m : gmap Z V) : Z := foldr Z.max 0 (map_to_list m).*1 + 1.

Lemma next_key_fresh {V} (m : gmap Z V) : m !! next_key m = None.
Proof.
  destruct (m !! next_key m) as [v|] eqn:Hm; [|done]. exfalso.
  apply elem_of_map_to_list, (list_elem_of_fmap_2 fst) in Hm. unfold next_key in Hm. cbn in Hm.
  revert Hm. generalize (map_to_list m).*1. intros l Hl.
  assert (H : ∀ x, x ∈ l → x ≤ foldr Z.max 0 l).
  { clear Hl. induction l as [|y l IH]; intros x; [by intros ?%not_elem_of_nil|].
    cbn. intros [->|Hx%IH]%elem_of_cons; lia. }
  specialize (H _ Hl). lia.
Qed.

(** Everything succeeds; the base bdev is [base_100M], the image has 40 MiB. *)
Definition demo_find (s : mstate) (name : option string) : list Z :=
  filter (λ p, p ∉ (m_unregs s).*1 ∧
               (u ← m_bdevs s !! p; bd_name (ub_bdev u)) = name) (elements (m_regs s)).
Definition demo_menv : mod_env := {|
  me_calloc s := Some (next_key (m_bdevs s));
  me_calloc_context s := Some (next_key (m_ctxs s));
  me_strdup s := true;
  me_stat s path := Some 41943040;
  me_open s name := inr (next_key (m_descs s), base_100M);
  me_claim s a := if decide (a ∈ m_claims s) then -1 else 0;
  me_get_channel s d := Some 5;
  me_read_blocks s r := 0;
  me_register s p := 0;
  me_unregister_by_name s name :=
    match demo_find s name with p :: _ => inr p | [] => inl (- ENODEV) end;
  me_u32log2 := Z.log2
|}.

#[export] Instance demo_menv_ok : mod_env_ok demo_menv.
Proof.
  split; cbn.
  - intros s p [= <-]. apply next_key_fresh.
  - intros s. eexists. split; [done|apply next_key_fresh].
  - done.
  - intros s n d b [= <- <-]. split; [apply next_key_fresh|]. unfold base_ok. cbn. lia.
  - intros s a. by destruct (decide _).
  - intros s path n [= <-]. lia.
  - intros s n rc. destruct (demo_find s n); [|done]. by intros [= <-].
  - intros s n p. destruct (demo_find s n) as [|q l] eqn:Hf; [done|]. intros [= ->].
    assert (p ∈ demo_find s n) as Hin by (rewrite Hf; left).
    apply list_elem_of_filter in Hin as [[? _] ?%elem_of_elements]. done.
Qed.

(** A decoder that follows the documentation; every string is at address 9. *)
Definition set_field (f : rpc_field) (v : json) (r : rpc_construct_ubi) : rpc_construct_ubi :=
  let '(mk_construct n i b k ns cr di) := r in
  match f, v with
  | F_name, JString s => mk_construct (Some (9, s)) i b k ns cr di
  | F_image_path, JString s => mk_construct n (Some (9, s)) b k ns cr di
  | F_base_bdev_name, JString s => mk_construct n i (Some (9, s)) k ns cr di
  | F_stripe_size_kb, JNumber z => mk_construct n i b z ns cr di
  | F_no_sync, JBool x => mk_construct n i b k x cr di
  | F_copy_on_read, JBool x => mk_construct n i b k ns x di
  | F_directio, JBool x => mk_construct n i b k ns cr x
  | _, _ => r
  end.
Definition demo_decoder : json_decoder := λ table o r,
  if decide (table_accepts table o) then
    (0, foldr (λ d r, match json_lookup (dec_name d) o with
                      | Some v => set_field (dec_field d) v r
                      | None => r
                      end) r table)
  else (-1, r).

Lemma set_field_get f v r func : json_has_kind func v = true →
  (func = spdk_json_decode_string ∧ f ∈ [F_name; F_image_path; F_base_bdev_name] ∨
   func = spdk_json_decode_uint32 ∧ f = F_stripe_size_kb ∨
   func = spdk_json_decode_bool ∧ f ∈ [F_no_sync; F_copy_on_read; F_directio]) →
  get_field f (set_field f v r) = Some v.
Proof.
  intros Hk Hf. destruct r. destruct func, v; try done; destruct f; try done;
    exfalso; destruct Hf as [[? Hf]|[[? Hf]|[? Hf]]]; try done; set_solver.
Qed.
Lemma set_field_other f f' v r : f ≠ f' → get_field f (set_field f' v r) = get_field f r.
Proof. intros Hne. destruct r. by destruct f', v, f. Qed.

Lemma foldr_set_other f o r table : (∀ d, d ∈ table → dec_field d ≠ f) →
  get_field f (foldr (λ d r, match json_lookup (dec_name d) o with
    | Some v => set_field (dec_field d) v r | None => r end) r table) = get_field f r.
Proof.
  induction table as [|d table IH]; [done|]. intros Hne. cbn.
  assert (dec_field d ≠ f) by (apply Hne; left).
  destruct (json_lookup _ _); [rewrite set_field_other by done|]; apply IH; intros d' Hd'; apply Hne; by right.
Qed.

(** The decoding function fits the member. *)
Definition fits (d : spdk_json_object_decoder) : Prop :=
  dec_func d = spdk_json_decode_string ∧ dec_field d ∈ [F_name; F_image_path; F_base_bdev_name] ∨
  dec_func d = spdk_json_decode_uint32 ∧ dec_field d = F_stripe_size_kb ∨
  dec_func d = spdk_json_decode_bool ∧ dec_field d ∈ [F_no_sync; F_copy_on_read; F_directio].

#[export] Instance rpc_field_eq_dec : EqDecision rpc_field.
Proof. solve_decision. Defined.
#[export] Instance decode_func_eq_dec : EqDecision decode_func.
Proof. solve_decision. Defined.
#[export] Instance decoder_eq_dec : EqDecision spdk_json_object_decoder.
Proof. solve_decision. Defined.
#[export] Instance fits_dec d : Decision (fits d).
Proof. unfold fits. apply _. Defined.

Lemma foldr_set_get o r table d : NoDup (dec_field <$> table) → d ∈ table → fits d →
  (∀ v, json_lookup (dec_name d) o = Some v → json_has_kind (dec_func d) v = true) →
  get_field (dec_field d) (foldr (λ d r, match json_lookup (dec_name d) o with
    | Some v => set_field (dec_field d) v r | None => r end) r table) =
  match json_lookup (dec_name d) o with Some v => Some v | None => get_field (dec_field d) r end.
Proof.
  intros Hnd Hd Hfit Hkind. induction table as [|d' table IH]; [by apply not_elem_of_nil in Hd|].
  rewrite fmap_cons in Hnd. inversion Hnd as [|? ? Hnot Hnd']; subst. cbn [foldr].
  apply elem_of_cons in Hd as [->|Hd].
  - destruct (json_lookup (dec_name d') o) as [v|] eqn:Hl.
    + apply (set_field_get _ _ _ (dec_func d')); [by apply Hkind|exact Hfit].
    + apply foldr_set_other. intros d Hd Heq. apply Hnot. rewrite <-Heq. by apply list_elem_of_fmap_2.
  - assert (dec_field d ≠ dec_field d').
    { intros Heq. apply Hnot. rewrite <-Heq. by apply list_elem_of_fmap_2. }
    destruct (json_lookup (dec_name d') o); [rewrite set_field_other by done|]; by apply IH.
Qed.

Lemma rpc_tables_ok table : table ∈ rpc_tables →
  NoDup (dec_field <$> table) ∧ NoDup (dec_name <$> table) ∧ Forall fits table.
Proof.
  assert (H : Forall (λ t, NoDup (dec_field <$> t) ∧ NoDup (dec_name <$> t) ∧ Forall fits t) rpc_tables).
  { apply (bool_decide_unpack _). by vm_compute. }
  rewrite Forall_forall in H. apply H.
Qed.

#[export] Instance demo_decoder_ok : json_decoder_ok demo_decoder.
Proof.
  split.
  - intros table o r _. unfold spdk_json_decode_object, demo_decoder. by destruct (decide _).
  - intros table o r d Ht Hd. unfold spdk_json_decode_object, demo_decoder.
    destruct (decide _) as [(_ & Hk & _)|]; [|done]. intros _. cbn [snd].
    destruct (rpc_tables_ok table Ht) as (Hf & Hn & Hfit). rewrite Forall_forall in Hfit. rewrite Forall_forall in Hk.
    apply foldr_set_get; [done..|by apply Hfit|]. intros v Hv.
    apply json_lookup_elem in Hv. specialize (Hk _ Hv). apply Exists_exists in Hk as (d' & Hd' & Hname & Hkind).
    by rewrite <-(NoDup_fmap_key dec_name table d' d Hn Hd' Hd Hname).
Qed.

Definition demo_params : list (string * json) :=
  [("name"%string, JString "ubi0"); ("image_path"%string, JString "jammy.raw");
   ("base_bdev"%string, JString "aio0"); ("stripe_size_kb"%string, JNumber 1024)].
Definition demo_loaded : mstate :=
  mk_mstate ∅ ∅ ∅ [] [] false false 1 1 ∅ ∅ [] ∅ ∅ ∅ [] [] [] [].

(** A bdev is created on a zeroed disk, and deleted; the destruction runs on
    thread 2. *)
Definition demo_creation : list mevent := [MCreate 7 demo_params; MReadDone 1 true (λ _, 0)].
Definition demo_deletion : list mevent :=
  [MDelete 8 [("name"%string, JString "ubi0")]; MDestruct 1 (Some 8) 2; MMessage 1 1;
   MDeviceUnregistered 1].
Definition demo_run (tr : list mevent) : option mstate :=
  run_mevents (E := demo_menv) (J := demo_decoder) tr demo_loaded.

Lemma demo_loaded_ok : module_loaded demo_loaded.
Proof. by split. Qed.

Lemma demo_mrun P tr s : (∀ ev, ev ∈ tr → P demo_menv ev) → demo_run tr = Some s →
  mrun P demo_loaded tr s.
Proof.
  intros HP Hs. apply (run_mevents_sound P tr demo_menv_ok demo_decoder_ok demo_loaded [] demo_loaded s
    (mrun_nil _ _) HP Hs).
Qed.

Example demo_run_answers : m_resp <$> demo_run (demo_creation ++ demo_deletion) =
  Some [(8, RespBool true); (7, RespString "ubi0")].
Proof. by vm_compute. Qed.

(** * Properties *)

(** C8. The module is safe.  In every state that a run reaches from the loaded
    module, with any results of the calls it makes, every event SPDK may
    deliver (an RPC request, the completion of a metadata read, a destruction
    on any thread, a message, the end of a device, an event of a base bdev)
    runs to its end: it uses no freed bdev or context, frees nothing twice,
    releases no claim or channel it does not hold, and closes a descriptor
    only once and on the thread that opened it. *)
Theorem lifecycle_safe (s0 s : mstate) (tr : list mevent) (E : mod_env) (J : json_decoder)
    (ev : mevent) :
  module_loaded s0 → mrun any_mstep s0 tr s → mod_env_ok E → json_decoder_ok J → menabled s ev →
  ∃ s', run_mevent ev s = Done tt s'.
Proof.
  intros Hl Hrun HE HJ Hen. destruct (mrun_reachable _ _ _ _ Hl Hrun) as (a & _ & Hh).
  pose proof (msimulation ev a s Hh Hen) as Hwp. apply wp_done in Hwp as ([] & s' & Hs & _). by exists s'.
Qed.

Lemma lifecycle_safe_witness : ∃ s s',
  demo_run demo_creation = Some s ∧
  run_mevent (E := demo_menv) (J := demo_decoder) (MBaseEvent SPDK_BDEV_EVENT_REMOVE 2) s = Done tt s' ∧
  (m_unregs s').*1 = [1].
Proof.
  assert (Hk : (λ s, (λ o, match o with Done _ s' => (m_unregs s').*1 | _ => [] end)
      (run_mevent (E := demo_menv) (J := demo_decoder) (MBaseEvent SPDK_BDEV_EVENT_REMOVE 2) s)) <$>
      demo_run demo_creation = Some [1]) by by vm_compute.
  destruct (demo_run demo_creation) as [s|] eqn:Hs; [|done]. cbn -[run_mevent] in Hk.
  destruct (lifecycle_safe demo_loaded s demo_creation demo_menv demo_decoder
    (MBaseEvent SPDK_BDEV_EVENT_REMOVE 2)) as [s' Hs'].
  - exact demo_loaded_ok.
  - by apply demo_mrun.
  - exact demo_menv_ok.
  - exact demo_decoder_ok.
  - done.
  - exists s, s'. split; [done|]. split; [done|]. rewrite Hs' in Hk. by injection Hk.
Defined.

(** C9. Ownership.  Every run of the module is, event by event, a run of the
    abstract machine of owners: an event makes the step that the machine
    allows for it, with the answer that the machine gives (a creation takes
    an address, a base bdev, a descriptor and a context that nobody uses; it
    is opened or given up when its metadata were read; only open bdevs are
    unregistered, once; a bdev that is unregistered is destructed, its
    descriptor closed there or by a message, and freed), and the allocated
    bdevs and names, the registered devices and bdevs, the claims, the open
    descriptors with their threads, the channel references, the contexts, the
    strings, the responses and the callbacks that are due are exactly those
    of the machine's state.  A channel reference is lost only in a creation
    whose metadata read the base bdev refuses, a string only in a deletion
    that does not decode. *)
Theorem lifecycle_refinement (s0 s : mstate) (tr : list mevent) :
  module_loaded s0 → mrun any_mstep s0 tr s →
  ∃ a, arun any_mstep (m_app_thread s0) (no_owner (m_strs s0)) tr a ∧ holds a s.
Proof. apply mrun_reachable. Qed.

Lemma lifecycle_refinement_witness : ∃ s a,
  demo_run demo_creation = Some s ∧ arun any_mstep 1 (no_owner []) demo_creation a ∧ holds a s ∧
  o_p <$> a_open a = [1] ∧ a_resp a = [(7, RespString "ubi0")].
Proof.
  assert (Hk : (λ s, (m_head s, m_resp s)) <$> demo_run demo_creation = Some ([1], [(7, RespString "ubi0")]))
    by by vm_compute.
  destruct (demo_run demo_creation) as [s|] eqn:Hs; [|done]. cbn in Hk. injection Hk as Hk Hr.
  destruct (lifecycle_refinement demo_loaded s demo_creation) as (a & Hst & Hh).
  - exact demo_loaded_ok.
  - by apply demo_mrun.
  - exists s, a. split_and!; [done|done|done|by rewrite <-(h_head _ _ Hh)|by rewrite <-(h_resp _ _ Hh)].
Defined.

(** C11. Every RPC request is answered exactly once: in a reachable state the
    requests received are, each once, those that were answered, those whose
    creation waits for its metadata and those whose bdev waits to be
    destructed. *)
Theorem rpc_answered_once (s0 s : mstate) (tr : list mevent) :
  module_loaded s0 → mrun any_mstep s0 tr s →
  (m_resp s).*1 ++ unanswered s ≡ₚ received tr.
Proof.
  intros Hl Hrun. destruct (mrun_reachable _ _ _ _ Hl Hrun) as (a & Ha & Hh).
  rewrite <-(pending_unanswered a s Hh), (h_resp _ _ Hh), (arun_replies _ _ _ (no_owner_closing _) _ _ Ha).
  cbn. by rewrite app_nil_r.
Qed.

Lemma rpc_answered_once_witness : ∃ s,
  demo_run (demo_creation ++ demo_deletion) = Some s ∧
  (m_resp s).*1 ++ unanswered s ≡ₚ [7; 8] ∧ m_resp s = [(8, RespBool true); (7, RespString "ubi0")].
Proof.
  assert (Hk : m_resp <$> demo_run (demo_creation ++ demo_deletion) =
    Some [(8, RespBool true); (7, RespString "ubi0")]) by by vm_compute.
  destruct (demo_run (demo_creation ++ demo_deletion)) as [s|] eqn:Hs; [|done].
  cbn in Hk. injection Hk as Hk. exists s. split; [done|]. split; [|done].
  apply (rpc_answered_once demo_loaded s (demo_creation ++ demo_deletion)).
  - exact demo_loaded_ok.
  - by apply demo_mrun.
Defined.

(** C12. Every RPC request is answered: from a reachable state, SPDK can deliver
    only boundedly many callbacks until a new request or event arrives (a read
    counts 1, an unregistration 3, a message 1, a device 1), and when none is
    due any more every request received has its answer. *)
Theorem rpc_answered_eventually (s0 s s' : mstate) (tr tr' : list mevent) :
  module_loaded s0 → mrun any_mstep s0 tr s → mrun callbacks_only s tr' s' →
  (length tr' ≤ callbacks_due s)%nat ∧
  ((∀ ev, is_callback ev = true → ¬ menabled s' ev) →
   unanswered s' = [] ∧ (m_resp s').*1 ≡ₚ received tr).
Proof.
  intros Hl Hrun Hrun'. destruct (mrun_reachable _ _ _ _ Hl Hrun) as (a & Ha & Hh).
  pose proof (arun_replies _ _ _ (no_owner_closing _) _ _ Ha) as Hrep.
  assert (Hcb : ∀ ev, ev ∈ tr' → is_callback ev = true) 
    by by apply (mrun_events (λ ev, is_callback ev = true) callbacks_only s tr' s').
  assert (Hreq : received tr' = []) by by apply received_callbacks.
  destruct (mrun_simulated callbacks_only a s tr' s' Hh Hrun') as (a' & Ha' & Hh' & _).
  assert (Hnd : NoDup (a_closing a).*1) by apply (h_unregs _ _ Hh).
  split; [rewrite <-(due_callbacks a s Hh); pose proof (arun_due _ _ _ Hnd _ _ Ha' Hcb); lia|].
  intros Hnone. assert (Hun : unanswered s' = []) by by eapply quiet_answered.
  split; [done|]. pose proof (arun_replies _ _ _ Hnd _ _ Ha') as Hrep'. rewrite Hreq, Hrep in Hrep'. cbn in Hrep'.
  rewrite (pending_unanswered a' s' Hh'), Hun, !app_nil_r in Hrep'. by rewrite (h_resp _ _ Hh'), Hrep'.
Qed.

Definition demo_before : list mevent := demo_creation ++ [MDelete 8 [("name"%string, JString "ubi0")]].
Definition demo_after : list mevent :=
  [MDestruct 1 (Some 8) 2; MMessage 1 1; MDeviceUnregistered 1].

Definition demo_rest (s : mstate) : option mstate :=
  run_mevents (E := demo_menv) (J := demo_decoder) demo_after s.

(** No callback is due. *)
Lemma no_callback s : m_reads s = ∅ → m_unregs s = [] → m_msgs s = [] → m_devcbs s = [] →
  ∀ ev, is_callback ev = true → ¬ menabled s ev.
Proof.
  intros Hr Hu Hm Hd ev Hcb. destruct ev; try done; cbn; rewrite ?Hr, ?Hu, ?Hm, ?Hd, ?lookup_empty.
  - by intros [? ?].
  - apply not_elem_of_nil.
  - apply not_elem_of_nil.
  - apply not_elem_of_nil.
Qed.

Lemma rpc_answered_eventually_witness : ∃ s s',
  demo_run demo_before = Some s ∧ unanswered s = [8] ∧
  demo_rest s = Some s' ∧
  (3 ≤ callbacks_due s)%nat ∧ unanswered s' = [] ∧ (m_resp s').*1 ≡ₚ [7; 8].
Proof.
  assert (Hk : (λ s, (unanswered s,
    (λ s', (m_reads s', m_unregs s', m_msgs s', m_devcbs s')) <$>
      demo_rest s)) <$> demo_run demo_before =
    Some ([8], Some (∅, [], [], []))) by by vm_compute.
  destruct (demo_run demo_before) as [s|] eqn:Hs; [|done]. cbn -[demo_rest unanswered] in Hk.
  injection Hk as Hun Hk. destruct (demo_rest s) as [s'|] eqn:Hs'; [|done].
  cbn in Hk. injection Hk as Hr Hu Hm Hd.
  destruct (rpc_answered_eventually demo_loaded s s' demo_before demo_after) as [Hlen Hans].
  - exact demo_loaded_ok.
  - by apply demo_mrun.
  - apply (run_mevents_sound callbacks_only demo_after demo_menv_ok demo_decoder_ok s [] s s'
      (mrun_nil _ _)); [|exact Hs'].
    intros ev Hev. unfold demo_after, callbacks_only in *.
    clear -Hev. repeat (apply elem_of_cons in Hev as [->|Hev]; [done|]). by apply not_elem_of_nil in Hev.
  - destruct Hans as [Hans1 Hans2]; [by apply no_callback|]. exists s, s'. by split_and!.
Defined.

(** C19. Nothing leaks but what is known to leak.  In a reachable state with no
    bdev open and no callback due every allocation, name, context,
    descriptor, claim and registration is gone.  What may be left are channel
    references, at most one for a request, and only for creations that were
    answered with the error of a base bdev that refused the metadata read;
    and strings of delete requests that do not decode.  Without such refusals
    and requests there are none. *)
Theorem nothing_leaks (P : mod_env → mevent → Prop) (s0 s : mstate) (tr : list mevent) :
  module_loaded s0 → mrun P s0 tr s →
  m_head s = [] → m_reads s = ∅ → m_msgs s = [] → m_devcbs s = [] →
  m_bdevs s = ∅ ∧ m_names s = ∅ ∧ m_ctxs s = ∅ ∧ m_descs s = ∅ ∧ m_claims s = ∅ ∧
  m_iodevs s = ∅ ∧ m_regs s = ∅ ∧ m_unregs s = [] ∧
  (∃ leaked : list (Z * Z), m_refs s ≡ₚ leaked.*2 ∧ leaked.*1 ⊆+ received tr ∧
     ∀ request, request ∈ leaked.*1 → ∃ E ev s' r, P E ev ∧ me_read_blocks s' r ≠ 0 ∧
       (request, error_response (me_read_blocks s' r)) ∈ m_resp s) ∧
  ((∀ E ev, P E ev → reads_accepted E ev) → m_refs s = []) ∧
  ((∀ request params, MDelete request params ∈ tr → table_accepts rpc_delete_ubi_decoders params) →
   m_strs s = m_strs s0).
Proof.
  intros Hl Hrun Hhead Hreads Hmsgs Hdev. destruct (mrun_reachable _ _ _ _ Hl Hrun) as (a & Ha & Hh).
  pose proof (quiet_reading a s Hh Hreads) as Hrd.
  destruct (arun_leaked _ _ _ _ _ Ha eq_refl) as [Hlk Hlkr]. pose proof (arun_strs _ _ _ _ _ Ha) as Hstr.
  destruct Hh as [[_ _ _ Hb Hn _ _ _ Hi Hc Hd] _ _ Hhd Hrg _ Hcx Hrf Hm Hdv Hu0 _ Hu Hst Hrs].
  assert (Hop : a_open a = []). { rewrite Hhead in Hhd. symmetry in Hhd. by apply fmap_nil_inv in Hhd. }
  assert (Hor : a_orphans a = []). { rewrite Hmsgs in Hm. symmetry in Hm. by apply fmap_nil_inv in Hm. }
  assert (Hdy : a_dying a = []) by congruence.
  unfold live in *. rewrite Hrd, Hop, Hor, Hdy in *. cbn in *. rewrite app_nil_r in Hrf.
  split_and!; try done.
  - apply dom_empty_inv_L. done.
  - rewrite Hu0. destruct (a_closing a) as [|q l]; [done|]. exfalso. specialize (Hu q.1). cbn in Hu.
    apply (not_elem_of_nil q.1), Hu. left.
  - exists (a_leaked a). split_and!; [done|done|]. intros request Hreq. rewrite Hrs. by apply Hlkr.
  - intros Hacc. destruct (a_leaked a) as [|[request ref] l]; [by apply Permutation_nil_r in Hrf|]. exfalso.
    destruct (Hlkr request) as (E & ev & s' & r & HP & Hr & _); [left|]. exact (Hr (Hacc _ _ HP s' r)).
  - intros Hacc. rewrite Hst. by apply Hstr.
Qed.

Lemma nothing_leaks_witness : ∃ s,
  demo_run (demo_creation ++ demo_deletion) = Some s ∧ m_bdevs s = ∅ ∧ m_descs s = ∅ ∧
  m_claims s = ∅ ∧ m_refs s = [] ∧ m_strs s = [].
Proof.
  assert (Hk : (λ s, (m_head s, m_reads s, m_msgs s, m_devcbs s)) <$>
    demo_run (demo_creation ++ demo_deletion) = Some ([], ∅, [], [])) by by vm_compute.
  destruct (demo_run (demo_creation ++ demo_deletion)) as [s|] eqn:Hs; [|done].
  cbn in Hk. injection Hk as H1 H2 H3 H4.
  destruct (nothing_leaks (λ E _, E = demo_menv) demo_loaded s (demo_creation ++ demo_deletion))
    as (Hb & _ & _ & Hd & Hc & _ & _ & _ & _ & Hr & Hst).
  - exact demo_loaded_ok.
  - by apply demo_mrun.
  - exact H1.
  - exact H2.
  - exact H3.
  - exact H4.
  - exists s. split_and!; try assumption; [reflexivity|apply Hr; clear; by intros E ev ->|].
    apply Hst. clear. intros request params Hin. unfold demo_creation, demo_deletion in Hin.
    repeat (apply elem_of_cons in Hin as [Heq|Hin]; [first [discriminate Heq|injection Heq as -> ->; apply (bool_decide_unpack _); vm_compute; exact I]|]).
    by apply not_elem_of_nil in Hin.
Defined.

(** C20. Base bdevs are exclusive: every bdev of [g_ubi_bdev_head] has its own
    base bdev, claimed, and its own descriptor, open on the thread the bdev
    remembers. *)
Theorem base_exclusive (s0 s : mstate) (tr : list mevent) (p : Z) :
  module_loaded s0 → mrun any_mstep s0 tr s → p ∈ m_head s →
  ∃ u b d, m_bdevs s !! p = Some u ∧ ub_base_bdev_info u = mk_base_info (Some b) (Some d) ∧
    bd_addr b ∈ m_claims s ∧ m_descs s !! d = Some (b, ub_thread u) ∧
    ∀ p' u' b' d', p' ∈ m_head s → m_bdevs s !! p' = Some u' →
      ub_base_bdev_info u' = mk_base_info (Some b') (Some d') →
      bd_addr b' = bd_addr b ∨ d' = d → p' = p.
Proof.
  intros Hl Hrun Hp. destruct (mrun_reachable _ _ _ _ Hl Hrun) as (a & _ & Hh).
  pose proof (h_account _ _ Hh) as Hacc. pose proof (h_head _ _ Hh) as Hhd. rewrite Hhd in *.
  apply list_elem_of_fmap in Hp as (o & -> & Ho).
  assert (Hol : ∀ o, o ∈ a_open a → o ∈ live a) by (intros o' ?; apply elem_of_app; by right).
  destruct (h_live _ _ _ _ Hacc o (Hol o Ho)) as (u & Hu & Hbase & Hth & _).
  exists u, (o_base o), (o_desc o). split_and!; [done..| | |].
  - rewrite (h_claims _ _ _ _ Hacc). apply elem_of_list_to_set.
    by apply (list_elem_of_fmap_2 base_addr), Hol.
  - rewrite (h_descs _ _ _ _ Hacc), Hth.
    apply elem_of_list_to_map_1; [rewrite <-list_fmap_compose; apply (h_nodup_desc _ _ _ _ Hacc)|].
    apply (list_elem_of_fmap_2 desc_entry), elem_of_app. left. by apply Hol.
  - intros p' u' b' d' Hp' Hu' Hbase' Heq. apply list_elem_of_fmap in Hp' as (o' & -> & Ho').
    destruct (h_live _ _ _ _ Hacc o' (Hol o' Ho')) as (u'' & Hu'' & Hb'' & _ & _).
    assert (u'' = u') as -> by congruence. rewrite Hbase' in Hb''. injection Hb'' as -> ->.
    f_equal. destruct Heq as [Heq|Heq].
    + by apply (NoDup_fmap_key base_addr _ _ _ (h_nodup_base _ _ _ _ Hacc)); try apply Hol.
    + pose proof (h_nodup_desc _ _ _ _ Hacc) as Hnd. rewrite fmap_app in Hnd.
      apply NoDup_app in Hnd as (Hnd & _ & _).
      by apply (NoDup_fmap_key o_desc _ _ _ Hnd); try apply Hol.
Qed.

Lemma base_exclusive_witness : ∃ s u b d,
  demo_run demo_creation = Some s ∧ m_bdevs s !! 1 = Some u ∧
  ub_base_bdev_info u = mk_base_info (Some b) (Some d) ∧ bd_addr b ∈ m_claims s.
Proof.
  assert (Hk : m_head <$> demo_run demo_creation = Some [1]) by by vm_compute.
  destruct (demo_run demo_creation) as [s|] eqn:Hs; [|done]. cbn in Hk. injection Hk as Hk.
  destruct (base_exclusive demo_loaded s demo_creation 1) as (u & b & d & Hu & Hb & Hc & _).
  - exact demo_loaded_ok.
  - by apply demo_mrun.
  - rewrite Hk. left.
  - exists s, u, b, d. split_and!; assumption || reflexivity.
Defined.
