(* ===== verification/Creation.v ===== *)
(** What creating, deleting and losing a bdev do: the outcome of
    [bdev_ubi_create], the state the I/O path starts from, channels, the saved
    configuration, and the removal of a base bdev. *)
From stdpp Require Import base tactics list gmap option numbers functions strings sets fin_maps.
From Stdlib Require Import ZArith Lia.
From S2P Require Import Prelude Types World Layout Stripe Metadata FetchProtocol System.
From S2P Require Import Lifecycle Rpc LifeSpec Ownership Channel LifeProps.

Local Open Scope Z_scope.

(** * Lemmas *)

Lemma substring_full n s : (String.length s ≤ n)%nat → String.substring 0 n s = s.
Proof.
  revert n. induction s as [|c s IH]; intros [|n] Hn; simpl in *; try done; [lia|].
  f_equal. apply IH. lia.
Qed.

Lemma copy_path_short s : Z.of_nat (String.length s) < UBI_PATH_LEN → copy_path s = s.
Proof. intros Hs. apply substring_full. unfold UBI_PATH_LEN in *. lia. Qed.

(** A decoded member whose key is present. *)
Lemma decoded_field {J : json_decoder} `{!json_decoder_ok J} params d v :
  (decoded params).1 = 0 → d ∈ rpc_construct_ubi_decoders →
  json_lookup (dec_name d) params = Some v →
  get_field (dec_field d) (decoded params).2 = Some v.
Proof.
  intros Hrc Hd Hv. pose proof (jd_field rpc_construct_ubi_decoders params construct_defaults d
    ltac:(left) Hd Hrc) as Hf. rewrite Hv in Hf. exact Hf.
Qed.

(** The status of a stripe after the metadata are loaded. *)
Lemma load_metadata_statuses u st u1 k :
  (∀ k, ub_stripe_status u k = STRIPE_NOT_FETCHED) → ubi_load_metadata u = Some (st, u1) →
  ub_stripe_status u1 k = STRIPE_FETCHED ∨ ub_stripe_status u1 k = STRIPE_NOT_FETCHED.
Proof.
  intros Hu Hl. unfold ubi_load_metadata in Hl.
  pose proof (load_stripes_status (Z.to_nat UBI_MAX_STRIPES) 0 u k) as Hs. revert Hs Hl.
  generalize (load_stripes (Z.to_nat UBI_MAX_STRIPES) 0 u). intros v Hv.
  destruct (ubi_new_disk _); [intros [= <- <-]; right; apply Hu|].
  destruct (negb (bool_decide _)); [intros [= <- <-]; right; apply Hu|].
  destruct (ubi_get_version _) as [[major minor]|]; [|done]. simpl.
  destruct (_ || _); intros [= <- <-]; [right; apply Hu|]. rewrite Hv.
  destruct (decide _); [destruct (c_true _); auto|right; apply Hu].
Qed.

(** The bdev at [p] is over the base bdev at [base]. *)
Definition over_base (s : mstate) (p base : Z) : Prop :=
  ∃ u, m_bdevs s !! p = Some u ∧ bd_addr <$> bi_bdev (ub_base_bdev_info u) = Some base.

(** * Properties *)

(** C14. A creation is all or nothing.  The RPC method answers an error and leaves
    the state as it found it, but for one channel of the base bdev when the
    metadata read was refused; or it has started to read the metadata into a
    new bdev that holds a name, a descriptor, a claim and an I/O device, has
    the options and defaults of the request and the layout computed from the
    base bdev and the image.  The strings of the request are freed. *)
Theorem create_all_or_nothing {E : mod_env} {J : json_decoder} (request : Z)
    (params : list (string * json)) (s : mstate) :
  mod_env_ok E → json_decoder_ok J → resources_ok s → m_thread s = m_app_thread s →
  wp (rpc_bdev_ubi_create request params) s (λ _ s',
    (∃ r leaked, (∀ name, r ≠ RespString name) ∧ (length leaked ≤ 1)%nat ∧
       s' = on_resp ((request, r) ::.) (on_refs (leaked ++.) s)) ∨
    (∃ ctx p u b d ref rd, (decoded params).1 = 0 ∧
       m_ctxs s !! ctx = None ∧ m_bdevs s !! p = None ∧ m_descs s !! d = None ∧
       bd_addr b ∉ m_claims s ∧ created (opts_of (decoded params).2) (m_thread s) p b d u ∧
       br_dest rd = p ∧ br_offset rd = 0 ∧ br_blocks rd = ub_data_offset_blocks u ∧
       s' = started p u b d ctx (mk_context request (Some p) true (Some ref)) ref rd s)).
Proof.
  intros HE HJ Hres Ht. eapply wp_mono; [by apply wp_rpc_create|].
  assert (Hr : ∀ st name, error_response st ≠ RespString name).
  { intros st name. unfold error_response. by destruct (st <? 0). }
  intros [] s' [Hdec|ctx s1 Hdec Hctx Hpost].
  - left. exists (RespError SPDK_JSONRPC_ERROR_INTERNAL_ERROR), []. split_and!; [done|cbn; lia|].
    by apply mstate_ext.
  - destruct Hpost as [st Hst _|s2 r ref Hrd|p u b d ref Hp Hd Hcl Hcr].
    + left. exists (error_response st), []. split_and!; [done|cbn; lia|].
      state_ctx_eq.
    + left. exists (error_response (me_read_blocks s2 r)), [ref]. split_and!; [done|cbn; lia|].
      state_ctx_eq.
    + right. exists ctx, p, u, b, d, ref, (mk_base_read (m_thread s) p d 0 (ub_data_offset_blocks u)).
      split_and!; try done.
      state_ctx_eq.
Qed.

Lemma create_all_or_nothing_witness :
  resources_ok demo_loaded ∧
  wp (rpc_bdev_ubi_create (E := demo_menv) (J := demo_decoder) 7 demo_params) demo_loaded (λ _ s',
    ∃ ctx p u b d ref rd, created (E := demo_menv) (opts_of (decoded (J := demo_decoder) demo_params).2) 1 p b d u ∧
      s' = started p u b d ctx (mk_context 7 (Some p) true (Some ref)) ref rd demo_loaded).
Proof.
  assert (Hres : resources_ok demo_loaded) by (split; set_solver).
  split; [exact Hres|].
  assert (Hresp : match rpc_bdev_ubi_create (E := demo_menv) (J := demo_decoder) 7 demo_params demo_loaded
    with Done _ s' => m_resp s' | _ => [] end = []) by by vm_compute.
  pose proof (create_all_or_nothing (E := demo_menv) (J := demo_decoder) 7 demo_params demo_loaded
    demo_menv_ok demo_decoder_ok Hres eq_refl) as Hwp.
  unfold wp in *. destruct (rpc_bdev_ubi_create _ _ _) as [[] s'| |]; [|done..].
  destruct Hwp as [(r & leaked & _ & _ & ->)|(ctx & p & u & b & d & ref & rd & _ & _ & _ & _ & _ & Hcr & _ & _ & _ & ->)].
  - done.
  - by exists ctx, p, u, b, d, ref, rd.
Defined.

(** C15. What a creation hands to the I/O path.  When the metadata [m] are accepted
    and the device has at most [UBI_MAX_STRIPES] stripes, which the code does
    not check, the bdev
    that is registered, with its channels just created, is an initial state of
    the I/O path: its layout is consistent, every stripe is fetched or not
    fetched, and nothing is queued or in flight. *)
Theorem created_bdev_initial {E : mod_env} (o : spdk_ubi_bdev_opts) (t p : Z) (b : spdk_bdev)
    (d : Z) (u u1 : ubi_bdev) (m : ubi_metadata) (chs : gmap Z ubi_io_channel) :
  created o t p b d u → ubi_load_metadata (with_metadata (λ _, m) u) = Some (0, u1) →
  bd_blockcnt (ub_bdev u1) ≤ UBI_MAX_STRIPES * ub_stripe_block_count u1 →
  (∀ ch c, chs !! ch = Some c → fresh_channel c) →
  initial (mk_world u1 chs ∅ [] [] [] [] 0).
Proof.
  intros [Hfresh _ _ _ _ (Hbl & Hcnt & Hsz) _ (Eb & Ec & _) Hgeo Hfit] Hload Hmax Hchs.
  assert (Hst : ∀ k, ub_stripe_status (with_metadata (λ _, m) u) k = STRIPE_NOT_FETCHED) by apply Hfresh.
  pose proof (load_metadata_parameters _ _ _ Hload) as Hpar. injection Hpar. intros.
  split; [|cbn; intros k; by eapply load_metadata_statuses|exact Hchs|done].
  assert (Hl : layout_of u1 = layout_of u) by (unfold layout_of; cbn in *; congruence).
  cbn [w_ub]. rewrite Hl. unfold layout_ok, layout_of. cbn.
  rewrite Eb, Ec. unfold ub_geometry in Hgeo.
  assert (ub_bdev u1 = ub_bdev u) as Hb by (cbn in *; congruence).
  assert (ub_stripe_block_count u1 = ub_stripe_block_count u) as Hs by (cbn in *; congruence).
  rewrite Hb, Hs, Ec in Hmax. split_and!; [exact Hgeo|lia|exact Hmax|].
  replace (ub_data_offset_blocks u + (bd_blockcnt b - ub_data_offset_blocks u)) with (bd_blockcnt b) by lia.
  exact Hsz.
Qed.

Definition demo_opts : spdk_ubi_bdev_opts :=
  mk_opts (Some "ubi0"%string) (Some "jammy.raw"%string) (Some "aio0"%string) 1024 false true true.
Definition demo_created : ubi_bdev :=
  setup_bdev (E := demo_menv) base_100M
    (with_layout 2048 11 16384 81920 (configured demo_opts 1 "ubi0" "jammy.raw" 1 base_100M 1)).

Lemma demo_created_ok : created (E := demo_menv) demo_opts 1 1 base_100M 1 demo_created.
Proof. by apply (created_setup (E := demo_menv)). Qed.

Lemma created_bdev_initial_witness : ∃ u1,
  ubi_load_metadata (with_metadata (λ _, metadata_zero) demo_created) = Some (0, u1) ∧
  initial (mk_world u1 {[ 1 := demo_channel ]} ∅ [] [] [] [] 0).
Proof.
  exists (ubi_init_metadata (with_metadata (λ _, metadata_zero) demo_created)).
  split; [reflexivity|].
  apply (created_bdev_initial (E := demo_menv) demo_opts 1 1 base_100M 1 demo_created _ metadata_zero).
  - exact demo_created_ok.
  - reflexivity.
  - by vm_compute.
  - apply (init_chs demo_world demo_initial).
Defined.

(** C18. A channel takes nothing when its creation fails, and gives everything
    back when it is destroyed.  For a channel whose context is new, creation
    ends with 0 and a channel in its initial state (no I/O, no active read,
    an empty fetch queue, 8 idle stripe fetches, an empty ring), or with an
    error and the state it started from; and from the created channel,
    whatever the I/O path did to it meanwhile, destruction leads back to the
    state before the creation. *)
Theorem channel_lifecycle {E : channel_env} (u : ubi_bdev) (ch : Z) (bufs : list Z) (s : cstate) :
  channel_env_ok E → channel_fresh ch s → length bufs = Z.to_nat UBI_MAX_ACTIVE_STRIPE_FETCHES →
  wp (open_channel u ch bufs) s (λ rc s1,
    (rc ≠ 0 → s1 = s) ∧
    (rc = 0 → ∃ c, cs_ctxs s1 !! ch = Some c ∧ fresh_channel (cx_channel c) ∧
       ∀ c', ch_image_file_fd c' = ch_image_file_fd (cx_channel c) →
         wp (close_channel ch) (on_cs_ctxs <[ch := on_cx_channel (λ _, c') c]> s1)
           (λ _ s2, s2 = s))).
Proof.
  intros HE Hfresh Hlen. eapply wp_mono; [by apply wp_open_channel|].
  intros rc s1 [rc' [->| ->]|ref fd Hfd Hpos]; [by split|by split|]. split; [done|]. intros _.
  exists (created_channel bufs ref fd). split; [apply lookup_insert_eq|]. split.
  - split; cbn; try done. split.
    + rewrite !length_fmap. exact Hlen.
    + intros slot sf Hsf. rewrite list_lookup_fmap in Hsf.
      destruct (_ !! slot) as [x|]; [|done]. by injection Hsf as <-.
  - intros c' Hc'. set (cx := on_cx_channel (λ _, c') (created_channel bufs ref fd)).
    assert (on_cs_ctxs <[ch := cx]> (channel_held ch (created_channel bufs ref fd) ref fd s) =
      channel_held ch cx ref fd s) as ->; [|by apply wp_close_channel].
    apply cstate_ext; unfold channel_held, with_channel; ccbn; by rewrite ?insert_insert_eq.
Qed.

Definition demo_cenv : channel_env := {|
  ce_poller_register s ch := true;
  ce_get_io_channel s d := Some 5;
  ce_open s path direct := foldr Z.max 0 (elements (cs_fds s)) + 1;
  ce_uring_queue_init s n ch := 0
|}.
#[export] Instance demo_cenv_ok : channel_env_ok demo_cenv.
Proof.
  intros s path direct _ Hin. cbn in Hin. apply elem_of_elements in Hin. revert Hin.
  generalize (elements (cs_fds s)). intros l Hl.
  assert (H : ∀ x, x ∈ l → x ≤ foldr Z.max 0 l).
  { clear Hl. induction l as [|y l IH]; intros x; [by intros ?%not_elem_of_nil|].
    cbn. intros [->|Hx%IH]%elem_of_cons; lia. }
  specialize (H _ Hl). lia.
Qed.
Definition demo_cstate : cstate := mk_cstate ∅ ∅ ∅ [] ∅ (mk_flags false false false false).

Lemma channel_lifecycle_witness : ∃ s1 c,
  open_channel (E := demo_cenv) demo_created 3 (replicate 8 0) demo_cstate = Done 0 s1 ∧
  cs_ctxs s1 !! 3 = Some c ∧ fresh_channel (cx_channel c) ∧
  wp (close_channel 3) (on_cs_ctxs <[3 := c]> s1) (λ _ s2, s2 = demo_cstate).
Proof.
  pose proof (channel_lifecycle (E := demo_cenv) demo_created 3 (replicate 8 0) demo_cstate
    demo_cenv_ok ltac:(by split) eq_refl) as Hwp.
  apply wp_done in Hwp as (rc & s1 & Hs1 & _ & Hok).
  assert (rc = 0) as ->.
  { assert (H : match open_channel (E := demo_cenv) demo_created 3 (replicate 8 0) demo_cstate with
      Done rc _ => rc | _ => 1 end = 0) by by vm_compute. by rewrite Hs1 in H. }
  destruct (Hok eq_refl) as (c & Hc & Hfr & Hclose). exists s1, c.
  split; [exact Hs1|]. split; [exact Hc|]. split; [exact Hfr|].
  specialize (Hclose (cx_channel c) eq_refl). destruct c as [po ba cc]. exact Hclose.
Defined.

(** C21. The saved configuration recreates the bdev.  [ubi_write_config_json]
    writes a call of [bdev_ubi_create] whose parameters the RPC method accepts
    and decodes to the options the bdev was created with, so that a creation
    from it copies the same parameters again. *)
Theorem config_roundtrip {J : json_decoder} (u : ubi_bdev) (name base_name : string) (b : spdk_bdev) :
  json_decoder_ok J → bd_name (ub_bdev u) = Some name → bi_bdev (ub_base_bdev_info u) = Some b →
  bd_name b = Some base_name → no_nul name = true → no_nul base_name = true →
  no_nul (ub_image_path u) = true → 0 ≤ ub_stripe_size_kb u < 2 ^ 32 →
  Z.of_nat (String.length (ub_image_path u)) < UBI_PATH_LEN →
  ∃ params, ubi_write_config_json u = Some ("bdev_ubi_create"%string, params) ∧
    (decoded params).1 = 0 ∧
    op_name (opts_of (decoded params).2) = Some name ∧
    op_base_bdev_name (opts_of (decoded params).2) = Some base_name ∧
    op_image_path (opts_of (decoded params).2) = Some (ub_image_path u) ∧
    with_options (opts_of (decoded params).2) (ub_image_path u) u = u.
Proof.
  intros HJ Hn Hb Hbn N1 N2 N3 Hkb Hlen. unfold ubi_write_config_json. rewrite Hn, Hb. cbn. rewrite Hbn. cbn.
  eexists. split; [done|]. set (params := _ :: _).
  assert (Hrc : (decoded params).1 = 0).
  { apply jd_accepts; [left|]. split_and!.
    - subst params. apply (bool_decide_unpack _). by vm_compute.
    - subst params. repeat (apply Forall_cons; split); [..|apply Forall_nil; done].
      all: repeat first [apply Exists_cons_hd; split; [reflexivity|cbn; first [assumption|reflexivity|lia]]
                        |apply Exists_cons_tl].
    - subst params. apply (bool_decide_unpack _). by vm_compute. }
  pose proof (λ d v, decoded_field params d v Hrc) as Hf.
  assert (H1 := Hf (mk_decoder "name" F_name spdk_json_decode_string false) _ ltac:(left) eq_refl).
  assert (H2 := Hf (mk_decoder "image_path" F_image_path spdk_json_decode_string false) _
    ltac:(right; left) eq_refl).
  assert (H3 := Hf (mk_decoder "base_bdev" F_base_bdev_name spdk_json_decode_string false) _
    ltac:(do 2 right; left) eq_refl).
  assert (H4 := Hf (mk_decoder "stripe_size_kb" F_stripe_size_kb spdk_json_decode_uint32 false) _
    ltac:(do 3 right; left) eq_refl).
  assert (H5 := Hf (mk_decoder "no_sync" F_no_sync spdk_json_decode_bool true) _
    ltac:(do 4 right; left) eq_refl).
  assert (H6 := Hf (mk_decoder "copy_on_read" F_copy_on_read spdk_json_decode_bool true) _
    ltac:(do 5 right; left) eq_refl).
  assert (H7 := Hf (mk_decoder "directio" F_directio spdk_json_decode_bool true) _
    ltac:(do 6 right; left) eq_refl).
  clear Hf. clearbody params. destruct (decoded params).2 as [n i bb k ns cr di]. cbn in *.
  destruct n as [[? ?]|], i as [[? ?]|], bb as [[? ?]|]; try done. cbn in *.
  injection H1 as ->. injection H2 as ->. injection H3 as ->. injection H4 as ->.
  injection H5 as ->. injection H6 as ->. injection H7 as ->.
  split_and!; try done. unfold with_options, opts_of. cbn. rewrite copy_path_short by done. by destruct u.
Qed.

Lemma config_roundtrip_witness : ∃ params,
  ubi_write_config_json demo_created = Some ("bdev_ubi_create"%string, params) ∧
  (decoded (J := demo_decoder) params).1 = 0 ∧
  op_name (opts_of (decoded (J := demo_decoder) params).2) = Some "ubi0"%string.
Proof.
  destruct (config_roundtrip (J := demo_decoder) demo_created "ubi0" "aio0" base_100M)
    as (params & Hw & Hrc & Hn & _).
  - exact demo_decoder_ok.
  - reflexivity.
  - reflexivity.
  - reflexivity.
  - reflexivity.
  - reflexivity.
  - reflexivity.
  - cbn. lia.
  - by vm_compute.
  - exists params. split; [exact Hw|]. split; [exact Hrc|exact Hn].
Defined.

(** C22. Losing the base bdev.  In a reachable state, the removal of a base bdev
    starts the unregistration of the bdev of [g_ubi_bdev_head] over it, unless
    it has already been started, and does nothing else; other bdevs, and a
    base bdev no open bdev is over, are not affected. *)
Theorem base_removal (s0 s : mstate) (tr : list mevent) (E : mod_env) (J : json_decoder) (base : Z) :
  module_loaded s0 → mrun any_mstep s0 tr s →
  wp (run_mevent (E := E) (J := J) (MBaseEvent SPDK_BDEV_EVENT_REMOVE base)) s (λ _ s',
    (∀ p, p ∈ m_head s → over_base s p base → p ∈ (m_unregs s').*1) ∧
    (∀ p, p ∈ (m_unregs s').*1 → p ∈ (m_unregs s).*1 ∨ p ∈ m_head s ∧ over_base s p base) ∧
    s' = on_unregs (λ _, m_unregs s') (on_thread (λ _, m_app_thread s) s)).
Proof.
  intros Hl Hrun. destruct (mrun_reachable _ _ _ _ Hl Hrun) as (a & _ & Hh).
  pose proof (h_account _ _ Hh) as Hacc. pose proof (h_head _ _ Hh) as Hhd. pose proof (h_regs _ _ Hh) as Hrg.
  assert (Hlive : ∀ p, p ∈ m_head s → ∃ o u, o ∈ live a ∧ o_p o = p ∧ m_bdevs s !! p = Some u ∧ owns o u).
  { intros p Hp. rewrite Hhd in Hp. apply list_elem_of_fmap in Hp as (o & -> & Ho).
    assert (Hol : o ∈ live a) by (apply elem_of_app; by right).
    destruct (h_live _ _ _ _ Hacc o Hol) as (u & Hu & Hown). by exists o, u. }
  cbn [run_mevent]. unfold on_app, on_this_thread. do 2 m_step.
  cbn [ubi_handle_base_bdev_event]. unfold ubi_handle_base_bdev_remove_event, ubi_bdev_find_by_base_bdev.
  m_step. mcbn. apply wp_find_by_base.
  { intros p Hp. destruct (Hlive p Hp) as (o & u & _ & _ & Hu & _). by exists u. }
  intros r Hsome Hnone. mcbn. destruct r as [p|].
  2: { apply wp_ret. split_and!; [|by left|by apply mstate_ext].
       intros p Hp (u & Hu & Hb). by destruct (Hnone eq_refl p u Hp Hu). }
  destruct (Hsome p eq_refl) as [Hp (u & Hu & Hb)].
  assert (Honly : ∀ q, q ∈ m_head s → over_base s q base → q = p).
  { intros q Hq (uq & Huq & Hbq).
    destruct (Hlive p Hp) as (o & u' & Ho & <- & Hu' & Hbo & _), (Hlive q Hq) as (o' & u'' & Ho' & <- & Hu'' & Hbo' & _).
    assert (u' = u) as -> by congruence. assert (u'' = uq) as -> by congruence.
    rewrite Hbo in Hb. rewrite Hbo' in Hbq. injection Hb as Hb. injection Hbq as Hbq. f_equal.
    apply (NoDup_fmap_key base_addr _ _ _ (h_nodup_base _ _ _ _ Hacc) Ho' Ho). unfold base_addr. congruence. }
  unfold spdk_bdev_unregister. do 2 m_step.
  { rewrite Hrg. apply elem_of_list_to_set. by rewrite <-Hhd. }
  mcbn. destruct (decide _) as [Hin|Hin]; [apply wp_ret|apply wp_modify]; split_and!;
    mcbn; try (by apply mstate_ext); try (by left).
  - intros q Hq Hbq. by rewrite (Honly q Hq Hbq).
  - intros q Hq Hbq. rewrite (Honly q Hq Hbq). left.
  - intros q [->|Hq]%elem_of_cons; [right|by left]. split; [done|by exists u].
Qed.

Lemma base_removal_witness : ∃ s s',
  demo_run demo_creation = Some s ∧
  run_mevent (E := demo_menv) (J := demo_decoder) (MBaseEvent SPDK_BDEV_EVENT_REMOVE 2) s = Done tt s' ∧
  1 ∈ (m_unregs s').*1.
Proof.
  assert (Hk : (λ s, (m_head s, (λ u, bd_addr <$> bi_bdev (ub_base_bdev_info u)) <$> m_bdevs s !! 1)) <$>
    demo_run demo_creation = Some ([1], Some (Some 2))) by by vm_compute.
  destruct (demo_run demo_creation) as [s|] eqn:Hs; [|done]. cbn in Hk. injection Hk as Hh Hb.
  pose proof (base_removal demo_loaded s demo_creation demo_menv demo_decoder 2 demo_loaded_ok
    (demo_mrun any_mstep demo_creation s (λ _ _, I) Hs)) as Hwp.
  apply wp_done in Hwp as ([] & s' & Hs' & Hin & _). exists s, s'.
  split; [reflexivity|]. split; [exact Hs'|]. apply Hin; [rewrite Hh; left|].
  destruct (m_bdevs s !! 1) as [u|] eqn:Hu; [|done]. cbn in Hb. injection Hb as Hb. by exists u.
Defined.

(** A request to delete that does not decode keeps its name: when the decoder
    fails after it has decoded the name, the method answers an error and the
    name it allocated is never freed. *)
Theorem delete_decode_leak {E : mod_env} {J : json_decoder} (request : Z)
    (params : list (string * json)) (s : mstate) :
  (delete_decoded params).1 ≠ 0 →
  wp (rpc_bdev_ubi_delete request params) s (λ _ s',
    m_resp s' = (request, RespError SPDK_JSONRPC_ERROR_INTERNAL_ERROR) :: m_resp s ∧
    m_strs s' = owned_name (delete_decoded params).2 ++ m_strs s).
Proof.
  intros Hrc. unfold rpc_bdev_ubi_delete, decode_object. fold (delete_decoded params).
  do 2 m_step. destruct (delete_decoded params) as [rc req]. cbn [fst snd] in *.
  unfold c_true. rewrite (proj2 (Z.eqb_neq rc 0)) by done. by apply wp_modify.
Qed.

(** A decoder that stops at a key it does not know. *)
Definition strict_decoder : json_decoder := λ table o r,
  match o with
  | [(k, JString v)] => if decide (k = "name"%string) then (0, set_field F_name (JString v) r) else (-1, r)
  | (k, JString v) :: _ => if decide (k = "name"%string) then (-1, set_field F_name (JString v) r) else (-1, r)
  | _ => (-1, r)
  end.

Lemma delete_decode_leak_witness : ∃ s',
  rpc_bdev_ubi_delete (E := demo_menv) (J := strict_decoder) 4
    [("name"%string, JString "ubi0"); ("force"%string, JBool true)] demo_loaded = Done tt s' ∧
  m_strs s' = [9].
Proof.
  pose proof (delete_decode_leak (E := demo_menv) (J := strict_decoder) 4
    [("name"%string, JString "ubi0"); ("force"%string, JBool true)] demo_loaded ltac:(done)) as Hwp.
  apply wp_done in Hwp as ([] & s' & Hs' & _ & Hstr). exists s'. split; [exact Hs'|]. exact Hstr.
Defined.
