(* ===== verification/Registration.v ===== *)
(** What the module registers with SPDK, from [src/lib/bdev_ubi.c] and
    [src/lib/bdev_ubi_rpc.c]: the module table [ubi_if], the function table
    [ubi_fn_table] that a bdev is registered with, and the RPC methods; and
    that the events of the development are calls through these tables. *)
From stdpp Require Import base tactics list gmap option numbers functions strings sets.
From Stdlib Require Import ZArith Lia.
From S2P Require Import Prelude Types World Layout Stripe Metadata IoChannel Submit System Lifecycle Rpc Ownership Channel.

Local Open Scope Z_scope.

(** * The module *)

(** [struct spdk_bdev_module]. *)
Record spdk_bdev_module : Type := mk_module {
  mod_name : string;
  module_init : Z;
  module_fini : mstate → mstate;
  mod_async_fini : bool;
  mod_async_init : bool;
  get_ctx_size : Z
}.

Definition ubi_initialize : Z := 0.
Definition ubi_finish (s : mstate) : mstate := s.

(** [sizeof(struct ubi_bdev_io)] on a machine with 8-byte pointers: a 4-byte
    enumeration padded to 8 bytes, two pointers, three 64-bit integers. *)
Definition ubi_get_ctx_size : Z := 8 + 2 * 8 + 3 * 8.

Definition ubi_if : spdk_bdev_module :=
  mk_module "ubi" ubi_initialize ubi_finish false false ubi_get_ctx_size.

(** * The function table *)

(** [struct spdk_bdev_fn_table].  The context of a bdev is its address. *)
Record spdk_bdev_fn_table : Type := mk_fn_table {
  fn_destruct : Z → M mstate Z;
  fn_submit_request : Z → Z → M world unit;
  fn_io_type_supported : spdk_bdev_io_type → bool;
  fn_get_io_channel : ubi_bdev → Z → list Z → M cstate (option Z);
  fn_write_config_json : ubi_bdev → option (string * json_object)
}.

Section Table.
Context {E : mod_env} {X : ext_env} {C : channel_env}.

(** [spdk_get_io_channel] on the first use of the bdev by a thread: SPDK
    allocates a channel [ch] and runs the creation callback of the device; it
    returns NULL when that fails.  Later uses return the same channel. *)
Definition spdk_get_io_channel (u : ubi_bdev) (ch : Z) (bufs : list Z) : M cstate (option Z) :=
  s ← gets id;
  match cs_ctxs s !! ch with
  | Some _ => mret (Some ch)
  | None => rc ← open_channel u ch bufs; mret (if c_true rc then None else Some ch)
  end.

Definition ubi_get_io_channel (u : ubi_bdev) (ch : Z) (bufs : list Z) : M cstate (option Z) :=
  spdk_get_io_channel u ch bufs.

Definition ubi_fn_table : spdk_bdev_fn_table :=
  mk_fn_table ubi_destruct ubi_submit_request ubi_io_type_supported ubi_get_io_channel
    ubi_write_config_json.
End Table.

(** * The RPC methods *)

Section Methods.
Context {E : mod_env} {J : json_decoder}.

Definition rpc_methods : list (string * (Z → json_object → M mstate unit)) :=
  [("bdev_ubi_create"%string, rpc_bdev_ubi_create); ("bdev_ubi_delete"%string, rpc_bdev_ubi_delete)].

(** The method of a name. *)
Definition rpc_method (name : string) : option (Z → json_object → M mstate unit) :=
  snd <$> find (λ m, String.eqb m.1 name) rpc_methods.
End Methods.

(** * The events are calls through the tables *)

Section Events.
Context {E : mod_env} {J : json_decoder} {X : ext_env} {C : channel_env}.

Lemma submit_through_table ch io i :
  run_event (EvSubmit ch io i) = (put_io io i;; fn_submit_request ubi_fn_table ch io).
Proof. done. Qed.

Lemma destruct_through_table p cb t :
  run_mevent (MDestruct p cb t) =
  (on_this_thread t;;
   modify (on_regs (λ l, l ∖ {[ p ]}));;
   modify (on_unregs (filter (λ q, q.1 ≠ p)));;
   rc ← fn_destruct ubi_fn_table p;
   match cb with Some arg => delete_fn arg rc | None => mret tt end).
Proof. done. Qed.

Lemma create_through_table request params :
  ∃ f, rpc_method "bdev_ubi_create" = Some f ∧ run_mevent (MCreate request params) = (on_app;; f request params).
Proof. by eexists. Qed.

Lemma delete_through_table request params :
  ∃ f, rpc_method "bdev_ubi_delete" = Some f ∧ run_mevent (MDelete request params) = (on_app;; f request params).
Proof. by eexists. Qed.

(** The configuration that is written names a registered method. *)
Lemma config_method u m params :
  fn_write_config_json ubi_fn_table u = Some (m, params) → is_Some (rpc_method m).
Proof.
  simpl. unfold ubi_write_config_json. intros (? & _ & (? & _ & (? & _ & [= <- _])%bind_Some)%bind_Some)%bind_Some.
  by eexists.
Qed.

(** The first use of a bdev on a thread takes nothing when it fails, and gives a
    channel in its initial state otherwise; a later one gives the same channel. *)
Lemma first_get_io_channel `{!channel_env_ok C} u ch bufs s : channel_fresh ch s →
  wp (fn_get_io_channel ubi_fn_table u ch bufs) s (λ r s', ∃ rc, open_post ch bufs s rc s' ∧
    r = if c_true rc then None else Some ch).
Proof.
  intros Hf. simpl. unfold ubi_get_io_channel, spdk_get_io_channel. apply wp_bind, wp_gets. simpl.
  rewrite (cf_ctx _ _ Hf). apply wp_bind. eapply wp_mono; [by apply wp_open_channel|].
  intros rc s' Hpost. apply wp_ret. by exists rc.
Qed.

Lemma later_get_io_channel u ch bufs s : is_Some (cs_ctxs s !! ch) →
  fn_get_io_channel ubi_fn_table u ch bufs s = Done (Some ch) s.
Proof. intros [c Hc]. simpl. unfold ubi_get_io_channel, spdk_get_io_channel, mbind, M_bind, gets. simpl. by rewrite Hc. Qed.
End Events.
