(* ===== verification/Vhost.v ===== *)
(** The vhost application, [src/app/vhost_ubi.c]: its options, its start and
    its end.  The state is the sequence of its calls to SPDK and to the C
    library, the latest last; the parser of the command line and the event
    loop of SPDK are parameters. *)
From stdpp Require Import base tactics list gmap option numbers strings.
From Stdlib Require Import ZArith Lia.
From S2P Require Import Prelude Types World.

Local Open Scope Z_scope.

(** * Data *)

Inductive app_call : Type :=
| SetSocketPath (path : string)
| PrintUsage (line : string)
| AppStarted (name : string)
| AppFini
| Exit (code : Z).

(** [enum spdk_app_parse_args_rvals]. *)
Inductive parse_args_rval : Type :=
| SPDK_APP_PARSE_ARGS_HELP
| SPDK_APP_PARSE_ARGS_SUCCESS
| SPDK_APP_PARSE_ARGS_FAIL.
#[export] Instance parse_args_rval_eq_dec : EqDecision parse_args_rval.
Proof. solve_decision. Defined.

Definition appM : Type → Type := M (list app_call).
Definition call_app (c : app_call) : appM unit := modify (λ l, l ++ [c]).

(** [spdk_app_parse_args] on the command line, the letters of the options of
    the application, its parser and its usage message; the numbers of its
    results; and the result of [spdk_app_start], which returns when the
    application ends. *)
Class app_env : Type := {
  spdk_app_parse_args : list string → string → (string → string → appM Z) → appM unit → appM parse_args_rval;
  rval_code : parse_args_rval → Z;
  app_result : list app_call → Z
}.

(** * Functions of the source *)

Section App.
Context {E : app_env}.

(** The line is printed with a newline. *)
Definition vhost_usage : appM unit :=
  call_app (PrintUsage " -S <path>     directory where to create vhost sockets (default: pwd)").

(** [ch], an option letter, is a string of one character. *)
Definition vhost_parse_arg (ch arg : string) : appM Z :=
  if String.eqb ch "S" then call_app (SetSocketPath arg);; mret 0 else mret (- EINVAL).

Definition vhost_started : appM unit := mret tt.

Definition spdk_app_start (name : string) (started : appM unit) : appM Z :=
  call_app (AppStarted name);; started;; l ← gets id; mret (app_result l).

(** The value is the exit code; [exit] does not return to [main].  The options
    structure that SPDK fills in is left out, but for the name. *)
Definition main (argv : list string) : appM Z :=
  rc ← spdk_app_parse_args argv "f:S:" vhost_parse_arg vhost_usage;
  if negb (bool_decide (rc = SPDK_APP_PARSE_ARGS_SUCCESS)) then
    call_app (Exit (rval_code rc));; mret (rval_code rc)
  else
    rc ← spdk_app_start "vhost_ubi" vhost_started;
    call_app AppFini;; mret rc.
End App.

(** * The parser's documented behaviour *)

(** The options of the application on a command line, in order, are handed to
    its parser; the first one that is refused makes the parsing fail.  The
    other options decide the result when none is refused. *)
Fixpoint parse_options (parse : string → string → appM Z) (usage : appM unit)
    (options : list (string * string)) (rest : parse_args_rval) : appM parse_args_rval :=
  match options with
  | [] => mret rest
  | (ch, arg) :: options =>
      rc ← parse ch arg;
      if c_true rc then usage;; mret SPDK_APP_PARSE_ARGS_FAIL
      else parse_options parse usage options rest
  end.

Class app_env_ok (E : app_env) : Type := {
  app_options : list string → string → list (string * string);
  app_rest : list string → parse_args_rval;
  parse_args_spec argv letters parse usage :
    spdk_app_parse_args argv letters parse usage = parse_options parse usage (app_options argv letters) (app_rest argv)
}.

(** * Properties *)

Definition is_start (c : app_call) : bool := match c with AppStarted _ => true | _ => false end.

Section Props.
Context {E : app_env} (HE : app_env_ok E).

(** Every option is [-S]: the socket path is set for each of them. *)
Lemma parse_socket_options options rest l : Forall (λ o, o.1 = "S"%string) options →
  parse_options vhost_parse_arg vhost_usage options rest l = Done rest (l ++ ((λ o, SetSocketPath o.2) <$> options)).
Proof.
  intros Hall. revert l. induction Hall as [|[ch arg] options Hch Hall IH]; intros l; [by rewrite app_nil_r|].
  simpl in Hch. subst ch. cbn. unfold mbind, M_bind, call_app, modify, mret, M_ret. cbn.
  rewrite IH. by rewrite <-(assoc_L (++)).
Qed.

(** One option is not: the parsing fails. *)
Lemma parse_other_option options rest l : ¬ Forall (λ o, o.1 = "S"%string) options →
  ∃ l', parse_options vhost_parse_arg vhost_usage options rest l = Done SPDK_APP_PARSE_ARGS_FAIL (l ++ l') ∧
    Forall (λ c, is_start c = false) l'.
Proof.
  revert l. induction options as [|[ch arg] options IH]; intros l Hall; [by destruct Hall|].
  destruct (decide (ch = "S"%string)) as [->|Hne].
  - destruct (IH (l ++ [SetSocketPath arg])) as (l' & Heq & Hl').
    { intros H. by apply Hall; constructor. }
    exists (SetSocketPath arg :: l'). split; [|by constructor].
    cbn. unfold mbind, M_bind, call_app, modify, mret, M_ret. cbn. rewrite Heq. by rewrite <-(assoc_L (++)).
  - cbn. unfold vhost_parse_arg. apply String.eqb_neq in Hne. rewrite Hne. cbn.
    eexists. split; [reflexivity|by repeat constructor].
Qed.

(** A command line without an unknown option starts the application, with the
    last socket path, and shuts it down when the application ends. *)
Lemma main_runs argv l : Forall (λ o, o.1 = "S"%string) (app_options argv "f:S:") →
  app_rest argv = SPDK_APP_PARSE_ARGS_SUCCESS →
  ∃ l', main argv l = Done (app_result (l ++ l' ++ [AppStarted "vhost_ubi"])) (l ++ l' ++ [AppStarted "vhost_ubi"; AppFini]) ∧
    l' = (λ o, SetSocketPath o.2) <$> app_options argv "f:S:".
Proof.
  intros Hall Hrest. eexists. split; [|done]. unfold main. rewrite parse_args_spec. unfold mbind at 1, M_bind.
  rewrite parse_socket_options, Hrest, bool_decide_eq_true_2 by done. unfold spdk_app_start. cbn.
  unfold mbind, M_bind, call_app, modify, gets, mret, M_ret. cbn. by rewrite <-!(assoc_L (++)).
Qed.

(** The option [-f], which the letters announce and [vhost_parse_arg] refuses,
    keeps the application from starting. *)
Lemma main_refuses argv l arg : ("f"%string, arg) ∈ app_options argv "f:S:" →
  ∃ l', main argv l = Done (rval_code SPDK_APP_PARSE_ARGS_FAIL) (l ++ l') ∧ Forall (λ c, is_start c = false) l'.
Proof.
  intros Hin. unfold main. rewrite parse_args_spec. unfold mbind at 1, M_bind.
  destruct (parse_other_option (app_options argv "f:S:") (app_rest argv) l) as (l' & -> & Hl').
  { intros Hall. rewrite Forall_forall in Hall. by specialize (Hall _ Hin). }
  rewrite bool_decide_eq_false_2 by done. cbn. exists (l' ++ [Exit (rval_code SPDK_APP_PARSE_ARGS_FAIL)]). rewrite (assoc_L (++)).
  split; [reflexivity|]. apply Forall_app. split; [done|by constructor].
Qed.
End Props.

(** A parser of a command line that has been split into options. *)
Definition split_env : app_env :=
  {| spdk_app_parse_args argv letters parse usage :=
       parse_options parse usage
         (match argv with ch :: arg :: _ => [(ch, arg)] | _ => [] end) SPDK_APP_PARSE_ARGS_SUCCESS;
     rval_code r := match r with SPDK_APP_PARSE_ARGS_HELP => 0 | SPDK_APP_PARSE_ARGS_SUCCESS => 1 | SPDK_APP_PARSE_ARGS_FAIL => 2 end;
     app_result _ := 0 |}.

Example main_socket : main (E := split_env) ["S"; "/var/tmp"]%string [] =
  Done 0 [SetSocketPath "/var/tmp"; AppStarted "vhost_ubi"; AppFini].
Proof. reflexivity. Qed.
Example main_f : main (E := split_env) ["f"; "pid"]%string [] =
  Done 2 [PrintUsage " -S <path>     directory where to create vhost sockets (default: pwd)"; Exit 2].
Proof. reflexivity. Qed.
